(* ===== verification/_CoqProject ===== *)
-Q . S2P
Prelude.v
RustTime.v
RustStr.v
HashMap.v
Crates.v
CratesModel.v
Zone.v
Fixtures.v
ZoneFacts.v
ZoneTransfer.v
ZoneStoreFacts.v
Protocol.v
ProtocolFacts.v
ProtocolProps.v
RateLimit.v
RateLimitProps.v
Metrics.v
MetricsProps.v
Dnssec.v
DnssecProps.v
ZoneFile.v
ZoneFileFacts.v
ZonePrint.v
ZoneFileProps.v
Config.v
ConfigSerde.v
YamlModel.v
ConfigProps.v
Effects.v
ServerIO.v
Server.v
ServerFacts.v
ServerLemmas.v
ServerProps.v
Api.v
ApiProps.v
Main.v
MainProps.v
Typed.v
Tasks.v
TasksFacts.v
TasksProps.v
TasksLive.v
Monitor.v
StoreLock.v
StoreLockFacts.v
StoreLockProps.v
Lifecycle.v
LifecycleProps.v
Report.v
Conversation.v
Testing.v
Proptests.v
ProptestsProps.v
ZoneTests.v
ProtocolTests.v
MetricsTests.v
RateLimitTests.v
DnssecTests.v
ServerTests.v
ConfigTests.v
