(* ===== verification/Prelude.v ===== *)
(** * A verification of lrmdns, an authoritative DNS server

    The program (Rust, under [src/src/]) reads a configuration ([config.rs]) and zone files
    ([zone.rs]), answers DNS queries from the zones ([protocol.rs]) over UDP and TCP ([server.rs]),
    limits the rate of each client ([ratelimit.rs]), counts what it does ([metrics.rs]), shows the
    counters over HTTP ([api.rs]), reloads its zones on a signal ([main.rs]) and has helpers for
    DNSSEC ([dnssec.rs]).

    ** Files

    Foundations:
    - [Prelude] (this file): fallible code as [outcome] (a result, an error with its context, or a
      panic), loops, machine integers, comparison functions, tactics and hints;
    - [RustTime], [RustStr]: the parts of Rust's standard library in use: instants and durations in
      nanoseconds; strings as lists of code points with [trim], [lines], [split_whitespace], number
      and address parsing;
    - [HashMap]: hash maps whose keys are compared by an equivalence (names ignore case), as
      association lists: the order of iteration is the list's, and theorems that must not depend on
      it are stated for every permutation;
    - [Crates]: the third-party crates as type classes: abstract types of names, records and messages,
      the operations the source calls ([Hickory], [Codecs]), and in separate classes the documented
      behaviour the theorems rely on ([NameLaws], [RecordLaws], [MessageLaws]; [TextLaws] and
      [QueryLaws] for the property tests).  Nothing says how a crate works.  [CratesModel] is one
      concrete instance that meets the laws; the witnesses of the theorems run on it, over the zones
      of [Fixtures].

    Components, each in a file of definitions and a file (or more) of theorems:
    - [Zone] ([zone.rs] 1-170): [Zone] and [ZoneStore], [add_record], [zone_lookup] (the method
      [lookup]), [lookup_wildcard], [get_all_records], [find_zone].  [ZoneFacts]: a zone answers as
      the list of its records.  [ZoneTransfer]: the transfer lists the records once each, in an
      order that does not depend on the hash maps.  [ZoneStoreFacts]: the longest matching origin
      wins, whatever the order of the table; wildcards.
    - [Protocol] ([protocol.rs]): [process_query].  [ProtocolFacts], [ProtocolProps]: for a zone built
      from a list of records every section of the response is the one [resolution_spec] computes on
      the list; refusals, negative answers, CNAME, EDNS.
    - [ZoneFile] ([zone.rs] 172-779): [parse_zone_file], [preprocess_zone_content],
      [parse_resource_record] and a parser per record type.  [ZoneFileFacts], [ZonePrint] (a printer),
      [ZoneFileProps]: no panic, a reader of records followed by a builder of zones, the meaning and
      ranges of a line, joining of lines, a round trip of whole files with every record type.
    - [RateLimit] ([ratelimit.rs]), [RateLimitProps]: the limiter decides as if it kept the whole
      history, so no window of a second has more queries than the limit; its storage is bounded.
    - [Metrics] ([metrics.rs]), [MetricsProps]: a method is the list of its atomic steps; every
      interleaving of concurrent calls gives the same counters; what each counter counts; averages;
      the log.
    - [Dnssec] ([dnssec.rs]), [DnssecProps]: key tags are those of RFC 4034, a DS record is accepted
      exactly when it commits to the key, the NSEC chain of a zone denies exactly what the zone does
      not have.
    - [Config] ([config.rs]): the structures and [validate].  [ConfigSerde]: the derived [Deserialize]
      and [Serialize], over a format given as a class; [ConfigProps]: what the settings of a file mean,
      defaults, unknown, repeated and missing settings, and a round trip.  [YamlModel]: a part of YAML
      as an instance of the format, for witnesses and tests.
    - [Effects]: what a handler of [server.rs] asks of the clock, the limiter, the metrics, the store
      and its socket, as an interface (a class of monads).  [Server] ([server.rs]): the handlers,
      written once against it.  [ServerIO]: the interface for a handler that runs alone, as functions
      on a [World] (clock, limiter, recorded metrics, output, what the client does next) with an
      [Env] for the rest of the process: the zone store of each moment, what other tasks do to the
      limiter, and what becomes of its writes: each goes through, fails, or stays pending because the
      client does not read ([Fate]).  [ServerFacts], [ServerLemmas], [ServerProps]: no handler
      panics or loops; where it may wait for ever is said exactly; one datagram per UDP query, that
      fits or has lost its sections one after the other; framed answers in order on TCP, as the
      limiter allows and within the query limit; a zone transfer streams the zone.
    - [Api] ([api.rs]): the JSON of the endpoints, [ApiProps]: every number of [/metrics] lies between
      its counter's values at the two ends of the request, whatever is recorded meanwhile.
    - [Main] ([main.rs]), [MainProps]: start-up, and the signal handler as a step relation; a server
      that starts serves every configured zone, a reload replaces the whole store or nothing.
    - [Tasks] ([server.rs] 63-156 with [main.rs] 60-206): the whole process.  The interface of
      [Effects] once more, for handlers cut into atomic commands ([prog]); a [System] of one store,
      one limiter, one set of counters and all the tasks; [step], what may happen next: a datagram or
      a connection starts a task, a task does its next command, a signal, the end.  [TasksFacts],
      [TasksProps]: however they interleave, a task does what its handler does alone in some
      environment, which carries the theorems of [ServerProps] over to the process; the invariant of
      every reachable state.  [TasksLive]: how a task ends, by what became of its writes and what its
      client has sent; the rate limit of the process.
    - [Monitor]: a program logic for handlers among the tasks: a monitor accepts or refuses their
      commands, and what it knows of a task holds at every moment of the process.  [Conversation]: a
      TCP client has at any moment been sent, in order, what is due for what it has asked.
    - [StoreLock] ([main.rs] 60 and 174, [protocol.rs] 83, [server.rs] 499): the read-write lock of the
      zone store with its queue, and the guard that a zone transfer keeps while it writes; the lock of
      tokio is a class with its documented laws.  [StoreLockFacts], [StoreLockProps]: the process with
      the lock is the process of [Tasks]; a transfer sees one store; if all tasks are polled every
      request is granted, every task comes to its end and the process ends after a shutdown signal,
      but for one case: the server hangs if the client of a transfer stops reading while a reload
      waits.
    - [Lifecycle] ([main.rs] 60-124, [server.rs] 43-61, [api.rs] 32): the whole program around the
      process: binding of the sockets, the task of the HTTP server and its requests, and which future
      ends [run].  [LifecycleProps]: the program is the process until it returns.  [Report]: the
      counters are at every moment the sums of what all tasks have added, and each number of a report
      lies between its counter's values when the request arrived and now.
    - [Typed]: records have data of their type and numbers of their width from the zone file to the
      response and the zone transfer.

    Tests of the repository:
    - [Testing]: assertions and literals.  [Proptests] ([proptest_helpers.rs] and the modules
      [proptests] of [zone.rs] and [protocol.rs]): a generator is the set of its values, a property
      test a function of them; [ProptestsProps] proves the tests for every value, and that one of them
      is wrong.
    - [ZoneTests], [ProtocolTests], [MetricsTests], [RateLimitTests], [DnssecTests], [ServerTests],
      [ConfigTests]: the unit tests as computations on the model, evaluated on [CratesModel].  They compare the
      definitions with what the authors of the program expect of it.

    ** How state and effects are modelled

    A method that changes its object returns the new object.  Locks make a call one step (zone store,
    rate limiter); the atomics of the metrics are separate steps that interleave.  [Result] is
    [outcome]; an index out of range is [Panic], so that its absence is a theorem.  Integers are [Z]
    with [wrap] where the source wraps ([u64] counters, [as] casts, the [u32] sum of the key tag).
    The n-th reading of the clock is the n-th value of a function, monotone where a theorem needs it.
    A handler is a program over the operations of [Effects]; its runs alone are functions, its runs
    among others are steps of a relation, and [tasks_refine_handlers] relates the two.

    ** Fuel

    Only loops that are not over a list have fuel.  The truncation loops of the UDP handler have one
    round, which [MessageLaws] makes enough: a section that was taken is empty
    ([udp_handler_returns]).  The loop of a TCP connection needs as many rounds as the query limit
    ([tcp_connection_ends]); the theorems about what it records and writes hold for any fuel.  A
    task of [Tasks] has one round more than the limit ([connection_fuel]), and [lock_serves_all] shows
    that none runs out: a task that ends has returned or waits for its client.

    ** Not modelled

    The sockets and the scheduler of the runtime: it may run the tasks in any order, a write may go
    through, fail or stay pending, and the one assumption, of [lock_serves_all] alone, is that every
    task that can go on is polled again; nothing is assumed of the writes.  YAML other than the part in [YamlModel]; JSON
    text and HTTP; the wire format of messages; hash functions; logging other than the metrics
    summary, its set-up included; the signals that arrive before their handlers are registered; the
    shell scripts under [it/].  In [Tasks] a read of the zone store is one step and a reload may come
    at any time; [StoreLock] adds who waits for whom, and what must happen in the end is stated there.

    ** Plan

    Every component of the source is modelled.  What would add to it: the lock together with the
    sockets and the HTTP server of [Lifecycle], and the messages' wire format as laws of the codec
    strong enough to bound the size of an answer by its records. *)
From stdpp Require Export prelude gmap list strings.
From Stdlib Require Export ZArith Lia.

Open Scope Z_scope.

(** * Fallible code

    [anyhow::Result] with its context chain, and a third outcome for a panic
    (index out of range, [unwrap] on an error).  [EForeign] is the error value of
    a callee whose text the code never inspects. *)

Inductive error :=
  | EMsg (msg : string)
  | EForeign
  | EContext (msg : string) (args : list Z) (cause : error).

Inductive outcome (A : Type) :=
  | Ok (a : A)
  | Err (e : error)
  | Panic.
Arguments Ok {_} _.
Arguments Err {_} _.
Arguments Panic {_}.

#[export] Instance error_eq_dec : EqDecision error.
Proof.
  intros x. induction x as [m| |m args x IH]; intros [m'| |m' args' y];
    try (right; congruence); try (left; reflexivity).
  - destruct (decide (m = m')); [left; congruence|right; congruence].
  - destruct (IH y); [|right; congruence].
    destruct (decide (m = m')); [|right; congruence].
    destruct (decide (args = args')); [left; congruence|right; congruence].
Defined.
#[export] Instance outcome_eq_dec `{EqDecision A} : EqDecision (outcome A).
Proof. solve_decision. Defined.

#[export] Instance outcome_ret : MRet outcome := fun _ a => Ok a.
#[export] Instance outcome_bind : MBind outcome := fun _ _ f m =>
  match m with Ok a => f a | Err e => Err e | Panic => Panic end.
#[export] Instance outcome_fmap : FMap outcome := fun _ _ f m =>
  match m with Ok a => Ok (f a) | Err e => Err e | Panic => Panic end.

(** [.context(format!(msg, args))] *)
Definition with_context {A} (msg : string) (args : list Z) (m : outcome A) : outcome A :=
  match m with Err e => Err (EContext msg args e) | _ => m end.

(** The error-free reading of a callee that returns [Result<_, E>] with an [E] nobody reads. *)
Definition of_option {A} (o : option A) : outcome A :=
  match o with Some a => Ok a | None => Err EForeign end.

(** [v\[i\]]: panics out of range. *)
Definition index {A} (l : list A) (i : nat) : outcome A :=
  match l !! i with Some a => Ok a | None => Panic end.

(** [&v\[i..\]] *)
Definition slice_from {A} (l : list A) (i : nat) : outcome (list A) :=
  if bool_decide (i <= length l)%nat then Ok (drop i l) else Panic.

Definition is_ok {A} (m : outcome A) : bool :=
  match m with Ok _ => true | _ => false end.

(** [for x in l { s = f(s, x)?; }] *)
Fixpoint for_each {A S} (f : S -> A -> outcome S) (l : list A) (s : S) : outcome S :=
  match l with
  | [] => Ok s
  | x :: l' => s' ← f s x; for_each f l' s'
  end.

(** [for x in l { if let Some(r) = f(x) { return Some(r) } } None] *)
Fixpoint first_some {A B} (f : A -> option B) (l : list A) : option B :=
  match l with
  | [] => None
  | x :: l' => match f x with Some b => Some b | None => first_some f l' end
  end.

(** * Machine integers

    A [w]-bit unsigned integer is a [Z]; [wrap] is the [as] cast and the wrapping arithmetic. *)

Definition wrap (w : Z) (z : Z) : Z := z mod 2 ^ w.
Definition u_max (w : Z) : Z := 2 ^ w - 1.
Definition in_u (w : Z) (z : Z) : Prop := 0 <= z < 2 ^ w.

#[export] Instance in_u_dec w z : Decision (in_u w z).
Proof. unfold in_u. apply _. Defined.

(** [u16::from_be_bytes] and [u16::to_be_bytes] *)
Definition u16_from_be_bytes (b0 b1 : Z) : Z := b0 * 256 + b1.
Definition u16_to_be_bytes (z : Z) : list Z := [z / 256; z mod 256].

Lemma wrap_range w z : 0 <= w -> in_u w (wrap w z).
Proof. intros. unfold in_u, wrap. apply Z.mod_pos_bound. lia. Qed.

Lemma wrap_small w z : in_u w z -> wrap w z = z.
Proof. unfold in_u, wrap. intros. by apply Z.mod_small. Qed.

Lemma wrap_add_l w a b : wrap w (wrap w a + b) = wrap w (a + b).
Proof.
  unfold wrap. destruct (decide (2 ^ w = 0)) as [->|].
  - by rewrite !Zmod_0_r.
  - by rewrite Zplus_mod_idemp_l.
Qed.

Lemma u16_be_roundtrip z : in_u 16 z ->
  match u16_to_be_bytes z with
  | [b0; b1] => u16_from_be_bytes b0 b1 = z
  | _ => False
  end.
Proof. intros _. unfold u16_from_be_bytes. simpl. rewrite Z.mul_comm, <- Z.div_mod; lia. Qed.

(** * Automation *)

Create HintDb dns.

Lemma bind_ok {A B} (m : outcome A) (f : A -> outcome B) b :
  m ≫= f = Ok b <-> exists a, m = Ok a /\ f a = Ok b.
Proof. destruct m; cbn; (split; [intros ?; try discriminate; eauto|intros (? & ? & ?); congruence]). Qed.

Lemma bind_panic {A B} (m : outcome A) (f : A -> outcome B) :
  m ≫= f = Panic <-> m = Panic \/ exists a, m = Ok a /\ f a = Panic.
Proof.
  destruct m; cbn; (split; [intros ?; try discriminate; eauto|intros [?|(? & ? & ?)]; congruence]).
Qed.

Lemma with_context_ok {A} msg args (m : outcome A) a : with_context msg args m = Ok a <-> m = Ok a.
Proof. destruct m; cbn; split; intros ?; congruence. Qed.

Lemma with_context_panic {A} msg args (m : outcome A) : with_context msg args m = Panic <-> m = Panic.
Proof. destruct m; cbn; split; intros ?; congruence. Qed.

Lemma of_option_ok {A} (o : option A) a : of_option o = Ok a <-> o = Some a.
Proof. destruct o; cbn; split; intros ?; congruence. Qed.

Lemma of_option_panic {A} (o : option A) : of_option o ≠ Panic.
Proof. by destruct o. Qed.

Lemma index_ok {A} (l : list A) i a : index l i = Ok a <-> l !! i = Some a.
Proof. unfold index. destruct (l !! i); split; intros ?; congruence. Qed.

Lemma index_panic {A} (l : list A) i : index l i = Panic <-> (length l <= i)%nat.
Proof.
  unfold index. rewrite <- lookup_ge_None. destruct (l !! i); split; intros ?; congruence.
Qed.

Lemma slice_from_ok {A} (l : list A) i r :
  slice_from l i = Ok r <-> (i <= length l)%nat /\ r = drop i l.
Proof.
  unfold slice_from. case_bool_decide; split; [intros [= <-]; done|by intros [_ ->]|done|by intros [? _]].
Qed.

Lemma slice_from_panic {A} (l : list A) i : slice_from l i = Panic <-> (length l < i)%nat.
Proof. unfold slice_from. case_bool_decide; split; (done || lia). Qed.

(** Breaks every successful bind of the context into its steps. *)
Ltac outcome_inv :=
  repeat match goal with
  | H : _ ≫= _ = Ok _ |- _ => apply bind_ok in H; destruct H as (? & ? & H)
  | H : with_context _ _ _ = Ok _ |- _ => rewrite with_context_ok in H
  | H : of_option _ = Ok _ |- _ => rewrite of_option_ok in H
  | H : index _ _ = Ok _ |- _ => rewrite index_ok in H
  | H : slice_from _ _ = Ok _ |- _ => apply slice_from_ok in H; destruct H as (? & H)
  | H : Ok _ = Ok _ |- _ => injection H as H
  | H : Err _ = Ok _ |- _ => discriminate H
  | H : Panic = Ok _ |- _ => discriminate H
  end.

(** * Loops *)

Lemma for_each_app {A S} (f : S -> A -> outcome S) l1 l2 s :
  for_each f (l1 ++ l2) s = for_each f l1 s ≫= for_each f l2.
Proof.
  revert s. induction l1 as [|x l1 IH]; intros s; [done|].
  cbn. destruct (f s x); cbn; auto.
Qed.

(** The invariant rule of a [for] loop with [?]. *)
Lemma for_each_inv {A S} (P : S -> Prop) (f : S -> A -> outcome S) l s s' :
  (forall s x s', x ∈ l -> P s -> f s x = Ok s' -> P s') ->
  P s -> for_each f l s = Ok s' -> P s'.
Proof.
  revert s. induction l as [|x l IH]; intros s Hf Hs H; cbn in H.
  - by simplify_eq.
  - outcome_inv. eapply IH; [|eapply Hf; [left| |done]|done]; [|done].
    intros. eapply Hf; [right|..]; done.
Qed.

Lemma for_each_no_panic {A S} (f : S -> A -> outcome S) l s :
  (forall s x, x ∈ l -> f s x ≠ Panic) -> for_each f l s ≠ Panic.
Proof.
  revert s. induction l as [|x l IH]; intros s Hf; cbn; [done|].
  intros [H|(? & _ & H)]%bind_panic.
  - eapply Hf; [left|done].
  - eapply IH; [|done]. intros. apply Hf. by right.
Qed.

Lemma for_each_total {A S} (g : S -> A -> S) l s :
  for_each (fun s x => Ok (g s x)) l s = Ok (fold_left g l s).
Proof. revert s. induction l; intros; cbn; auto. Qed.

Lemma first_some_spec {A B} (f : A -> option B) l b :
  first_some f l = Some b <->
  exists l1 x l2, l = l1 ++ x :: l2 /\ f x = Some b /\ Forall (fun y => f y = None) l1.
Proof.
  split.
  - induction l as [|x l IH]; cbn; [done|].
    destruct (f x) eqn:E; intros H.
    + simplify_eq. exists [], x, l. auto.
    + destruct (IH H) as (l1 & y & l2 & -> & ? & ?).
      exists (x :: l1), y, l2. auto.
  - intros (l1 & x & l2 & -> & Hx & Hl). induction Hl as [|y l1 Hy _ IH]; cbn.
    + by rewrite Hx.
    + by rewrite Hy.
Qed.

Lemma first_some_None {A B} (f : A -> option B) l :
  first_some f l = None <-> Forall (fun y => f y = None) l.
Proof.
  split.
  - induction l as [|x l IH]; cbn; [done|].
    destruct (f x) eqn:E; [done|]. auto.
  - induction 1 as [|x l Hx _ IH]; cbn; [done|]. by rewrite Hx.
Qed.

Lemma fold_left_inv {A S} (P : S -> Prop) (f : S -> A -> S) l s :
  (forall s x, x ∈ l -> P s -> P (f s x)) -> P s -> P (fold_left f l s).
Proof.
  revert s. induction l as [|x l IH]; intros s Hf Hs; cbn; [done|].
  apply IH.
  - intros. apply Hf; [by right|done].
  - apply Hf; [by left|done].
Qed.

(** * Comparison functions

    A [cmp] method ([Ord]) whose [Eq] is an equivalence [eqv] of the type. *)
Section cmp_order.
Context {A : Type} (cmp : A -> A -> comparison) (eqv : relation A) `{!Equivalence eqv}.
Context (cmp_eqv : forall a b, cmp a b = Eq <-> eqv a b).
Context (cmp_anti : forall a b, cmp b a = CompOpp (cmp a b)).
Context (cmp_trans : forall a b c, cmp a b = Lt -> cmp b c = Lt -> cmp a c = Lt).

Lemma cmp_eq_lt a b c : cmp a b = Eq -> cmp b c = Lt -> cmp a c = Lt.
Proof using All.
  intros Hab Hbc. destruct (cmp a c) eqn:Hac; [exfalso|done|exfalso].
  - assert (cmp b c = Eq) by (apply cmp_eqv; apply cmp_eqv in Hab, Hac; by rewrite <- Hab).
    congruence.
  - assert (cmp b a = Lt) by (apply (cmp_trans b c a Hbc); by rewrite cmp_anti, Hac).
    pose proof (cmp_anti a b) as Hx. rewrite Hab in Hx. cbn in Hx. congruence.
Qed.

Lemma cmp_lt_eq a b c : cmp a b = Lt -> cmp b c = Eq -> cmp a c = Lt.
Proof using All.
  intros Hab Hbc. assert (cmp c a = Gt) as Hca; [|by rewrite cmp_anti, Hca].
  destruct (cmp c a) eqn:Hca; [exfalso|exfalso|done].
  - assert (cmp b a = Eq) as Hba.
    { apply cmp_eqv. apply cmp_eqv in Hbc, Hca. by transitivity c. }
    rewrite cmp_anti, Hab in Hba. done.
  - assert (cmp b a = Lt) as Hba.
    { by apply (cmp_eq_lt b c a). }
    rewrite cmp_anti, Hab in Hba. done.
Qed.

Lemma cmp_le_trans a b c : cmp a b ≠ Gt -> cmp b c ≠ Gt -> cmp a c ≠ Gt.
Proof using All.
  intros Hab Hbc. destruct (cmp a b) eqn:E1, (cmp b c) eqn:E2; try done.
  - assert (cmp a c = Eq) as ->; [|done].
    apply cmp_eqv. apply cmp_eqv in E1, E2. by transitivity b.
  - by rewrite (cmp_eq_lt a b c).
  - by rewrite (cmp_lt_eq a b c).
  - by rewrite (cmp_trans a b c).
Qed.

Lemma cmp_le_total a b : cmp a b ≠ Gt \/ cmp b a ≠ Gt.
Proof using cmp_anti. rewrite (cmp_anti a b). destruct (cmp a b); auto. Qed.

Lemma cmp_le_antisym a b : cmp a b ≠ Gt -> cmp b a ≠ Gt -> eqv a b.
Proof using cmp_anti cmp_eqv.
  rewrite (cmp_anti a b), <- cmp_eqv. by destruct (cmp a b).
Qed.
End cmp_order.

#[export] Hint Resolve of_option_panic for_each_no_panic wrap_range : dns.
#[export] Hint Rewrite @bind_ok @with_context_ok @of_option_ok @index_ok : dns.
