(* ===== verification/RustTime.v ===== *)
(** The part of [std::time] that the source uses. *)
From S2P Require Import Prelude.
Open Scope Z_scope.

(** [Instant] and [Duration] in nanoseconds; the [n]-th reading of the clock of a process is
    [clock n]. *)
Abbreviation Instant := Z (only parsing).
Abbreviation Duration := Z (only parsing).
Abbreviation Clock := (nat -> Z) (only parsing).

(** [Duration::from_secs] *)
Definition from_secs (s : Z) : Duration := s * 1000000000.

(** [now.duration_since(t)], zero when [t] is later. *)
Definition duration_since (now t : Instant) : Duration := Z.max 0 (now - t).

(** [d.as_micros()] and [d.as_secs()] *)
Definition as_micros (d : Duration) : Z := d / 1000.
Definition as_secs (d : Duration) : Z := d / 1000000000.

Definition monotone (clock : Clock) : Prop := forall m n, (m <= n)%nat -> clock m <= clock n.
