(* ===== verification/RustStr.v ===== *)
(** The part of Rust's standard library on [str] and numbers that the source uses: a [str] is the
    list of its Unicode scalar values (what every method used here looks at). *)
From S2P Require Import Prelude.

Abbreviation char := Z (only parsing).
Abbreviation str := (list Z) (only parsing).

(** A literal of the source. *)
Definition lit (s : string) : str :=
  (fun a => Z.of_N (Ascii.N_of_ascii a)) <$> String.list_ascii_of_string s.

Definition c_newline : char := 10.
Definition c_return : char := 13.
Definition c_space : char := 32.
Definition c_quote : char := 34.
Definition c_dollar : char := 36.
Definition c_lparen : char := 40.
Definition c_rparen : char := 41.
Definition c_star : char := 42.
Definition c_plus : char := 43.
Definition c_minus : char := 45.
Definition c_dot : char := 46.
Definition c_colon : char := 58.
Definition c_semicolon : char := 59.

(** [char::is_whitespace]: the Unicode property [White_Space]. *)
Definition is_whitespace (c : char) : bool :=
  ((9 <=? c) && (c <=? 13)) || (c =? 32) || (c =? 133) || (c =? 160) || (c =? 5760)
  || ((8192 <=? c) && (c <=? 8202)) || (c =? 8232) || (c =? 8233) || (c =? 8239)
  || (c =? 8287) || (c =? 12288).

Fixpoint trim_start_matches (p : char -> bool) (s : str) : str :=
  match s with
  | [] => []
  | c :: s' => if p c then trim_start_matches p s' else s
  end.

Definition trim_end_matches (p : char -> bool) (s : str) : str :=
  reverse (trim_start_matches p (reverse s)).

Definition trim (s : str) : str := trim_end_matches is_whitespace (trim_start_matches is_whitespace s).

(** [s.trim_matches(c)] *)
Definition trim_matches (c : char) (s : str) : str :=
  trim_end_matches (Z.eqb c) (trim_start_matches (Z.eqb c) s).

(** [s.split_whitespace()]; [cur] is the word being read. *)
Fixpoint split_whitespace_from (cur : str) (s : str) : list str :=
  match s with
  | [] => if decide (cur = []) then [] else [cur]
  | c :: s' =>
      if is_whitespace c then
        (if decide (cur = []) then [] else [cur]) ++ split_whitespace_from [] s'
      else split_whitespace_from (cur ++ [c]) s'
  end.
Definition split_whitespace (s : str) : list str := split_whitespace_from [] s.

Definition strip_return (s : str) : str :=
  match last s with
  | Some c => if c =? c_return then take (length s - 1) s else s
  | None => s
  end.

(** [s.lines()]: a line ends with [\n] or [\r\n]; an unterminated last line is kept as it is. *)
Fixpoint lines_from (cur : str) (s : str) : list str :=
  match s with
  | [] => if decide (cur = []) then [] else [cur]
  | c :: s' =>
      if c =? c_newline then strip_return cur :: lines_from [] s'
      else lines_from (cur ++ [c]) s'
  end.
Definition lines (s : str) : list str := lines_from [] s.

(** [s.find(c)] *)
Fixpoint find_char (c : char) (s : str) : option nat :=
  match s with
  | [] => None
  | d :: s' => if d =? c then Some 0%nat else S <$> find_char c s'
  end.

(** [s.matches(c).count()] *)
Definition count_char (c : char) (s : str) : nat := length (filter (fun d => d = c) s).

(** [s.contains(c)] *)
Definition contains_char (c : char) (s : str) : bool := bool_decide (c ∈ s).

(** [s.replace(c, "")] *)
Definition remove_char (c : char) (s : str) : str := filter (fun d => d ≠ c) s.

Definition starts_with (p s : str) : bool := bool_decide (take (length p) s = p).
Definition starts_with_char (c : char) (s : str) : bool := bool_decide (head s = Some c).
Definition ends_with_char (c : char) (s : str) : bool := bool_decide (last s = Some c).

(** [l.join(sep)] *)
Fixpoint str_join (sep : str) (l : list str) : str :=
  match l with
  | [] => []
  | [x] => x
  | x :: l' => x ++ sep ++ str_join sep l'
  end.

(** [s.as_bytes()]: the UTF-8 encoding. *)
Definition char_bytes (c : char) : list Z :=
  if c <? 128 then [c]
  else if c <? 2048 then [192 + c / 64; 128 + c mod 64]
  else if c <? 65536 then [224 + c / 4096; 128 + c / 64 mod 64; 128 + c mod 64]
  else [240 + c / 262144; 128 + c / 4096 mod 64; 128 + c / 64 mod 64; 128 + c mod 64].
Definition as_bytes (s : str) : list Z := flat_map char_bytes s.

(** [char::to_digit(radix)] *)
Definition to_digit (radix : Z) (c : char) : option Z :=
  let d :=
    if (48 <=? c) && (c <=? 57) then c - 48
    else if (97 <=? c) && (c <=? 122) then c - 87
    else if (65 <=? c) && (c <=? 90) then c - 55
    else 36 in
  if d <? radix then Some d else None.

(** The value of a digit string, most significant digit first; [None] on a character that is not a
    digit. *)
Fixpoint digits_from (radix : Z) (acc : Z) (s : str) : option Z :=
  match s with
  | [] => Some acc
  | c :: s' => match to_digit radix c with
               | Some d => digits_from radix (acc * radix + d) s'
               | None => None
               end
  end.

(** [s.parse::<uN>()]: an optional [+], at least one digit, no overflow. *)
Definition parse_unsigned (w : Z) (s : str) : option Z :=
  let ds := match s with c :: s' => if c =? c_plus then s' else s | [] => s end in
  match ds with
  | [] => None
  | _ => match digits_from 10 0 ds with
         | Some v => if v <? 2 ^ w then Some v else None
         | None => None
         end
  end.

(** [s.parse::<iN>()]: an optional sign. *)
Definition parse_signed (w : Z) (s : str) : option Z :=
  let '(neg, ds) := match s with
                    | c :: s' => if c =? c_minus then (true, s')
                                 else if c =? c_plus then (false, s') else (false, s)
                    | [] => (false, s)
                    end in
  match ds with
  | [] => None
  | _ => match digits_from 10 0 ds with
         | Some v =>
             if neg then (if v <=? 2 ^ (w - 1) then Some (- v) else None)
             else (if v <? 2 ^ (w - 1) then Some v else None)
         | None => None
         end
  end.

(** * [std::net] addresses *)

(** The four octets, and the eight 16-bit groups. *)
Abbreviation Ipv4Addr := (Z * Z * Z * Z)%type (only parsing).
Abbreviation Ipv6Addr := (list Z) (only parsing).

(** The parser of [std::net]: a step reads a prefix of the input and returns the rest. *)
Abbreviation parser A := (str -> option (A * str)) (only parsing).

Fixpoint span_digits (radix : Z) (s : str) : list Z * str :=
  match s with
  | c :: s' => match to_digit radix c with
               | Some d => let '(ds, r) := span_digits radix s' in (d :: ds, r)
               | None => ([], s)
               end
  | [] => ([], [])
  end.

(** [Parser::read_number(radix, Some(max_digits), allow_zero_prefix)] of a [w]-bit type *)
Definition read_number (w radix : Z) (max_digits : nat) (allow_zero_prefix : bool) : parser Z :=
  fun s =>
    let has_leading_zero := bool_decide (head s = Some 48) in
    let '(ds, r) := span_digits radix s in
    if bool_decide (max_digits < length ds)%nat then None
    else if bool_decide (ds = []) then None
    else if negb allow_zero_prefix && has_leading_zero && bool_decide (1 < length ds)%nat then None
    else
      let v := fold_left (fun acc d => acc * radix + d) ds 0 in
      if v <? 2 ^ w then Some (v, r) else None.

(** [Parser::read_given_char(c)] *)
Definition read_given_char (c : char) : parser unit :=
  fun s => match s with d :: s' => if d =? c then Some (tt, s') else None | [] => None end.

(** [Parser::read_separator(sep, index, inner)] *)
Definition read_separator {A} (sep : char) (index : nat) (inner : parser A) : parser A :=
  fun s => match index with
           | O => inner s
           | S _ => '(_, s') ← read_given_char sep s; inner s'
           end.

(** [Parser::read_ipv4_addr] *)
Definition read_ipv4_addr : parser Ipv4Addr := fun s =>
  '(a, s) ← read_separator c_dot 0 (read_number 8 10 3 false) s;
  '(b, s) ← read_separator c_dot 1 (read_number 8 10 3 false) s;
  '(c, s) ← read_separator c_dot 2 (read_number 8 10 3 false) s;
  '(d, s) ← read_separator c_dot 3 (read_number 8 10 3 false) s;
  Some ((a, b, c, d), s).

(** [read_groups] inside [Parser::read_ipv6_addr]: reads groups [i .. limit - 1]; returns the
    groups read and whether the last two come from an embedded IPv4 address. *)
Fixpoint read_groups (i left : nat) (s : str) : list Z * bool * str :=
  match left with
  | O => ([], false, s)
  | S left' =>
      match (if bool_decide (left' = 0%nat) then None else read_separator c_colon i read_ipv4_addr s) with
      | Some ((a, b, c, d), s') => ([a * 256 + b; c * 256 + d], true, s')
      | None =>
          match read_separator c_colon i (read_number 16 16 4 true) s with
          | Some (g, s') =>
              let '(gs, v4, r) := read_groups (S i) left' s' in (g :: gs, v4, r)
          | None => ([], false, s)
          end
      end
  end.

(** [Parser::read_ipv6_addr] *)
Definition read_ipv6_addr : parser Ipv6Addr := fun s =>
  let '(head, head_ipv4, s) := read_groups 0 8 s in
  if bool_decide (length head = 8%nat) then Some (head, s)
  else if head_ipv4 then None
  else
    '(_, s) ← read_given_char c_colon s;
    '(_, s) ← read_given_char c_colon s;
    let limit := (8 - (length head + 1))%nat in
    let '(tail, _, s) := read_groups 0 limit s in
    Some (head ++ replicate (8 - length head - length tail) 0 ++ tail, s).

Definition parse_all {A} (p : parser A) (s : str) : option A :=
  match p s with Some (a, []) => Some a | _ => None end.

(** [s.parse::<Ipv4Addr>()]: longer texts than "255.255.255.255" are refused unread. *)
Definition parse_ipv4 (s : str) : option Ipv4Addr :=
  if bool_decide (15 < length s)%nat then None else parse_all read_ipv4_addr s.

(** [s.parse::<Ipv6Addr>()] *)
Definition parse_ipv6 (s : str) : option Ipv6Addr := parse_all read_ipv6_addr s.

Example parse_ipv4_ex : parse_ipv4 (lit "192.0.2.255") = Some (192, 0, 2, 255).
Proof. reflexivity. Qed.
Example parse_ipv4_ex_zero : parse_ipv4 (lit "192.0.02.1") = None.
Proof. reflexivity. Qed.
Example parse_ipv6_ex : parse_ipv6 (lit "2001:db8::1") = Some [8193; 3512; 0; 0; 0; 0; 0; 1].
Proof. reflexivity. Qed.
Example parse_ipv6_ex_v4 : parse_ipv6 (lit "::ffff:1.2.3.4") = Some [0; 0; 0; 0; 0; 65535; 258; 772].
Proof. reflexivity. Qed.
Example parse_unsigned_ex : parse_unsigned 32 (lit "4294967295") = Some 4294967295.
Proof. reflexivity. Qed.
Example parse_unsigned_ex_over : parse_unsigned 32 (lit "4294967296") = None.
Proof. reflexivity. Qed.
Example as_bytes_ex : as_bytes [233; 8364; 128512] = [195; 169; 226; 130; 172; 240; 159; 152; 128].
Proof. reflexivity. Qed.
Example lines_ex :
  lines (lit "a" ++ [13; 10] ++ lit "b" ++ [10; 10] ++ lit "c") = [lit "a"; lit "b"; []; lit "c"].
Proof. reflexivity. Qed.
Example split_whitespace_ex : split_whitespace (lit "  www  IN A ") = [lit "www"; lit "IN"; lit "A"].
Proof. reflexivity. Qed.
