(* ===== verification/HashMap.v ===== *)
(** [std::collections::HashMap] over a key type whose [Eq] is coarser than identity (domain names
    compare without case).  A table is the list of its entries in the order in which the map
    iterates; that order is unspecified in Rust, so what depends on it is stated for every
    permutation of the list. *)
From S2P Require Import Prelude.

(** [Eq] of the key type. *)
Class HashKey (K : Type) := {
  key_eqb : K -> K -> bool;
  key_eqb_equiv :: Equivalence (fun a b => key_eqb a b = true)
}.

Abbreviation HashMap K V := (list (K * V)) (only parsing).

Section hash_map.
Context {K V : Type} `{HashKey K}.
Implicit Types (k : K) (v : V) (m : HashMap K V).

Definition key_equiv (k1 k2 : K) : Prop := key_eqb k1 k2 = true.

#[export] Instance key_equiv_equivalence : Equivalence key_equiv.
Proof. exact key_eqb_equiv. Qed.

#[export] Instance key_eqb_proper : Proper (key_equiv ==> key_equiv ==> eq) key_eqb.
Proof.
  unfold key_equiv. intros a b Hab c d Hcd.
  destruct (key_eqb a c) eqn:E1, (key_eqb b d) eqn:E2; try done; exfalso.
  - assert (key_eqb b d = true); [|congruence].
    change (key_equiv b d). transitivity a; [by symmetry|]. by transitivity c.
  - assert (key_eqb a c = true); [|congruence].
    change (key_equiv a c). transitivity b; [done|]. transitivity d; [done|by symmetry].
Qed.

Lemma key_eqb_refl k : key_eqb k k = true.
Proof. change (key_equiv k k). reflexivity. Qed.

Lemma key_eqb_sym k1 k2 : key_eqb k1 k2 = key_eqb k2 k1.
Proof.
  destruct (key_eqb k1 k2) eqn:E1, (key_eqb k2 k1) eqn:E2; try done.
  - assert (key_equiv k2 k1) by (by symmetry). unfold key_equiv in *. congruence.
  - assert (key_equiv k1 k2) by (by symmetry). unfold key_equiv in *. congruence.
Qed.

(** [m.get(&k)] *)
Fixpoint hm_get (k : K) (m : HashMap K V) : option V :=
  match m with
  | [] => None
  | (k', v) :: m' => if key_eqb k' k then Some v else hm_get k m'
  end.

(** [m.contains_key(&k)] *)
Definition hm_contains_key (k : K) (m : HashMap K V) : bool := bool_decide (is_Some (hm_get k m)).

(** [f(m.entry(k).or_insert(d))]: the key that is already in the table stays. *)
Fixpoint hm_entry (d : V) (f : V -> V) (k : K) (m : HashMap K V) : HashMap K V :=
  match m with
  | [] => [(k, f d)]
  | (k', v) :: m' => if key_eqb k' k then (k', f v) :: m' else (k', v) :: hm_entry d f k m'
  end.

(** [m.insert(k, v)] *)
Definition hm_insert (k : K) (v : V) (m : HashMap K V) : HashMap K V := hm_entry v (fun _ => v) k m.

(** [m.values()] and [m.keys()] *)
Definition hm_values (m : HashMap K V) : list V := m.*2.
Definition hm_keys (m : HashMap K V) : list K := m.*1.

(** The keys of a table are pairwise different. *)
Fixpoint hm_wf (m : HashMap K V) : Prop :=
  match m with
  | [] => True
  | (k, _) :: m' => hm_get k m' = None /\ hm_wf m'
  end.

(** Tables with the same entries, whatever their order. *)
Definition hm_equiv (m1 m2 : HashMap K V) : Prop := forall k, hm_get k m1 = hm_get k m2.

#[export] Instance hm_equiv_equivalence : Equivalence hm_equiv.
Proof. split; unfold hm_equiv; congruence. Qed.

#[export] Instance hm_get_proper : Proper (key_equiv ==> hm_equiv ==> eq) hm_get.
Proof.
  intros k1 k2 Hk m1 m2 Hm. rewrite <- Hm. clear m2 Hm.
  induction m1 as [|[k v] m IH]; cbn; [done|].
  rewrite (key_eqb_proper k k (reflexivity k) k1 k2 Hk). by rewrite IH.
Qed.

Lemma hm_get_entry d f k k' m :
  hm_get k' (hm_entry d f k m) =
  if key_eqb k k' then Some (f (default d (hm_get k m))) else hm_get k' m.
Proof.
  induction m as [|[k1 v1] m IH]; cbn; [done|].
  destruct (key_eqb k1 k) eqn:E; cbn.
  - rewrite (key_eqb_proper k1 k E k' k' (reflexivity k')). by destruct (key_eqb k k').
  - rewrite IH. destruct (key_eqb k1 k') eqn:E1; [|done].
    destruct (key_eqb k k') eqn:E2; [|done].
    assert (key_equiv k1 k); [|by unfold key_equiv in *; congruence].
    transitivity k'; [done|by symmetry].
Qed.

Lemma hm_get_insert k k' v m :
  hm_get k' (hm_insert k v m) = if key_eqb k k' then Some v else hm_get k' m.
Proof. unfold hm_insert. by rewrite hm_get_entry. Qed.

#[export] Instance hm_insert_proper : Proper (key_equiv ==> eq ==> hm_equiv ==> hm_equiv) hm_insert.
Proof.
  intros k1 k2 Hk v ? <- m1 m2 Hm k. rewrite !hm_get_insert, Hm.
  by rewrite (key_eqb_proper k1 k2 Hk k k (reflexivity k)).
Qed.

Lemma hm_wf_entry d f k m : hm_wf m -> hm_wf (hm_entry d f k m).
Proof.
  induction m as [|[k1 v1] m IH]; cbn; [done|].
  intros [H1 H2]. destruct (key_eqb k1 k) eqn:E; cbn; [done|].
  split; [|auto]. rewrite hm_get_entry, key_eqb_sym, E. done.
Qed.

Lemma hm_wf_insert k v m : hm_wf m -> hm_wf (hm_insert k v m).
Proof. apply hm_wf_entry. Qed.

Lemma hm_get_elem k v m : hm_get k m = Some v -> exists k', (k', v) ∈ m /\ key_equiv k' k.
Proof.
  induction m as [|[k1 v1] m IH]; cbn; [done|].
  destruct (key_eqb k1 k) eqn:E; intros H1.
  - simplify_eq. exists k1. split; [left|done].
  - destruct (IH H1) as (k' & ? & ?). exists k'. split; [by right|done].
Qed.

Lemma hm_elem_get k v m : hm_wf m -> (k, v) ∈ m -> hm_get k m = Some v.
Proof.
  induction m as [|[k1 v1] m IH]; cbn; [set_solver|].
  intros [H1 H2] [?|?]%elem_of_cons.
  - simplify_eq. by rewrite key_eqb_refl.
  - destruct (key_eqb k1 k) eqn:E; [|auto].
    rewrite (hm_get_proper k1 k E m m (reflexivity m)) in H1.
    rewrite IH in H1; done.
Qed.

Lemma hm_keys_get k m : k ∈ hm_keys m -> is_Some (hm_get k m).
Proof.
  induction m as [|[k1 v1] m IH]; cbn; [set_solver|].
  destruct (key_eqb k1 k) eqn:E; [done|]. intros [->|?]%elem_of_cons; [|auto].
  by rewrite key_eqb_refl in E.
Qed.

(** Two keys of a well-formed table that compare equal are the same stored key. *)
Lemma hm_keys_inj k1 k2 m :
  hm_wf m -> k1 ∈ hm_keys m -> k2 ∈ hm_keys m -> key_equiv k1 k2 -> k1 = k2.
Proof.
  assert (forall k k' m, hm_get k m = None -> key_equiv k k' -> k' ∉ hm_keys m) as Hno.
  { intros k k' m' Hk Heq Hin%hm_keys_get.
    rewrite (hm_get_proper k k' Heq m' m' (reflexivity m')) in Hk. rewrite Hk in Hin.
    by destruct Hin. }
  induction m as [|[k v] m IH]; cbn; [set_solver|].
  intros [Hk Hwf] [->|H1]%elem_of_cons [->|H2]%elem_of_cons Heq; [done| | |auto].
  - by destruct (Hno k k2 m).
  - destruct (Hno k k1 m); [done|by symmetry|done].
Qed.

Lemma hm_keys_NoDup m : hm_wf m -> NoDup (hm_keys m).
Proof.
  induction m as [|[k v] m IH]; cbn; [constructor|]. intros [Hk Hwf].
  constructor; [|auto]. intros Hin%hm_keys_get. rewrite Hk in Hin. by destruct Hin.
Qed.

(** The iteration order of a well-formed table does not matter to its lookups. *)
Lemma hm_perm_wf m1 m2 : m1 ≡ₚ m2 -> hm_wf m1 -> hm_wf m2 /\ hm_equiv m1 m2.
Proof.
  induction 1 as [|[k v] m1 m2 Hp IH|[k1 v1] [k2 v2] m|m1 m2 m3 Hp1 IH1 Hp2 IH2]; cbn.
  - done.
  - intros [H1 H2]. destruct (IH H2) as [H3 H4]. split; [split; [|done]|].
    + by rewrite <- (H4 k).
    + intros k'. cbn. by rewrite (H4 k').
  - intros [H1 [H2 H3]]. cbn in *.
    destruct (key_eqb k1 k2) eqn:E; [done|].
    split; [split; [|done]|].
    + by rewrite key_eqb_sym, E.
    + intros k. cbn. destruct (key_eqb k1 k) eqn:E1, (key_eqb k2 k) eqn:E2; try done.
      assert (key_equiv k1 k2); [|by unfold key_equiv in *; congruence].
      transitivity k; [done|by symmetry].
  - intros H1. destruct (IH1 H1) as [H2 H3]. destruct (IH2 H2) as [H4 H5].
    split; [done|]. by transitivity m2.
Qed.

Lemma hm_get_perm k m1 m2 : hm_wf m1 -> m1 ≡ₚ m2 -> hm_get k m1 = hm_get k m2.
Proof. intros H1 H2. by apply (hm_perm_wf m1 m2). Qed.
End hash_map.

#[export] Hint Resolve hm_wf_entry hm_wf_insert : dns.
#[export] Hint Rewrite @hm_get_entry @hm_get_insert : dns.
