(* ===== verification/Crates.v ===== *)
(** The third-party crates the program is built on, as interfaces: abstract types, the operations
    the source calls, and (separately) the documented behaviour the theorems rely on.  Nothing here
    models how a crate works; [CratesModel] instantiates the interfaces to show that they can be
    met. *)
From S2P Require Import Prelude RustStr HashMap.

(** * Enumerations of [hickory_proto], with the variants the source names *)

Module RecordType.
Inductive t :=
  | A | AAAA | AXFR | CAA | CNAME | DNSKEY | DS | MX | NAPTR | NS | NSEC | PTR | SIG | SOA | SRV
  | SSHFP | TLSA | TXT
  | Other (code : Z).

#[export] Instance eq_dec : EqDecision t.
Proof. solve_decision. Defined.

(** A numbering of the variants, for the maps keyed by a record type only. *)
Definition tag (r : t) : Z + Z :=
  match r with
  | A => inl 1 | AAAA => inl 2 | AXFR => inl 3 | CAA => inl 4 | CNAME => inl 5 | DNSKEY => inl 6
  | DS => inl 7 | MX => inl 8 | NAPTR => inl 9 | NS => inl 10 | NSEC => inl 11 | PTR => inl 12
  | SIG => inl 13 | SOA => inl 14 | SRV => inl 15 | SSHFP => inl 16 | TLSA => inl 17
  | TXT => inl 18 | Other c => inr c
  end.

Definition untag (x : Z + Z) : option t :=
  match x with
  | inl 1 => Some A | inl 2 => Some AAAA | inl 3 => Some AXFR | inl 4 => Some CAA
  | inl 5 => Some CNAME | inl 6 => Some DNSKEY | inl 7 => Some DS | inl 8 => Some MX
  | inl 9 => Some NAPTR | inl 10 => Some NS | inl 11 => Some NSEC | inl 12 => Some PTR
  | inl 13 => Some SIG | inl 14 => Some SOA | inl 15 => Some SRV | inl 16 => Some SSHFP
  | inl 17 => Some TLSA | inl 18 => Some TXT | inl _ => None | inr c => Some (Other c)
  end.

#[export] Instance countable : Countable t.
Proof. refine (inj_countable tag untag _). by intros []. Defined.
End RecordType.
Export (hints) RecordType.

Module ResponseCode.
Inductive t := NoError | FormErr | ServFail | NXDomain | NotImp | Refused | Other (code : Z).
#[export] Instance eq_dec : EqDecision t.
Proof. solve_decision. Defined.
End ResponseCode.
Export (hints) ResponseCode.

Module OpCode.
Inductive t := Query | Update | Other (code : Z).
#[export] Instance eq_dec : EqDecision t.
Proof. solve_decision. Defined.
End OpCode.
Export (hints) OpCode.

Module MessageType.
Inductive t := Query | Response.
#[export] Instance eq_dec : EqDecision t.
Proof. solve_decision. Defined.
End MessageType.
Export (hints) MessageType.

Module DigestType.
Inductive t := SHA256 | SHA384 | SHA512 | Other (code : Z).
#[export] Instance eq_dec : EqDecision t.
Proof. solve_decision. Defined.
End DigestType.
Export (hints) DigestType.

(** * Types of the crate *)

Class DataTypes := {
  Name : Type;
  Algorithm : Type;
  CertUsage : Type;
  Selector : Type;
  Matching : Type;
  SshfpAlgorithm : Type;
  FingerprintType : Type
}.

Class HickoryTypes := {
  data_types :: DataTypes;
  DnsRecord : Type;  (* hickory_proto::rr::Record *)
  Query : Type;
  Edns : Type;
  Message : Type
}.

(** [RData] with the variants and the constructor arguments the source uses. *)
Module DNSSECRData.
Inductive t `{DataTypes} :=
  | DNSKEY (zone_key secure_entry_point revoke : bool) (algorithm : Algorithm) (public_key : list Z)
  | SIG (type_covered : RecordType.t) (algorithm : Algorithm)
        (num_labels original_ttl sig_expiration sig_inception key_tag : Z)
        (signer_name : Name) (sig : list Z)
  | NSEC (next_domain_name : Name) (type_bit_maps : list RecordType.t)
  | DS (key_tag : Z) (algorithm : Algorithm) (digest_type : DigestType.t) (digest : list Z)
  | Other (code : Z).
End DNSSECRData.

Module RData.
Inductive t `{DataTypes} :=
  | A (addr : Ipv4Addr)
  | AAAA (addr : Ipv6Addr)
  | NS (nsdname : Name)
  | SOA (mname rname : Name) (serial refresh retry expire minimum : Z)
  | CNAME (cname : Name)
  | MX (preference : Z) (exchange : Name)
  | TXT (txt_data : list str)
  | PTR (ptrdname : Name)
  | SRV (priority weight port : Z) (target : Name)
  | CAA_issue (issuer_critical : bool) (name : option Name)
  | DNSSEC (rdata : DNSSECRData.t)
  | NAPTR (order preference : Z) (flags services regexp : str) (replacement : Name)
  | TLSA (cert_usage : CertUsage) (selector : Selector) (matching : Matching) (cert_data : list Z)
  | SSHFP (algorithm : SshfpAlgorithm) (fp_type : FingerprintType) (fingerprint : list Z)
  | Other (code : Z).
End RData.

(** What the getters of a [Message] and of an [Edns] return, read all at once. *)
Section views.
Context `{HickoryTypes}.

Record MessageView := {
  v_id : Z;
  v_message_type : MessageType.t;
  v_op_code : OpCode.t;
  v_authoritative : bool;
  v_truncated : bool;
  v_recursion_desired : bool;
  v_recursion_available : bool;
  v_response_code : ResponseCode.t;
  v_queries : list Query;
  v_answers : list DnsRecord;
  v_name_servers : list DnsRecord;
  v_additionals : list DnsRecord;
  v_extensions : option Edns
}.

Definition with_id (x : Z) (v : MessageView) : MessageView :=
  {|
     v_id := x; v_message_type := v_message_type v; v_op_code := v_op_code v; v_authoritative :=
     v_authoritative v; v_truncated := v_truncated v; v_recursion_desired := v_recursion_desired
     v; v_recursion_available := v_recursion_available v; v_response_code := v_response_code v;
     v_queries := v_queries v; v_answers := v_answers v; v_name_servers := v_name_servers v;
     v_additionals := v_additionals v; v_extensions := v_extensions v |}.

Definition with_message_type (x : MessageType.t) (v : MessageView) : MessageView :=
  {|
     v_id := v_id v; v_message_type := x; v_op_code := v_op_code v; v_authoritative :=
     v_authoritative v; v_truncated := v_truncated v; v_recursion_desired := v_recursion_desired
     v; v_recursion_available := v_recursion_available v; v_response_code := v_response_code v;
     v_queries := v_queries v; v_answers := v_answers v; v_name_servers := v_name_servers v;
     v_additionals := v_additionals v; v_extensions := v_extensions v |}.

Definition with_op_code (x : OpCode.t) (v : MessageView) : MessageView :=
  {|
     v_id := v_id v; v_message_type := v_message_type v; v_op_code := x; v_authoritative :=
     v_authoritative v; v_truncated := v_truncated v; v_recursion_desired := v_recursion_desired
     v; v_recursion_available := v_recursion_available v; v_response_code := v_response_code v;
     v_queries := v_queries v; v_answers := v_answers v; v_name_servers := v_name_servers v;
     v_additionals := v_additionals v; v_extensions := v_extensions v |}.

Definition with_authoritative (x : bool) (v : MessageView) : MessageView :=
  {|
     v_id := v_id v; v_message_type := v_message_type v; v_op_code := v_op_code v;
     v_authoritative := x; v_truncated := v_truncated v; v_recursion_desired :=
     v_recursion_desired v; v_recursion_available := v_recursion_available v; v_response_code :=
     v_response_code v; v_queries := v_queries v; v_answers := v_answers v; v_name_servers :=
     v_name_servers v; v_additionals := v_additionals v; v_extensions := v_extensions v |}.

Definition with_truncated (x : bool) (v : MessageView) : MessageView :=
  {|
     v_id := v_id v; v_message_type := v_message_type v; v_op_code := v_op_code v;
     v_authoritative := v_authoritative v; v_truncated := x; v_recursion_desired :=
     v_recursion_desired v; v_recursion_available := v_recursion_available v; v_response_code :=
     v_response_code v; v_queries := v_queries v; v_answers := v_answers v; v_name_servers :=
     v_name_servers v; v_additionals := v_additionals v; v_extensions := v_extensions v |}.

Definition with_recursion_desired (x : bool) (v : MessageView) : MessageView :=
  {|
     v_id := v_id v; v_message_type := v_message_type v; v_op_code := v_op_code v;
     v_authoritative := v_authoritative v; v_truncated := v_truncated v; v_recursion_desired :=
     x; v_recursion_available := v_recursion_available v; v_response_code := v_response_code v;
     v_queries := v_queries v; v_answers := v_answers v; v_name_servers := v_name_servers v;
     v_additionals := v_additionals v; v_extensions := v_extensions v |}.

Definition with_recursion_available (x : bool) (v : MessageView) : MessageView :=
  {|
     v_id := v_id v; v_message_type := v_message_type v; v_op_code := v_op_code v;
     v_authoritative := v_authoritative v; v_truncated := v_truncated v; v_recursion_desired :=
     v_recursion_desired v; v_recursion_available := x; v_response_code := v_response_code v;
     v_queries := v_queries v; v_answers := v_answers v; v_name_servers := v_name_servers v;
     v_additionals := v_additionals v; v_extensions := v_extensions v |}.

Definition with_response_code (x : ResponseCode.t) (v : MessageView) : MessageView :=
  {|
     v_id := v_id v; v_message_type := v_message_type v; v_op_code := v_op_code v;
     v_authoritative := v_authoritative v; v_truncated := v_truncated v; v_recursion_desired :=
     v_recursion_desired v; v_recursion_available := v_recursion_available v; v_response_code :=
     x; v_queries := v_queries v; v_answers := v_answers v; v_name_servers := v_name_servers v;
     v_additionals := v_additionals v; v_extensions := v_extensions v |}.

Definition with_query (x : Query) (v : MessageView) : MessageView :=
  {|
     v_id := v_id v; v_message_type := v_message_type v; v_op_code := v_op_code v;
     v_authoritative := v_authoritative v; v_truncated := v_truncated v; v_recursion_desired :=
     v_recursion_desired v; v_recursion_available := v_recursion_available v; v_response_code :=
     v_response_code v; v_queries := v_queries v ++ [x]; v_answers := v_answers v;
     v_name_servers := v_name_servers v; v_additionals := v_additionals v; v_extensions :=
     v_extensions v |}.

Definition with_answer (x : DnsRecord) (v : MessageView) : MessageView :=
  {|
     v_id := v_id v; v_message_type := v_message_type v; v_op_code := v_op_code v;
     v_authoritative := v_authoritative v; v_truncated := v_truncated v; v_recursion_desired :=
     v_recursion_desired v; v_recursion_available := v_recursion_available v; v_response_code :=
     v_response_code v; v_queries := v_queries v; v_answers := v_answers v ++ [x];
     v_name_servers := v_name_servers v; v_additionals := v_additionals v; v_extensions :=
     v_extensions v |}.

Definition with_name_server (x : DnsRecord) (v : MessageView) : MessageView :=
  {|
     v_id := v_id v; v_message_type := v_message_type v; v_op_code := v_op_code v;
     v_authoritative := v_authoritative v; v_truncated := v_truncated v; v_recursion_desired :=
     v_recursion_desired v; v_recursion_available := v_recursion_available v; v_response_code :=
     v_response_code v; v_queries := v_queries v; v_answers := v_answers v; v_name_servers :=
     v_name_servers v ++ [x]; v_additionals := v_additionals v; v_extensions := v_extensions v |}.

Definition with_additional (x : DnsRecord) (v : MessageView) : MessageView :=
  {|
     v_id := v_id v; v_message_type := v_message_type v; v_op_code := v_op_code v;
     v_authoritative := v_authoritative v; v_truncated := v_truncated v; v_recursion_desired :=
     v_recursion_desired v; v_recursion_available := v_recursion_available v; v_response_code :=
     v_response_code v; v_queries := v_queries v; v_answers := v_answers v; v_name_servers :=
     v_name_servers v; v_additionals := v_additionals v ++ [x]; v_extensions := v_extensions v |}.

Definition without_answers (v : MessageView) : MessageView :=
  {|
     v_id := v_id v; v_message_type := v_message_type v; v_op_code := v_op_code v;
     v_authoritative := v_authoritative v; v_truncated := v_truncated v; v_recursion_desired :=
     v_recursion_desired v; v_recursion_available := v_recursion_available v; v_response_code :=
     v_response_code v; v_queries := v_queries v; v_answers := []; v_name_servers :=
     v_name_servers v; v_additionals := v_additionals v; v_extensions := v_extensions v |}.

Definition without_name_servers (v : MessageView) : MessageView :=
  {|
     v_id := v_id v; v_message_type := v_message_type v; v_op_code := v_op_code v;
     v_authoritative := v_authoritative v; v_truncated := v_truncated v; v_recursion_desired :=
     v_recursion_desired v; v_recursion_available := v_recursion_available v; v_response_code :=
     v_response_code v; v_queries := v_queries v; v_answers := v_answers v; v_name_servers :=
     []; v_additionals := v_additionals v; v_extensions := v_extensions v |}.

Definition without_additionals (v : MessageView) : MessageView :=
  {|
     v_id := v_id v; v_message_type := v_message_type v; v_op_code := v_op_code v;
     v_authoritative := v_authoritative v; v_truncated := v_truncated v; v_recursion_desired :=
     v_recursion_desired v; v_recursion_available := v_recursion_available v; v_response_code :=
     v_response_code v; v_queries := v_queries v; v_answers := v_answers v; v_name_servers :=
     v_name_servers v; v_additionals := []; v_extensions := v_extensions v |}.

Definition with_edns (x : Edns) (v : MessageView) : MessageView :=
  {|
     v_id := v_id v; v_message_type := v_message_type v; v_op_code := v_op_code v;
     v_authoritative := v_authoritative v; v_truncated := v_truncated v; v_recursion_desired :=
     v_recursion_desired v; v_recursion_available := v_recursion_available v; v_response_code :=
     v_response_code v; v_queries := v_queries v; v_answers := v_answers v; v_name_servers :=
     v_name_servers v; v_additionals := v_additionals v; v_extensions := Some x |}.

Record EdnsView := { v_max_payload : Z; v_version : Z; v_dnssec_ok : bool }.
End views.

(** * Operations of the crates *)

Class Hickory `{HickoryTypes} := {
  (* Name: Eq, Ord, Display, FromStr and the methods *)
  name_hash_key :: HashKey Name;
  name_cmp : Name -> Name -> comparison;
  name_iter : Name -> list (list Z);
  name_is_fqdn : Name -> bool;
  name_num_labels : Name -> Z;
  name_zone_of : Name -> Name -> bool;
  name_from_labels : list (list Z) -> option Name;
  name_from_str : str -> option Name;
  name_to_string : Name -> str;
  name_root : Name;
  name_to_lowercase : Name -> Name;
  name_to_bytes : Name -> option (list Z);
  (* RecordType: Ord, FromStr, Debug *)
  record_type_cmp : RecordType.t -> RecordType.t -> comparison;
  record_type_from_str : str -> option RecordType.t;
  record_type_debug : RecordType.t -> str;
  (* conversions of the enumerations carried by record data *)
  algorithm_eq_dec :: EqDecision Algorithm;
  algorithm_from_u8 : Z -> Algorithm;
  algorithm_into_u8 : Algorithm -> Z;
  digest_type_from_u8 : Z -> option DigestType.t;
  cert_usage_from_u8 : Z -> CertUsage;
  selector_from_u8 : Z -> Selector;
  matching_from_u8 : Z -> Matching;
  sshfp_algorithm_from_u8 : Z -> SshfpAlgorithm;
  fingerprint_type_from_u8 : Z -> FingerprintType;
  dnskey_flags : bool -> bool -> bool -> Z;
  (* Record *)
  rdata_record_type : RData.t -> RecordType.t;
  record_from_rdata : Name -> Z -> RData.t -> DnsRecord;
  record_name : DnsRecord -> Name;
  record_ttl : DnsRecord -> Z;
  record_record_type : DnsRecord -> RecordType.t;
  record_data : DnsRecord -> option RData.t;
  (* Query *)
  query_query : Name -> RecordType.t -> Query;  (* Query::query *)
  query_name : Query -> Name;
  query_query_type : Query -> RecordType.t;
  (* Edns *)
  edns_new : Edns;
  edns_set_max_payload : Z -> Edns -> Edns;
  edns_set_version : Z -> Edns -> Edns;
  edns_set_dnssec_ok : bool -> Edns -> Edns;
  edns_view : Edns -> EdnsView;
  (* Message *)
  message_new : Message;
  message_view : Message -> MessageView;
  set_id : Z -> Message -> Message;
  set_message_type : MessageType.t -> Message -> Message;
  set_op_code : OpCode.t -> Message -> Message;
  set_authoritative : bool -> Message -> Message;
  set_truncated : bool -> Message -> Message;
  set_recursion_desired : bool -> Message -> Message;
  set_recursion_available : bool -> Message -> Message;
  set_response_code : ResponseCode.t -> Message -> Message;
  add_query : Query -> Message -> Message;
  add_answer : DnsRecord -> Message -> Message;
  add_name_server : DnsRecord -> Message -> Message;
  add_additional : DnsRecord -> Message -> Message;
  take_answers : Message -> Message;
  take_name_servers : Message -> Message;
  take_additionals : Message -> Message;
  set_edns : Edns -> Message -> Message;
  message_to_bytes : Message -> option (list Z);
  message_from_bytes : list Z -> option Message
}.

(** The [base64], [hex] and [sha2] crates. *)
Class Codecs := {
  base64_decode : str -> option (list Z);
  hex_decode : str -> option (list Z);
  sha256 : list Z -> list Z;
  sha384 : list Z -> list Z;
  sha512 : list Z -> list Z
}.

Section getters.
Context `{Hickory}.
Definition message_id (m : Message) : Z := v_id (message_view m).
Definition message_op_code (m : Message) : OpCode.t := v_op_code (message_view m).
Definition message_recursion_desired (m : Message) : bool := v_recursion_desired (message_view m).
Definition message_authoritative (m : Message) : bool := v_authoritative (message_view m).
Definition message_truncated (m : Message) : bool := v_truncated (message_view m).
Definition message_response_code (m : Message) : ResponseCode.t := v_response_code (message_view m).
Definition message_queries (m : Message) : list Query := v_queries (message_view m).
Definition message_answers (m : Message) : list DnsRecord := v_answers (message_view m).
Definition message_name_servers (m : Message) : list DnsRecord := v_name_servers (message_view m).
Definition message_additionals (m : Message) : list DnsRecord := v_additionals (message_view m).
Definition message_extensions (m : Message) : option Edns := v_extensions (message_view m).
Definition edns_max_payload (e : Edns) : Z := v_max_payload (edns_view e).
Definition edns_dnssec_ok (e : Edns) : bool := v_dnssec_ok (edns_view e).

(** The text of an absolute name of ordinary labels: letters in lower case and digits, or a "*". *)
Definition is_host_char (c : char) : bool := (97 <=? c) && (c <=? 122) || (48 <=? c) && (c <=? 57).
Definition plain_label (l : str) : bool :=
  bool_decide (l = [c_star]) || bool_decide (1 <= length l <= 63)%nat && forallb is_host_char l.
Definition dotted (labels : list str) : str := flat_map (fun l => l ++ [c_dot]) labels.
Definition plain_labels (labels : list str) : bool :=
  negb (bool_decide (labels = [])) && forallb plain_label labels && bool_decide (length (dotted labels) <= 254)%nat.

(** The labels of a name as [Eq], [zone_of] and [Ord] compare them: without ASCII case. *)
Definition to_ascii_lowercase (b : Z) : Z := if (65 <=? b) && (b <=? 90) then b + 32 else b.
Definition lower_labels (n : Name) : list (list Z) :=
  map (map to_ascii_lowercase) (name_iter n).

Definition empty_view : MessageView :=
  {| v_id := 0; v_message_type := MessageType.Query; v_op_code := OpCode.Query;
     v_authoritative := false; v_truncated := false; v_recursion_desired := false;
     v_recursion_available := false; v_response_code := ResponseCode.NoError; v_queries := [];
     v_answers := []; v_name_servers := []; v_additionals := []; v_extensions := None |}.
End getters.

(** * Documented behaviour the theorems rely on *)

Class NameLaws `{Hickory} : Prop := {
  (* names compare without case, and a relative name differs from an absolute one *)
  name_eq_spec a b :
    key_equiv a b <-> name_is_fqdn a = name_is_fqdn b /\ lower_labels a = lower_labels b;
  (* the labels of [a] are all at the end of [b] *)
  name_zone_of_spec a b :
    name_zone_of a b = true <-> exists pre, lower_labels b = pre ++ lower_labels a;
  (* the number of labels, not counting a leading "*" *)
  name_num_labels_spec n :
    name_num_labels n = match name_iter n with
                        | l :: ls => if decide (l = [c_star]) then Z.of_nat (length ls)
                                     else Z.of_nat (length (l :: ls))
                        | [] => 0
                        end;
  name_from_labels_spec ls n :
    name_from_labels ls = Some n -> name_iter n = ls /\ name_is_fqdn n = true;
  (* Ord: a total order whose equality is Eq *)
  name_cmp_eq a b : name_cmp a b = Eq <-> key_equiv a b;
  name_cmp_antisym a b : name_cmp b a = CompOpp (name_cmp a b);
  name_cmp_trans a b c : name_cmp a b = Lt -> name_cmp b c = Lt -> name_cmp a c = Lt
}.

(** Such a text is read as a name with these labels, which is printed as the text. *)
Class TextLaws `{Hickory} : Prop := {
  name_from_dotted ls :
    plain_labels ls = true ->
    exists n, name_from_str (dotted ls) = Some n /\ name_iter n = ls /\ name_is_fqdn n = true /\
      name_to_string n = dotted ls
}.

Class QueryLaws `{Hickory} : Prop := {
  query_name_query n t : query_name (query_query n t) = n;
  query_type_query n t : query_query_type (query_query n t) = t
}.

Class RecordLaws `{Hickory} : Prop := {
  record_type_cmp_eq a b : record_type_cmp a b = Eq <-> a = b;
  record_type_cmp_antisym a b : record_type_cmp b a = CompOpp (record_type_cmp a b);
  record_type_cmp_trans a b c :
    record_type_cmp a b = Lt -> record_type_cmp b c = Lt -> record_type_cmp a c = Lt;
  rdata_type_soa m r a b c d e : rdata_record_type (RData.SOA m r a b c d e) = RecordType.SOA;
  rdata_type_a x : rdata_record_type (RData.A x) = RecordType.A;
  rdata_type_aaaa x : rdata_record_type (RData.AAAA x) = RecordType.AAAA;
  rdata_type_txt l : rdata_record_type (RData.TXT l) = RecordType.TXT;
  rdata_type_cname n : rdata_record_type (RData.CNAME n) = RecordType.CNAME;
  rdata_type_ns n : rdata_record_type (RData.NS n) = RecordType.NS;
  record_name_from n t d : record_name (record_from_rdata n t d) = n;
  record_ttl_from n t d : record_ttl (record_from_rdata n t d) = t;
  record_data_from n t d : record_data (record_from_rdata n t d) = Some d;
  record_type_from n t d :
    record_record_type (record_from_rdata n t d) = rdata_record_type d
}.

Class MessageLaws `{Hickory} : Prop := {
  view_new : message_view message_new = empty_view;
  view_set_id x m : message_view (set_id x m) = with_id x (message_view m);
  view_set_message_type x m :
    message_view (set_message_type x m) = with_message_type x (message_view m);
  view_set_op_code x m : message_view (set_op_code x m) = with_op_code x (message_view m);
  view_set_authoritative x m :
    message_view (set_authoritative x m) = with_authoritative x (message_view m);
  view_set_truncated x m : message_view (set_truncated x m) = with_truncated x (message_view m);
  view_set_recursion_desired x m :
    message_view (set_recursion_desired x m) = with_recursion_desired x (message_view m);
  view_set_recursion_available x m :
    message_view (set_recursion_available x m) = with_recursion_available x (message_view m);
  view_set_response_code x m :
    message_view (set_response_code x m) = with_response_code x (message_view m);
  view_add_query x m : message_view (add_query x m) = with_query x (message_view m);
  view_add_answer x m : message_view (add_answer x m) = with_answer x (message_view m);
  view_add_name_server x m :
    message_view (add_name_server x m) = with_name_server x (message_view m);
  view_add_additional x m :
    message_view (add_additional x m) = with_additional x (message_view m);
  view_take_answers m : message_view (take_answers m) = without_answers (message_view m);
  view_take_name_servers m :
    message_view (take_name_servers m) = without_name_servers (message_view m);
  view_take_additionals m :
    message_view (take_additionals m) = without_additionals (message_view m);
  view_set_edns x m : message_view (set_edns x m) = with_edns x (message_view m);
  (* a payload below 512 is treated as 512 *)
  edns_view_set_max_payload x e :
    512 <= x ->
    edns_view (edns_set_max_payload x e) =
    {| v_max_payload := x; v_version := v_version (edns_view e);
       v_dnssec_ok := v_dnssec_ok (edns_view e) |};
  edns_view_set_version x e :
    edns_view (edns_set_version x e) =
    {| v_max_payload := v_max_payload (edns_view e); v_version := x;
       v_dnssec_ok := v_dnssec_ok (edns_view e) |};
  edns_view_set_dnssec_ok x e :
    edns_view (edns_set_dnssec_ok x e) =
    {| v_max_payload := v_max_payload (edns_view e); v_version := v_version (edns_view e);
       v_dnssec_ok := x |};
  edns_new_dnssec_ok : v_dnssec_ok (edns_view edns_new) = false
}.

#[export] Hint Rewrite @view_new @view_set_id @view_set_message_type @view_set_op_code
  @view_set_authoritative @view_set_truncated @view_set_recursion_desired
  @view_set_recursion_available @view_set_response_code @view_add_query @view_add_answer
  @view_add_name_server @view_add_additional @view_take_answers @view_take_name_servers @view_take_additionals
  @view_set_edns using solve [ typeclasses eauto ] : view.

#[export] Hint Rewrite @record_name_from @record_ttl_from @record_data_from @record_type_from
  using solve [ typeclasses eauto ] : record.
