(* ===== verification/CratesModel.v ===== *)
(** A concrete instance of the crate interfaces of [Crates], with proofs of their laws: the
    hypotheses of the theorems can be met, and concrete runs evaluate.  It is a small stand-in, not
    a model of the crates. *)
From S2P Require Import Prelude RustStr HashMap Crates.
From stdpp Require Import sorting.
Open Scope Z_scope.

(** * Comparison functions *)

Section cmp.
Record CmpLaws {A} (cmp : A -> A -> comparison) : Prop := {
  cmp_eq_iff : forall a b, cmp a b = Eq <-> a = b;
  cmp_antisym : forall a b, cmp b a = CompOpp (cmp a b);
  cmp_lt_trans : forall a b c, cmp a b = Lt -> cmp b c = Lt -> cmp a c = Lt
}.

Fixpoint list_cmp {A} (cmp : A -> A -> comparison) (l1 l2 : list A) : comparison :=
  match l1, l2 with
  | [], [] => Eq
  | [], _ :: _ => Lt
  | _ :: _, [] => Gt
  | x :: l1, y :: l2 => match cmp x y with Eq => list_cmp cmp l1 l2 | c => c end
  end.

Definition pair_cmp {A B} (c1 : A -> A -> comparison) (c2 : B -> B -> comparison)
    (x y : A * B) : comparison :=
  match c1 x.1 y.1 with Eq => c2 x.2 y.2 | c => c end.

Definition sum_cmp {A B} (c1 : A -> A -> comparison) (c2 : B -> B -> comparison)
    (x y : A + B) : comparison :=
  match x, y with
  | inl a, inl b => c1 a b
  | inl _, inr _ => Lt
  | inr _, inl _ => Gt
  | inr a, inr b => c2 a b
  end.

Lemma Z_cmp_laws : CmpLaws Z.compare.
Proof.
  split.
  - apply Z.compare_eq_iff.
  - intros. apply Z.compare_antisym.
  - intros a b c. rewrite !Z.compare_lt_iff. lia.
Qed.

Lemma bool_cmp_laws : CmpLaws Bool.compare.
Proof.
  split; [intros [] []|intros [] []|intros [] [] []]; cbn; (congruence || (split; congruence)).
Qed.

Lemma list_cmp_laws {A} (cmp : A -> A -> comparison) : CmpLaws cmp -> CmpLaws (list_cmp cmp).
Proof.
  intros [He Ha Ht]. split.
  - intros l1. induction l1 as [|x l1 IH]; intros [|y l2]; cbn; try done.
    destruct (cmp x y) eqn:E.
    + apply He in E as ->. rewrite IH. split; congruence.
    + split; [done|]. intros [= -> _]. assert (cmp y y = Eq) by by apply He. congruence.
    + split; [done|]. intros [= -> _]. assert (cmp y y = Eq) by by apply He. congruence.
  - intros l1. induction l1 as [|x l1 IH]; intros [|y l2]; cbn; try done.
    rewrite (Ha x y). destruct (cmp x y); cbn; auto.
  - intros l1. induction l1 as [|x l1 IH]; intros [|y l2] [|z l3]; cbn; try done.
    destruct (cmp x y) eqn:E1; try done.
    + apply He in E1 as ->. destruct (cmp y z); try done. apply IH.
    + destruct (cmp y z) eqn:E2; try done.
      * apply He in E2 as ->. by rewrite E1.
      * by rewrite (Ht _ _ _ E1 E2).
Qed.

Lemma pair_cmp_laws {A B} (c1 : A -> A -> comparison) (c2 : B -> B -> comparison) :
  CmpLaws c1 -> CmpLaws c2 -> CmpLaws (pair_cmp c1 c2).
Proof.
  intros [He Ha Ht] [He' Ha' Ht']. unfold pair_cmp. split.
  - intros [a b] [a' b']; cbn. destruct (c1 a a') eqn:E.
    + apply He in E as ->. rewrite He'. split; congruence.
    + split; [done|]. intros [= -> _]. assert (c1 a' a' = Eq) by by apply He. congruence.
    + split; [done|]. intros [= -> _]. assert (c1 a' a' = Eq) by by apply He. congruence.
  - intros [a b] [a' b']; cbn. rewrite (Ha a a'). destruct (c1 a a'); cbn; auto.
  - intros [a b] [a' b'] [a'' b'']; cbn. destruct (c1 a a') eqn:E1; try done.
    + apply He in E1 as ->. destruct (c1 a' a''); try done. apply Ht'.
    + destruct (c1 a' a'') eqn:E2; try done.
      * apply He in E2 as ->. by rewrite E1.
      * by rewrite (Ht _ _ _ E1 E2).
Qed.

Lemma sum_cmp_laws {A B} (c1 : A -> A -> comparison) (c2 : B -> B -> comparison) :
  CmpLaws c1 -> CmpLaws c2 -> CmpLaws (sum_cmp c1 c2).
Proof.
  intros [He Ha Ht] [He' Ha' Ht']. split.
  - intros [a|a] [b|b]; cbn; rewrite ?He, ?He'; split; congruence.
  - intros [a|a] [b|b]; cbn; auto.
  - intros [a|a] [b|b] [c|c]; cbn; eauto; done.
Qed.
End cmp.

(** * Names *)

Record CName := { cn_labels : list (list Z); cn_fqdn : bool }.
#[export] Instance CName_eq_dec : EqDecision CName.
Proof. solve_decision. Defined.

Definition cn_lower (n : CName) : list (list Z) := map (map to_ascii_lowercase) (cn_labels n).
Definition cn_key (n : CName) : bool * list (list Z) := (cn_fqdn n, reverse (cn_lower n)).

Definition cn_cmp (a b : CName) : comparison :=
  pair_cmp Bool.compare (list_cmp (list_cmp Z.compare)) (cn_key a) (cn_key b).

Fixpoint split_dots (cur : str) (s : str) : list str :=
  match s with
  | [] => [cur]
  | c :: s' => if c =? c_dot then cur :: split_dots [] s' else split_dots (cur ++ [c]) s'
  end.

Definition valid_label (l : list Z) : bool :=
  bool_decide (0 < length l <= 63)%nat && forallb (fun c => (33 <=? c) && (c <=? 126) && negb (c =? 92)) l.

Definition cn_from_str (s : str) : option CName :=
  if bool_decide (s = [c_dot]) then Some {| cn_labels := []; cn_fqdn := true |}
  else
    let '(ls, fq) := match reverse (split_dots [] s) with
                     | [] :: ls => (reverse ls, true)
                     | ls => (reverse ls, false)
                     end in
    if forallb valid_label ls then Some {| cn_labels := ls; cn_fqdn := fq |} else None.

Definition cn_to_string (n : CName) : str :=
  match cn_labels n with
  | [] => [c_dot]
  | l :: ls => str_join [c_dot] (l :: ls) ++ (if cn_fqdn n then [c_dot] else [])
  end.

Definition cn_zone_of (a b : CName) : bool :=
  bool_decide (drop (length (cn_lower b) - length (cn_lower a)) (cn_lower b) = cn_lower a).

Definition cn_num_labels (n : CName) : Z :=
  match cn_labels n with
  | l :: ls => if decide (l = [c_star]) then Z.of_nat (length ls) else Z.of_nat (length (l :: ls))
  | [] => 0
  end.

(** * Types *)

#[local] Instance c_data_types : DataTypes := {
  Name := CName; Algorithm := Z; CertUsage := Z; Selector := Z; Matching := Z;
  SshfpAlgorithm := Z; FingerprintType := Z
}.

Record CRecord := { cr_name : CName; cr_ttl : Z; cr_type : RecordType.t; cr_data : option RData.t }.
Record CEdns := { ce_max_payload : Z; ce_version : Z; ce_dnssec_ok : bool }.
Record CMessage := {
  cm_id : Z;
  cm_message_type : MessageType.t;
  cm_op_code : OpCode.t;
  cm_authoritative : bool;
  cm_truncated : bool;
  cm_recursion_desired : bool;
  cm_recursion_available : bool;
  cm_response_code : ResponseCode.t;
  cm_queries : list (CName * RecordType.t);
  cm_answers : list CRecord;
  cm_name_servers : list CRecord;
  cm_additionals : list CRecord;
  cm_extensions : option CEdns
}.

#[local] Instance c_types : HickoryTypes := {
  DnsRecord := CRecord; Query := CName * RecordType.t; Edns := CEdns; Message := CMessage
}.

#[export] Instance dnssec_eq_dec : EqDecision DNSSECRData.t.
Proof. solve_decision. Defined.
#[export] Instance rdata_eq_dec : EqDecision RData.t.
Proof. solve_decision. Defined.
#[export] Instance record_eq_dec : EqDecision CRecord.
Proof. solve_decision. Defined.
#[export] Instance edns_eq_dec : EqDecision CEdns.
Proof. solve_decision. Defined.
#[export] Instance message_eq_dec : EqDecision CMessage.
Proof. solve_decision. Defined.

Definition c_view (m : CMessage) : MessageView :=
  {| v_id := cm_id m; v_message_type := cm_message_type m; v_op_code := cm_op_code m;
     v_authoritative := cm_authoritative m; v_truncated := cm_truncated m;
     v_recursion_desired := cm_recursion_desired m;
     v_recursion_available := cm_recursion_available m;
     v_response_code := cm_response_code m; v_queries := cm_queries m;
     v_answers := cm_answers m; v_name_servers := cm_name_servers m;
     v_additionals := cm_additionals m; v_extensions := cm_extensions m |}.

Definition c_of_view (v : MessageView) : CMessage :=
  {| cm_id := v_id v; cm_message_type := v_message_type v; cm_op_code := v_op_code v;
     cm_authoritative := v_authoritative v; cm_truncated := v_truncated v;
     cm_recursion_desired := v_recursion_desired v;
     cm_recursion_available := v_recursion_available v;
     cm_response_code := v_response_code v; cm_queries := v_queries v;
     cm_answers := v_answers v; cm_name_servers := v_name_servers v;
     cm_additionals := v_additionals v; cm_extensions := v_extensions v |}.

Definition via_view (f : MessageView -> MessageView) (m : CMessage) : CMessage := c_of_view (f (c_view m)).

Definition c_code (c : ResponseCode.t) : Z :=
  match c with
  | ResponseCode.NoError => 0
  | ResponseCode.FormErr => 1
  | ResponseCode.ServFail => 2
  | ResponseCode.NXDomain => 3
  | ResponseCode.NotImp => 4
  | ResponseCode.Refused => 5
  | ResponseCode.Other code => code
  end.

Definition c_of_code (code : Z) : ResponseCode.t :=
  default (ResponseCode.Other code)
    ([ResponseCode.NoError; ResponseCode.FormErr; ResponseCode.ServFail; ResponseCode.NXDomain;
      ResponseCode.NotImp; ResponseCode.Refused] !! Z.to_nat code).

(** A wire form of a plausible size: the identifier in its first two bytes, then whether the question
    is AXFR, whether there is EDNS, the response code and whether it is a response. *)
Definition c_to_bytes (m : CMessage) : option (list Z) :=
  let bytes :=
    u16_to_be_bytes (cm_id m) ++
    [match cm_queries m with (_, RecordType.AXFR) :: _ => 252 | _ => 0 end;
     match cm_extensions m with Some _ => 1 | None => 0 end;
     c_code (cm_response_code m);
     match cm_message_type m with MessageType.Query => 0 | MessageType.Response => 1 end] ++
    replicate (6 + 20 * length (cm_queries m)
               + 40 * (length (cm_answers m) + length (cm_name_servers m) + length (cm_additionals m))
               + match cm_extensions m with Some _ => 11 | None => 0 end) 0 in
  if Z.of_nat (length bytes) <=? 65535 then Some bytes else None.

Definition www_example_com : CName :=
  {| cn_labels := [lit "www"; lit "example"; lit "com"]; cn_fqdn := true |}.

(** A message of at least twelve bytes asks for [www.example.com]; its sections are not read. *)
Definition c_from_bytes (bs : list Z) : option CMessage :=
  match bs with
  | b0 :: b1 :: b2 :: b3 :: b4 :: b5 :: rest =>
      if bool_decide (6 <= length rest)%nat then
        Some {| cm_id := u16_from_be_bytes b0 b1;
                cm_message_type := if b5 =? 1 then MessageType.Response else MessageType.Query;
                cm_op_code := OpCode.Query; cm_authoritative := false; cm_truncated := false;
                cm_recursion_desired := true; cm_recursion_available := false;
                cm_response_code := c_of_code b4;
                cm_queries := [(www_example_com,
                                if b2 =? 252 then RecordType.AXFR else RecordType.A)];
                cm_answers := []; cm_name_servers := []; cm_additionals := [];
                cm_extensions :=
                  if b3 =? 1 then Some {| ce_max_payload := 512; ce_version := 0; ce_dnssec_ok := false |}
                  else None |}
      else None
  | _ => None
  end.

Definition c_rdata_type (d : RData.t) : RecordType.t :=
  match d with
  | RData.A _ => RecordType.A
  | RData.AAAA _ => RecordType.AAAA
  | RData.NS _ => RecordType.NS
  | RData.SOA _ _ _ _ _ _ _ => RecordType.SOA
  | RData.CNAME _ => RecordType.CNAME
  | RData.MX _ _ => RecordType.MX
  | RData.TXT _ => RecordType.TXT
  | RData.PTR _ => RecordType.PTR
  | RData.SRV _ _ _ _ => RecordType.SRV
  | RData.CAA_issue _ _ => RecordType.CAA
  | RData.DNSSEC (DNSSECRData.DNSKEY _ _ _ _ _) => RecordType.DNSKEY
  | RData.DNSSEC (DNSSECRData.SIG _ _ _ _ _ _ _ _ _) => RecordType.SIG
  | RData.DNSSEC (DNSSECRData.NSEC _ _) => RecordType.NSEC
  | RData.DNSSEC (DNSSECRData.DS _ _ _ _) => RecordType.DS
  | RData.DNSSEC (DNSSECRData.Other c) => RecordType.Other c
  | RData.NAPTR _ _ _ _ _ _ => RecordType.NAPTR
  | RData.TLSA _ _ _ _ => RecordType.TLSA
  | RData.SSHFP _ _ _ => RecordType.SSHFP
  | RData.Other c => RecordType.Other c
  end.

Definition rtype_names : list (str * RecordType.t) :=
  [(lit "A", RecordType.A); (lit "AAAA", RecordType.AAAA); (lit "NS", RecordType.NS);
   (lit "CNAME", RecordType.CNAME); (lit "MX", RecordType.MX); (lit "TXT", RecordType.TXT);
   (lit "SOA", RecordType.SOA); (lit "AXFR", RecordType.AXFR); (lit "PTR", RecordType.PTR);
   (lit "SRV", RecordType.SRV); (lit "CAA", RecordType.CAA); (lit "DS", RecordType.DS);
   (lit "DNSKEY", RecordType.DNSKEY); (lit "NSEC", RecordType.NSEC); (lit "SIG", RecordType.SIG);
   (lit "RRSIG", RecordType.Other 46); (lit "NAPTR", RecordType.NAPTR); (lit "TLSA", RecordType.TLSA);
   (lit "SSHFP", RecordType.SSHFP)].

Definition c_rtype_from_str (s : str) : option RecordType.t :=
  snd <$> find (fun p => bool_decide (p.1 = s)) rtype_names.
Definition c_rtype_debug (r : RecordType.t) : str :=
  default (lit "OTHER") (fst <$> find (fun p => bool_decide (p.2 = r)) rtype_names).

#[local] Instance c_hash_key : HashKey CName.
Proof.
  refine {| key_eqb a b := bool_decide (cn_key a = cn_key b) |}.
  split; repeat intro; rewrite ?bool_decide_eq_true in *; congruence.
Defined.

#[local] Instance c_hickory : Hickory := {
  name_hash_key := c_hash_key;
  name_cmp := cn_cmp;
  name_iter := cn_labels;
  name_is_fqdn := cn_fqdn;
  name_num_labels := cn_num_labels;
  name_zone_of := cn_zone_of;
  name_from_labels ls := if forallb valid_label ls then Some {| cn_labels := ls; cn_fqdn := true |} else None;
  name_from_str := cn_from_str;
  name_to_string := cn_to_string;
  name_root := {| cn_labels := []; cn_fqdn := true |};
  name_to_lowercase n := {| cn_labels := cn_lower n; cn_fqdn := cn_fqdn n |};
  name_to_bytes n := Some (concat (map (fun l => Z.of_nat (length l) :: l) (cn_labels n)) ++ [0]);
  record_type_cmp a b := sum_cmp Z.compare Z.compare (RecordType.tag a) (RecordType.tag b);
  record_type_from_str := c_rtype_from_str;
  record_type_debug := c_rtype_debug;
  algorithm_from_u8 z := z;
  algorithm_into_u8 z := z;
  digest_type_from_u8 z :=
    if z =? 2 then Some DigestType.SHA256 else if z =? 4 then Some DigestType.SHA384
    else if z =? 1 then Some (DigestType.Other 1) else None;
  cert_usage_from_u8 z := z;
  selector_from_u8 z := z;
  matching_from_u8 z := z;
  sshfp_algorithm_from_u8 z := z;
  fingerprint_type_from_u8 z := z;
  dnskey_flags z s r := (if z then 256 else 0) + (if s then 1 else 0) + (if r then 128 else 0);
  rdata_record_type := c_rdata_type;
  record_from_rdata n t d :=
    {| cr_name := n; cr_ttl := t; cr_type := c_rdata_type d; cr_data := Some d |};
  record_name := cr_name;
  record_ttl := cr_ttl;
  record_record_type := cr_type;
  record_data := cr_data;
  query_query n t := (n, t);
  query_name := fst;
  query_query_type := snd;
  edns_new := {| ce_max_payload := 512; ce_version := 0; ce_dnssec_ok := false |};
  edns_set_max_payload x e :=
    {| ce_max_payload := Z.max x 512; ce_version := ce_version e; ce_dnssec_ok := ce_dnssec_ok e |};
  edns_set_version x e :=
    {| ce_max_payload := ce_max_payload e; ce_version := x; ce_dnssec_ok := ce_dnssec_ok e |};
  edns_set_dnssec_ok x e :=
    {| ce_max_payload := ce_max_payload e; ce_version := ce_version e; ce_dnssec_ok := x |};
  edns_view e :=
    {| v_max_payload := ce_max_payload e; v_version := ce_version e; v_dnssec_ok := ce_dnssec_ok e |};
  message_new := c_of_view empty_view;
  message_view := c_view;
  set_id x := via_view (with_id x);
  set_message_type x := via_view (with_message_type x);
  set_op_code x := via_view (with_op_code x);
  set_authoritative x := via_view (with_authoritative x);
  set_truncated x := via_view (with_truncated x);
  set_recursion_desired x := via_view (with_recursion_desired x);
  set_recursion_available x := via_view (with_recursion_available x);
  set_response_code x := via_view (with_response_code x);
  add_query x := via_view (with_query x);
  add_answer x := via_view (with_answer x);
  add_name_server x := via_view (with_name_server x);
  add_additional x := via_view (with_additional x);
  take_answers := via_view without_answers;
  take_name_servers := via_view without_name_servers;
  take_additionals := via_view without_additionals;
  set_edns x := via_view (with_edns x);
  message_to_bytes := c_to_bytes;
  message_from_bytes := c_from_bytes
}.

Definition hex_digit (c : char) : option Z := to_digit 16 c.
Fixpoint c_hex_decode (s : str) : option (list Z) :=
  match s with
  | [] => Some []
  | a :: b :: s' =>
      x ← hex_digit a; y ← hex_digit b; l ← c_hex_decode s'; Some (x * 16 + y :: l)
  | _ => None
  end.

(** The standard alphabet, with padding. *)
Definition sextet (c : char) : option Z :=
  if (65 <=? c) && (c <=? 90) then Some (c - 65)
  else if (97 <=? c) && (c <=? 122) then Some (c - 71)
  else if (48 <=? c) && (c <=? 57) then Some (c + 4)
  else if c =? 43 then Some 62 else if c =? 47 then Some 63 else None.

Fixpoint c_base64_decode (s : str) : option (list Z) :=
  match s with
  | [] => Some []
  | [a; b; 61; 61] => x ← sextet a; y ← sextet b; Some [x * 4 + y / 16]
  | [a; b; c; 61] =>
      x ← sextet a; y ← sextet b; z ← sextet c; Some [x * 4 + y / 16; y mod 16 * 16 + z / 4]
  | a :: b :: c :: d :: s' =>
      x ← sextet a; y ← sextet b; z ← sextet c; w ← sextet d; l ← c_base64_decode s';
      Some (x * 4 + y / 16 :: y mod 16 * 16 + z / 4 :: z mod 4 * 64 + w :: l)
  | _ => None
  end.

#[local] Instance c_codecs : Codecs := {
  base64_decode := c_base64_decode;
  hex_decode := c_hex_decode;
  sha256 := take 4; sha384 := take 6; sha512 := take 8
}.

(** * The laws hold *)

#[local] Instance c_name_laws : NameLaws.
Proof.
  assert (Hcmp : CmpLaws (pair_cmp Bool.compare (list_cmp (list_cmp Z.compare)))).
  { auto using pair_cmp_laws, bool_cmp_laws, list_cmp_laws, Z_cmp_laws. }
  split.
  - intros a b. unfold key_equiv. cbn. rewrite bool_decide_eq_true. unfold cn_key, lower_labels, cn_lower. cbn.
    split; [intros [= ? ?%(inj _)]; done|intros [-> ->]; done].
  - intros a b. change (name_zone_of a b) with (cn_zone_of a b).
    change (lower_labels a) with (cn_lower a). change (lower_labels b) with (cn_lower b).
    unfold cn_zone_of. rewrite bool_decide_eq_true. split.
    + intros <-. eexists. symmetry. apply take_drop.
    + intros [pre ->]. rewrite length_app, Nat.add_sub. apply drop_app_length.
  - done.
  - intros ls n. cbn. destruct (forallb _ _); [|done]. by intros [= <-].
  - intros a b. cbn. unfold cn_cmp. unfold key_equiv. cbn. rewrite (cmp_eq_iff _ Hcmp), bool_decide_eq_true. done.
  - intros. apply (cmp_antisym _ Hcmp).
  - intros a b c H1 H2. exact (cmp_lt_trans _ Hcmp _ _ _ H1 H2).
Qed.

#[local] Instance c_record_laws : RecordLaws.
Proof.
  assert (Hcmp : CmpLaws (sum_cmp Z.compare Z.compare)).
  { auto using sum_cmp_laws, Z_cmp_laws. }
  split; try done.
  - intros a b. cbn. rewrite (cmp_eq_iff _ Hcmp). split; [|congruence].
    intros H%(f_equal RecordType.untag).
    assert (forall r, RecordType.untag (RecordType.tag r) = Some r) as Hu by by intros [].
    rewrite !Hu in H. congruence.
  - intros. apply (cmp_antisym _ Hcmp).
  - intros a b c H1 H2. exact (cmp_lt_trans _ Hcmp _ _ _ H1 H2).
Qed.

#[local] Instance c_message_laws : MessageLaws.
Proof. split; try by intros; by destruct (message_view _). all: try done. intros x e ?. cbn. by rewrite Z.max_l. Qed.

#[local] Instance c_query_laws : QueryLaws.
Proof. by split. Qed.

Lemma split_dots_label cur l s : c_dot ∉ l -> split_dots cur (l ++ c_dot :: s) = (cur ++ l) :: split_dots [] s.
Proof.
  revert cur. induction l as [|c l IH]; intros cur Hl; cbn.
  - by rewrite app_nil_r.
  - apply not_elem_of_cons in Hl as [Hc Hl]. destruct (Z.eqb_spec c c_dot); [congruence|].
    rewrite IH by done. by rewrite <- app_assoc.
Qed.

Lemma split_dots_dotted ls : Forall (fun l => c_dot ∉ l) ls -> split_dots [] (dotted ls) = ls ++ [[]].
Proof.
  induction 1 as [|l ls Hl _ IH]; [done|]. change (dotted (l :: ls)) with ((l ++ [c_dot]) ++ dotted ls).
  rewrite <- app_assoc. cbn [app]. by rewrite split_dots_label, IH.
Qed.

Lemma plain_label_valid l : plain_label l = true -> valid_label l = true /\ c_dot ∉ l.
Proof.
  unfold plain_label, valid_label. rewrite orb_true_iff, andb_true_iff, bool_decide_eq_true.
  intros [->|[Hlen%bool_decide_eq_true Hall]]; [by vm_compute; split; [|intros ?%list_elem_of_singleton]|].
  rewrite forallb_forall in Hall. unfold is_host_char in Hall. split.
  - rewrite bool_decide_eq_true_2 by lia. cbn [andb]. apply forallb_forall. intros c Hc. specialize (Hall c Hc). lia.
  - intros Hin%list_elem_of_In. specialize (Hall _ Hin). unfold c_dot in Hall. done.
Qed.

Lemma dotted_join l ls : dotted (l :: ls) = str_join [c_dot] (l :: ls) ++ [c_dot].
Proof.
  revert l. induction ls as [|l' ls IH]; intros l; [by rewrite (app_nil_r (l ++ [c_dot]) : dotted [l] = _)|].
  change (dotted (l :: l' :: ls)) with ((l ++ [c_dot]) ++ dotted (l' :: ls)). rewrite IH.
  change (str_join [c_dot] (l :: l' :: ls)) with (l ++ [c_dot] ++ str_join [c_dot] (l' :: ls)).
  by rewrite <- !app_assoc.
Qed.

#[local] Instance c_text_laws : TextLaws.
Proof.
  split. intros ls. unfold plain_labels. rewrite !andb_true_iff, negb_true_iff, bool_decide_eq_false.
  intros [[Hne Hall] _]. rewrite forallb_forall in Hall.
  assert (Forall (fun l => valid_label l = true /\ c_dot ∉ l) ls) as Hv.
  { apply Forall_forall. intros l Hl%list_elem_of_In. by apply plain_label_valid, Hall. }
  exists {| cn_labels := ls; cn_fqdn := true |}. split_and!; [|done|done|].
  - change (cn_from_str (dotted ls) = Some {| cn_labels := ls; cn_fqdn := true |}).
    unfold cn_from_str. destruct ls as [|l ls]; [done|]. rewrite bool_decide_eq_false_2.
    + rewrite split_dots_dotted by (by eapply Forall_impl; [exact Hv|intros ? []]).
      rewrite reverse_snoc, reverse_involutive.
      assert (forallb valid_label (l :: ls) = true) as ->; [|done].
      apply forallb_forall. intros l' Hl'%list_elem_of_In. rewrite Forall_forall in Hv. by apply Hv.
    + rewrite dotted_join. inversion Hv as [|? ? [Hl _] _]; subst. destruct l as [|c l]; [done|].
      destruct ls; cbn; intros [= _ Hx]; by apply app_eq_nil in Hx as [_ ?].
  - change (cn_to_string {| cn_labels := ls; cn_fqdn := true |} = dotted ls).
    unfold cn_to_string. cbn [cn_labels cn_fqdn]. destruct ls as [|l ls]; [done|]. by rewrite dotted_join.
Qed.

(** Importing this module inside a Section makes the instance the one that is found. *)
Module Concrete.
#[export] Existing Instances c_types c_hash_key c_hickory c_codecs c_name_laws
  c_record_laws c_message_laws c_query_laws c_text_laws.
End Concrete.
