(* ===== verification/Zone.v ===== *)
(** [src/src/zone.rs], lines 1-170: zones, their records, and the store of all zones.  A zone is
    related to the plain list of records that were added to it; every query of the zone is specified
    on that list. *)
From S2P Require Import Prelude RustStr HashMap Crates.
From stdpp Require Import sorting.
Open Scope Z_scope.

Section zone.
Context `{Hickory}.

(** [SoaRecord] *)
Record SoaRecord := {
  mname : Name;
  rname : Name;
  serial : Z;
  refresh : Z;
  retry : Z;
  expire : Z;
  minimum : Z
}.

(** [Zone]: the two levels of [records] are keyed by owner name and by record type. *)
Record Zone := {
  origin : Name;
  soa : SoaRecord;
  records : HashMap Name (gmap RecordType.t (list DnsRecord))
}.

(** * Operations *)

(** [Zone::new] *)
Definition Zone_new (origin : Name) (soa : SoaRecord) : Zone :=
  {| origin := origin; soa := soa; records := [] |}.

(** [Zone::add_record] *)
Definition add_record (z : Zone) (record : DnsRecord) : Zone :=
  let name := record_name record in
  let rtype := record_record_type record in
  {| origin := origin z; soa := soa z;
     records :=
       hm_entry ∅ (fun types => <[rtype := default [] (types !! rtype) ++ [record]]> types)
         name (records z) |}.

(** [Zone::lookup] *)
Definition zone_lookup (z : Zone) (name : Name) (rtype : RecordType.t) : option (list DnsRecord) :=
  types ← hm_get name (records z);
  types !! rtype.

(** [Zone::contains_name] *)
Definition contains_name (z : Zone) (name : Name) : bool := hm_contains_key name (records z).

(** The wildcard name tried for a given [skip]. *)
Definition wildcard_name (labels : list (list Z)) (skip : nat) : option Name :=
  name_from_labels ([c_star] :: drop skip labels).

(** [Zone::lookup_wildcard] *)
Definition lookup_wildcard (z : Zone) (name : Name) (rtype : RecordType.t)
    : option (list DnsRecord) :=
  let labels := name_iter name in
  first_some
    (fun skip => wildcard ← wildcard_name labels skip; zone_lookup z wildcard rtype)
    (seq 1 (length labels - 1)).

(** [Zone::get_soa_record] *)
Definition get_soa_record (z : Zone) : DnsRecord :=
  let s := soa z in
  let rdata := RData.SOA (mname s) (rname s) (serial s) (refresh s) (retry s) (expire s) (minimum s) in
  record_from_rdata (origin z) (minimum s) rdata.

(** The orders of [sorted_names.sort()] and [sorted_types.sort()]. *)
Definition name_le (a b : Name) : Prop := name_cmp a b ≠ Gt.
Definition record_type_le (a b : RecordType.t) : Prop := record_type_cmp a b ≠ Gt.

#[export] Instance name_le_dec a b : Decision (name_le a b).
Proof. unfold name_le. apply _. Defined.
#[export] Instance record_type_le_dec a b : Decision (record_type_le a b).
Proof. unfold record_type_le. apply _. Defined.

(** The loop over the sorted record types of one name. *)
Definition push_types (types : gmap RecordType.t (list DnsRecord)) (acc : list DnsRecord)
    : list DnsRecord :=
  let sorted_types := merge_sort record_type_le (map_to_list types).*1 in
  fold_left
    (fun acc record_type =>
       if decide (record_type = RecordType.SOA) then acc
       else match types !! record_type with
            | Some record_vec => fold_left (fun acc record => acc ++ [record]) record_vec acc
            | None => acc
            end)
    sorted_types acc.

(** [Zone::get_all_records] *)
Definition get_all_records (z : Zone) : list DnsRecord :=
  let out := [get_soa_record z] in
  let sorted_names := merge_sort name_le (hm_keys (records z)) in
  let out :=
    fold_left
      (fun out name => match hm_get name (records z) with
                       | Some record_map => push_types record_map out
                       | None => out
                       end)
      sorted_names out in
  out ++ [get_soa_record z].

(** [ZoneStore] *)
Record ZoneStore := { zones : HashMap Name Zone }.

Definition ZoneStore_new : ZoneStore := {| zones := [] |}.

(** [ZoneStore::add_zone] *)
Definition add_zone (s : ZoneStore) (z : Zone) : ZoneStore :=
  {| zones := hm_insert (origin z) z (zones s) |}.

(** The body of the loop of [find_zone]: [(best_match, best_match_labels)] is the state. *)
Definition best_step (name : Name) (best : option Zone * Z) (z : Zone) : option Zone * Z :=
  let '(best_match, best_match_labels) := best in
  if name_zone_of (origin z) name then
    let labels := name_num_labels (origin z) in
    if best_match_labels <? labels then (Some z, labels) else best
  else best.

(** [ZoneStore::find_zone] *)
Definition find_zone (s : ZoneStore) (name : Name) : option Zone :=
  match hm_get name (zones s) with
  | Some z => Some z
  | None => (fold_left (best_step name) (hm_values (zones s)) (None, 0)).1
  end.

(** * Specification vocabulary *)

(** The zone that results from adding a list of records, in order, to a new zone. *)
Definition zone_of_list (o : Name) (s : SoaRecord) (rs : list DnsRecord) : Zone :=
  fold_left add_record rs (Zone_new o s).

Definition owned_by (n : Name) (r : DnsRecord) : bool := key_eqb (record_name r) n.
Definition matches (n : Name) (t : RecordType.t) (r : DnsRecord) : bool :=
  owned_by n r && bool_decide (record_record_type r = t).

(** What a lookup must answer on the list of records. *)
Definition lookup_spec (rs : list DnsRecord) (n : Name) (t : RecordType.t)
    : option (list DnsRecord) :=
  match List.filter (matches n t) rs with
  | [] => None
  | l => Some l
  end.

(** The zone invariant: distinct names, and every record filed under its own name and type. *)
Definition zone_wf (z : Zone) : Prop :=
  hm_wf (records z) /\
  forall n types, (n, types) ∈ records z ->
    forall t rs, types !! t = Some rs ->
      rs ≠ [] /\ Forall (fun r => key_equiv (record_name r) n /\ record_record_type r = t) rs.

(** The store invariant: distinct origins, every zone filed under its own origin. *)
Definition store_wf (s : ZoneStore) : Prop :=
  hm_wf (zones s) /\ forall k z, (k, z) ∈ zones s -> key_equiv k (origin z).

(** Origins as the configuration documents them: absolute names that are not wildcards. *)
Definition plain_origin (n : Name) : Prop :=
  name_is_fqdn n = true /\ head (name_iter n) ≠ Some [c_star].
End zone.
