(* ===== verification/Fixtures.v ===== *)
(** The zones the repository's unit tests build, over the concrete crate instance: the inputs of the
    witnesses. *)
From S2P Require Import Prelude RustStr HashMap Crates CratesModel Zone.
Open Scope Z_scope.

Import Concrete.

(** [Name::from_str(s).unwrap()] *)
Definition nm (s : string) : Name := default name_root (name_from_str (lit s)).

Definition a_rdata (a b c d : Z) : RData.t := RData.A (a, b, c, d).

(** [create_test_zone] of the tests of [protocol.rs] *)
Definition create_test_zone : Zone :=
  let origin := nm "example.com." in
  let soa := {| mname := nm "ns1.example.com."; rname := nm "admin.example.com.";
                serial := 2025120601; refresh := 7200; retry := 3600; expire := 1209600;
                minimum := 86400 |} in
  let zone := Zone_new origin soa in
  let a_record := record_from_rdata (nm "www.example.com.") 3600 (a_rdata 192 0 2 1) in
  let zone := add_record zone a_record in
  let ns_record := record_from_rdata origin 3600 (RData.NS (nm "ns1.example.com.")) in
  add_record zone ns_record.

(** The zone of [test_wildcard_query]. *)
Definition wildcard_test_zone : Zone :=
  let origin := nm "example.com." in
  let soa := {| mname := nm "ns1.example.com."; rname := nm "admin.example.com.";
                serial := 2025120601; refresh := 7200; retry := 3600; expire := 1209600;
                minimum := 86400 |} in
  let zone := Zone_new origin soa in
  let zone := add_record zone
    (record_from_rdata (nm "*.example.com.") 3600 (a_rdata 192 0 2 100)) in
  let zone := add_record zone
    (record_from_rdata (nm "www.example.com.") 3600 (a_rdata 192 0 2 10)) in
  add_record zone (record_from_rdata origin 3600 (RData.NS (nm "ns1.example.com."))).

Definition test_store : ZoneStore := add_zone ZoneStore_new create_test_zone.
Definition wildcard_store : ZoneStore := add_zone ZoneStore_new wildcard_test_zone.
