(* ===== verification/ZoneTransfer.v ===== *)
(** Theorems about [Zone::get_all_records], the source of a zone transfer. *)
From stdpp Require Import sorting.
From S2P Require Import Prelude RustStr HashMap Crates CratesModel Zone Fixtures ZoneFacts.
Open Scope Z_scope.

Section transfer.
Context `{Hickory}.

(** The records of one name and of a whole table that a transfer lists, without the order. *)
Definition kept (t : RecordType.t) (rs : list DnsRecord) : list DnsRecord :=
  if decide (t = RecordType.SOA) then [] else rs.
Definition types_records (types : gmap RecordType.t (list DnsRecord)) : list DnsRecord :=
  flat_map (fun p => kept p.1 p.2) (map_to_list types).
Definition table_records (m : HashMap Name (gmap RecordType.t (list DnsRecord))) : list DnsRecord :=
  flat_map (fun p => types_records p.2) m.

Definition sorted_types (types : gmap RecordType.t (list DnsRecord)) : list RecordType.t :=
  merge_sort record_type_le (map_to_list types).*1.
Definition sorted_type_records (types : gmap RecordType.t (list DnsRecord)) : list DnsRecord :=
  flat_map (fun t => kept t (default [] (types !! t))) (sorted_types types).

(** The records of a transfer between the two SOA records. *)
Definition transfer_body (z : Zone) : list DnsRecord :=
  flat_map (fun n => sorted_type_records (default ∅ (hm_get n (records z))))
    (merge_sort name_le (hm_keys (records z))).

Lemma fold_left_push {A} (l acc : list A) : fold_left (fun acc x => acc ++ [x]) l acc = acc ++ l.
Proof.
  revert acc. induction l as [|x l IH]; intros acc; cbn; [by rewrite app_nil_r|].
  by rewrite IH, <- app_assoc.
Qed.

Lemma fold_left_flat_map {A B} (f : A -> list B) (step : list B -> A -> list B) l acc :
  (forall acc x, step acc x = acc ++ f x) -> fold_left step l acc = acc ++ flat_map f l.
Proof.
  intros Hf. revert acc. induction l as [|x l IH]; intros acc; cbn; [by rewrite app_nil_r|].
  by rewrite IH, Hf, <- app_assoc.
Qed.

Lemma push_types_eq types acc : push_types types acc = acc ++ sorted_type_records types.
Proof.
  unfold push_types, sorted_type_records. apply fold_left_flat_map. intros acc' t.
  unfold kept. case_decide; [by rewrite app_nil_r|].
  destruct (types !! t); cbn; [apply fold_left_push|by rewrite app_nil_r].
Qed.

Lemma sorted_type_records_empty : sorted_type_records ∅ = [].
Proof. unfold sorted_type_records, sorted_types. by rewrite map_to_list_empty. Qed.

(** The program's accumulation loop in closed form. *)
Lemma get_all_records_eq z :
  get_all_records z = get_soa_record z :: transfer_body z ++ [get_soa_record z].
Proof.
  unfold get_all_records, transfer_body. rewrite app_comm_cons. f_equal.
  change (get_soa_record z :: ?l) with ([get_soa_record z] ++ l).
  apply fold_left_flat_map. intros acc n.
  destruct (hm_get n (records z)); cbn; [apply push_types_eq|].
  by rewrite sorted_type_records_empty, app_nil_r.
Qed.

(** ** The contents *)

Lemma flat_map_keys {A B} `{Countable A} {V} (f : A -> V -> list B) (d : V) (m : gmap A V) :
  flat_map (fun k => f k (default d (m !! k))) (map_to_list m).*1 =
  flat_map (fun p => f p.1 p.2) (map_to_list m).
Proof.
  assert (forall l, (forall k v, (k, v) ∈ l -> m !! k = Some v) ->
    flat_map (fun k => f k (default d (m !! k))) l.*1 = flat_map (fun p => f p.1 p.2) l) as Hl.
  { induction l as [|[k v] l IH]; intros Hin; cbn; [done|].
    rewrite (Hin k v) by left. cbn. f_equal. apply IH. intros. apply Hin. by right. }
  apply Hl. intros k v. apply elem_of_map_to_list.
Qed.

Lemma sorted_type_records_perm types : sorted_type_records types ≡ₚ types_records types.
Proof.
  unfold sorted_type_records, sorted_types, types_records.
  rewrite merge_sort_Permutation. by rewrite (flat_map_keys kept).
Qed.

Lemma flat_map_hm_keys {K V B} `{HashKey K} (f : V -> list B) (d : V) (m : HashMap K V) :
  hm_wf m ->
  flat_map (fun k => f (default d (hm_get k m))) (hm_keys m) = flat_map (fun p => f p.2) m.
Proof.
  intros Hwf.
  assert (forall l, (forall k v, (k, v) ∈ l -> hm_get k m = Some v) ->
    flat_map (fun k => f (default d (hm_get k m))) (hm_keys l) = flat_map (fun p => f p.2) l) as Hl.
  { induction l as [|[k v] l IH]; intros Hin; cbn; [done|].
    rewrite (Hin k v) by left. cbn. f_equal. apply IH. intros. apply Hin. by right. }
  apply Hl. intros k v. by apply hm_elem_get.
Qed.

Lemma flat_map_perm_ext {A B} (f g : A -> list B) l :
  (forall x, x ∈ l -> f x ≡ₚ g x) -> flat_map f l ≡ₚ flat_map g l.
Proof.
  induction l as [|x l IH]; intros Hfg; cbn; [done|].
  rewrite (Hfg x) by left. rewrite IH; [done|]. intros. apply Hfg. by right.
Qed.

Lemma transfer_body_perm z : zone_wf z -> transfer_body z ≡ₚ table_records (records z).
Proof.
  intros [Hwf _]. unfold transfer_body, table_records.
  rewrite merge_sort_Permutation, (flat_map_hm_keys sorted_type_records) by done.
  apply flat_map_perm_ext. intros p _. apply sorted_type_records_perm.
Qed.

Lemma types_records_insert types t r :
  types_records (<[t := default [] (types !! t) ++ [r]]> types) ≡ₚ types_records types ++ kept t [r].
Proof.
  unfold types_records. destruct (types !! t) as [l|] eqn:E; cbn.
  - rewrite <- (insert_id types t l) at 2 by done.
    rewrite <- !(insert_delete_eq types), !map_to_list_insert by apply lookup_delete_eq. cbn.
    unfold kept. case_decide; [by rewrite app_nil_r|].
    rewrite <- !app_assoc. apply Permutation_app_head, Permutation_app_comm.
  - rewrite map_to_list_insert by done. cbn. apply Permutation_app_comm.
Qed.

Lemma table_records_entry n t r m :
  table_records (hm_entry ∅ (fun types => <[t := default [] (types !! t) ++ [r]]> types) n m)
  ≡ₚ table_records m ++ kept t [r].
Proof.
  unfold table_records. induction m as [|[k types] m IH]; cbn.
  - rewrite types_records_insert, app_nil_r. done.
  - destruct (key_eqb k n); cbn.
    + rewrite types_records_insert. rewrite <- !app_assoc.
      apply Permutation_app_head, Permutation_app_comm.
    + by rewrite IH, app_assoc.
Qed.

Definition non_soa (r : DnsRecord) : bool := negb (bool_decide (record_record_type r = RecordType.SOA)).

Lemma table_records_of_list o s rs :
  table_records (records (zone_of_list o s rs)) ≡ₚ List.filter non_soa rs.
Proof.
  induction rs as [|r rs IH] using rev_ind; [done|].
  rewrite zone_of_list_snoc. cbn [add_record records]. rewrite table_records_entry, IH.
  rewrite List.filter_app. cbn. unfold kept, non_soa.
  case_decide; case_bool_decide; done.
Qed.

(** ** The order *)

Definition transfer_le (r1 r2 : DnsRecord) : Prop :=
  match name_cmp (record_name r1) (record_name r2) with
  | Lt => True
  | Eq => record_type_le (record_record_type r1) (record_record_type r2)
  | Gt => False
  end.

Lemma StronglySorted_flat_map {A B} (R : relation A) (S : relation B) (f : A -> list B) l :
  StronglySorted R l ->
  NoDup l ->
  (forall x, x ∈ l -> StronglySorted S (f x)) ->
  (forall x y b c, x ∈ l -> y ∈ l -> x ≠ y -> R x y -> b ∈ f x -> c ∈ f y -> S b c) ->
  StronglySorted S (flat_map f l).
Proof.
  induction 1 as [|x l Hl IH Hx]; intros Hnd Hf HR; cbn; [constructor|].
  apply NoDup_cons in Hnd as [Hnx Hnd].
  apply StronglySorted_app. split_and!.
  - intros b c Hb [y [Hy Hc]]%list_elem_of_In%in_flat_map.
    apply list_elem_of_In in Hy, Hc.
    rewrite Forall_forall in Hx.
    eapply (HR x y); [left|by right|set_solver|by apply Hx|done|done].
  - apply Hf. left.
  - apply IH; [done| |].
    + intros. apply Hf. by right.
    + intros y z b c ? ?. apply HR; by right.
Qed.

Lemma elem_of_sorted_type_records types r :
  r ∈ sorted_type_records types ->
  exists t rs, types !! t = Some rs /\ r ∈ rs /\ t ≠ RecordType.SOA.
Proof.
  unfold sorted_type_records, kept. intros [t [_ Hr]]%list_elem_of_In%in_flat_map.
  apply list_elem_of_In in Hr. case_decide; [set_solver|].
  destruct (types !! t) as [rs|] eqn:E; cbn in Hr; [|set_solver]. by exists t, rs.
Qed.

Context `{!NameLaws} `{!RecordLaws}.

(** The records of one name are sorted by type. *)
Lemma sorted_type_records_sorted n types :
  (forall t rs, types !! t = Some rs ->
     Forall (fun r => key_equiv (record_name r) n /\ record_record_type r = t) rs) ->
  StronglySorted transfer_le (sorted_type_records types).
Proof.
  intros Hz.
  assert (forall r1 r2, key_equiv (record_name r1) n -> key_equiv (record_name r2) n ->
            record_type_le (record_record_type r1) (record_record_type r2) ->
            transfer_le r1 r2) as Hle.
  { intros r1 r2 Hn1 Hn2 Ht. unfold transfer_le.
    assert (key_equiv (record_name r1) (record_name r2)) as ->%name_cmp_eq
      by (transitivity n; [done|by symmetry]).
    done. }
  assert (forall t r, r ∈ kept t (default [] (types !! t)) ->
            key_equiv (record_name r) n /\ record_record_type r = t) as Hk.
  { intros t r. unfold kept. case_decide; [set_solver|].
    destruct (types !! t) as [rs|] eqn:E; cbn; [|set_solver].
    intros Hr. specialize (Hz t rs E). rewrite Forall_forall in Hz. by apply Hz. }
  unfold sorted_type_records.
  apply (StronglySorted_flat_map record_type_le).
  - apply (StronglySorted_merge_sort _).
  - unfold sorted_types. rewrite merge_sort_Permutation. apply NoDup_fst_map_to_list.
  - intros t _. assert (forall l, (forall r, r ∈ l -> key_equiv (record_name r) n /\
                                                   record_record_type r = t) ->
                                  StronglySorted transfer_le l) as Hl.
    { induction l as [|r l IH]; intros Hr; constructor.
      - apply IH. intros. apply Hr. by right.
      - apply Forall_forall. intros r' Hr'.
        destruct (Hr r) as [? E1]; [left|]. destruct (Hr r') as [? E2]; [by right|].
        apply Hle; [done|done|]. rewrite E1, E2. destruct (record_type_le_total t t); done. }
    apply Hl. intros r. apply Hk.
  - intros t1 t2 r1 r2 _ _ _ Ht [? <-]%Hk [? <-]%Hk. by apply Hle.
Qed.

Lemma transfer_body_sorted z : zone_wf z -> StronglySorted transfer_le (transfer_body z).
Proof.
  intros [Hwf Hz].
  assert (forall n r, n ∈ merge_sort name_le (hm_keys (records z)) ->
            r ∈ sorted_type_records (default ∅ (hm_get n (records z))) ->
            key_equiv (record_name r) n) as Howner.
  { intros n r _ Hr. destruct (hm_get n (records z)) as [types|] eqn:E; cbn in Hr.
    - destruct (hm_get_elem _ _ _ E) as (n' & Hin & Hn').
      destruct (elem_of_sorted_type_records _ _ Hr) as (t & rs & Ht & Hr' & _).
      destruct (Hz n' types Hin t rs Ht) as [_ Hall]. rewrite Forall_forall in Hall.
      transitivity n'; [by apply Hall|done].
    - rewrite sorted_type_records_empty in Hr. set_solver. }
  unfold transfer_body. apply (StronglySorted_flat_map name_le).
  - apply (StronglySorted_merge_sort _).
  - rewrite merge_sort_Permutation. by apply hm_keys_NoDup.
  - intros n Hn. destruct (hm_get n (records z)) as [types|] eqn:E; cbn.
    + destruct (hm_get_elem _ _ _ E) as (n' & Hin & _).
      apply (sorted_type_records_sorted n'). intros t rs Ht. by apply (Hz n' types Hin t rs).
    + rewrite sorted_type_records_empty. constructor.
  - intros n1 n2 r1 r2 Hn1 Hn2 Hne Hle Hr1%(Howner _ _ Hn1) Hr2%(Howner _ _ Hn2).
    rewrite merge_sort_Permutation in Hn1, Hn2.
    assert (name_cmp n1 n2 = Lt) as Hlt.
    { destruct (name_cmp n1 n2) eqn:E; [|done|done]. apply name_cmp_eq in E.
      destruct Hne. exact (hm_keys_inj n1 n2 _ Hwf Hn1 Hn2 E). }
    unfold transfer_le. enough (name_cmp (record_name r1) (record_name r2) = Lt) as -> by done.
    apply (cmp_lt_eq name_cmp key_equiv name_cmp_eq name_cmp_antisym name_cmp_trans _ n2);
      [|apply name_cmp_eq; by symmetry].
    apply (cmp_eq_lt name_cmp key_equiv name_cmp_eq name_cmp_antisym name_cmp_trans _ n1);
      [by apply name_cmp_eq|done].
Qed.

(** The iteration order of the hash map does not show in a transfer. *)
Lemma transfer_body_order z1 z2 :
  zone_wf z1 -> records z1 ≡ₚ records z2 -> transfer_body z1 = transfer_body z2.
Proof.
  intros [Hwf _] Hp. unfold transfer_body.
  assert (merge_sort name_le (hm_keys (records z1)) = merge_sort name_le (hm_keys (records z2))) as ->.
  { assert (hm_keys (records z1) ≡ₚ hm_keys (records z2)) as Hk by (unfold hm_keys; by rewrite Hp).
    eapply (StronglySorted_unique_strong name_le).
    - intros a b. rewrite !merge_sort_Permutation, <- Hk. intros Ha Hb Hab Hba.
      eapply hm_keys_inj; [done..|]. by apply name_le_antisym.
    - apply (StronglySorted_merge_sort _).
    - apply (StronglySorted_merge_sort _).
    - by rewrite !merge_sort_Permutation. }
  apply flat_map_ext. intros n. by rewrite (hm_get_perm n _ _ Hwf Hp).
Qed.
End transfer.

(** * Properties *)

(** C28 (functional): a zone transfer starts and ends with the zone's SOA record and lists in between
    exactly the added records that are not SOA records, each as often as it was added, ordered by
    owner name and within one owner by record type. *)
Theorem transfer_lists_zone `{Hickory} `{!NameLaws} `{!RecordLaws}
    (o : Name) (s : SoaRecord) (rs : list DnsRecord) :
  let z := zone_of_list o s rs in
  exists body,
    get_all_records z = get_soa_record z :: body ++ [get_soa_record z] /\
    body ≡ₚ List.filter non_soa rs /\
    StronglySorted transfer_le body.
Proof.
  intros z. exists (transfer_body z).
  pose proof (zone_wf_of_list o s rs) as Hwf. split_and!.
  - apply get_all_records_eq.
  - unfold z. by rewrite transfer_body_perm, table_records_of_list.
  - by apply transfer_body_sorted.
Qed.

(** The transfer of a well-formed zone does not depend on the iteration order of its
    hash map: two tables with the same entries in any order give the same list of records. *)
Theorem transfer_order_independent `{Hickory} `{!NameLaws} `{!RecordLaws} (z1 z2 : Zone) :
  zone_wf z1 -> origin z1 = origin z2 -> soa z1 = soa z2 -> records z1 ≡ₚ records z2 ->
  get_all_records z1 = get_all_records z2.
Proof.
  intros Hwf Ho Hs Hp. rewrite !get_all_records_eq, (transfer_body_order z1 z2 Hwf Hp).
  unfold get_soa_record. by rewrite Ho, Hs.
Qed.

(** * Witnesses *)

Section witnesses.
Import Concrete.

Definition transfer_example : list DnsRecord :=
  [record_from_rdata (nm "www.example.com.") 300 (a_rdata 192 0 2 2);
   record_from_rdata (nm "example.com.") 300 (RData.NS (nm "ns1.example.com."));
   get_soa_record create_test_zone;
   record_from_rdata (nm "WWW.example.com.") 300 (a_rdata 192 0 2 3)].

Lemma transfer_lists_zone_witness :
  let z := zone_of_list (nm "example.com.") (soa create_test_zone) transfer_example in
  exists body,
    get_all_records z = get_soa_record z :: body ++ [get_soa_record z] /\
    body ≡ₚ List.filter non_soa transfer_example /\
    StronglySorted transfer_le body.
Proof. apply transfer_lists_zone. Defined.

Lemma transfer_order_independent_witness :
  let z := zone_of_list (nm "example.com.") (soa create_test_zone) transfer_example in
  get_all_records z =
  get_all_records {| origin := origin z; soa := soa z; records := reverse (records z) |}.
Proof.
  apply transfer_order_independent; [apply zone_wf_of_list|done|done|].
  cbn [records]. by rewrite reverse_Permutation.
Defined.
End witnesses.
