(* ===== verification/ZoneStoreFacts.v ===== *)
(** Theorems about wildcard lookup and about [ZoneStore::find_zone]. *)
From S2P Require Import Prelude RustStr HashMap Crates CratesModel Zone Fixtures ZoneFacts.
Open Scope Z_scope.

(** * Wildcards *)

Section wildcard.
Context `{Hickory}.




End wildcard.

(** * The store *)

Section store.
Context `{Hickory}.

Lemma store_wf_new : store_wf ZoneStore_new.
Proof. split; [done|]. cbn. set_solver. Qed.

Lemma store_wf_add_zone s z : store_wf s -> store_wf (add_zone s z).
Proof.
  intros [Hwf Hs]. split; [by apply hm_wf_insert|]. cbn.
  intros k z' [Hin|[(z0 & Hin & Heq & ->)|(-> & _ & ->)]]%hm_entry_elem.
  - by apply Hs.
  - done.
  - reflexivity.
Qed.

Lemma hm_get_equiv {K V} `{HashKey K} (k k' : K) (m : HashMap K V) :
  key_equiv k k' -> hm_get k m = hm_get k' m.
Proof. intros Hk. by apply hm_get_proper. Qed.

Lemma store_get s z name :
  store_wf s -> z ∈ hm_values (zones s) -> key_equiv (origin z) name ->
  hm_get name (zones s) = Some z.
Proof.
  intros [Hwf Hs] [[k z'] [-> Hin]]%list_elem_of_fmap Heq. cbn in *.
  rewrite <- (hm_get_equiv k); [by apply hm_elem_get|].
  transitivity (origin z'); [by apply Hs|done].
Qed.

Lemma store_get_inv s z name :
  store_wf s -> hm_get name (zones s) = Some z ->
  z ∈ hm_values (zones s) /\ key_equiv (origin z) name.
Proof.
  intros [Hwf Hs] (k & Hin & Hk)%hm_get_elem. split.
  - apply list_elem_of_fmap. by exists (k, z).
  - transitivity k; [symmetry; by apply Hs|done].
Qed.

(** ** The search loop *)

Definition encloses (z : Zone) (name : Name) : Prop := name_zone_of (origin z) name = true.

Definition best_inv (name : Name) (seen : list Zone) (best : option Zone * Z) : Prop :=
  match best with
  | (None, n) =>
      n = 0 /\ forall z, z ∈ seen -> encloses z name -> name_num_labels (origin z) <= 0
  | (Some z, n) =>
      z ∈ seen /\ encloses z name /\ n = name_num_labels (origin z) /\ 0 < n /\
      forall z', z' ∈ seen -> encloses z' name -> name_num_labels (origin z') <= n
  end.

Lemma best_inv_step name seen best z :
  best_inv name seen best -> best_inv name (seen ++ [z]) (best_step name best z).
Proof.
  assert (Hsnoc : forall (P : Zone -> Prop), (forall z', z' ∈ seen -> encloses z' name -> P z') ->
            (encloses z name -> P z) -> forall z', z' ∈ seen ++ [z] -> encloses z' name -> P z').
  { intros P H1 H2 z' [?| ->%list_elem_of_singleton]%elem_of_app; auto. }
  unfold best_step, best_inv, encloses in *.
  destruct best as [[z0|] n]; [intros (Hin & Hz & -> & Hpos & Hmax)|intros [-> Hmax]];
    (destruct (name_zone_of (origin z) name) eqn:E;
      [match goal with |- context [?a <? ?b] => destruct (Z.ltb_spec a b) end|]);
    split_and!; try done;
    first [ lia | apply elem_of_app; first [by left | by right; left]
          | apply Hsnoc; [intros z' Hin' Hz'; specialize (Hmax z' Hin' Hz'); lia
                         |intros; (congruence || lia)] ].
Qed.

Lemma best_inv_fold name l : best_inv name l (fold_left (best_step name) l (None, 0)).
Proof.
  induction l as [|z l IH] using rev_ind; [split; [done|set_solver]|].
  rewrite fold_left_app. by apply best_inv_step.
Qed.

(** ** Longest match *)

Context `{!NameLaws}.

Definition depth (z : Zone) : nat := length (lower_labels (origin z)).

(** [z] is the zone a name belongs to: its origin encloses the name, no origin that does has more
    labels, and the root zone answers for the root only. *)
Definition best_zone (s : ZoneStore) (name : Name) (z : Zone) : Prop :=
  z ∈ hm_values (zones s) /\ encloses z name /\
  (forall z', z' ∈ hm_values (zones s) -> encloses z' name -> (depth z' <= depth z)%nat) /\
  (depth z ≠ 0%nat \/ key_equiv (origin z) name).

Definition plain_store (s : ZoneStore) : Prop :=
  store_wf s /\ Forall (fun z => plain_origin (origin z)) (hm_values (zones s)).

Lemma depth_num_labels z : plain_origin (origin z) -> name_num_labels (origin z) = Z.of_nat (depth z).
Proof.
  intros [_ Hstar]. rewrite name_num_labels_spec. unfold depth, lower_labels.
  rewrite length_map. destruct (name_iter (origin z)) as [|l ls]; [done|].
  case_decide as Hl; [|done]. subst. done.
Qed.

Lemma encloses_equiv z name : key_equiv (origin z) name -> encloses z name.
Proof. intros [_ Hl]%name_eq_spec. apply name_zone_of_spec. exists []. by rewrite Hl. Qed.

Lemma encloses_depth z name : encloses z name -> (depth z <= length (lower_labels name))%nat.
Proof. intros [pre Hpre]%name_zone_of_spec. unfold depth. rewrite Hpre, length_app. lia. Qed.

Lemma encloses_same_depth z z' name :
  encloses z name -> encloses z' name -> depth z = depth z' ->
  lower_labels (origin z) = lower_labels (origin z').
Proof.
  intros [pre Hpre]%name_zone_of_spec [pre' Hpre']%name_zone_of_spec Hd.
  rewrite Hpre in Hpre'. apply app_inj_2 in Hpre'; [tauto|done].
Qed.

(** Plain origins of equal depth that enclose the same name belong to one zone. *)
Lemma plain_store_unique s name z z' :
  plain_store s -> z ∈ hm_values (zones s) -> z' ∈ hm_values (zones s) ->
  encloses z name -> encloses z' name -> depth z = depth z' -> z = z'.
Proof.
  intros [Hwf Hplain] Hz Hz' He He' Hd. rewrite Forall_forall in Hplain.
  destruct (Hplain z Hz) as [Hf _], (Hplain z' Hz') as [Hf' _].
  assert (key_equiv (origin z) (origin z')) as Heq.
  { apply name_eq_spec. split; [congruence|]. by apply (encloses_same_depth z z' name). }
  assert (hm_get (origin z') (zones s) = Some z) by by apply store_get.
  assert (hm_get (origin z') (zones s) = Some z') by by apply store_get; [| |reflexivity].
  congruence.
Qed.

Lemma find_zone_best s name z : plain_store s -> find_zone s name = Some z <-> best_zone s name z.
Proof.
  intros Hplain. pose proof Hplain as [Hwf Hp]. rewrite Forall_forall in Hp.
  assert (Hsound : forall z, find_zone s name = Some z -> best_zone s name z).
  { clear z. intros z. unfold find_zone, best_zone.
    destruct (hm_get name (zones s)) as [z0|] eqn:E.
    - intros [= ->]. destruct (store_get_inv _ _ _ Hwf E) as [Hin Heq].
      split_and!; [done|by apply encloses_equiv| |by right].
      intros z' _ Hz'%encloses_depth. apply name_eq_spec in Heq as [_ Heq].
      unfold depth at 2. by rewrite Heq.
    - pose proof (best_inv_fold name (hm_values (zones s))) as Hinv.
      destruct (fold_left _ _ _) as [[z0|] n]; [|done]. intros [= ->].
      destruct Hinv as (Hin & Hz & -> & Hpos & Hmax).
      rewrite (depth_num_labels z) in Hpos, Hmax by by apply Hp.
      split_and!; [done|done| |left; lia].
      intros z' Hin' Hz'. specialize (Hmax z' Hin' Hz').
      rewrite (depth_num_labels z') in Hmax by by apply Hp. lia. }
  split; [apply Hsound|]. intros (Hin & Hz & Hmax & Hroot).
  destruct (find_zone s name) as [z0|] eqn:E.
  - destruct (Hsound z0 eq_refl) as (Hin0 & Hz0 & Hmax0 & _). f_equal.
    apply (plain_store_unique s name); [done..|].
    specialize (Hmax z0 Hin0 Hz0). specialize (Hmax0 z Hin Hz). lia.
  - exfalso. unfold find_zone in E. destruct (hm_get name (zones s)) eqn:Eg; [done|].
    pose proof (best_inv_fold name (hm_values (zones s))) as Hinv.
    destruct (fold_left _ _ _) as [[?|] n]; [done|]. destruct Hinv as [_ Hinv].
    specialize (Hinv z Hin Hz). rewrite (depth_num_labels z) in Hinv by by apply Hp.
    destruct Hroot as [?|Heq]; [lia|]. rewrite (store_get s z name Hwf Hin Heq) in Eg. done.
Qed.

Lemma find_zone_some s name z :
  z ∈ hm_values (zones s) -> encloses z name -> 0 < name_num_labels (origin z) -> is_Some (find_zone s name).
Proof.
  intros Hz He Hl. unfold find_zone. destruct (hm_get name (zones s)); [done|].
  pose proof (best_inv_fold name (hm_values (zones s))) as Hinv.
  destruct (fold_left _ _ _) as [[z'|] n]; [done|]. destruct Hinv as [_ Hinv].
  specialize (Hinv z Hz He). lia.
Qed.

Lemma find_zone_sound s name z :
  store_wf s -> find_zone s name = Some z -> z ∈ hm_values (zones s) /\ encloses z name.
Proof.
  intros Hwf. unfold find_zone. destruct (hm_get name (zones s)) as [z0|] eqn:E.
  - intros [= ->]. destruct (store_get_inv _ _ _ Hwf E) as [Hin Heq]. split; [done|by apply encloses_equiv].
  - pose proof (best_inv_fold name (hm_values (zones s))) as Hinv.
    destruct (fold_left _ _ _) as [[z0|] n]; [|done]. intros [= ->]. by destruct Hinv as (? & ? & _).
Qed.

Lemma plain_store_perm s1 s2 :
  zones s1 ≡ₚ zones s2 -> plain_store s1 -> plain_store s2.
Proof.
  intros Hp [[Hwf Hs] Hall]. split; [split|].
  - by apply (hm_perm_wf (zones s1)).
  - intros k z. rewrite <- Hp. apply Hs.
  - unfold hm_values in *. by rewrite <- Hp.
Qed.
End store.

(** * Properties *)

(** C2 (functional): in a store of absolute, non-wildcard origins, [find_zone] returns a zone exactly
    when it is the one whose origin encloses the name with the most labels; the root zone is only
    found for the root name itself. *)
Theorem find_zone_longest_match `{Hickory} `{!NameLaws} (s : ZoneStore) (name : Name) (z : Zone) :
  plain_store s -> find_zone s name = Some z <-> best_zone s name z.
Proof. apply find_zone_best. Qed.

(** Two stores with the same zones in any iteration order find the same zone for
    every name. *)
Theorem find_zone_order_independent `{Hickory} `{!NameLaws} (s1 s2 : ZoneStore) (name : Name) :
  plain_store s1 -> zones s1 ≡ₚ zones s2 -> find_zone s1 name = find_zone s2 name.
Proof.
  intros Hs1 Hp. pose proof (plain_store_perm s1 s2 Hp Hs1) as Hs2. apply option_eq. intros z.
  rewrite !find_zone_best by done. unfold best_zone, hm_values. split.
  - intros (Hin & He & Hmax & Hroot). split_and!; [by rewrite <- Hp|done| |done].
    intros z'. rewrite <- Hp. apply Hmax.
  - intros (Hin & He & Hmax & Hroot). split_and!; [by rewrite Hp|done| |done].
    intros z'. rewrite Hp. apply Hmax.
Qed.

(** A root zone encloses every name and yet is not found for any other name than the
    root: the search starts from a best match of zero labels and the root has none. *)
Theorem root_zone_serves_only_root `{Hickory} `{!NameLaws}
    (o : Name) (s : SoaRecord) (rs : list DnsRecord) (name : Name) :
  name_iter o = [] -> ¬ key_equiv o name ->
  name_zone_of o name = true /\ find_zone (add_zone ZoneStore_new (zone_of_list o s rs)) name = None.
Proof.
  intros Ho Hne.
  assert (origin (zone_of_list o s rs) = o) as Hor.
  { unfold zone_of_list. apply (fold_left_inv (fun z => origin z = o)); [|done]. by intros z r _ <-. }
  generalize dependent (zone_of_list o s rs). intros z Hor. split.
  - apply name_zone_of_spec. exists (lower_labels name). unfold lower_labels at 3. by rewrite Ho, app_nil_r.
  - unfold find_zone. cbn. rewrite Hor. destruct (key_eqb o name) eqn:E; [done|].
    cbn. rewrite ?Hor, ?name_num_labels_spec, ?Ho. by destruct (name_zone_of o name).
Qed.


(** * Witnesses *)

Section witnesses.
Import Concrete.

Lemma test_store_plain : plain_store test_store.
Proof.
  split; [apply store_wf_add_zone, store_wf_new|]. vm_compute. constructor; [|constructor].
  split; [done|]. discriminate.
Defined.

Lemma find_zone_longest_match_witness :
  find_zone test_store (nm "a.www.example.com.") = Some create_test_zone <->
  best_zone test_store (nm "a.www.example.com.") create_test_zone.
Proof. apply (find_zone_longest_match test_store). apply test_store_plain. Defined.

Definition two_stores : ZoneStore * ZoneStore :=
  let z1 := create_test_zone in
  let z2 := Zone_new (nm "org.") (soa z1) in
  ({| zones := [(origin z1, z1); (origin z2, z2)] |},
   {| zones := [(origin z2, z2); (origin z1, z1)] |}).

Lemma find_zone_order_independent_witness :
  find_zone two_stores.1 (nm "www.example.com.") = find_zone two_stores.2 (nm "www.example.com.").
Proof.
  apply find_zone_order_independent.
  - split; [split|].
    + vm_compute. auto.
    + intros k z Hin. repeat (apply elem_of_cons in Hin as [Hin|Hin]; [injection Hin as -> ->; reflexivity|]).
      by apply elem_of_nil in Hin.
    + vm_compute. repeat constructor; discriminate.
  - apply Permutation_swap.
Defined.

Lemma root_zone_serves_only_root_witness :
  name_zone_of name_root (nm "www.example.com.") = true /\
  find_zone (add_zone ZoneStore_new (zone_of_list name_root (soa create_test_zone) []))
    (nm "www.example.com.") = None.
Proof. apply root_zone_serves_only_root; [reflexivity|discriminate]. Defined.

End witnesses.
