(* ===== verification/Protocol.v ===== *)
(** [src/src/protocol.rs]: [QueryProcessor::process_query], the answer to one query message.  The zone
    store is read under the lock for the whole call, so it is an argument.  Requires [Zone]. *)
From S2P Require Import Prelude RustStr HashMap Crates Zone.
Open Scope Z_scope.

Section protocol.
Context `{Hickory}.

(** The fields every response starts with. *)
Definition base_response (query : Message) : Message :=
  let response := message_new in
  let response := set_id (message_id query) response in
  let response := set_message_type MessageType.Response response in
  let response := set_op_code OpCode.Query response in
  let response := set_recursion_desired (message_recursion_desired query) response in
  set_recursion_available false response.

(** [for record in records { response.add_answer(record.clone()) }] *)
Definition add_answers (records : list DnsRecord) (response : Message) : Message :=
  fold_left (fun response record => add_answer record response) records response.

Definition add_name_servers (records : list DnsRecord) (response : Message) : Message :=
  fold_left (fun response record => add_name_server record response) records response.

(** Whether a record is an RRSIG that covers a type. *)
Definition rrsig_covers (qtype : RecordType.t) (rrsig : DnsRecord) : bool :=
  match record_data rrsig with
  | Some (RData.DNSSEC (DNSSECRData.SIG type_covered _ _ _ _ _ _ _ _)) =>
      bool_decide (type_covered = qtype)
  | _ => false
  end.

(** The RRSIG records of a positive answer. *)
Definition add_rrsigs (zone : Zone) (qname : Name) (qtype : RecordType.t) (dnssec_ok : bool)
    (response : Message) : Message :=
  if dnssec_ok then
    match zone_lookup zone qname RecordType.SIG with
    | Some rrsigs =>
        fold_left
          (fun response rrsig =>
             if rrsig_covers qtype rrsig then add_answer rrsig response else response)
          rrsigs response
    | None => response
    end
  else response.

(** Exact lookup when the name exists, wildcard lookup otherwise. *)
Definition lookup_or_wildcard (zone : Zone) (name_exists : bool) (qname : Name) (t : RecordType.t)
    : option (list DnsRecord) :=
  if name_exists then zone_lookup zone qname t else lookup_wildcard zone qname t.

(** One iteration of the loop over the CNAME records: the record, then its target's records of the
    requested type if the zone has them. *)
Definition chase_cname (zone : Zone) (qtype : RecordType.t) (response : Message)
    (cname_record : DnsRecord) : Message :=
  let response := add_answer cname_record response in
  match record_data cname_record with
  | Some (RData.CNAME target) =>
      match zone_lookup zone target qtype with
      | Some target_records => add_answers target_records response
      | None => response
      end
  | _ => response
  end.

(** The [match lookup_result]. *)
Definition answer_query (zone : Zone) (qname : Name) (qtype : RecordType.t) (dnssec_ok : bool)
    (response : Message) : Message :=
  let name_exists := contains_name zone qname in
  match lookup_or_wildcard zone name_exists qname qtype with
  | Some records =>
      let response := add_answers records response in
      let response := add_rrsigs zone qname qtype dnssec_ok response in
      set_response_code ResponseCode.NoError response
  | None =>
      match lookup_or_wildcard zone name_exists qname RecordType.CNAME with
      | Some cname_records =>
          let response := fold_left (chase_cname zone qtype) cname_records response in
          set_response_code ResponseCode.NoError response
      | None =>
          if name_exists then
            let response := set_response_code ResponseCode.NoError response in
            add_name_server (get_soa_record zone) response
          else
            let response := set_response_code ResponseCode.NXDomain response in
            add_name_server (get_soa_record zone) response
      end
  end.

(** NS records in the authority section of a positive response. *)
Definition add_authority (zone : Zone) (response : Message) : Message :=
  if bool_decide (message_response_code response = ResponseCode.NoError)
     && negb (bool_decide (message_answers response = [])) then
    match zone_lookup zone (origin zone) RecordType.NS with
    | Some ns_records => add_name_servers ns_records response
    | None => response
    end
  else response.

(** The EDNS option of the response. *)
Definition add_edns (query : Message) (dnssec_ok : bool) (response : Message) : Message :=
  match message_extensions query with
  | Some _ =>
      let edns := edns_new in
      let edns := edns_set_max_payload 4096 edns in
      let edns := edns_set_version 0 edns in
      let edns := if dnssec_ok then edns_set_dnssec_ok true edns else edns in
      set_edns edns response
  | None => response
  end.

(** [QueryProcessor::process_query] *)
Definition process_query (zones : ZoneStore) (query : Message) : outcome Message :=
  let response := base_response query in
  if negb (bool_decide (message_op_code query = OpCode.Query)) then
    Ok (set_response_code ResponseCode.NotImp response)
  else
    match head (message_queries query) with
    | None => Ok (set_response_code ResponseCode.FormErr response)
    | Some question =>
        if bool_decide (query_query_type question = RecordType.AXFR) then
          let response := add_query question response in
          Ok (set_authoritative true response)
        else
          let response := add_query question response in
          let qname := query_name question in
          let qtype := query_query_type question in
          let dnssec_ok := match message_extensions query with
                           | Some edns => edns_dnssec_ok edns
                           | None => false
                           end in
          match find_zone zones qname with
          | None => Ok (set_response_code ResponseCode.Refused response)
          | Some zone =>
              let response := set_authoritative true response in
              let response := answer_query zone qname qtype dnssec_ok response in
              let response := add_authority zone response in
              Ok (add_edns query dnssec_ok response)
          end
    end.

(** * Specification on the list of a zone's records *)

(** The records at the first wildcard name that has any of the type. *)
Definition wildcard_spec (rs : list DnsRecord) (name : Name) (t : RecordType.t)
    : option (list DnsRecord) :=
  first_some
    (fun skip => wildcard ← wildcard_name (name_iter name) skip; lookup_spec rs wildcard t)
    (seq 1 (length (name_iter name) - 1)).

Definition name_exists_spec (rs : list DnsRecord) (name : Name) : bool := existsb (owned_by name) rs.

Definition resolve_spec (rs : list DnsRecord) (name : Name) (t : RecordType.t)
    : option (list DnsRecord) :=
  if name_exists_spec rs name then lookup_spec rs name t else wildcard_spec rs name t.

(** A CNAME record followed by the records of its target: one link of the chain, never two. *)
Definition cname_link (rs : list DnsRecord) (t : RecordType.t) (c : DnsRecord) : list DnsRecord :=
  c :: match record_data c with
       | Some (RData.CNAME target) => List.filter (matches target t) rs
       | _ => []
       end.

Record Resolution := {
  res_code : ResponseCode.t;
  res_answers : list DnsRecord;
  res_authority : list DnsRecord
}.

(** What the answer to [(name, t)] must be, given the zone as its SOA record and a list of records. *)
Definition resolution_spec (soa : DnsRecord) (o : Name) (rs : list DnsRecord) (name : Name)
    (t : RecordType.t) (dnssec_ok : bool) : Resolution :=
  let ns := List.filter (matches o RecordType.NS) rs in
  match resolve_spec rs name t with
  | Some found =>
      {| res_code := ResponseCode.NoError;
         res_answers :=
           found ++ (if dnssec_ok
                     then List.filter (rrsig_covers t) (List.filter (matches name RecordType.SIG) rs)
                     else []);
         res_authority := ns |}
  | None =>
      match resolve_spec rs name RecordType.CNAME with
      | Some cs =>
          {| res_code := ResponseCode.NoError; res_answers := flat_map (cname_link rs t) cs;
             res_authority := ns |}
      | None =>
          {| res_code := if name_exists_spec rs name then ResponseCode.NoError
                         else ResponseCode.NXDomain;
             res_answers := []; res_authority := [soa] |}
      end
  end.
End protocol.
