(* ===== verification/ProtocolFacts.v ===== *)
(** Theorems about [process_query]: it always answers, its header and code follow the query, and for a
    zone built from a list of records the sections of the response are the ones specified on that
    list. *)
From S2P Require Import Prelude RustStr HashMap Crates CratesModel.
From S2P Require Import Zone Fixtures ZoneFacts ZoneStoreFacts Protocol.
Open Scope Z_scope.

Section views.
Context `{Hickory}.

(** Appending to the sections of a view. *)
Definition app_answers (l : list DnsRecord) (v : MessageView) : MessageView :=
  fold_left (fun v r => with_answer r v) l v.
Definition app_name_servers (l : list DnsRecord) (v : MessageView) : MessageView :=
  fold_left (fun v r => with_name_server r v) l v.

Lemma app_answers_app l1 l2 v : app_answers (l1 ++ l2) v = app_answers l2 (app_answers l1 v).
Proof. apply fold_left_app. Qed.

Lemma app_answers_code l c v :
  app_answers l (with_response_code c v) = with_response_code c (app_answers l v).
Proof. revert v. induction l as [|r l IH]; intros v; cbn; [done|]. by rewrite <- IH. Qed.

Lemma app_answers_view l v :
  app_answers l v =
  {| v_id := v_id v; v_message_type := v_message_type v; v_op_code := v_op_code v;
     v_authoritative := v_authoritative v; v_truncated := v_truncated v;
     v_recursion_desired := v_recursion_desired v; v_recursion_available := v_recursion_available v;
     v_response_code := v_response_code v; v_queries := v_queries v;
     v_answers := v_answers v ++ l; v_name_servers := v_name_servers v;
     v_additionals := v_additionals v; v_extensions := v_extensions v |}.
Proof.
  revert v. induction l as [|r l IH]; intros v; cbn.
  - rewrite app_nil_r. by destruct v.
  - rewrite IH. cbn. by rewrite <- app_assoc.
Qed.

Lemma app_name_servers_view l v :
  app_name_servers l v =
  {| v_id := v_id v; v_message_type := v_message_type v; v_op_code := v_op_code v;
     v_authoritative := v_authoritative v; v_truncated := v_truncated v;
     v_recursion_desired := v_recursion_desired v; v_recursion_available := v_recursion_available v;
     v_response_code := v_response_code v; v_queries := v_queries v;
     v_answers := v_answers v; v_name_servers := v_name_servers v ++ l;
     v_additionals := v_additionals v; v_extensions := v_extensions v |}.
Proof.
  revert v. induction l as [|r l IH]; intros v; cbn.
  - rewrite app_nil_r. by destruct v.
  - rewrite IH. cbn. by rewrite <- app_assoc.
Qed.

Context `{!MessageLaws}.

Lemma view_add_answers l m : message_view (add_answers l m) = app_answers l (message_view m).
Proof.
  unfold add_answers, app_answers. revert m. induction l as [|r l IH]; intros m; cbn; [done|].
  by rewrite IH, view_add_answer.
Qed.

Lemma view_add_name_servers l m :
  message_view (add_name_servers l m) = app_name_servers l (message_view m).
Proof.
  unfold add_name_servers, app_name_servers. revert m.
  induction l as [|r l IH]; intros m; cbn; [done|]. by rewrite IH, view_add_name_server.
Qed.

Lemma view_add_rrsigs z n t d m :
  message_view (add_rrsigs z n t d m) =
  app_answers
    (if d then List.filter (rrsig_covers t) (default [] (zone_lookup z n RecordType.SIG)) else [])
    (message_view m).
Proof.
  unfold add_rrsigs. destruct d; [|done].
  destruct (zone_lookup z n RecordType.SIG) as [l|]; cbn; [|done].
  unfold app_answers. revert m. induction l as [|r l IH]; intros m; cbn; [done|].
  rewrite IH. destruct (rrsig_covers t r); cbn; [|done]. by rewrite view_add_answer.
Qed.

Definition zone_cname_link (z : Zone) (t : RecordType.t) (c : DnsRecord) : list DnsRecord :=
  c :: match record_data c with
       | Some (RData.CNAME target) => default [] (zone_lookup z target t)
       | _ => []
       end.

Lemma view_chase_cname z t m c :
  message_view (chase_cname z t m c) = app_answers (zone_cname_link z t c) (message_view m).
Proof.
  unfold chase_cname, zone_cname_link. cbn. rewrite <- view_add_answer.
  destruct (record_data c) as [[]|]; try done.
  destruct (zone_lookup z cname t); cbn; [|done]. apply view_add_answers.
Qed.

Lemma view_chase_cnames z t cs m :
  message_view (fold_left (chase_cname z t) cs m) =
  app_answers (flat_map (zone_cname_link z t) cs) (message_view m).
Proof.
  revert m. induction cs as [|c cs IH]; intros m; cbn [fold_left flat_map]; [done|].
  by rewrite IH, view_chase_cname, app_answers_app.
Qed.
End views.

(** * Zones built from a list of records *)

Section of_list.
Context `{Hickory}.

Lemma lookup_wildcard_of_list o s rs n t :
  lookup_wildcard (zone_of_list o s rs) n t = wildcard_spec rs n t.
Proof.
  unfold lookup_wildcard, wildcard_spec. induction (seq _ _) as [|k l IH]; cbn; [done|].
  rewrite IH. destruct (wildcard_name (name_iter n) k) as [w|]; cbn; [|done].
  by rewrite lookup_of_list.
Qed.

Lemma resolve_of_list o s rs n t :
  lookup_or_wildcard (zone_of_list o s rs) (contains_name (zone_of_list o s rs) n) n t =
  resolve_spec rs n t.
Proof.
  unfold lookup_or_wildcard, resolve_spec, name_exists_spec. rewrite contains_name_of_list.
  destruct (existsb _ _); [apply lookup_of_list|apply lookup_wildcard_of_list].
Qed.

Lemma default_lookup_spec rs n t : default [] (lookup_spec rs n t) = List.filter (matches n t) rs.
Proof. unfold lookup_spec. by destruct (List.filter _ _). Qed.

Lemma lookup_spec_nonempty rs n t l : lookup_spec rs n t = Some l -> l ≠ [].
Proof. unfold lookup_spec. destruct (List.filter _ _); [done|]. by intros [= <-]. Qed.

Lemma lookup_spec_subset rs n t l r : lookup_spec rs n t = Some l -> r ∈ l -> r ∈ rs.
Proof.
  unfold lookup_spec. intros E Hr.
  assert (r ∈ List.filter (matches n t) rs) as Hin by (by destruct (List.filter _ _); simplify_eq).
  apply list_elem_of_In, filter_In in Hin as [Hin _]. by apply list_elem_of_In.
Qed.

Lemma resolve_spec_cases rs n t l :
  resolve_spec rs n t = Some l -> exists n', lookup_spec rs n' t = Some l.
Proof.
  unfold resolve_spec. destruct (name_exists_spec rs n); [by exists n|].
  intros (_ & k & _ & _ & (w & _ & Hw)%bind_Some & _)%first_some_spec. by exists w.
Qed.

Lemma resolve_spec_nonempty rs n t l : resolve_spec rs n t = Some l -> l ≠ [].
Proof. intros [n' Hl]%resolve_spec_cases. by eapply lookup_spec_nonempty. Qed.

Lemma resolve_spec_subset rs n t l r : resolve_spec rs n t = Some l -> r ∈ l -> r ∈ rs.
Proof. intros [n' Hl]%resolve_spec_cases. by eapply lookup_spec_subset. Qed.

Lemma origin_of_list o s rs : origin (zone_of_list o s rs) = o.
Proof.
  unfold zone_of_list. apply (fold_left_inv (fun z => origin z = o)); [|done]. by intros z r _ <-.
Qed.

Lemma soa_of_list o s rs : soa (zone_of_list o s rs) = s.
Proof.
  unfold zone_of_list. apply (fold_left_inv (fun z => soa z = s)); [|done]. by intros z r _ <-.
Qed.

Lemma zone_cname_link_of_list o s rs t c : zone_cname_link (zone_of_list o s rs) t c = cname_link rs t c.
Proof.
  unfold zone_cname_link, cname_link. f_equal. destruct (record_data c) as [[]|]; try done.
  by rewrite lookup_of_list, default_lookup_spec.
Qed.
End of_list.

(** * The response *)

Section response.
Context `{Hickory} `{!MessageLaws}.

(** The option of the response: 4096 bytes whatever the client advertised. *)
Definition response_edns (query : Message) (dnssec_ok : bool) : option Edns :=
  match message_extensions query with
  | Some _ =>
      let e := edns_set_version 0 (edns_set_max_payload 4096 edns_new) in
      Some (if dnssec_ok then edns_set_dnssec_ok true e else e)
  | None => None
  end.

(** A response with the sections of [r]. *)
Definition response_view (query : Message) (question : Query) (dnssec_ok : bool) (r : Resolution)
    : MessageView :=
  {| v_id := message_id query; v_message_type := MessageType.Response; v_op_code := OpCode.Query;
     v_authoritative := true; v_truncated := false;
     v_recursion_desired := message_recursion_desired query; v_recursion_available := false;
     v_response_code := res_code r; v_queries := [question]; v_answers := res_answers r;
     v_name_servers := res_authority r; v_additionals := [];
     v_extensions := response_edns query dnssec_ok |}.

Lemma view_base_response q :
  message_view (base_response q) =
  {| v_id := message_id q; v_message_type := MessageType.Response; v_op_code := OpCode.Query;
     v_authoritative := false; v_truncated := false;
     v_recursion_desired := message_recursion_desired q; v_recursion_available := false;
     v_response_code := ResponseCode.NoError; v_queries := []; v_answers := [];
     v_name_servers := []; v_additionals := []; v_extensions := None |}.
Proof. unfold base_response. by autorewrite with view. Qed.

Lemma view_add_edns q d m :
  message_view (add_edns q d m) =
  match response_edns q d with
  | Some e => with_edns e (message_view m)
  | None => message_view m
  end.
Proof.
  unfold add_edns, response_edns. destruct (message_extensions q); [|done]. by rewrite view_set_edns.
Qed.

(** A view with a response code and records appended to its sections. *)
Definition fill (code : ResponseCode.t) (answers authority : list DnsRecord) (v : MessageView)
    : MessageView :=
  app_name_servers authority (app_answers answers (with_response_code code v)).

Lemma fill_app_name_servers code a n1 n2 v :
  app_name_servers n2 (fill code a n1 v) = fill code a (n1 ++ n2) v.
Proof. unfold fill, app_name_servers. by rewrite fold_left_app. Qed.

Lemma fill_answers code a n v : v_answers (fill code a n v) = v_answers v ++ a.
Proof. unfold fill. by rewrite app_name_servers_view, app_answers_view. Qed.

Lemma fill_code code a n v : v_response_code (fill code a n v) = code.
Proof. unfold fill. by rewrite app_name_servers_view, app_answers_view. Qed.

Lemma view_add_authority z m :
  message_view (add_authority z m) =
  if bool_decide (v_response_code (message_view m) = ResponseCode.NoError)
     && negb (bool_decide (v_answers (message_view m) = []))
  then app_name_servers (default [] (zone_lookup z (origin z) RecordType.NS)) (message_view m)
  else message_view m.
Proof.
  unfold add_authority, message_response_code, message_answers.
  destruct (_ && _); [|done].
  destruct (zone_lookup z (origin z) RecordType.NS); cbn; [|done]. apply view_add_name_servers.
Qed.

(** The records [answer_query] puts in the authority section by itself. *)
Definition own_authority (answers authority : list DnsRecord) : list DnsRecord :=
  if bool_decide (answers = []) then authority else [].

Lemma view_answer_query o s rs qname qtype d m :
  let z := zone_of_list o s rs in
  let r := resolution_spec (get_soa_record z) o rs qname qtype d in
  message_view (answer_query z qname qtype d m) =
  fill (res_code r) (res_answers r) (own_authority (res_answers r) (res_authority r)) (message_view m).
Proof.
  cbv zeta. unfold answer_query. rewrite !resolve_of_list. unfold resolution_spec, fill, own_authority.
  destruct (resolve_spec rs qname qtype) as [found|] eqn:E1.
  - rewrite view_set_response_code, view_add_rrsigs, view_add_answers, <- app_answers_app.
    rewrite lookup_of_list, default_lookup_spec. cbn [res_code res_answers res_authority].
    apply resolve_spec_nonempty in E1.
    rewrite bool_decide_eq_false_2 by (by destruct found). by rewrite app_answers_code.
  - destruct (resolve_spec rs qname RecordType.CNAME) as [cs|] eqn:E2;
      cbn [res_code res_answers res_authority].
    + rewrite view_set_response_code, view_chase_cnames.
      rewrite (flat_map_ext _ _ (zone_cname_link_of_list o s rs qtype)).
      apply resolve_spec_nonempty in E2.
      rewrite bool_decide_eq_false_2 by (by destruct cs). by rewrite app_answers_code.
    + unfold name_exists_spec. rewrite bool_decide_eq_true_2 by done.
      rewrite <- (contains_name_of_list o s).
      destruct (contains_name _ qname); by rewrite view_add_name_server, view_set_response_code.
Qed.

(** A positive resolution is a NOERROR with answers. *)
Lemma resolution_positive soa o rs n t d :
  let r := resolution_spec soa o rs n t d in
  res_answers r ≠ [] ->
  res_code r = ResponseCode.NoError /\ res_authority r = List.filter (matches o RecordType.NS) rs.
Proof.
  unfold resolution_spec. destruct (resolve_spec rs n t); [done|].
  by destruct (resolve_spec rs n RecordType.CNAME).
Qed.

Lemma view_answer_authority o s rs qname qtype d m :
  v_answers (message_view m) = [] ->
  let z := zone_of_list o s rs in
  let r := resolution_spec (get_soa_record z) o rs qname qtype d in
  message_view (add_authority z (answer_query z qname qtype d m)) =
  fill (res_code r) (res_answers r) (res_authority r) (message_view m).
Proof.
  intros Ha z r. rewrite view_add_authority. unfold z. rewrite view_answer_query.
  rewrite origin_of_list, lookup_of_list, default_lookup_spec. fold z. fold r.
  rewrite fill_code, fill_answers, Ha. cbn [app].
  unfold own_authority. destruct (bool_decide (res_answers r = [])) eqn:E.
  - by rewrite andb_false_r.
  - apply bool_decide_eq_false in E.
    destruct (resolution_positive (get_soa_record z) o rs qname qtype d E) as [Hc Hn].
    fold r in Hc, Hn. rewrite Hc, bool_decide_eq_true_2 by done. cbn [andb negb].
    by rewrite fill_app_name_servers, Hn.
Qed.

(** The main path of [process_query]. *)
Lemma process_query_found o s rs st q question :
  message_op_code q = OpCode.Query -> head (message_queries q) = Some question ->
  query_query_type question ≠ RecordType.AXFR ->
  find_zone st (query_name question) = Some (zone_of_list o s rs) ->
  let d := match message_extensions q with Some e => edns_dnssec_ok e | None => false end in
  exists response,
    process_query st q = Ok response /\
    message_view response =
    response_view q question d
      (resolution_spec (get_soa_record (zone_of_list o s rs)) o rs (query_name question)
         (query_query_type question) d).
Proof.
  intros Hop Hq Ht Hz d. unfold process_query. rewrite Hop, Hq, Hz. cbn [negb].
  rewrite bool_decide_eq_true_2 by done. cbn [negb]. rewrite bool_decide_eq_false_2 by done.
  fold d. eexists. split; [done|]. rewrite view_add_edns, view_answer_authority.
  - rewrite view_set_authoritative, view_add_query, view_base_response. unfold fill, response_view.
    rewrite app_name_servers_view, app_answers_view. cbn. by destruct (response_edns q d).
  - by rewrite view_set_authoritative, view_add_query, view_base_response.
Qed.
End response.
