(* ===== verification/ProtocolProps.v ===== *)
(** The properties of [process_query], with witnesses over the zones of the repository's tests. *)
From S2P Require Import Prelude RustStr HashMap Crates CratesModel Zone.
From S2P Require Import Fixtures ZoneFacts ZoneStoreFacts Protocol ProtocolFacts.
Open Scope Z_scope.

(** C1 (refinement): for a standard, non-transfer query whose zone was built from a list of records,
    the whole response (identifier, flags, code, question, answers, authority, option) is the one
    specified on that list: exact records or else the nearest wildcard's, with covering RRSIGs when
    asked; else a CNAME with one link of its chain; else the SOA with NOERROR or NXDOMAIN. *)
Theorem process_query_refines_spec `{Hickory} `{!MessageLaws}
    (o : Name) (s : SoaRecord) (rs : list DnsRecord) (st : ZoneStore) (q : Message)
    (question : Query) :
  message_op_code q = OpCode.Query -> head (message_queries q) = Some question ->
  query_query_type question ≠ RecordType.AXFR ->
  find_zone st (query_name question) = Some (zone_of_list o s rs) ->
  let d := match message_extensions q with Some e => edns_dnssec_ok e | None => false end in
  exists response,
    process_query st q = Ok response /\
    message_view response =
    response_view q question d
      (resolution_spec (get_soa_record (zone_of_list o s rs)) o rs (query_name question)
         (query_query_type question) d).
Proof. apply process_query_found. Qed.

Section header.
Context `{Hickory} `{!MessageLaws}.

(** What every response copies from its query. *)
Definition echoes (q : Message) (v : MessageView) : Prop :=
  v_id v = message_id q /\ v_message_type v = MessageType.Response /\
  v_op_code v = OpCode.Query /\ v_recursion_desired v = message_recursion_desired q /\
  v_recursion_available v = false /\ v_truncated v = false.

Lemma echoes_fill q code a n v : echoes q v -> echoes q (fill code a n v).
Proof. unfold fill. by rewrite app_name_servers_view, app_answers_view. Qed.

Lemma echoes_app_answers q a v : echoes q v -> echoes q (app_answers a v).
Proof. by rewrite app_answers_view. Qed.

Lemma echoes_app_name_servers q n v : echoes q v -> echoes q (app_name_servers n v).
Proof. by rewrite app_name_servers_view. Qed.

Lemma echoes_code q c v : echoes q v -> echoes q (with_response_code c v).
Proof. done. Qed.

Lemma echoes_base q : echoes q (message_view (base_response q)).
Proof. by rewrite view_base_response. Qed.

Lemma echoes_answer_query q z n t d m :
  echoes q (message_view m) -> echoes q (message_view (answer_query z n t d m)).
Proof.
  intros Hm. unfold answer_query.
  destruct (lookup_or_wildcard z _ n t); [|destruct (lookup_or_wildcard z _ n RecordType.CNAME)].
  - rewrite view_set_response_code, view_add_rrsigs, view_add_answers.
    by apply echoes_code, echoes_app_answers, echoes_app_answers.
  - rewrite view_set_response_code, view_chase_cnames.
    by apply echoes_code, echoes_app_answers.
  - destruct (contains_name z n); by rewrite view_add_name_server, view_set_response_code.
Qed.

Lemma echoes_add_authority q z m :
  echoes q (message_view m) -> echoes q (message_view (add_authority z m)).
Proof.
  intros Hm. rewrite view_add_authority. destruct (_ && _); [|done]. by apply echoes_app_name_servers.
Qed.

Lemma echoes_add_edns q q' d m :
  echoes q (message_view m) -> echoes q (message_view (add_edns q' d m)).
Proof. intros Hm. rewrite view_add_edns. by destruct (response_edns q' d). Qed.
End header.

(** [process_query] never fails and never panics, whatever the zones and the query: it
    returns a response with the identifier and the recursion-desired bit of the query, marked as a
    response to a standard query, without recursion and without truncation. *)
Theorem process_query_total `{Hickory} `{!MessageLaws} (st : ZoneStore) (q : Message) :
  exists response, process_query st q = Ok response /\ echoes q (message_view response).
Proof.
  unfold process_query. destruct (bool_decide (message_op_code q = OpCode.Query)); cbn [negb].
  2: { eexists. split; [done|]. rewrite view_set_response_code. apply echoes_base. }
  destruct (head (message_queries q)) as [question|].
  2: { eexists. split; [done|]. rewrite view_set_response_code. apply echoes_base. }
  destruct (bool_decide (query_query_type question = RecordType.AXFR)).
  { eexists. split; [done|]. rewrite view_set_authoritative, view_add_query. apply echoes_base. }
  destruct (find_zone st (query_name question)).
  2: { eexists. split; [done|]. rewrite view_set_response_code, view_add_query. apply echoes_base. }
  eexists. split; [done|]. apply echoes_add_edns, echoes_add_authority, echoes_answer_query.
  rewrite view_set_authoritative, view_add_query. apply echoes_base.
Qed.

Section refusals.
Context `{Hickory}.

(** A response without any record or option. *)
Definition bare (v : MessageView) (code : ResponseCode.t) (aa : bool) (qs : list Query) : Prop :=
  v_response_code v = code /\ v_authoritative v = aa /\ v_queries v = qs /\ v_answers v = [] /\
  v_name_servers v = [] /\ v_additionals v = [] /\ v_extensions v = None.
End refusals.

(** C33 (error): a query that is not answered from a zone gets a bare response: NOTIMP for another
    opcode, FORMERR without a question, an empty authoritative NOERROR for a zone transfer (which the
    TCP server handles), REFUSED when no zone of the store encloses the name. *)
Theorem process_query_refusals `{Hickory} `{!MessageLaws} (st : ZoneStore) (q response : Message) :
  process_query st q = Ok response ->
  match message_op_code q, head (message_queries q) with
  | OpCode.Update, _ | OpCode.Other _, _ => bare (message_view response) ResponseCode.NotImp false []
  | OpCode.Query, None => bare (message_view response) ResponseCode.FormErr false []
  | OpCode.Query, Some question =>
      if decide (query_query_type question = RecordType.AXFR) then
        bare (message_view response) ResponseCode.NoError true [question]
      else
        find_zone st (query_name question) = None ->
        bare (message_view response) ResponseCode.Refused false [question]
  end.
Proof.
  unfold process_query. destruct (message_op_code q) as [| |c].
  2, 3: rewrite bool_decide_eq_false_2 by done; cbn [negb]; intros [= <-];
    by rewrite view_set_response_code, view_base_response.
  rewrite (bool_decide_eq_true_2 (OpCode.Query = OpCode.Query)) by done. cbn [negb].
  destruct (head (message_queries q)) as [question|].
  2: { intros [= <-]. by rewrite view_set_response_code, view_base_response. }
  case_decide as Ht.
  { rewrite bool_decide_eq_true_2 by done. intros [= <-].
    by rewrite view_set_authoritative, view_add_query, view_base_response. }
  rewrite bool_decide_eq_false_2 by done. intros Hr Hz. rewrite Hz in Hr. injection Hr as <-.
  by rewrite view_set_response_code, view_add_query, view_base_response.
Qed.

Section sections.
Context `{Hickory}.

Lemma resolution_answers_subset soa o rs n t d r :
  r ∈ res_answers (resolution_spec soa o rs n t d) -> r ∈ rs.
Proof.
  assert (Hf : forall (p : DnsRecord -> bool) l, r ∈ List.filter p l -> r ∈ l).
  { intros p l [Hin _]%list_elem_of_In%filter_In. by apply list_elem_of_In. }
  unfold resolution_spec. destruct (resolve_spec rs n t) as [found|] eqn:E1; cbn.
  - intros [Hr|Hr]%elem_of_app; [by eapply resolve_spec_subset|].
    destruct d; [by apply Hf, Hf in Hr|by apply elem_of_nil in Hr].
  - destruct (resolve_spec rs n RecordType.CNAME) as [cs|] eqn:E2; cbn;
      [|by intros ?%elem_of_nil].
    intros (c & Hc & Hr)%list_elem_of_In%in_flat_map. apply list_elem_of_In in Hc, Hr.
    apply elem_of_cons in Hr as [->|Hr]; [by eapply resolve_spec_subset|].
    destruct (record_data c) as [[]|]; try by apply elem_of_nil in Hr. by apply Hf in Hr.
Qed.

Lemma resolution_authority_subset soa o rs n t d r :
  r ∈ res_authority (resolution_spec soa o rs n t d) -> r = soa \/ r ∈ rs.
Proof.
  assert (Hf : forall (p : DnsRecord -> bool) l, r ∈ List.filter p l -> r ∈ l).
  { intros p l [Hin _]%list_elem_of_In%filter_In. by apply list_elem_of_In. }
  unfold resolution_spec. destruct (resolve_spec rs n t); cbn; [intros Hr; right; by apply Hf in Hr|].
  destruct (resolve_spec rs n RecordType.CNAME); cbn; [intros Hr; right; by apply Hf in Hr|].
  intros ?%list_elem_of_singleton. by left.
Qed.
End sections.

(** Every answer of a response is one of the zone's records, and so is every authority
    record, the synthesized SOA apart. *)
Theorem answers_within_zone `{Hickory} `{!MessageLaws}
    (o : Name) (s : SoaRecord) (rs : list DnsRecord) (st : ZoneStore) (q response : Message)
    (question : Query) :
  message_op_code q = OpCode.Query -> head (message_queries q) = Some question ->
  query_query_type question ≠ RecordType.AXFR ->
  find_zone st (query_name question) = Some (zone_of_list o s rs) ->
  process_query st q = Ok response ->
  (forall r, r ∈ message_answers response -> r ∈ rs) /\
  (forall r, r ∈ message_name_servers response ->
     r = get_soa_record (zone_of_list o s rs) \/ r ∈ rs).
Proof.
  intros Hop Hq Ht Hz Hr.
  destruct (process_query_found o s rs st q question Hop Hq Ht Hz) as (r0 & Hr0 & Hv).
  rewrite Hr in Hr0. injection Hr0 as <-. unfold message_answers, message_name_servers.
  rewrite Hv. unfold response_view. cbn. split; intros r.
  - apply resolution_answers_subset.
  - apply resolution_authority_subset.
Qed.

(** C34 (functional): a response without answers carries the SOA alone in its authority section, and its
    code is NXDOMAIN exactly when no record has the queried owner.  A wildcard that has other types
    does not count as covering the name. *)
Theorem negative_response `{Hickory} `{!MessageLaws}
    (o : Name) (s : SoaRecord) (rs : list DnsRecord) (st : ZoneStore) (q response : Message)
    (question : Query) :
  message_op_code q = OpCode.Query -> head (message_queries q) = Some question ->
  query_query_type question ≠ RecordType.AXFR ->
  find_zone st (query_name question) = Some (zone_of_list o s rs) ->
  process_query st q = Ok response ->
  (message_answers response = [] <->
     resolve_spec rs (query_name question) (query_query_type question) = None /\
     resolve_spec rs (query_name question) RecordType.CNAME = None) /\
  (message_answers response = [] ->
     message_name_servers response = [get_soa_record (zone_of_list o s rs)] /\
     message_response_code response =
       if name_exists_spec rs (query_name question) then ResponseCode.NoError
       else ResponseCode.NXDomain).
Proof.
  intros Hop Hq Ht Hz Hr.
  destruct (process_query_found o s rs st q question Hop Hq Ht Hz) as (r0 & Hr0 & Hv).
  rewrite Hr in Hr0. injection Hr0 as <-.
  unfold message_answers, message_name_servers, message_response_code. rewrite Hv.
  unfold response_view, resolution_spec. cbn.
  destruct (resolve_spec rs (query_name question) (query_query_type question)) as [found|] eqn:E1; cbn.
  { apply resolve_spec_nonempty in E1. destruct found; [done|].
    split; [split; [|intros [? _]]|]; discriminate. }
  destruct (resolve_spec rs (query_name question) RecordType.CNAME) as [cs|] eqn:E2; cbn.
  { apply resolve_spec_nonempty in E2. destruct cs; [done|].
    split; [split; [|intros [_ ?]]|]; discriminate. }
  done.
Qed.

(** A CNAME chain is followed for one link only: when the targets of the alias have
    no record of the queried type themselves, the answer is the alias's CNAME records alone, even if a
    target is an alias in turn. *)
Theorem cname_chain_one_link `{Hickory} `{!MessageLaws}
    (o : Name) (s : SoaRecord) (rs cs : list DnsRecord) (st : ZoneStore) (q response : Message)
    (question : Query) :
  message_op_code q = OpCode.Query -> head (message_queries q) = Some question ->
  query_query_type question ≠ RecordType.AXFR ->
  find_zone st (query_name question) = Some (zone_of_list o s rs) ->
  process_query st q = Ok response ->
  resolve_spec rs (query_name question) (query_query_type question) = None ->
  resolve_spec rs (query_name question) RecordType.CNAME = Some cs ->
  (forall c target, c ∈ cs -> record_data c = Some (RData.CNAME target) ->
     lookup_spec rs target (query_query_type question) = None) ->
  message_response_code response = ResponseCode.NoError /\ message_answers response = cs.
Proof.
  intros Hop Hq Ht Hz Hr E1 E2 Hcs.
  destruct (process_query_found o s rs st q question Hop Hq Ht Hz) as (r0 & Hr0 & Hv).
  rewrite Hr in Hr0. injection Hr0 as <-. unfold message_answers, message_response_code.
  rewrite Hv. unfold response_view, resolution_spec. rewrite E1, E2. cbn. split; [done|].
  clear E2 Hv. induction cs as [|c cs IH]; cbn; [done|]. rewrite IH.
  2: { intros. eapply Hcs; [by right|done]. }
  f_equal. specialize (fun target => Hcs c target ltac:(left)).
  destruct (record_data c) as [[]|]; try done.
  by rewrite <- default_lookup_spec, (Hcs cname).
Qed.

(** A response answered from a zone has an EDNS option exactly when the query has one;
    it announces 4096 bytes whatever size the client announced, version 0, and repeats the DO bit. *)
Theorem edns_of_response `{Hickory} `{!MessageLaws}
    (o : Name) (s : SoaRecord) (rs : list DnsRecord) (st : ZoneStore) (q response : Message)
    (question : Query) :
  message_op_code q = OpCode.Query -> head (message_queries q) = Some question ->
  query_query_type question ≠ RecordType.AXFR ->
  find_zone st (query_name question) = Some (zone_of_list o s rs) ->
  process_query st q = Ok response ->
  match message_extensions q, message_extensions response with
  | Some client, Some e =>
      edns_view e = {| v_max_payload := 4096; v_version := 0; v_dnssec_ok := edns_dnssec_ok client |}
  | None, None => True
  | _, _ => False
  end.
Proof.
  intros Hop Hq Ht Hz Hr.
  destruct (process_query_found o s rs st q question Hop Hq Ht Hz) as (r0 & Hr0 & Hv).
  rewrite Hr in Hr0. injection Hr0 as <-.
  set (d := match message_extensions q with Some e => edns_dnssec_ok e | None => false end) in Hv.
  assert (message_extensions response = response_edns q d) as ->
    by (unfold message_extensions; by rewrite Hv).
  unfold response_edns, d. destruct (message_extensions q) as [client|]; [|done].
  destruct (edns_dnssec_ok client);
    rewrite ?edns_view_set_dnssec_ok, !edns_view_set_version, !edns_view_set_max_payload by lia;
    cbn; by rewrite ?edns_new_dnssec_ok.
Qed.

(** * Witnesses *)

Section witnesses.
Import Concrete.

(** Evaluates the query of a witness and keeps the equation. *)
Ltac run_query E :=
  match goal with
  | |- match process_query ?st ?q with _ => _ end =>
      destruct (process_query st q) as [response| |] eqn:E; [|vm_compute in E; discriminate E..]
  end.

Definition query_for (name : string) (t : RecordType.t) (edns : option Edns) : Message :=
  let m := add_query (nm name, t) (set_id 1234 message_new) in
  match edns with Some e => set_edns e m | None => m end.

Definition do_edns : Edns := edns_set_dnssec_ok true edns_new.

(** A zone with a chain of two aliases, a wildcard and an address. *)
Definition chain_records : list DnsRecord :=
  [record_from_rdata (nm "example.com.") 300 (RData.NS (nm "ns1.example.com."));
   record_from_rdata (nm "a.example.com.") 300 (RData.CNAME (nm "b.example.com."));
   record_from_rdata (nm "b.example.com.") 300 (RData.CNAME (nm "www.example.com."));
   record_from_rdata (nm "www.example.com.") 300 (a_rdata 192 0 2 1);
   record_from_rdata (nm "*.example.com.") 300 (a_rdata 192 0 2 9)].
Definition chain_zone : Zone := zone_of_list (nm "example.com.") (soa create_test_zone) chain_records.
Definition chain_store : ZoneStore := add_zone ZoneStore_new chain_zone.

Definition do_query : Message := query_for "b.example.com." RecordType.A (Some do_edns).
Definition do_question : Query := (nm "b.example.com.", RecordType.A).

Lemma process_query_refines_spec_witness :
  let d := match message_extensions do_query with Some e => edns_dnssec_ok e | None => false end in
  exists response,
    process_query chain_store do_query = Ok response /\
    message_view response =
    response_view do_query do_question d
      (resolution_spec
         (get_soa_record (zone_of_list (nm "example.com.") (soa create_test_zone) chain_records))
         (nm "example.com.") chain_records (query_name do_question) (query_query_type do_question) d).
Proof.
  apply (process_query_refines_spec (nm "example.com.") (soa create_test_zone) chain_records chain_store
           do_query do_question);
    [reflexivity|reflexivity|discriminate|vm_compute; reflexivity].
Defined.

Lemma process_query_total_witness :
  exists response, process_query test_store (query_for "nope." RecordType.A None) = Ok response /\
    echoes (query_for "nope." RecordType.A None) (message_view response).
Proof. apply process_query_total. Defined.

Lemma process_query_refusals_witness :
  match process_query test_store (query_for "example.org." RecordType.A None) with
  | Ok response =>
      bare (message_view response) ResponseCode.Refused false [(nm "example.org.", RecordType.A)]
  | _ => False
  end.
Proof.
  destruct (process_query test_store _) as [response| |] eqn:E; [|vm_compute in E; discriminate..].
  pose proof (process_query_refusals test_store _ response E) as Hp.
  vm_compute in Hp. apply Hp. reflexivity.
Defined.

Lemma answers_within_zone_witness :
  match process_query chain_store (query_for "x.example.com." RecordType.A None) with
  | Ok response => forallb (fun r => bool_decide (r ∈ chain_records)) (message_answers response) = true
  | _ => False
  end.
Proof.
  run_query E.
  pose proof (answers_within_zone (nm "example.com.") (soa create_test_zone) chain_records chain_store
    (query_for "x.example.com." RecordType.A None) response (nm "x.example.com.", RecordType.A)) as Hp.
  destruct Hp as [Hp _]; [reflexivity|reflexivity|discriminate|vm_compute; reflexivity|exact E|].
  apply forallb_forall. intros r Hr. apply bool_decide_eq_true, Hp. by apply list_elem_of_In.
Defined.

(** The wildcard has an address, and a query for another type is answered NXDOMAIN. *)
Lemma negative_response_witness :
  match process_query chain_store (query_for "x.example.com." RecordType.AAAA None) with
  | Ok response =>
      message_name_servers response = [get_soa_record chain_zone] /\
      message_response_code response =
        if name_exists_spec chain_records (nm "x.example.com.") then ResponseCode.NoError
        else ResponseCode.NXDomain
  | _ => False
  end.
Proof.
  run_query E.
  pose proof (negative_response (nm "example.com.") (soa create_test_zone) chain_records chain_store
    (query_for "x.example.com." RecordType.AAAA None) response
    (nm "x.example.com.", RecordType.AAAA)) as Hp.
  destruct Hp as [Hp1 Hp2]; [reflexivity|reflexivity|discriminate|vm_compute; reflexivity|exact E|].
  apply Hp2, Hp1. split; vm_compute; reflexivity.
Defined.

(** [a] is an alias of [b], [b] an alias of [www], which has an address. *)
Definition first_link : list DnsRecord :=
  [record_from_rdata (nm "a.example.com.") 300 (RData.CNAME (nm "b.example.com."))].

Lemma cname_chain_one_link_witness :
  match process_query chain_store (query_for "a.example.com." RecordType.A None) with
  | Ok response =>
      message_response_code response = ResponseCode.NoError /\ message_answers response = first_link
  | _ => False
  end.
Proof.
  run_query E.
  apply (cname_chain_one_link (nm "example.com.") (soa create_test_zone) chain_records first_link
    chain_store (query_for "a.example.com." RecordType.A None) response
    (nm "a.example.com.", RecordType.A));
    [reflexivity|reflexivity|discriminate|vm_compute; reflexivity|exact E|vm_compute; reflexivity..|].
  intros c target Hc. apply list_elem_of_singleton in Hc as ->. intros [= <-]. vm_compute. reflexivity.
Defined.

Definition small_edns : Edns := edns_set_max_payload 512 edns_new.
Definition small_query : Message := query_for "www.example.com." RecordType.A (Some small_edns).

Lemma edns_of_response_witness :
  match process_query chain_store small_query with
  | Ok response =>
      match message_extensions small_query, message_extensions response with
      | Some client, Some e =>
          edns_view e =
          {| v_max_payload := 4096; v_version := 0; v_dnssec_ok := edns_dnssec_ok client |}
      | None, None => True
      | _, _ => False
      end
  | _ => False
  end.
Proof.
  run_query E.
  apply (edns_of_response (nm "example.com.") (soa create_test_zone) chain_records chain_store
    small_query response (nm "www.example.com.", RecordType.A));
    [reflexivity|reflexivity|discriminate|vm_compute; reflexivity|exact E].
Defined.
End witnesses.
