(* ===== verification/RateLimit.v ===== *)
(** [src/src/ratelimit.rs]: the per-client sliding-window limiter.  The mutex makes every call atomic,
    so concurrent callers are a sequence of calls on one state.  [Instant::now()] reads a clock: the
    [n]-th reading of the process is [clock n], and a call takes the number of readings made so far
    and returns the new one. *)
From S2P Require Import Prelude RustTime.
Open Scope Z_scope.

(** [std::net::IpAddr] *)
Inductive IpAddr := V4 (a : Z) | V6 (a : Z).

#[export] Instance IpAddr_eq_dec : EqDecision IpAddr.
Proof. solve_decision. Defined.
#[export] Instance IpAddr_countable : Countable IpAddr.
Proof.
  refine (inj_countable (fun i => match i with V4 a => inl a | V6 a => inr a end)
            (fun s => match s with inl a => Some (V4 a) | inr a => Some (V6 a) end) _).
  by intros [].
Defined.

(** [ClientState] *)
Record ClientState := { queries : list Instant }.

(** [RateLimiterInner] *)
Record RateLimiterInner := {
  clients : gmap IpAddr ClientState;
  max_qps : Z;
  window : Duration;
  last_cleanup : Instant
}.

Definition with_clients (inner : RateLimiterInner) (m : gmap IpAddr ClientState) : RateLimiterInner :=
  {| clients := m; max_qps := max_qps inner; window := window inner;
     last_cleanup := last_cleanup inner |}.

(** [RateLimiter::new] *)
Definition RateLimiter_new (clock : Clock) (tick : nat) (max_qps : Z) : RateLimiterInner * nat :=
  ({| clients := ∅; max_qps := max_qps; window := from_secs 1; last_cleanup := clock tick |},
   S tick).

(** [queries.retain(|&timestamp| now.duration_since(timestamp) < window)] *)
Definition retain_recent (window : Duration) (now : Instant) (qs : list Instant) : list Instant :=
  List.filter (fun timestamp => duration_since now timestamp <? window) qs.

(** [RateLimiterInner::cleanup], with its own reading of the clock. *)
Definition cleanup (now : Instant) (inner : RateLimiterInner) : RateLimiterInner :=
  with_clients inner
    (omap
       (fun client =>
          let qs := retain_recent (window inner) now (queries client) in
          if bool_decide (qs = []) then None else Some {| queries := qs |})
       (clients inner)).

(** [RateLimiter::check_rate_limit] *)
Definition check_rate_limit (clock : Clock) (tick : nat) (inner : RateLimiterInner) (addr : IpAddr)
    : bool * RateLimiterInner * nat :=
  let elapsed := duration_since (clock tick) (last_cleanup inner) in
  let tick := S tick in
  let '(inner, tick) :=
    if from_secs 60 <? elapsed then
      let inner := cleanup (clock tick) inner in
      ({| clients := clients inner; max_qps := max_qps inner; window := window inner;
          last_cleanup := clock (S tick) |}, S (S tick))
    else (inner, tick) in
  let now := clock tick in
  let tick := S tick in
  let client := default {| queries := [] |} (clients inner !! addr) in
  let qs := retain_recent (window inner) now (queries client) in
  if max_qps inner <=? Z.of_nat (length qs) then
    (false, with_clients inner (<[addr := {| queries := qs |}]> (clients inner)), tick)
  else
    (true, with_clients inner (<[addr := {| queries := qs ++ [now] |}]> (clients inner)), tick).

(** * Sequences of calls *)

(** One call as seen from outside: the client, the reading of the clock that decided, the answer. *)
Record Call := { call_addr : IpAddr; call_now : Instant; call_granted : bool }.

(** The reading [now] of a call that starts at a given tick. *)
Definition deciding_tick (clock : Clock) (tick : nat) (inner : RateLimiterInner) : nat :=
  if from_secs 60 <? duration_since (clock tick) (last_cleanup inner) then S (S (S tick)) else S tick.

Fixpoint run_calls (clock : Clock) (tick : nat) (inner : RateLimiterInner) (addrs : list IpAddr)
    : list Call * RateLimiterInner * nat :=
  match addrs with
  | [] => ([], inner, tick)
  | addr :: addrs' =>
      let now := clock (deciding_tick clock tick inner) in
      let '(granted, inner, tick) := check_rate_limit clock tick inner addr in
      let '(calls, inner, tick) := run_calls clock tick inner addrs' in
      ({| call_addr := addr; call_now := now; call_granted := granted |} :: calls, inner, tick)
  end.

(** * Specification: the full history of granted queries *)

Definition granted_times (addr : IpAddr) (log : list (IpAddr * Instant)) : list Instant :=
  (List.filter (fun p => bool_decide (p.1 = addr)) log).*2.

(** Grant unless [max] queries of the client were granted within the window that ends now. *)
Definition spec_check (max : Z) (window : Duration) (log : list (IpAddr * Instant)) (addr : IpAddr)
    (now : Instant) : bool :=
  Z.of_nat (length (retain_recent window now (granted_times addr log))) <? max.

Definition spec_log (log : list (IpAddr * Instant)) (c : Call) : list (IpAddr * Instant) :=
  if call_granted c then log ++ [(call_addr c, call_now c)] else log.

Fixpoint spec_accepts (max : Z) (window : Duration) (log : list (IpAddr * Instant))
    (calls : list Call) : Prop :=
  match calls with
  | [] => True
  | c :: calls' =>
      call_granted c = spec_check max window log (call_addr c) (call_now c) /\
      spec_accepts max window (spec_log log c) calls'
  end.

(** The queries of a client granted in the interval of a window's length that starts at [t]. *)
Definition granted_in_window (addr : IpAddr) (t : Instant) (w : Duration) (calls : list Call) : nat :=
  length (List.filter
    (fun c => call_granted c && bool_decide (call_addr c = addr)
              && (t <=? call_now c) && (call_now c <? t + w)) calls).

(** * Invariant and abstraction *)

(** The stored times of a client agree with the history on everything still inside a window. *)
Definition limiter_refines (inner : RateLimiterInner) (log : list (IpAddr * Instant)) (now : Instant)
    : Prop :=
  forall addr,
    retain_recent (window inner) now (queries (default {| queries := [] |} (clients inner !! addr))) =
    retain_recent (window inner) now (granted_times addr log).

Definition limiter_bounded (inner : RateLimiterInner) : Prop :=
  map_Forall (fun _ c => Z.of_nat (length (queries c)) <= max_qps inner) (clients inner).
