(* ===== verification/RateLimitProps.v ===== *)
(** Theorems about the rate limiter: it decides as if it kept the whole history, so no client gets more
    than [max_qps] queries within any second, and it stores at most that many times per client. *)
From S2P Require Import Prelude RustTime RateLimit.
Open Scope Z_scope.

(** ** Windows *)

Lemma retain_recent_app w now l1 l2 :
  retain_recent w now (l1 ++ l2) = retain_recent w now l1 ++ retain_recent w now l2.
Proof. apply List.filter_app. Qed.

(** What is outside a window stays outside later ones. *)
Lemma retain_recent_later w now now' l :
  now <= now' -> retain_recent w now' (retain_recent w now l) = retain_recent w now' l.
Proof.
  intros Hle. unfold retain_recent. induction l as [|t l IH]; cbn; [done|].
  destruct (duration_since now t <? w) eqn:E1; cbn; rewrite IH; [done|].
  destruct (duration_since now' t <? w) eqn:E2; [|done].
  unfold duration_since in *. lia.
Qed.

Lemma retain_recent_length w now l : (length (retain_recent w now l) <= length l)%nat.
Proof. apply List.filter_length_le. Qed.

Lemma granted_times_snoc addr log a t :
  granted_times addr (log ++ [(a, t)]) =
  granted_times addr log ++ (if bool_decide (a = addr) then [t] else []).
Proof.
  unfold granted_times. rewrite List.filter_app, fmap_app. cbn. by case_bool_decide.
Qed.

(** ** Refinement *)

Lemma refines_later inner log now now' :
  now <= now' -> limiter_refines inner log now -> limiter_refines inner log now'.
Proof.
  intros Hle Hr addr. specialize (Hr addr).
  apply (f_equal (retain_recent (window inner) now')) in Hr.
  by rewrite !retain_recent_later in Hr.
Qed.

Lemma cleanup_refines inner log now :
  limiter_refines inner log now -> limiter_refines (cleanup now inner) log now.
Proof.
  intros Hr addr. specialize (Hr addr). cbn in *. rewrite <- Hr, lookup_omap.
  destruct (clients inner !! addr) as [c|] eqn:E; cbn; [|done].
  case_bool_decide as Hq; cbn.
  - by rewrite Hq.
  - by apply retain_recent_later.
Qed.

(** The two phases of a call: the periodic cleanup and the decision. *)
Definition after_cleanup (clock : Clock) (tick : nat) (inner : RateLimiterInner) : RateLimiterInner :=
  if from_secs 60 <? duration_since (clock tick) (last_cleanup inner) then
    let inner' := cleanup (clock (S tick)) inner in
    {| clients := clients inner'; max_qps := max_qps inner'; window := window inner';
       last_cleanup := clock (S (S tick)) |}
  else inner.

Definition decide_call (now : Instant) (inner : RateLimiterInner) (addr : IpAddr)
    : bool * RateLimiterInner :=
  let client := default {| queries := [] |} (clients inner !! addr) in
  let qs := retain_recent (window inner) now (queries client) in
  if max_qps inner <=? Z.of_nat (length qs) then
    (false, with_clients inner (<[addr := {| queries := qs |}]> (clients inner)))
  else (true, with_clients inner (<[addr := {| queries := qs ++ [now] |}]> (clients inner))).

Lemma check_rate_limit_phases clock tick inner addr :
  let t := deciding_tick clock tick inner in
  check_rate_limit clock tick inner addr =
  (decide_call (clock t) (after_cleanup clock tick inner) addr, S t).
Proof.
  unfold check_rate_limit, deciding_tick, after_cleanup, decide_call.
  destruct (from_secs 60 <? _); cbn; by destruct (_ <=? _).
Qed.

Lemma after_cleanup_refines clock tick inner log :
  monotone clock -> limiter_refines inner log (clock tick) ->
  limiter_refines (after_cleanup clock tick inner) log (clock (deciding_tick clock tick inner)).
Proof.
  intros Hm Hr. unfold after_cleanup, deciding_tick.
  destruct (from_secs 60 <? duration_since (clock tick) (last_cleanup inner)).
  - apply (refines_later _ _ (clock (S tick))); [apply Hm; lia|].
    apply cleanup_refines. apply (refines_later _ _ (clock tick)); [apply Hm; lia|done].
  - apply (refines_later _ _ (clock tick)); [apply Hm; lia|done].
Qed.

Lemma retain_recent_now w now : 0 < w -> retain_recent w now [now] = [now].
Proof.
  intros Hw. cbn. unfold duration_since. rewrite Z.sub_diag, Z.max_id.
  by rewrite (proj2 (Z.ltb_lt 0 w)).
Qed.

Lemma decide_call_refines now inner log addr :
  0 < window inner -> limiter_refines inner log now ->
  let '(granted, inner') := decide_call now inner addr in
  granted = spec_check (max_qps inner) (window inner) log addr now /\
  limiter_refines inner' (spec_log log {| call_addr := addr; call_now := now; call_granted := granted |}) now /\
  max_qps inner' = max_qps inner /\ window inner' = window inner.
Proof.
  intros Hw Hr. unfold decide_call. pose proof (Hr addr) as Ha. rewrite Ha.
  unfold spec_check. set (qs := retain_recent _ now (granted_times addr log)) in *.
  destruct (Z.leb_spec (max_qps inner) (Z.of_nat (length qs))).
  - split_and!; [symmetry; apply Z.ltb_ge; lia| |done|done].
    intros a. unfold spec_log. cbn. rewrite lookup_insert. case_decide; subst; cbn; [|apply Hr].
    unfold qs. by apply retain_recent_later.
  - split_and!; [symmetry; apply Z.ltb_lt; lia| |done|done].
    intros a. unfold spec_log. cbn -[granted_times retain_recent]. rewrite lookup_insert, granted_times_snoc, retain_recent_app.
    case_decide as Hd; subst; cbn -[granted_times retain_recent].
    + rewrite bool_decide_eq_true_2 by done. rewrite retain_recent_app. f_equal.
      unfold qs. by apply retain_recent_later.
    + rewrite bool_decide_eq_false_2 by done. cbn. rewrite app_nil_r. apply Hr.
Qed.

(** One call of the limiter against the history. *)
Lemma check_rate_limit_refines clock tick inner log addr :
  monotone clock -> 0 < window inner -> limiter_refines inner log (clock tick) ->
  let '(granted, inner', tick') := check_rate_limit clock tick inner addr in
  let now := clock (deciding_tick clock tick inner) in
  granted = spec_check (max_qps inner) (window inner) log addr now /\
  limiter_refines inner' (spec_log log {| call_addr := addr; call_now := now; call_granted := granted |})
    (clock tick') /\
  max_qps inner' = max_qps inner /\ window inner' = window inner.
Proof.
  intros Hm Hw Hr. rewrite check_rate_limit_phases. set (t := deciding_tick clock tick inner).
  pose proof (after_cleanup_refines clock tick inner log Hm Hr) as Hc.
  assert (window (after_cleanup clock tick inner) = window inner /\
          max_qps (after_cleanup clock tick inner) = max_qps inner) as [Hw1 Hq1]
    by (unfold after_cleanup; by destruct (from_secs 60 <? _)).
  pose proof (decide_call_refines (clock t) (after_cleanup clock tick inner) log addr) as Hd.
  destruct (decide_call _ _ _) as [granted inner'].
  destruct Hd as (Hg & Hr' & Hq & Hw2); [by rewrite Hw1|done|].
  rewrite Hw1, Hq1 in *. split_and!; [done| |done|done].
  apply (refines_later _ _ (clock t)); [apply Hm; lia|done].
Qed.

Lemma run_calls_refines clock addrs : forall tick inner log,
  monotone clock -> 0 < window inner -> limiter_refines inner log (clock tick) ->
  spec_accepts (max_qps inner) (window inner) log (run_calls clock tick inner addrs).1.1.
Proof.
  induction addrs as [|addr addrs IH]; intros tick inner log Hm Hw Hr; cbn; [done|].
  pose proof (check_rate_limit_refines clock tick inner log addr Hm Hw Hr) as Hc.
  destruct (check_rate_limit clock tick inner addr) as [[granted inner'] tick'].
  destruct Hc as (Hg & Hr' & Hq & Hw2).
  specialize (IH tick' inner' _ Hm ltac:(by rewrite Hw2) Hr'). rewrite Hw2, Hq in IH.
  by destruct (run_calls clock tick' inner' addrs) as [[calls inner''] tick''].
Qed.

Lemma run_new_refines clock max addrs :
  monotone clock ->
  spec_accepts max (from_secs 1) [] (run_calls clock 1 (RateLimiter_new clock 0 max).1 addrs).1.1.
Proof.
  intros Hm. apply (run_calls_refines clock addrs 1 (RateLimiter_new clock 0 max).1 []); [done|done|].
  intros addr. cbn. by rewrite lookup_empty.
Qed.

(** ** The specification bounds every window *)

Fixpoint times_from (t : Instant) (calls : list Call) : Prop :=
  match calls with
  | [] => True
  | c :: calls' => t <= call_now c /\ times_from (call_now c) calls'
  end.

Lemma times_from_le t t' calls : t <= t' -> times_from t' calls -> times_from t calls.
Proof. destruct calls; cbn; [done|]. intros ? []. split; [lia|done]. Qed.

Lemma run_calls_times clock addrs : forall tick inner,
  monotone clock -> times_from (clock tick) (run_calls clock tick inner addrs).1.1.
Proof.
  induction addrs as [|addr addrs IH]; intros tick inner Hm; cbn; [done|].
  rewrite check_rate_limit_phases. set (t := deciding_tick clock tick inner).
  destruct (decide_call _ _ _) as [granted inner'].
  specialize (IH (S t) inner' Hm).
  destruct (run_calls clock (S t) inner' addrs) as [[calls inner''] tick'']. cbn in *.
  split.
  - apply Hm. unfold t, deciding_tick. destruct (from_secs 60 <? _); lia.
  - apply (times_from_le _ (clock (S t))); [apply Hm; lia|done].
Qed.

Definition log_in_window (t : Instant) (w : Duration) (ts : list Instant) : nat :=
  length (List.filter (fun x => (t <=? x) && (x <? t + w)) ts).

(** Logged times up to [now] in a window that contains [now] are recent. *)
Lemma log_in_window_recent t w now ts :
  t <= now < t + w -> (log_in_window t w ts <= length (retain_recent w now ts))%nat.
Proof.
  intros Hnow. unfold log_in_window, retain_recent. induction ts as [|x ts IH]; cbn; [lia|].
  destruct ((t <=? x) && (x <? t + w)) eqn:E; cbn.
  - assert (duration_since now x <? w = true) as ->; [|cbn; lia].
    unfold duration_since. apply andb_true_iff in E. lia.
  - destruct (duration_since now x <? w); cbn; lia.
Qed.

Lemma spec_bounds_window max w addr t calls : forall log,
  0 <= max -> spec_accepts max w log calls ->
  Z.of_nat (log_in_window t w (granted_times addr log)) <= max ->
  Z.of_nat (log_in_window t w (granted_times addr log) + granted_in_window addr t w calls) <= max.
Proof.
  induction calls as [|c calls IH]; intros log Hmax Hs Hl; cbn; [lia|].
  destruct Hs as [Hg Hs]. specialize (IH (spec_log log c) Hmax Hs).
  unfold granted_in_window in *. cbn. unfold spec_log in *.
  destruct (call_granted c) eqn:Eg; cbn [andb]; [|by apply IH].
  rewrite granted_times_snoc in IH. unfold log_in_window in *. rewrite List.filter_app, length_app in IH.
  case_bool_decide as Ha; cbn [andb]; cbn in IH; [|rewrite Nat.add_0_r in IH; by apply IH].
  destruct ((t <=? call_now c) && (call_now c <? t + w)) eqn:E; cbn in IH |- *.
  - apply andb_true_iff in E as [E1 E2]. unfold spec_check in Hg. symmetry in Hg.
    apply Z.ltb_lt in Hg. rewrite Ha in Hg.
    assert (t <= call_now c < t + w) as Hnow by lia.
    pose proof (log_in_window_recent t w (call_now c) (granted_times addr log) Hnow) as Hb.
    unfold log_in_window in Hb. cbn. lia.
  - rewrite Nat.add_0_r in IH. by apply IH.
Qed.

(** ** Storage *)

Lemma check_rate_limit_bounded clock tick inner addr :
  0 <= max_qps inner -> limiter_bounded inner ->
  let '(_, inner', _) := check_rate_limit clock tick inner addr in
  limiter_bounded inner' /\ max_qps inner' = max_qps inner.
Proof.
  intros Hmax Hb. rewrite check_rate_limit_phases.
  assert (limiter_bounded (after_cleanup clock tick inner) /\
          max_qps (after_cleanup clock tick inner) = max_qps inner) as [Hb1 Hq1].
  { unfold after_cleanup. destruct (from_secs 60 <? _); [|done]. split; [|done].
    intros a c. cbn. rewrite lookup_omap. intros (c0 & Hc0 & Hc)%bind_Some. case_bool_decide; [done|].
    injection Hc as <-. specialize (Hb a c0 Hc0). cbn in *.
    pose proof (retain_recent_length (window inner) (clock (S tick)) (queries c0)). lia. }
  unfold decide_call. set (qs := retain_recent _ _ _).
  destruct (Z.leb_spec (max_qps (after_cleanup clock tick inner)) (Z.of_nat (length qs))) as [Hle|Hlt]; cbn;
    (split; [|done]); intros a c; cbn; rewrite lookup_insert; case_decide; try apply Hb1; intros [= <-]; cbn.
  - unfold qs. destruct (clients _ !! addr) as [c|] eqn:E; cbn; [|lia].
    specialize (Hb1 addr c E). cbn in Hb1.
    pose proof (retain_recent_length (window (after_cleanup clock tick inner))
      (clock (deciding_tick clock tick inner)) (queries c)). lia.
  - rewrite length_app. cbn. lia.
Qed.

(** * Properties *)

(** C9 (refinement): whatever the clients and the times of their calls, the limiter answers as the
    specification that keeps the full history: a call is granted exactly when fewer than [max_qps]
    calls of the same client were granted within the last second.  The periodic cleanup and the
    trimming of the stored times never change a decision. *)
Theorem limiter_refines_history (clock : Clock) (max : Z) (addrs : list IpAddr) :
  monotone clock ->
  let '(inner, tick) := RateLimiter_new clock 0 max in
  spec_accepts max (from_secs 1) [] (run_calls clock tick inner addrs).1.1.
Proof. apply run_new_refines. Qed.

(** In every interval of one second, wherever it starts, a client is granted at most
    [max_qps] queries. *)
Theorem limiter_bounds_rate (clock : Clock) (max : Z) (addrs : list IpAddr) (addr : IpAddr)
    (t : Instant) :
  monotone clock -> 0 <= max ->
  let '(inner, tick) := RateLimiter_new clock 0 max in
  Z.of_nat (granted_in_window addr t (from_secs 1) (run_calls clock tick inner addrs).1.1) <= max.
Proof.
  intros Hm Hmax. pose proof (run_new_refines clock max addrs Hm) as Hs.
  apply (spec_bounds_window max (from_secs 1) addr t _ []) in Hs; [|done|done].
  exact Hs.
Qed.

(** After any sequence of calls the limiter stores at most [max_qps] times per client. *)
Theorem limiter_storage_bounded (clock : Clock) (max : Z) (addrs : list IpAddr) :
  0 <= max ->
  let '(inner, tick) := RateLimiter_new clock 0 max in
  limiter_bounded (run_calls clock tick inner addrs).1.2 /\
  max_qps (run_calls clock tick inner addrs).1.2 = max.
Proof.
  intros Hmax. cbn.
  set (inner := {| clients := ∅; max_qps := max; window := from_secs 1; last_cleanup := clock 0%nat |}).
  assert (limiter_bounded inner /\ max_qps inner = max) as [Hb Hq] by (split; [apply map_Forall_empty|done]).
  clearbody inner. generalize 1%nat. revert inner Hb Hq.
  induction addrs as [|addr addrs IH]; intros inner Hb Hq tick; cbn; [done|].
  pose proof (check_rate_limit_bounded clock tick inner addr) as Hc.
  destruct (check_rate_limit clock tick inner addr) as [[granted inner'] tick'].
  destruct Hc as [Hb' Hq']; [lia|done|].
  specialize (IH inner' Hb' ltac:(congruence) tick').
  by destruct (run_calls clock tick' inner' addrs) as [[calls inner''] tick''].
Qed.

(** * Witnesses *)

(** A clock that advances by a tenth of a second at every reading. *)
Definition test_clock : Clock := fun n => Z.of_nat n * 100000000.
Definition two_clients : list IpAddr := [V4 1; V4 1; V4 2; V4 1; V4 1; V4 2; V4 1; V4 1; V4 1; V4 1].

Lemma limiter_refines_history_witness :
  let '(inner, tick) := RateLimiter_new test_clock 0 3 in
  spec_accepts 3 (from_secs 1) [] (run_calls test_clock tick inner two_clients).1.1.
Proof. apply limiter_refines_history. intros m n ?. unfold test_clock. lia. Defined.

Lemma limiter_bounds_rate_witness :
  let '(inner, tick) := RateLimiter_new test_clock 0 3 in
  Z.of_nat (granted_in_window (V4 1) 50 (from_secs 1) (run_calls test_clock tick inner two_clients).1.1) <= 3.
Proof. apply limiter_bounds_rate; [intros m n ?; unfold test_clock; lia|lia]. Defined.

Lemma limiter_storage_bounded_witness :
  let '(inner, tick) := RateLimiter_new test_clock 0 3 in
  limiter_bounded (run_calls test_clock tick inner two_clients).1.2 /\
  max_qps (run_calls test_clock tick inner two_clients).1.2 = 3.
Proof. apply limiter_storage_bounded. lia. Defined.
