(* ===== verification/Metrics.v ===== *)
(** [src/src/metrics.rs]: the server's counters.  Every field is an atomic (or a map under a lock), so
    one method call is a sequence of atomic steps, and concurrent calls interleave their steps.
    Properties are in [MetricsProps]. *)
From S2P Require Import Prelude RustTime Crates.
From stdpp Require Import sorting.
From Stdlib Require Import SpecFloat.
Open Scope Z_scope.

(** * [Metrics] *)

Record Metrics := {
  total_queries : Z;
  udp_queries : Z;
  tcp_queries : Z;
  edns_queries : Z;
  noerror_responses : Z;
  nxdomain_responses : Z;
  servfail_responses : Z;
  refused_responses : Z;
  formerr_responses : Z;
  query_types : gmap RecordType.t Z;
  total_latency_us : Z;
  min_latency_us : Z;
  max_latency_us : Z;
  rate_limited : Z;
  errors : Z;
  tcp_connections : Z;
  tcp_queries_per_connection : Z;
  tcp_connection_timeouts : Z;
  start_time : Instant
}.

(** [Metrics::new] *)
Definition Metrics_new (now : Instant) : Metrics :=
  {| total_queries := 0;
     udp_queries := 0;
     tcp_queries := 0;
     edns_queries := 0;
     noerror_responses := 0;
     nxdomain_responses := 0;
     servfail_responses := 0;
     refused_responses := 0;
     formerr_responses := 0;
     query_types := ∅;
     total_latency_us := 0;
     min_latency_us := u_max 64;
     max_latency_us := 0;
     rate_limited := 0;
     errors := 0;
     tcp_connections := 0;
     tcp_queries_per_connection := 0;
     tcp_connection_timeouts := 0;
     start_time := now |}.

(** The names of the [AtomicU64] fields. *)
Inductive Counter :=
  | C_total_queries
  | C_udp_queries
  | C_tcp_queries
  | C_edns_queries
  | C_noerror_responses
  | C_nxdomain_responses
  | C_servfail_responses
  | C_refused_responses
  | C_formerr_responses
  | C_total_latency_us
  | C_min_latency_us
  | C_max_latency_us
  | C_rate_limited
  | C_errors
  | C_tcp_connections
  | C_tcp_queries_per_connection
  | C_tcp_connection_timeouts.

#[export] Instance Counter_eq_dec : EqDecision Counter.
Proof. solve_decision. Defined.

(** [self.c.load(Ordering::Relaxed)] *)
Definition load (c : Counter) (m : Metrics) : Z :=
  match c with
  | C_total_queries => total_queries m
  | C_udp_queries => udp_queries m
  | C_tcp_queries => tcp_queries m
  | C_edns_queries => edns_queries m
  | C_noerror_responses => noerror_responses m
  | C_nxdomain_responses => nxdomain_responses m
  | C_servfail_responses => servfail_responses m
  | C_refused_responses => refused_responses m
  | C_formerr_responses => formerr_responses m
  | C_total_latency_us => total_latency_us m
  | C_min_latency_us => min_latency_us m
  | C_max_latency_us => max_latency_us m
  | C_rate_limited => rate_limited m
  | C_errors => errors m
  | C_tcp_connections => tcp_connections m
  | C_tcp_queries_per_connection => tcp_queries_per_connection m
  | C_tcp_connection_timeouts => tcp_connection_timeouts m
  end.

(** The value of a field after an atomic update. *)
Definition store (c : Counter) (x : Z) (m : Metrics) : Metrics :=
  let put d := if decide (c = d) then x else load d m in
  {| total_queries := put C_total_queries;
     udp_queries := put C_udp_queries;
     tcp_queries := put C_tcp_queries;
     edns_queries := put C_edns_queries;
     noerror_responses := put C_noerror_responses;
     nxdomain_responses := put C_nxdomain_responses;
     servfail_responses := put C_servfail_responses;
     refused_responses := put C_refused_responses;
     formerr_responses := put C_formerr_responses;
     query_types := query_types m;
     total_latency_us := put C_total_latency_us;
     min_latency_us := put C_min_latency_us;
     max_latency_us := put C_max_latency_us;
     rate_limited := put C_rate_limited;
     errors := put C_errors;
     tcp_connections := put C_tcp_connections;
     tcp_queries_per_connection := put C_tcp_queries_per_connection;
     tcp_connection_timeouts := put C_tcp_connection_timeouts;
     start_time := start_time m |}.

Definition with_query_types (q : gmap RecordType.t Z) (m : Metrics) : Metrics :=
  {| total_queries := total_queries m;
     udp_queries := udp_queries m;
     tcp_queries := tcp_queries m;
     edns_queries := edns_queries m;
     noerror_responses := noerror_responses m;
     nxdomain_responses := nxdomain_responses m;
     servfail_responses := servfail_responses m;
     refused_responses := refused_responses m;
     formerr_responses := formerr_responses m;
     query_types := q;
     total_latency_us := total_latency_us m;
     min_latency_us := min_latency_us m;
     max_latency_us := max_latency_us m;
     rate_limited := rate_limited m;
     errors := errors m;
     tcp_connections := tcp_connections m;
     tcp_queries_per_connection := tcp_queries_per_connection m;
     tcp_connection_timeouts := tcp_connection_timeouts m;
     start_time := start_time m |}.

(** * Atomic steps *)

Inductive Step :=
  | FetchAdd (c : Counter) (n : Z)
  | FetchMin (c : Counter) (n : Z)
  | FetchMax (c : Counter) (n : Z)
  | CountType (qtype : RecordType.t).

(** [fetch_add] wraps around; so does [+= 1] on a [u64] in a release build. *)
Definition run_step (m : Metrics) (s : Step) : Metrics :=
  match s with
  | FetchAdd c n => store c (wrap 64 (load c m + n)) m
  | FetchMin c n => store c (Z.min (load c m) n) m
  | FetchMax c n => store c (Z.max (load c m) n) m
  | CountType qtype =>
      let types := query_types m in
      with_query_types (<[qtype := wrap 64 (default 0 (types !! qtype) + 1)]> types) m
  end.

Definition run_steps (m : Metrics) (l : list Step) : Metrics := fold_left run_step l m.

(** * The methods, each as the steps it makes *)

(** [Protocol] *)
Inductive Protocol := Udp | Tcp.

#[export] Instance Protocol_eq_dec : EqDecision Protocol.
Proof. solve_decision. Defined.

Definition record_tcp_connection : list Step := [FetchAdd C_tcp_connections 1].

Definition record_tcp_connection_closed (queries_handled : Z) : list Step :=
  [FetchAdd C_tcp_queries_per_connection queries_handled].

Definition record_tcp_connection_timeout : list Step := [FetchAdd C_tcp_connection_timeouts 1].

Definition record_query (protocol : Protocol) (edns : bool) : list Step :=
  [FetchAdd C_total_queries 1]
  ++ (match protocol with
      | Udp => [FetchAdd C_udp_queries 1]
      | Tcp => [FetchAdd C_tcp_queries 1]
      end)
  ++ (if edns then [FetchAdd C_edns_queries 1] else []).

Definition record_response (response_code : ResponseCode.t) : list Step :=
  match response_code with
  | ResponseCode.NoError => [FetchAdd C_noerror_responses 1]
  | ResponseCode.NXDomain => [FetchAdd C_nxdomain_responses 1]
  | ResponseCode.ServFail => [FetchAdd C_servfail_responses 1]
  | ResponseCode.Refused => [FetchAdd C_refused_responses 1]
  | ResponseCode.FormErr => [FetchAdd C_formerr_responses 1]
  | _ => []
  end.

Definition record_query_type (qtype : RecordType.t) : list Step := [CountType qtype].

Definition record_latency (latency : Duration) : list Step :=
  let latency_us := wrap 64 (as_micros latency) in
  [FetchAdd C_total_latency_us latency_us;
   FetchMin C_min_latency_us latency_us;
   FetchMax C_max_latency_us latency_us].

Definition record_rate_limited : list Step := [FetchAdd C_rate_limited 1].

Definition record_error : list Step := [FetchAdd C_errors 1].

(** * Snapshots *)

(** [f64]: the binary64 format of the Standard Library's executable floats. *)
Abbreviation f64 := spec_float (only parsing).
Definition u64_as_f64 (z : Z) : f64 := binary_normalize 53 1024 z 0 false.
Definition f64_div (x y : f64) : f64 := SFdiv 53 1024 x y.
Definition f64_add (x y : f64) : f64 := SFadd 53 1024 x y.

(** [MetricsSnapshot] *)
Record MetricsSnapshot := {
  s_total_queries : Z;
  s_udp_queries : Z;
  s_tcp_queries : Z;
  s_edns_queries : Z;
  s_noerror_responses : Z;
  s_nxdomain_responses : Z;
  s_servfail_responses : Z;
  s_refused_responses : Z;
  s_formerr_responses : Z;
  s_query_types : gmap RecordType.t Z;
  s_avg_latency_us : Z;
  s_min_latency_us : Z;
  s_max_latency_us : Z;
  s_rate_limited : Z;
  s_errors : Z;
  s_tcp_connections : Z;
  s_avg_queries_per_connection : f64;
  s_tcp_connection_timeouts : Z;
  s_uptime : Duration
}.

(** [Metrics::get_snapshot]: [at_ k] is what the fields are at the moment of its [k]-th load, while
    other threads go on recording; the last reading is that of the clock. *)
Definition take_snapshot (at_ : nat -> Metrics) (now : Instant) : MetricsSnapshot :=
  let total := load C_total_queries (at_ 0%nat) in
  let total_latency := load C_total_latency_us (at_ 1%nat) in
  let avg_latency_us := if 0 <? total then total_latency / total else 0 in
  let min_latency := load C_min_latency_us (at_ 2%nat) in
  let min_latency_us := if min_latency =? u_max 64 then 0 else min_latency in
  let tcp_conn := load C_tcp_connections (at_ 3%nat) in
  let tcp_total_queries := load C_tcp_queries_per_connection (at_ 4%nat) in
  let avg_queries_per_conn :=
    if 0 <? tcp_conn then f64_div (u64_as_f64 tcp_total_queries) (u64_as_f64 tcp_conn)
    else u64_as_f64 0 in
  {| s_total_queries := total;
     s_udp_queries := load C_udp_queries (at_ 5%nat);
     s_tcp_queries := load C_tcp_queries (at_ 6%nat);
     s_edns_queries := load C_edns_queries (at_ 7%nat);
     s_noerror_responses := load C_noerror_responses (at_ 8%nat);
     s_nxdomain_responses := load C_nxdomain_responses (at_ 9%nat);
     s_servfail_responses := load C_servfail_responses (at_ 10%nat);
     s_refused_responses := load C_refused_responses (at_ 11%nat);
     s_formerr_responses := load C_formerr_responses (at_ 12%nat);
     s_query_types := query_types (at_ 13%nat);
     s_avg_latency_us := avg_latency_us;
     s_min_latency_us := min_latency_us;
     s_max_latency_us := load C_max_latency_us (at_ 14%nat);
     s_rate_limited := load C_rate_limited (at_ 15%nat);
     s_errors := load C_errors (at_ 16%nat);
     s_tcp_connections := tcp_conn;
     s_avg_queries_per_connection := avg_queries_per_conn;
     s_tcp_connection_timeouts := load C_tcp_connection_timeouts (at_ 17%nat);
     s_uptime := duration_since now (start_time (at_ 18%nat)) |}.

(** The same when nothing is recorded meanwhile. *)
Definition get_snapshot (now : Instant) (m : Metrics) : MetricsSnapshot := take_snapshot (fun _ => m) now.

(** * The log *)

(** The lines of [MetricsSnapshot::log], with the values they print. *)
Inductive LogLine :=
  | LogTitle
  | LogUptime (uptime : Duration)
  | LogTotal (total : Z)
  | LogProtocol (udp tcp edns : Z)
  | LogResponses (noerror nxdomain servfail refused formerr : Z)
  | LogTypesTitle
  | LogType (qtype : RecordType.t) (count : Z)
  | LogPerformance (avg min max qps : f64)
  | LogRateLimited (n : Z)
  | LogErrors (n : Z)
  | LogTcp (total : Z) (avg : f64) (timeouts : Z).

(** [types.sort_by(|a, b| b.1.cmp(a.1))]: a larger count first. *)
Definition count_ge (a b : RecordType.t * Z) : Prop := b.2 <= a.2.

#[export] Instance count_ge_dec a b : Decision (count_ge a b).
Proof. unfold count_ge. apply _. Defined.

(** [d.as_secs_f64()] *)
Definition as_secs_f64 (d : Duration) : f64 :=
  f64_add (u64_as_f64 (as_secs d)) (f64_div (u64_as_f64 (d mod 1000000000)) (u64_as_f64 1000000000)).

(** The ten most frequent types; [iter] is the order in which the hash map yields its entries. *)
Definition top_types (iter : list (RecordType.t * Z)) : list (RecordType.t * Z) :=
  take 10 (merge_sort count_ge iter).

(** [MetricsSnapshot::log] *)
Definition log (s : MetricsSnapshot) : list LogLine :=
  [LogTitle;
   LogUptime (s_uptime s);
   LogTotal (s_total_queries s);
   LogProtocol (s_udp_queries s) (s_tcp_queries s) (s_edns_queries s);
   LogResponses (s_noerror_responses s) (s_nxdomain_responses s) (s_servfail_responses s)
     (s_refused_responses s) (s_formerr_responses s)]
  ++ (if bool_decide (s_query_types s = ∅) then []
      else LogTypesTitle
           :: ((fun '(qtype, count) => LogType qtype count)
                 <$> top_types (map_to_list (s_query_types s))))
  ++ (if 0 <? s_total_queries s then
        let qps := f64_div (u64_as_f64 (s_total_queries s)) (as_secs_f64 (s_uptime s)) in
        [LogPerformance (f64_div (u64_as_f64 (s_avg_latency_us s)) (u64_as_f64 1000))
           (f64_div (u64_as_f64 (s_min_latency_us s)) (u64_as_f64 1000))
           (f64_div (u64_as_f64 (s_max_latency_us s)) (u64_as_f64 1000)) qps]
      else [])
  ++ (if 0 <? s_rate_limited s then [LogRateLimited (s_rate_limited s)] else [])
  ++ (if 0 <? s_errors s then [LogErrors (s_errors s)] else [])
  ++ (if 0 <? s_tcp_connections s then
        [LogTcp (s_tcp_connections s) (s_avg_queries_per_connection s) (s_tcp_connection_timeouts s)]
      else []).

(** [Metrics::log_summary] *)
Definition log_summary (now : Instant) (m : Metrics) : list LogLine := log (get_snapshot now m).

(** * Calls and their interleavings *)

(** One call of a recording method. *)
Inductive MetricsCall :=
  | TcpConnection
  | TcpConnectionClosed (queries_handled : Z)
  | TcpConnectionTimeout
  | QueryReceived (protocol : Protocol) (edns : bool)
  | ResponseSent (response_code : ResponseCode.t)
  | QueryType (qtype : RecordType.t)
  | Latency (latency : Duration)
  | RateLimited
  | ErrorSeen.

Definition call_steps (c : MetricsCall) : list Step :=
  match c with
  | TcpConnection => record_tcp_connection
  | TcpConnectionClosed n => record_tcp_connection_closed n
  | TcpConnectionTimeout => record_tcp_connection_timeout
  | QueryReceived p e => record_query p e
  | ResponseSent r => record_response r
  | QueryType t => record_query_type t
  | Latency d => record_latency d
  | RateLimited => record_rate_limited
  | ErrorSeen => record_error
  end.

(** Calls one after the other. *)
Definition run_metrics (m : Metrics) (calls : list MetricsCall) : Metrics :=
  run_steps m (flat_map call_steps calls).

(** [interleaves threads steps]: a schedule of threads that each run their own steps in order. *)
Inductive interleaves : list (list Step) -> list Step -> Prop :=
  | interleaves_done threads : Forall (fun t => t = []) threads -> interleaves threads []
  | interleaves_step before s t after steps :
      interleaves (before ++ t :: after) steps ->
      interleaves (before ++ (s :: t) :: after) (s :: steps).
