(* ===== verification/MetricsProps.v ===== *)
(** Theorems about the counters: concurrent recording loses nothing whatever the interleaving, every
    counter counts its calls, and what the snapshot and the log derive from them. *)
From S2P Require Import Prelude RustTime Crates Metrics.
From stdpp Require Import sorting.
From Stdlib Require Import SpecFloat.
Open Scope Z_scope.

(** ** Fields *)

Lemma load_store c d x m : load c (store d x m) = if decide (d = c) then x else load c m.
Proof. by destruct c. Qed.

Lemma load_with_query_types c q m : load c (with_query_types q m) = load c m.
Proof. by destruct c. Qed.

Lemma Metrics_ext m1 m2 :
  (forall c, load c m1 = load c m2) -> query_types m1 = query_types m2 ->
  start_time m1 = start_time m2 -> m1 = m2.
Proof.
  intros Hl Hq Hs.
  pose proof (Hl C_total_queries); pose proof (Hl C_udp_queries); pose proof (Hl C_tcp_queries);
  pose proof (Hl C_edns_queries); pose proof (Hl C_noerror_responses);
  pose proof (Hl C_nxdomain_responses); pose proof (Hl C_servfail_responses);
  pose proof (Hl C_refused_responses); pose proof (Hl C_formerr_responses);
  pose proof (Hl C_total_latency_us); pose proof (Hl C_min_latency_us);
  pose proof (Hl C_max_latency_us); pose proof (Hl C_rate_limited); pose proof (Hl C_errors);
  pose proof (Hl C_tcp_connections); pose proof (Hl C_tcp_queries_per_connection);
  pose proof (Hl C_tcp_connection_timeouts).
  destruct m1, m2; cbn in *. by subst.
Qed.

(** What a step does to each part of the state. *)
Definition update (c : Counter) (s : Step) (x : Z) : Z :=
  match s with
  | FetchAdd d n => if decide (d = c) then wrap 64 (x + n) else x
  | FetchMin d n => if decide (d = c) then Z.min x n else x
  | FetchMax d n => if decide (d = c) then Z.max x n else x
  | CountType _ => x
  end.

Lemma load_run_step c m s : load c (run_step m s) = update c s (load c m).
Proof.
  destruct s; unfold run_step, update; rewrite ?load_store, ?load_with_query_types; try done;
    case_decide; by subst.
Qed.

Definition update_types (s : Step) (q : gmap RecordType.t Z) : gmap RecordType.t Z :=
  match s with
  | CountType t => <[t := wrap 64 (default 0 (q !! t) + 1)]> q
  | _ => q
  end.

Lemma query_types_run_step m s : query_types (run_step m s) = update_types s (query_types m).
Proof. by destruct s. Qed.

Lemma start_time_run_step m s : start_time (run_step m s) = start_time m.
Proof. by destruct s. Qed.

(** ** Interleaving *)

(** Each field is updated by one kind of atomic operation only. *)
Definition step_ok (s : Step) : Prop :=
  match s with
  | FetchAdd c _ => c ≠ C_min_latency_us /\ c ≠ C_max_latency_us
  | FetchMin c _ => c = C_min_latency_us
  | FetchMax c _ => c = C_max_latency_us
  | CountType _ => True
  end.

Lemma call_steps_ok c : Forall step_ok (call_steps c).
Proof.
  destruct c as [| | |p e|r| | | |]; cbn; repeat constructor; try done.
  - destruct p; cbn; constructor; [done| |done|]; destruct e; cbn; repeat constructor; done.
  - destruct r; cbn; repeat constructor; done.
Qed.

Lemma update_comm c s1 s2 x :
  step_ok s1 -> step_ok s2 -> update c s1 (update c s2 x) = update c s2 (update c s1 x).
Proof.
  intros Ho1 Ho2. destruct s1, s2; cbn in *; repeat case_decide; subst; try done; try lia;
    try (by destruct Ho1); try (by destruct Ho2).
  rewrite !wrap_add_l. f_equal. lia.
Qed.

Lemma update_types_comm s1 s2 q :
  update_types s1 (update_types s2 q) = update_types s2 (update_types s1 q).
Proof.
  destruct s1 as [| | |t1], s2 as [| | |t2]; cbn; try done.
  destruct (decide (t1 = t2)) as [->|Hne]; [done|].
  rewrite !lookup_insert_ne by done. by apply insert_insert_ne.
Qed.

Lemma run_step_comm m s1 s2 :
  step_ok s1 -> step_ok s2 -> run_step (run_step m s1) s2 = run_step (run_step m s2) s1.
Proof.
  intros Ho1 Ho2. apply Metrics_ext.
  - intros c. rewrite !load_run_step. by apply update_comm.
  - rewrite !query_types_run_step. apply update_types_comm.
  - by rewrite !start_time_run_step.
Qed.

Lemma run_steps_perm m l1 l2 :
  l1 ≡ₚ l2 -> Forall step_ok l1 -> run_steps m l1 = run_steps m l2.
Proof.
  intros Hp. revert m. unfold run_steps.
  induction Hp as [|s l1 l2 Hp IH|s1 s2 l|l1 l2 l3 Hp1 IH1 Hp2 IH2]; intros m Ho; cbn; [done| | |].
  - apply IH. by inversion Ho.
  - rewrite !Forall_cons in Ho. destruct Ho as (? & ? & _). by rewrite run_step_comm.
  - rewrite IH1 by done. apply IH2. by rewrite <- Hp1.
Qed.

(** One more step of a thread, or one more thread. *)
Lemma interleaves_snoc threads l s : interleaves threads l ->
  forall before t after, threads = before ++ t :: after ->
  interleaves (before ++ (t ++ [s]) :: after) (l ++ [s]).
Proof.
  induction 1 as [threads Hn|b s0 t0 af l Hi IH]; intros before t after E; subst.
  - apply Forall_app in Hn as [Hb [-> Ha]%Forall_cons]. cbn.
    apply interleaves_step, interleaves_done, Forall_app. split; [done|]. by apply Forall_cons.
  - apply app_eq_inv in E as [(k & -> & E)|(k & -> & E)]; (destruct k as [|x k]; injection E as E1 E2; subst; cbn).
    + apply interleaves_step. apply (IH before t0 af). by rewrite app_nil_r.
    + pose proof (interleaves_step (before ++ (x ++ [s]) :: k) s0 t0 af (l ++ [s])) as Hst.
      rewrite <- !app_assoc in Hst. apply Hst. specialize (IH before x (k ++ t0 :: af)).
      rewrite <- !app_assoc in IH. by apply IH.
    + rewrite app_nil_r. apply interleaves_step. by apply (IH b t0 after).
    + rewrite <- app_assoc. cbn. apply interleaves_step. specialize (IH (b ++ t0 :: k) t after).
      rewrite <- !app_assoc in IH. by apply IH.
Qed.

Lemma interleaves_spawn threads l : interleaves threads l -> interleaves (threads ++ [[]]) l.
Proof.
  induction 1 as [threads Hn|b s0 t0 af l Hi IH].
  - apply interleaves_done, Forall_app. split; [done|by apply Forall_cons].
  - rewrite <- app_assoc in *. by apply interleaves_step.
Qed.

Lemma interleaves_perm threads steps : interleaves threads steps -> steps ≡ₚ concat threads.
Proof.
  induction 1 as [threads Hd|before s t after steps _ IH].
  - induction Hd as [|t threads -> _ IH]; [done|]. exact IH.
  - rewrite IH, !concat_app. cbn. by rewrite Permutation_middle.
Qed.

(** ** Counting *)

(** The number of calls of a kind. *)
Definition count (p : MetricsCall -> bool) (calls : list MetricsCall) : Z :=
  Z.of_nat (length (List.filter p calls)).

Definition is_query (c : MetricsCall) : bool :=
  match c with QueryReceived _ _ => true | _ => false end.
Definition is_query_over (p : Protocol) (c : MetricsCall) : bool :=
  match c with QueryReceived q _ => bool_decide (q = p) | _ => false end.
Definition is_edns_query (c : MetricsCall) : bool :=
  match c with QueryReceived _ e => e | _ => false end.
Definition is_response (r : ResponseCode.t) (c : MetricsCall) : bool :=
  match c with ResponseSent r' => bool_decide (r' = r) | _ => false end.
Definition is_type (t : RecordType.t) (c : MetricsCall) : bool :=
  match c with QueryType t' => bool_decide (t' = t) | _ => false end.
Definition is_call (d c : MetricsCall) : bool :=
  match c, d with
  | TcpConnection, TcpConnection | TcpConnectionTimeout, TcpConnectionTimeout
  | RateLimited, RateLimited | ErrorSeen, ErrorSeen => true
  | _, _ => false
  end.

(** The recorded latencies, in microseconds. *)
Fixpoint latencies (calls : list MetricsCall) : list Z :=
  match calls with
  | Latency d :: calls' => wrap 64 (as_micros d) :: latencies calls'
  | _ :: calls' => latencies calls'
  | [] => []
  end.
Definition sum (l : list Z) : Z := foldr Z.add 0 l.

Definition count_type (t : RecordType.t) (calls : list MetricsCall) : option Z :=
  let n := count (is_type t) calls in if n =? 0 then None else Some (wrap 64 n).

Lemma count_cons p c calls : count p (c :: calls) = (if p c then 1 else 0) + count p calls.
Proof. unfold count. cbn. destruct (p c); cbn [length]; lia. Qed.

Lemma run_metrics_cons m c calls : run_metrics m (c :: calls) = run_metrics (run_steps m (call_steps c)) calls.
Proof. unfold run_metrics, run_steps. cbn. by rewrite fold_left_app. Qed.

(** A field that every call increases by one or leaves alone counts the calls that increase it. *)
Lemma counter_counts c (p : MetricsCall -> bool) calls :
  (forall m call, load c (run_steps m (call_steps call)) =
                  if p call then wrap 64 (load c m + 1) else load c m) ->
  forall m, in_u 64 (load c m) -> load c (run_metrics m calls) = wrap 64 (load c m + count p calls).
Proof.
  intros Hc. induction calls as [|call calls IH]; intros m Hm.
  - cbn. rewrite Z.add_0_r. by rewrite wrap_small.
  - rewrite run_metrics_cons, count_cons, IH, Hc.
    + destruct (p call); [rewrite wrap_add_l|]; f_equal; lia.
    + rewrite Hc. destruct (p call); [apply wrap_range; lia|done].
Qed.

Lemma load_run_steps c m l : load c (run_steps m l) = fold_left (fun x s => update c s x) l (load c m).
Proof. revert m. unfold run_steps. induction l as [|s l IH]; intros m; cbn; [done|]. by rewrite IH, load_run_step. Qed.

(** Evaluates the effect of one call on one field. *)
Ltac one_call :=
  intros m0 call; rewrite load_run_steps; destruct call as [| | |[] []|[]| | | |]; cbn;
  repeat case_decide; try done.

(** The same for a field given by its projection. *)
Ltac counted_by c p :=
  apply (counter_counts c p); [one_call|done].

Lemma sum_latencies_cons m call :
  load C_total_latency_us (run_steps m (call_steps call)) =
  match call with
  | Latency d => wrap 64 (load C_total_latency_us m + wrap 64 (as_micros d))
  | _ => load C_total_latency_us m
  end.
Proof. revert m call. one_call. Qed.

Lemma total_latency_sum calls : forall m, in_u 64 (load C_total_latency_us m) ->
  load C_total_latency_us (run_metrics m calls) =
  wrap 64 (load C_total_latency_us m + sum (latencies calls)).
Proof.
  induction calls as [|call calls IH]; intros m Hm.
  - cbn. rewrite Z.add_0_r. symmetry. by apply wrap_small.
  - rewrite run_metrics_cons, IH, sum_latencies_cons.
    + destruct call; cbn -[wrap]; rewrite ?wrap_add_l; try done. f_equal. unfold sum. cbn -[wrap]. lia.
    + rewrite sum_latencies_cons. destruct call; try done. apply wrap_range. lia.
Qed.

Lemma min_latency_run calls : forall m,
  load C_min_latency_us (run_metrics m calls) =
  foldr Z.min (load C_min_latency_us m) (latencies calls).
Proof.
  induction calls as [|call calls IH]; intros m; [done|].
  rewrite run_metrics_cons, IH, load_run_steps. clear IH.
  destruct call as [| | |[] []|[]| |d| |]; try reflexivity.
  cbn -[wrap Z.min Z.max]. generalize (latencies calls) (wrap 64 (as_micros d)). intros l x.
  repeat case_decide; try done.
  induction l as [|y l IH]; cbn -[Z.min Z.max]; [lia|]. rewrite IH. lia.
Qed.

Lemma max_latency_run calls : forall m,
  load C_max_latency_us (run_metrics m calls) =
  foldr Z.max (load C_max_latency_us m) (latencies calls).
Proof.
  induction calls as [|call calls IH]; intros m; [done|].
  rewrite run_metrics_cons, IH, load_run_steps. clear IH.
  destruct call as [| | |[] []|[]| |d| |]; try reflexivity.
  cbn -[wrap Z.min Z.max]. generalize (latencies calls) (wrap 64 (as_micros d)). intros l x.
  repeat case_decide; try done.
  induction l as [|y l IH]; cbn -[Z.min Z.max]; [lia|]. rewrite IH. lia.
Qed.

Lemma query_types_run calls t : forall m,
  query_types (run_metrics m calls) !! t =
  match count_type t calls with
  | Some n => Some (wrap 64 (default 0 (query_types m !! t) + n))
  | None => query_types m !! t
  end.
Proof.
  induction calls as [|call calls IH]; intros m; [done|].
  rewrite run_metrics_cons, IH. unfold count_type. rewrite count_cons.
  assert (0 <= count (is_type t) calls) as Hn by (unfold count; lia).
  destruct call as [| | |[] []|[]|t'| | |]; try reflexivity.
  cbn -[wrap Z.eqb]. case_bool_decide as Ht.
  - subst t'. rewrite lookup_insert, decide_True by done. cbn [default].
    rewrite (proj2 (Z.eqb_neq (1 + _) 0)) by lia. destruct (Z.eqb_spec (count (is_type t) calls) 0) as [->|].
    + done.
    + cbn [from_option]. f_equal. unfold wrap, id. rewrite Zplus_mod_idemp_l, !Zplus_mod_idemp_r. f_equal. lia.
  - rewrite lookup_insert_ne by done. reflexivity.
Qed.

Lemma foldr_min_le x l y : y ∈ x :: l -> foldr Z.min x l <= y.
Proof.
  induction l as [|z l IH]; cbn.
  - intros ->%list_elem_of_singleton. lia.
  - intros [->|[->|Hy]%elem_of_cons]%elem_of_cons; [|lia|].
    + specialize (IH ltac:(left)). lia.
    + specialize (IH ltac:(by right)). lia.
Qed.

Lemma foldr_max_ge x l y : y ∈ x :: l -> y <= foldr Z.max x l.
Proof.
  induction l as [|z l IH]; cbn.
  - intros ->%list_elem_of_singleton. lia.
  - intros [->|[->|Hy]%elem_of_cons]%elem_of_cons; [|lia|].
    + specialize (IH ltac:(left)). lia.
    + specialize (IH ltac:(by right)). lia.
Qed.

Lemma sum_between lo hi l :
  Forall (fun y => lo <= y <= hi) l ->
  lo * Z.of_nat (length l) <= sum l <= hi * Z.of_nat (length l).
Proof. induction 1; cbn [length sum foldr] in *; unfold sum in *; lia. Qed.

Lemma sum_nonneg l : Forall (fun y => 0 <= y) l -> 0 <= sum l.
Proof. induction 1; unfold sum in *; cbn in *; lia. Qed.

Lemma latencies_nonneg calls : Forall (fun y => 0 <= y) (latencies calls).
Proof.
  induction calls as [|[] calls IH]; cbn; try done. constructor; [|done]. apply wrap_range. lia.
Qed.

Lemma latencies_length calls :
  Z.of_nat (length (latencies calls)) =
  count (fun c => match c with Latency _ => true | _ => false end) calls.
Proof.
  induction calls as [|c calls IH]; [done|]. rewrite count_cons. destruct c; cbn; lia.
Qed.

(** The latency fields after a sequence of calls on new metrics. *)
Lemma new_latency_fields start calls :
  let m := run_metrics (Metrics_new start) calls in
  load C_total_latency_us m = wrap 64 (sum (latencies calls)) /\
  load C_min_latency_us m = foldr Z.min (u_max 64) (latencies calls) /\
  load C_max_latency_us m = foldr Z.max 0 (latencies calls).
Proof.
  split_and!; [by rewrite total_latency_sum|by rewrite min_latency_run|by rewrite max_latency_run].
Qed.

Lemma latencies_between calls :
  Forall (fun y => foldr Z.min (u_max 64) (latencies calls) <= y <= foldr Z.max 0 (latencies calls))
    (latencies calls).
Proof.
  apply Forall_forall. intros y Hy. split.
  - apply foldr_min_le. by right.
  - apply foldr_max_ge. by right.
Qed.

#[export] Instance count_ge_trans : Transitive count_ge.
Proof. intros a b c. unfold count_ge. lia. Qed.
#[export] Instance count_ge_total : Total count_ge.
Proof. intros a b. unfold count_ge. lia. Qed.

(** * Properties *)

(** C24 (equivalence): whatever the interleaving of the atomic steps of concurrent calls, and whatever
    the order the calls are listed in, the counters end as if the calls had run one after the other:
    no update is lost. *)
Theorem metrics_interleaving (m : Metrics) (calls calls' : list MetricsCall) (steps : list Step) :
  interleaves (call_steps <$> calls) steps -> calls ≡ₚ calls' ->
  run_steps m steps = run_metrics m calls'.
Proof.
  intros Hi Hp. unfold run_metrics. apply run_steps_perm.
  - rewrite (interleaves_perm _ _ Hi), <- Hp, <- flat_map_concat_map. done.
  - rewrite (interleaves_perm _ _ Hi). apply Forall_concat, Forall_fmap, Forall_true.
    intros c. apply call_steps_ok.
Qed.

(** C25 (functional): after any sequence of calls each counter holds the number of calls it counts
    (modulo the width of a u64), per protocol, response code and query type; the latency fields hold
    the sum, the least and the greatest latency. *)
Theorem metrics_count_calls (start : Instant) (calls : list MetricsCall) :
  let m := run_metrics (Metrics_new start) calls in
  total_queries m = wrap 64 (count is_query calls) /\
  udp_queries m = wrap 64 (count (is_query_over Udp) calls) /\
  tcp_queries m = wrap 64 (count (is_query_over Tcp) calls) /\
  edns_queries m = wrap 64 (count is_edns_query calls) /\
  noerror_responses m = wrap 64 (count (is_response ResponseCode.NoError) calls) /\
  nxdomain_responses m = wrap 64 (count (is_response ResponseCode.NXDomain) calls) /\
  servfail_responses m = wrap 64 (count (is_response ResponseCode.ServFail) calls) /\
  refused_responses m = wrap 64 (count (is_response ResponseCode.Refused) calls) /\
  formerr_responses m = wrap 64 (count (is_response ResponseCode.FormErr) calls) /\
  rate_limited m = wrap 64 (count (is_call RateLimited) calls) /\
  errors m = wrap 64 (count (is_call ErrorSeen) calls) /\
  tcp_connections m = wrap 64 (count (is_call TcpConnection) calls) /\
  tcp_connection_timeouts m = wrap 64 (count (is_call TcpConnectionTimeout) calls) /\
  (forall t, query_types m !! t = count_type t calls) /\
  total_latency_us m = wrap 64 (sum (latencies calls)) /\
  min_latency_us m = foldr Z.min (u_max 64) (latencies calls) /\
  max_latency_us m = foldr Z.max 0 (latencies calls).
Proof.
  pose proof (new_latency_fields start calls) as (Ht & Hmin & Hmax). cbv zeta.
  split_and!; [| | | | | | | | | | | | | |exact Ht|exact Hmin|exact Hmax].
  - counted_by C_total_queries is_query.
  - counted_by C_udp_queries (is_query_over Udp).
  - counted_by C_tcp_queries (is_query_over Tcp).
  - counted_by C_edns_queries is_edns_query.
  - counted_by C_noerror_responses (is_response ResponseCode.NoError).
  - counted_by C_nxdomain_responses (is_response ResponseCode.NXDomain).
  - counted_by C_servfail_responses (is_response ResponseCode.ServFail).
  - counted_by C_refused_responses (is_response ResponseCode.Refused).
  - counted_by C_formerr_responses (is_response ResponseCode.FormErr).
  - counted_by C_rate_limited (is_call RateLimited).
  - counted_by C_errors (is_call ErrorSeen).
  - counted_by C_tcp_connections (is_call TcpConnection).
  - counted_by C_tcp_connection_timeouts (is_call TcpConnectionTimeout).
  - intros t. rewrite query_types_run. unfold count_type.
    destruct (_ =? 0); [done|]. cbn. f_equal. apply wrap_small, wrap_range. lia.
Qed.

(** When one latency is recorded per query (at least one, the sum within a u64), the
    snapshot's average latency lies between its least and its greatest one. *)
Theorem snapshot_average_between (start now : Instant) (calls : list MetricsCall) :
  count is_query calls = Z.of_nat (length (latencies calls)) ->
  0 < count is_query calls < 2 ^ 64 -> sum (latencies calls) < 2 ^ 64 ->
  let s := get_snapshot now (run_metrics (Metrics_new start) calls) in
  s_min_latency_us s <= s_avg_latency_us s <= s_max_latency_us s.
Proof.
  intros Hq Hn Hsum. cbv zeta. unfold get_snapshot, take_snapshot. cbn [s_min_latency_us s_avg_latency_us s_max_latency_us].
  destruct (new_latency_fields start calls) as (-> & -> & ->).
  assert (load C_total_queries (run_metrics (Metrics_new start) calls) = count is_query calls) as ->.
  { transitivity (wrap 64 (0 + count is_query calls)).
    - counted_by C_total_queries is_query.
    - apply wrap_small. unfold in_u. lia. }
  rewrite (proj2 (Z.ltb_lt 0 _)) by lia.
  pose proof (sum_between _ _ _ (latencies_between calls)) as Hb. rewrite <- Hq in Hb.
  pose proof (sum_nonneg _ (latencies_nonneg calls)) as Hs0.
  rewrite wrap_small by (unfold in_u; lia).
  pose proof (Z.div_le_lower_bound (sum (latencies calls)) (count is_query calls)
    (foldr Z.min (u_max 64) (latencies calls))) as Hlo.
  pose proof (Z.div_le_upper_bound (sum (latencies calls)) (count is_query calls)
    (foldr Z.max 0 (latencies calls))) as Hhi.
  pose proof (Z.div_pos (sum (latencies calls)) (count is_query calls)) as Hpos.
  destruct (_ =? u_max 64); lia.
Qed.

(** The log lists the ten most frequent query types, most frequent first (all of
    them when there are fewer), whatever the order the hash map yields them in. *)
Theorem log_lists_top_types (iter : list (RecordType.t * Z)) :
  exists rest, iter ≡ₚ top_types iter ++ rest /\
    length (top_types iter) = Nat.min 10 (length iter) /\
    StronglySorted count_ge (top_types iter) /\
    Forall (fun x => Forall (fun y => y.2 <= x.2) rest) (top_types iter).
Proof.
  unfold top_types. exists (drop 10 (merge_sort count_ge iter)).
  assert (StronglySorted count_ge (merge_sort count_ge iter)) as Hs.
  { apply (StronglySorted_merge_sort count_ge). }
  assert (merge_sort count_ge iter ≡ₚ iter) as Hp by apply merge_sort_Permutation.
  split_and!; [by rewrite take_drop| | |].
  - rewrite length_take. f_equal. by apply Permutation_length.
  - apply (StronglySorted_app_1_l _ _ (drop 10 (merge_sort count_ge iter))). by rewrite take_drop.
  - apply Forall_forall. intros x Hx. apply Forall_forall. intros y Hy.
    apply (StronglySorted_app_1_elem_of count_ge (take 10 (merge_sort count_ge iter))
             (drop 10 (merge_sort count_ge iter))); [|done|done].
    by rewrite take_drop.
Qed.

(** * Witnesses *)

(** Two queries, one per protocol, each with its response and latency. *)
Definition two_queries : list MetricsCall :=
  [QueryReceived Udp false; ResponseSent ResponseCode.NoError; Latency 1500000;
   QueryReceived Tcp true; ResponseSent ResponseCode.NXDomain; Latency 500000].

(** The two calls of a query interleaved step by step with the latency of another. *)
Lemma metrics_interleaving_witness :
  run_steps (Metrics_new 0)
    [FetchAdd C_total_queries 1; FetchAdd C_total_latency_us 500; FetchAdd C_tcp_queries 1;
     FetchMin C_min_latency_us 500; FetchAdd C_edns_queries 1; FetchMax C_max_latency_us 500] =
  run_metrics (Metrics_new 0) [Latency 500000; QueryReceived Tcp true].
Proof.
  apply (metrics_interleaving _ [QueryReceived Tcp true; Latency 500000]).
  - cbn. change (wrap 64 (as_micros 500000)) with 500.
    apply (interleaves_step []). cbn. apply (interleaves_step [_]). cbn.
    apply (interleaves_step []). cbn. apply (interleaves_step [_]). cbn.
    apply (interleaves_step []). cbn. apply (interleaves_step [_]). cbn.
    apply interleaves_done. by repeat constructor.
  - apply Permutation_swap.
Defined.

Lemma snapshot_average_between_witness :
  let s := get_snapshot 9 (run_metrics (Metrics_new 0) two_queries) in
  s_min_latency_us s <= s_avg_latency_us s <= s_max_latency_us s.
Proof. apply snapshot_average_between; vm_compute; (reflexivity || by split). Defined.

(** The error paths of the server record a latency without a query: the average then exceeds the
    greatest latency. *)
Example average_exceeds_maximum :
  let calls := [QueryReceived Udp false; Latency 2000000; ResponseSent ResponseCode.FormErr; Latency 2000000] in
  let s := get_snapshot 9 (run_metrics (Metrics_new 0) calls) in
  s_max_latency_us s = 2000 /\ s_avg_latency_us s = 4000.
Proof. by vm_compute. Qed.
