(* ===== verification/Dnssec.v ===== *)
(** [src/src/dnssec.rs]: DS and RRSIG checks, NSEC denial, key tags.  [u32] additions wrap around, as
    in a release build; [DnssecProps] shows that they never do on the data of a DNS record.  The
    texts of the errors are kept without the values they print. *)
From S2P Require Import Prelude RustTime RustStr HashMap Crates Zone.
Open Scope Z_scope.

(** [DnssecConfig] *)
Record DnssecConfig := {
  validate_signatures : bool;
  require_dnssec : bool;
  auto_include_dnssec : bool
}.

(** [impl Default for DnssecConfig] *)
Definition DnssecConfig_default : DnssecConfig :=
  {| validate_signatures := false; require_dnssec := false; auto_include_dnssec := true |}.

Section dnssec.
Context `{Hickory}.

(** The wire format of a DNSKEY's data, with the protocol number 3. *)
Definition dnskey_wire (zone_key secure_entry_point revoke : bool) (algorithm : Algorithm)
    (public_key : list Z) : list Z :=
  u16_to_be_bytes (dnskey_flags zone_key secure_entry_point revoke)
  ++ [3]
  ++ [algorithm_into_u8 algorithm]
  ++ public_key.

(** The loop of [compute_key_tag] over [rdata.iter().enumerate()]. *)
Definition key_tag_step (ac : Z) (ib : nat * Z) : Z :=
  let '(i, byte) := ib in
  if bool_decide ((i mod 2)%nat = 0%nat) then wrap 32 (ac + Z.shiftl byte 8)
  else wrap 32 (ac + byte).

Definition key_tag_of (rdata : list Z) : Z :=
  let ac := fold_left key_tag_step (imap pair rdata) 0 in
  let ac := wrap 32 (ac + Z.land (Z.shiftr ac 16) 65535) in
  wrap 16 (Z.land ac 65535).

(** [compute_key_tag] *)
Definition compute_key_tag (dnskey : DnsRecord) : outcome Z :=
  match record_data dnskey with
  | Some (RData.DNSSEC (DNSSECRData.DNSKEY zone_key secure_entry_point revoke algorithm public_key)) =>
      Ok (key_tag_of (dnskey_wire zone_key secure_entry_point revoke algorithm public_key))
  | _ => Err (EMsg "Invalid DNSKEY record")
  end.

Context `{!Codecs}.

(** [match ds_data.digest_type()] *)
Definition compute_digest (digest_type : DigestType.t) (digest_input : list Z) : outcome (list Z) :=
  match digest_type with
  | DigestType.SHA256 => Ok (sha256 digest_input)
  | DigestType.SHA384 => Ok (sha384 digest_input)
  | DigestType.SHA512 => Ok (sha512 digest_input)
  | _ => Err (EMsg "Unsupported digest type")
  end.

(** [verify_ds] *)
Definition verify_ds (ds dnskey : DnsRecord) : outcome unit :=
  match record_data ds with
  | Some (RData.DNSSEC (DNSSECRData.DS ds_key_tag ds_algorithm ds_digest_type ds_digest)) =>
      match record_data dnskey with
      | Some (RData.DNSSEC
                (DNSSECRData.DNSKEY zone_key secure_entry_point revoke algorithm public_key)) =>
          if negb (bool_decide (ds_algorithm = algorithm)) then Err (EMsg "Algorithm mismatch")
          else
            computed_key_tag ← compute_key_tag dnskey;
            if negb (bool_decide (ds_key_tag = computed_key_tag)) then Err (EMsg "Key tag mismatch")
            else
              match name_to_bytes (name_to_lowercase (record_name dnskey)) with
              | None => Err (EMsg "Failed to convert owner name to wire format")
              | Some owner_name_wire =>
                  let digest_input :=
                    owner_name_wire
                    ++ dnskey_wire zone_key secure_entry_point revoke algorithm public_key in
                  computed_digest ← compute_digest ds_digest_type digest_input;
                  if negb (bool_decide (computed_digest = ds_digest)) then
                    Err (EMsg "DS digest mismatch")
                  else Ok tt
              end
      | _ => Err (EMsg "Invalid DNSKEY record")
      end
  | _ => Err (EMsg "Invalid DS record")
  end.

(** [check_signature_validity]; [system_time] is [SystemTime::now()] in nanoseconds from the Unix
    epoch. *)
Definition check_signature_validity (system_time : Z) (rrsig : DnsRecord) : outcome unit :=
  match record_data rrsig with
  | Some (RData.DNSSEC (DNSSECRData.SIG _ _ _ _ sig_expiration sig_inception _ _ _)) =>
      since_epoch ← with_context "Failed to get current time" []
                      (if system_time <? 0 then Err EForeign else Ok system_time);
      let now := wrap 32 (as_secs since_epoch) in
      if now <? sig_inception then Err (EMsg "Signature not yet valid")
      else if sig_expiration <? now then Err (EMsg "Signature expired")
      else Ok tt
  | _ => Err (EMsg "Invalid RRSIG record")
  end.

(** [a < b] on names. *)
Definition name_lt (a b : Name) : bool := bool_decide (name_cmp a b = Lt).

(** The body of the loop of [validate_nsec_denial]: whether the record makes it return [Ok]. *)
Definition nsec_proves (query_name : Name) (query_type : RecordType.t) (nsec : DnsRecord) : bool :=
  match record_data nsec with
  | Some (RData.DNSSEC (DNSSECRData.NSEC next_name type_bit_maps)) =>
      let owner_name := record_name nsec in
      let covers_name :=
        if name_lt owner_name next_name then
          name_lt owner_name query_name && name_lt query_name next_name
        else name_lt owner_name query_name || name_lt query_name next_name in
      if covers_name then true
      else if key_eqb query_name owner_name then
        let type_exists := bool_decide (query_type ∈ type_bit_maps) in
        negb type_exists
      else false
  | _ => false
  end.

(** [validate_nsec_denial] *)
Definition validate_nsec_denial (query_name : Name) (query_type : RecordType.t)
    (nsec_records : list DnsRecord) : outcome unit :=
  if existsb (nsec_proves query_name query_type) nsec_records then Ok tt
  else Err (EMsg "No NSEC record proves non-existence").

(** The tests of the two loops of [find_related_dnssec_records]. *)
Definition is_rrsig_for (name : Name) (rtype : RecordType.t) (record : DnsRecord) : bool :=
  match record_data record with
  | Some (RData.DNSSEC (DNSSECRData.SIG type_covered _ _ _ _ _ _ _ _)) =>
      key_eqb (record_name record) name && bool_decide (type_covered = rtype)
  | _ => false
  end.

Definition is_dnskey (record : DnsRecord) : bool :=
  match record_data record with
  | Some (RData.DNSSEC (DNSSECRData.DNSKEY _ _ _ _ _)) => true
  | _ => false
  end.

(** [find_related_dnssec_records] *)
Definition find_related_dnssec_records (records : list DnsRecord) (name : Name)
    (rtype : RecordType.t) : list DnsRecord :=
  let push (p : DnsRecord -> bool) (out : list DnsRecord) (record : DnsRecord) :=
    if p record then out ++ [record] else out in
  let dnssec_records := fold_left (push (is_rrsig_for name rtype)) records [] in
  fold_left (push is_dnskey) records dnssec_records.

(** * Specification *)

(** The sum of the big-endian 16-bit words of a byte string, the last one padded with a zero. *)
Fixpoint sum_words (l : list Z) : Z :=
  match l with
  | b0 :: b1 :: l' => (b0 * 256 + b1) + sum_words l'
  | [b0] => b0 * 256
  | [] => 0
  end.

(** The sum folded once into 16 bits (RFC 4034, Appendix B). *)
Definition key_tag_spec (rdata : list Z) : Z :=
  let s := sum_words rdata in (s + s / 65536) mod 65536.

Definition digest_function (digest_type : DigestType.t) : option (list Z -> list Z) :=
  match digest_type with
  | DigestType.SHA256 => Some sha256
  | DigestType.SHA384 => Some sha384
  | DigestType.SHA512 => Some sha512
  | DigestType.Other _ => None
  end.

(** The NSEC records of a zone, given its names in order with the types at each: every name points to
    the next one and the last to the first. *)
Fixpoint nsec_chain (first : Name) (names : list (Name * list RecordType.t)) : list DnsRecord :=
  match names with
  | [] => []
  | (n, types) :: names' =>
      let next := match names' with [] => first | (n', _) :: _ => n' end in
      record_from_rdata n 0 (RData.DNSSEC (DNSSECRData.NSEC next types)) :: nsec_chain first names'
  end.

(** Strictly increasing names. *)
Fixpoint names_sorted (names : list (Name * list RecordType.t)) : Prop :=
  match names with
  | (n, _) :: (((n', _) :: _) as names') => name_cmp n n' = Lt /\ names_sorted names'
  | _ => True
  end.
End dnssec.
