(* ===== verification/DnssecProps.v ===== *)
(** Theorems about the DNSSEC helpers: the key tag is the RFC's sum, a DS record is accepted exactly
    when it commits to the key, an NSEC chain denies exactly what the zone lacks. *)
From S2P Require Import Prelude RustTime RustStr HashMap Crates CratesModel Zone Fixtures Dnssec.
Open Scope Z_scope.

Section key_tag.

Definition bytes (l : list Z) : Prop := Forall (in_u 8) l.

Lemma sum_words_bound l : bytes l -> 0 <= sum_words l <= 32768 * (Z.of_nat (length l) + 1).
Proof.
  unfold bytes. revert l. fix IH 1. intros [|b0 [|b1 l]] Hl; cbn [sum_words length].
  - lia.
  - apply Forall_cons in Hl as [Hb _]. unfold in_u in Hb. lia.
  - apply Forall_cons in Hl as [Hb0 Hl]. apply Forall_cons in Hl as [Hb1 Hl].
    specialize (IH l Hl). unfold in_u in *. lia.
Qed.

Lemma key_tag_step_even ac k b :
  in_u 8 b -> 0 <= ac -> ac + b * 256 < 2 ^ 32 ->
  key_tag_step ac ((2 * k)%nat, b) = ac + b * 256.
Proof.
  intros Hb Hac Hs. unfold key_tag_step. rewrite Nat.mul_comm, bool_decide_eq_true_2 by apply Nat.Div0.mod_mul.
  rewrite Z.shiftl_mul_pow2 by lia. unfold in_u in Hb. apply wrap_small. unfold in_u. lia.
Qed.

Lemma key_tag_step_odd ac k b :
  in_u 8 b -> 0 <= ac -> ac + b < 2 ^ 32 -> key_tag_step ac ((2 * k + 1)%nat, b) = ac + b.
Proof.
  intros Hb Hac Hs. unfold key_tag_step.
  rewrite bool_decide_eq_false_2 by (rewrite Nat.add_comm, Nat.mul_comm, Nat.Div0.mod_add; done).
  unfold in_u in Hb. apply wrap_small. unfold in_u. lia.
Qed.

(** The loop adds the words without overflow as long as the total fits. *)
Lemma key_tag_loop l : forall k ac,
  bytes l -> 0 <= ac -> ac + sum_words l < 2 ^ 32 ->
  fold_left key_tag_step (imap (fun i b => ((2 * k + i)%nat, b)) l) ac = ac + sum_words l.
Proof.
  unfold bytes. revert l. fix IH 1. intros [|b0 [|b1 l]] k ac Hl Hac Hs; cbn [sum_words] in *.
  - cbn. lia.
  - apply Forall_cons in Hl as [Hb _]. cbn [imap fold_left]. rewrite Nat.add_0_r.
    by apply key_tag_step_even.
  - apply Forall_cons in Hl as [Hb0 Hl]. apply Forall_cons in Hl as [Hb1 Hl].
    pose proof (sum_words_bound l Hl) as Hsum.
    assert (imap (fun i b => ((2 * k + i)%nat, b)) (b0 :: b1 :: l) =
      ((2 * k)%nat, b0) :: ((2 * k + 1)%nat, b1) :: imap (fun i b => ((2 * S k + i)%nat, b)) l) as ->.
    { cbn [imap]. rewrite Nat.add_0_r. do 2 f_equal. apply imap_ext. intros i b _. cbn. f_equal. lia. }
    cbn [fold_left]. unfold in_u in Hb0, Hb1.
    rewrite key_tag_step_even, key_tag_step_odd, IH by (done || unfold in_u; lia). lia.
Qed.

(** With at most 65535 bytes the accumulator of [compute_key_tag] is an exact sum, below 2^32, after
    every number of bytes, and so is the last addition, of its upper half. *)
Lemma key_tag_exact rdata n :
  bytes rdata -> Z.of_nat (length rdata) <= 65535 ->
  in_u 32 (sum_words (take n rdata)) /\
  fold_left key_tag_step (imap pair (take n rdata)) 0 = sum_words (take n rdata).
Proof.
  intros Hb Hl. pose proof (Forall_take _ n _ Hb) as Ht.
  pose proof (sum_words_bound _ Ht) as Hs. rewrite length_take in Hs.
  split; [unfold in_u; lia|].
  change (imap pair (take n rdata)) with (imap (fun i b => ((2 * 0 + i)%nat, b)) (take n rdata)).
  rewrite key_tag_loop by (done || lia). lia.
Qed.

Lemma key_tag_fold_exact rdata :
  bytes rdata -> Z.of_nat (length rdata) <= 65535 ->
  0 <= sum_words rdata / 65536 < 65536 /\ in_u 32 (sum_words rdata + sum_words rdata / 65536).
Proof.
  intros Hb Hl. pose proof (sum_words_bound rdata Hb) as Hs.
  assert (0 <= sum_words rdata / 65536 < 65536) as Hd.
  { split; [apply Z.div_pos; lia|]. apply Z.div_lt_upper_bound; lia. }
  unfold in_u. lia.
Qed.

Lemma key_tag_of_spec rdata :
  bytes rdata -> Z.of_nat (length rdata) <= 65535 -> key_tag_of rdata = key_tag_spec rdata.
Proof.
  intros Hb Hl. destruct (key_tag_fold_exact rdata Hb Hl) as [Hd Hw].
  destruct (key_tag_exact rdata (length rdata) Hb Hl) as [_ He]. rewrite take_ge in He by done.
  unfold key_tag_of, key_tag_spec. rewrite He. set (s := sum_words rdata) in *.
  rewrite Z.shiftr_div_pow2 by lia. change 65535 with (Z.ones 16). rewrite !Z.land_ones by lia.
  change (2 ^ 16) with 65536.
  rewrite (Z.mod_small (s / 65536)) by done. rewrite (wrap_small 32) by done.
  apply wrap_small. unfold in_u. apply Z.mod_pos_bound. lia.
Qed.
End key_tag.

Section nsec.
Context `{Hickory} `{!NameLaws} `{!RecordLaws}.

Lemma name_lt_iff a b : name_lt a b = true <-> name_cmp a b = Lt.
Proof. apply bool_decide_eq_true. Qed.

Lemma name_lt_flip a b : name_cmp a b = Gt <-> name_cmp b a = Lt.
Proof using All. rewrite (name_cmp_antisym a b). destruct (name_cmp a b); cbn; split; done. Qed.

Lemma name_lt_asym a b : name_cmp a b = Lt -> name_cmp b a ≠ Lt.
Proof using All. rewrite (name_cmp_antisym a b). by intros ->. Qed.

Lemma name_lt_not_equiv a b : name_cmp a b = Lt -> ~ key_equiv a b.
Proof using All. rewrite <- name_cmp_eq. by intros ->. Qed.

(** Where a name stands with respect to an interval of the order. *)
Lemma name_trichotomy a b : name_cmp a b = Lt \/ key_equiv a b \/ name_cmp b a = Lt.
Proof using All.
  destruct (name_cmp a b) eqn:E; [right; left; by apply name_cmp_eq|by left|].
  right. right. by apply name_lt_flip.
Qed.

Lemma name_lt_equiv_r a b c : name_cmp a b = Lt -> key_equiv b c -> name_cmp a c = Lt.
Proof using All.
  intros Hab Hbc. apply (cmp_lt_eq name_cmp key_equiv name_cmp_eq name_cmp_antisym name_cmp_trans a b c Hab).
  by apply name_cmp_eq.
Qed.

Lemma nsec_proves_record q t n next types :
  nsec_proves q t (record_from_rdata n 0 (RData.DNSSEC (DNSSECRData.NSEC next types))) = true <->
  (if name_lt n next then name_cmp n q = Lt /\ name_cmp q next = Lt
   else name_cmp n q = Lt \/ name_cmp q next = Lt) \/
  (key_equiv q n /\ t ∉ types).
Proof using All.
  unfold nsec_proves. rewrite record_data_from, record_name_from.
  assert (forall b : bool, (if b then true else if key_eqb q n then negb (bool_decide (t ∈ types)) else false) = true
          <-> b = true \/ (key_equiv q n /\ t ∉ types)) as Hb.
  { intros b. unfold key_equiv. destruct b, (key_eqb q n); cbn; rewrite ?negb_true_iff, ?bool_decide_eq_false;
      split; [intros _; by left|done|intros _; by left|done|by right|by intros [?|[]]|done|by intros [?|[]]]. }
  rewrite Hb. destruct (name_lt n next); by rewrite ?andb_true_iff, ?orb_true_iff, !name_lt_iff.
Qed.

(** [q] is strictly above [n] and none of the names. *)
Definition above_and_absent (q n : Name) (names : list (Name * list RecordType.t)) : Prop :=
  name_cmp n q = Lt /\ Forall (fun p => ~ key_equiv q p.1) names.

Lemma names_sorted_above n types names p :
  names_sorted ((n, types) :: names) -> p ∈ names -> name_cmp n p.1 = Lt.
Proof using All.
  revert n types. induction names as [|[n' types'] names IH]; intros n types Hs Hp; [by apply elem_of_nil in Hp|].
  destruct Hs as [Hlt Hs]. apply elem_of_cons in Hp as [->|Hp]; [done|].
  apply (name_cmp_trans _ n'); [done|]. by eapply IH.
Qed.

Lemma nsec_chain_suffix q t first names : forall n types,
  names_sorted ((n, types) :: names) -> name_cmp n first ≠ Lt ->
  existsb (nsec_proves q t) (nsec_chain first ((n, types) :: names)) = true <->
  name_cmp q first = Lt \/ above_and_absent q n names \/
  Exists (fun p => key_equiv q p.1 /\ t ∉ p.2) ((n, types) :: names).
Proof using All.
  unfold above_and_absent. induction names as [|[n' types'] names IH]; intros n types Hs Hf.
  - cbn [nsec_chain existsb]. rewrite orb_false_r, nsec_proves_record.
    assert (name_lt n first = false) as -> by (by apply bool_decide_eq_false).
    rewrite Exists_cons, Exists_nil, Forall_nil. cbn [fst snd]. tauto.
  - pose proof Hs as Hs0. destruct Hs as [Hlt Hs].
    change (nsec_chain first ((n, types) :: (n', types') :: names)) with
      (record_from_rdata n 0 (RData.DNSSEC (DNSSECRData.NSEC n' types))
         :: nsec_chain first ((n', types') :: names)).
    cbn [existsb]. rewrite orb_true_iff, nsec_proves_record, IH; clear IH; [|done|].
    2: { intros Hx. apply Hf. by eapply name_cmp_trans. }
    assert (name_lt n n' = true) as -> by (by apply name_lt_iff).
    rewrite (Exists_cons _ (n, types)), Forall_cons. cbn [fst snd].
    assert (name_cmp n q = Lt /\ name_cmp q n' = Lt \/ name_cmp n' q = Lt /\ Forall (fun p => ~ key_equiv q p.1) names
            <-> name_cmp n q = Lt /\ ~ key_equiv q n' /\ Forall (fun p => ~ key_equiv q p.1) names) as Hiff; [|tauto].
    split.
    + intros [[Hq1 Hq2]|[Hq1 Hq2]].
      * split_and!; [done|by apply name_lt_not_equiv|]. apply Forall_forall. intros p Hp.
        apply name_lt_not_equiv, (name_cmp_trans _ n'); [done|]. by eapply names_sorted_above.
      * split_and!; [by apply (name_cmp_trans _ n')| |done]. intros Heq. symmetry in Heq.
        by apply name_lt_not_equiv in Hq1.
    + intros (Hq1 & Hq2 & Hq3). destruct (name_trichotomy q n') as [?|[?|?]]; [by left|done|by right].
Qed.

Lemma names_sorted_uniq q names : forall n types p p',
  names_sorted ((n, types) :: names) ->
  p ∈ (n, types) :: names -> p' ∈ (n, types) :: names ->
  key_equiv q p.1 -> key_equiv q p'.1 -> p = p'.
Proof using All.
  induction names as [|[n' types'] names IH]; intros n types p p' Hs Hp Hp' He He'.
  - apply list_elem_of_singleton in Hp, Hp'. congruence.
  - apply elem_of_cons in Hp as [->|Hp], Hp' as [->|Hp']; [done|exfalso|exfalso|].
    + apply (names_sorted_above n types _ p' Hs), name_lt_not_equiv in Hp'. apply Hp'.
      by rewrite <- He.
    + apply (names_sorted_above n types _ p Hs), name_lt_not_equiv in Hp. apply Hp.
      by rewrite <- He'.
    + destruct Hs as [_ Hs]. by eapply IH.
Qed.

Lemma Exists_absent q t names n types :
  names_sorted ((n, types) :: names) ->
  (name_cmp q n = Lt \/ above_and_absent q n names \/
   Exists (fun p => key_equiv q p.1 /\ t ∉ p.2) ((n, types) :: names)) <->
  ~ Exists (fun p => key_equiv q p.1 /\ t ∈ p.2) ((n, types) :: names).
Proof using All.
  intros Hs. rewrite !Exists_exists. unfold above_and_absent. split.
  - pose proof (names_sorted_uniq q names n types) as Huniq.
    intros [Hlt|[[Hlt Hf]|(p & Hp & He & Ht)]] (p' & Hp' & He' & Ht').
    + apply name_lt_flip in Hlt. apply elem_of_cons in Hp' as [->|Hp'].
      * cbn in He'. symmetry in He'. apply name_cmp_eq in He'. congruence.
      * apply (names_sorted_above n types _ p' Hs) in Hp'. symmetry in He'.
        pose proof (name_lt_equiv_r _ _ _ Hp' He'). congruence.
    + apply elem_of_cons in Hp' as [->|Hp'].
      * symmetry in He'. by apply name_lt_not_equiv in Hlt.
      * rewrite Forall_forall in Hf. by apply (Hf p').
    + by rewrite (Huniq p p' Hs) in Ht.
  - intros Hno. destruct (decide (Exists (fun p => key_eqb q p.1 = true) ((n, types) :: names))) as [Hex|Hnex].
    + apply Exists_exists in Hex as (p & Hp & He). right. right. exists p. split_and!; [done|done|].
      intros Ht. apply Hno. by exists p.
    + rewrite Exists_exists in Hnex. destruct (name_trichotomy q n) as [?|[He|Hlt]]; [by left| |].
      * destruct Hnex. exists (n, types). split; [left|done].
      * right. left. split; [done|]. apply Forall_forall. intros p Hp He. apply Hnex. exists p.
        split; [by right|done].
Qed.
End nsec.

(** * Properties *)

Section properties.
Context `{Hickory}.

(** C32 (bounds): on any DNSKEY whose data fits the 16-bit length of a record's data, no addition of
    the loop overflows the u32 accumulator: after every number of bytes it holds the exact sum of the
    16-bit words so far, which is below 2^32, and adding the upper half of the total stays below 2^32
    too.  The key tag is therefore the one RFC 4034 defines: the sum of the words, folded once. *)
Theorem compute_key_tag_rfc (dnskey : DnsRecord) zone_key sep revoke algorithm public_key :
  record_data dnskey =
    Some (RData.DNSSEC (DNSSECRData.DNSKEY zone_key sep revoke algorithm public_key)) ->
  let rdata := dnskey_wire zone_key sep revoke algorithm public_key in
  bytes rdata -> Z.of_nat (length rdata) <= 65535 ->
  (forall n, in_u 32 (sum_words (take n rdata)) /\
             fold_left key_tag_step (imap pair (take n rdata)) 0 = sum_words (take n rdata)) /\
  in_u 32 (sum_words rdata + sum_words rdata / 65536) /\
  compute_key_tag dnskey = Ok (key_tag_spec rdata) /\ in_u 16 (key_tag_spec rdata).
Proof.
  intros Hd rdata Hb Hl. unfold compute_key_tag. rewrite Hd. split_and!.
  - intros n. by apply key_tag_exact.
  - by apply key_tag_fold_exact.
  - f_equal. by apply key_tag_of_spec.
  - apply Z.mod_pos_bound. lia.
Qed.

(** C23 (functional): a DS record is accepted for a DNSKEY record exactly when both have their data,
    the algorithms and the key tag agree, and the digest is the named hash of the lower-case owner
    name followed by the key's data. *)
Theorem verify_ds_iff `{!Codecs} (ds dnskey : DnsRecord) :
  verify_ds ds dnskey = Ok tt <->
  exists tag algorithm digest_type digest zone_key sep revoke public_key owner hash,
    record_data ds = Some (RData.DNSSEC (DNSSECRData.DS tag algorithm digest_type digest)) /\
    record_data dnskey =
      Some (RData.DNSSEC (DNSSECRData.DNSKEY zone_key sep revoke algorithm public_key)) /\
    compute_key_tag dnskey = Ok tag /\
    name_to_bytes (name_to_lowercase (record_name dnskey)) = Some owner /\
    digest_function digest_type = Some hash /\
    digest = hash (owner ++ dnskey_wire zone_key sep revoke algorithm public_key).
Proof.
  unfold verify_ds. split.
  - destruct (record_data ds) as [[| | | | | | | | | |[| | |tag alg dt digest|]| | | |]|]; try done.
    destruct (record_data dnskey) as [[| | | | | | | | | |[zk sep rev alg' pk| | | |]| | | |]|] eqn:Ek; try done.
    case_bool_decide; [subst alg'|done]. cbn [negb].
    intros (tag' & Htag & Hrest)%bind_ok. case_bool_decide; [subst tag'|done]. cbn [negb] in Hrest.
    destruct (name_to_bytes _) as [owner|] eqn:Eo; [|done].
    apply bind_ok in Hrest as (d & Hdig & Hrest). case_bool_decide; [subst d|done].
    destruct dt; cbn in Hdig; try done; injection Hdig as <-; do 10 eexists; split_and!; done.
  - intros (tag & alg & dt & digest & zk & sep & rev & pk & owner & h & -> & Hk & Htag & Ho & Hh & Hd).
    rewrite Hk, bool_decide_eq_true_2 by done. cbn [negb]. rewrite Htag. cbn [mbind outcome_bind].
    rewrite bool_decide_eq_true_2, Ho by done. cbn [negb].
    destruct dt; cbn in Hh; try done; injection Hh as <-; cbn; by rewrite bool_decide_eq_true_2.
Qed.

(** A signature is valid exactly when the current second, cut to 32 bits, lies between
    its inception and its expiration as plain numbers; a signature whose expiration has wrapped
    around the 32-bit clock is therefore never valid, at any time. *)
Theorem signature_validity_iff (t : Z) (rrsig : DnsRecord)
    covered algorithm labels ttl expiration inception tag signer sig :
  record_data rrsig =
    Some (RData.DNSSEC (DNSSECRData.SIG covered algorithm labels ttl expiration inception tag signer sig)) ->
  (check_signature_validity t rrsig = Ok tt <->
   0 <= t /\ inception <= wrap 32 (as_secs t) <= expiration) /\
  (expiration < inception -> check_signature_validity t rrsig ≠ Ok tt).
Proof.
  intros Hd. unfold check_signature_validity. rewrite Hd.
  destruct (Z.ltb_spec t 0); cbn -[wrap].
  - split; [split; [done|lia]|done].
  - destruct (Z.ltb_spec (wrap 32 (as_secs t)) inception), (Z.ltb_spec expiration (wrap 32 (as_secs t)));
      (split; [split; [try done; try lia|try done; try lia]|intros ?; try done; try lia]).
Qed.

(** C22 (refinement): with the NSEC records of a whole zone (its names in order, each pointing to the
    next and the last to the first), a name and type are denied exactly when the zone does not have
    them: nothing that exists is ever denied, everything else is, names outside the zone
    included. *)
Theorem nsec_chain_denies_absent `{!NameLaws} `{!RecordLaws} (names : list (Name * list RecordType.t))
    (first : Name) (types : list RecordType.t) (query_name : Name) (query_type : RecordType.t) :
  names_sorted ((first, types) :: names) ->
  let zone_names := (first, types) :: names in
  validate_nsec_denial query_name query_type (nsec_chain first zone_names) = Ok tt <->
  ~ Exists (fun p => key_equiv query_name p.1 /\ query_type ∈ p.2) zone_names.
Proof.
  intros Hs. cbv zeta. rewrite <- Exists_absent by done. unfold validate_nsec_denial.
  rewrite <- nsec_chain_suffix; [|done|].
  - by destruct (existsb _ _).
  - intros Hx. by apply name_lt_not_equiv in Hx.
Qed.

(** The related records are the RRSIG records of the name that cover the type,
    followed by every DNSKEY record, both in their order. *)
Lemma find_related_spec (records : list DnsRecord) (name : Name) (rtype : RecordType.t) :
  find_related_dnssec_records records name rtype =
  List.filter (is_rrsig_for name rtype) records ++ List.filter is_dnskey records.
Proof.
  assert (forall (p : DnsRecord -> bool) (out : list DnsRecord),
            fold_left (fun out record => if p record then out ++ [record] else out) records out
            = out ++ List.filter p records) as Hf.
  { intros p. induction records as [|r records IH]; intros out; cbn; [by rewrite app_nil_r|].
    rewrite IH. destruct (p r); [by rewrite <- app_assoc|done]. }
  unfold find_related_dnssec_records. by rewrite !Hf.
Qed.
End properties.

(** * Witnesses *)

Import Concrete.

(** A key-signing key with a five-byte public key. *)
Definition test_dnskey : DnsRecord :=
  record_from_rdata (nm "example.com.") 3600
    (RData.DNSSEC (DNSSECRData.DNSKEY true true false 8 [1; 2; 3; 4; 5])).

Lemma compute_key_tag_rfc_witness :
  let rdata := dnskey_wire true true false 8 [1; 2; 3; 4; 5] in
  (forall n, in_u 32 (sum_words (take n rdata)) /\
             fold_left key_tag_step (imap pair (take n rdata)) 0 = sum_words (take n rdata)) /\
  in_u 32 (sum_words rdata + sum_words rdata / 65536) /\
  compute_key_tag test_dnskey = Ok (key_tag_spec rdata) /\ in_u 16 (key_tag_spec rdata).
Proof.
  apply (compute_key_tag_rfc test_dnskey); [reflexivity| |vm_compute; discriminate].
  vm_compute. repeat constructor; discriminate.
Defined.

Definition test_rrsig (expiration inception : Z) : DnsRecord :=
  record_from_rdata (nm "www.example.com.") 3600
    (RData.DNSSEC (DNSSECRData.SIG RecordType.A 8 3 3600 expiration inception 1 (nm "example.com.") [])).

Lemma signature_validity_iff_witness :
  (check_signature_validity 5000000000 (test_rrsig 9 2) = Ok tt <->
   0 <= 5000000000 /\ 2 <= wrap 32 (as_secs 5000000000) <= 9) /\
  (9 < 2 -> check_signature_validity 5000000000 (test_rrsig 9 2) ≠ Ok tt).
Proof. eapply signature_validity_iff. reflexivity. Defined.

(** [example.com.] and [www.example.com.] *)
Definition test_names : list (Name * list RecordType.t) :=
  [(nm "www.example.com.", [RecordType.A])].

Lemma nsec_chain_denies_absent_witness :
  let zone_names := (nm "example.com.", [RecordType.NS]) :: test_names in
  validate_nsec_denial (nm "mail.example.com.") RecordType.A
    (nsec_chain (nm "example.com.") zone_names) = Ok tt <->
  ~ Exists (fun p => key_equiv (nm "mail.example.com.") p.1 /\ RecordType.A ∈ p.2) zone_names.
Proof.
  refine (nsec_chain_denies_absent test_names (nm "example.com.") [RecordType.NS]
            (nm "mail.example.com.") RecordType.A _).
  split; [vm_compute; reflexivity|exact I].
Defined.
