(* ===== verification/ZoneFile.v ===== *)
(** [src/src/zone.rs], the zone file parser: [parse_zone_file], [preprocess_zone_content],
    [parse_resource_record] with one definition per record type, [parse_domain_name] and
    [extract_soa_data].  Every index and slice is checked, so an out-of-range access is [Panic].
    Requires [Zone]. *)
From S2P Require Import Prelude RustStr HashMap Crates Zone.
Open Scope Z_scope.

(** * Lines *)

(** The text of a line before an inline comment, unless the semicolon is inside quotes. *)
Definition strip_comment (line : str) : str :=
  match find_char c_semicolon line with
  | Some pos =>
      let before_semicolon := take pos line in
      let quote_count := count_char c_quote before_semicolon in
      if bool_decide ((quote_count mod 2)%nat = 1%nat) then line else before_semicolon
  | None => line
  end.

(** [(result, current_line, in_parens)] of [preprocess_zone_content]. *)
Abbreviation PrepState := (list str * str * bool)%type (only parsing).

(** The body of its loop over the lines. *)
Definition preprocess_line (st : PrepState) (line : str) : PrepState :=
  let '(result, current_line, in_parens) := st in
  let line_without_comment := strip_comment line in
  let trimmed := trim line_without_comment in
  if contains_char c_lparen trimmed then
    (result, current_line ++ trim (remove_char c_lparen trimmed) ++ [c_space], true)
  else if contains_char c_rparen trimmed then
    let current_line := current_line ++ trim (remove_char c_rparen trimmed) in
    (result ++ [trim current_line], [], false)
  else if in_parens then (result, current_line ++ trimmed ++ [c_space], in_parens)
  else if bool_decide (trimmed = []) then (result, current_line, in_parens)
  else (result ++ [trimmed], current_line, in_parens).

Definition preprocess_lines (ls : list str) : list str :=
  let '(result, current_line, _) := fold_left preprocess_line ls ([], [], false) in
  if bool_decide (current_line = []) then result else result ++ [trim current_line].

(** [preprocess_zone_content] *)
Definition preprocess_zone_content (content : str) : list str := preprocess_lines (lines content).

Section zone_file.
Context `{Hickory} `{!Codecs}.

(** [format!("{}.{}", s, origin)] *)
Definition under_origin (s : str) (origin : Name) : str := s ++ [c_dot] ++ name_to_string origin.

(** [parse_domain_name] *)
Definition parse_domain_name (s : str) (origin : Name) : outcome Name :=
  if ends_with_char c_dot s then of_option (name_from_str s)
  else of_option (name_from_str (under_origin s origin)).

(** [extract_soa_data] *)
Definition extract_soa_data (record : DnsRecord) : option SoaRecord :=
  match record_data record with
  | Some (RData.SOA m r s f t e n) =>
      Some {| mname := m; rname := r; serial := s; refresh := f; retry := t; expire := e; minimum := n |}
  | _ => None
  end.

(** * Record data, by type

    [parts] are the words of the line and [idx] the index of the first word after the type. *)
Section rdata.
Context (parts : list str) (idx : nat) (origin : Name) (line_num : nat).

Let number : list Z := [Z.of_nat line_num + 1].

(** [parts\[i\].parse().context(msg)?] *)
Definition field {A} (parse : str -> option A) (i : nat) (msg : string) : outcome A :=
  part ← index parts i;
  with_context msg number (of_option (parse part)).

(** [parse_domain_name(parts\[i\], origin).context(msg)?] *)
Definition domain_field (i : nat) (msg : string) : outcome Name :=
  part ← index parts i;
  with_context msg number (parse_domain_name part origin).

(** [if parts.len() < n { return Ok(None) }] *)
Definition at_least (n : nat) (k : outcome (option RData.t)) : outcome (option RData.t) :=
  if bool_decide (length parts < n)%nat then Ok None else k.

Definition parse_a : outcome (option RData.t) :=
  at_least (idx + 1)
    (addr ← field parse_ipv4 idx "Invalid A record on line";
     Ok (Some (RData.A addr))).

Definition parse_aaaa : outcome (option RData.t) :=
  at_least (idx + 1)
    (addr ← field parse_ipv6 idx "Invalid AAAA record on line";
     Ok (Some (RData.AAAA addr))).

Definition parse_ns : outcome (option RData.t) :=
  at_least (idx + 1)
    (nsdname ← domain_field idx "Invalid NS record on line";
     Ok (Some (RData.NS nsdname))).

Definition parse_soa : outcome (option RData.t) :=
  at_least (idx + 7)
    (part ← index parts idx;
     mname ← parse_domain_name part origin;
     part ← index parts (idx + 1);
     rname ← parse_domain_name part origin;
     serial ← field (parse_unsigned 32) (idx + 2) "Invalid SOA serial on line";
     refresh ← field (parse_signed 32) (idx + 3) "Invalid SOA refresh on line";
     retry ← field (parse_signed 32) (idx + 4) "Invalid SOA retry on line";
     expire ← field (parse_signed 32) (idx + 5) "Invalid SOA expire on line";
     minimum ← field (parse_unsigned 32) (idx + 6) "Invalid SOA minimum on line";
     Ok (Some (RData.SOA mname rname serial refresh retry expire minimum))).

Definition parse_cname : outcome (option RData.t) :=
  at_least (idx + 1)
    (cname ← domain_field idx "Invalid CNAME record on line";
     Ok (Some (RData.CNAME cname))).

Definition parse_mx : outcome (option RData.t) :=
  at_least (idx + 2)
    (preference ← field (parse_unsigned 16) idx "Invalid MX preference on line";
     exchange ← domain_field (idx + 1) "Invalid MX exchange on line";
     Ok (Some (RData.MX preference exchange))).

Definition parse_txt : outcome (option RData.t) :=
  at_least (idx + 1)
    (rest ← slice_from parts idx;
     let txt_data := trim_matches c_quote (str_join [c_space] rest) in
     Ok (Some (RData.TXT [txt_data]))).

Definition parse_ptr : outcome (option RData.t) :=
  at_least (idx + 1)
    (ptrdname ← domain_field idx "Invalid PTR record on line";
     Ok (Some (RData.PTR ptrdname))).

Definition parse_srv : outcome (option RData.t) :=
  at_least (idx + 4)
    (priority ← field (parse_unsigned 16) idx "Invalid SRV priority on line";
     weight ← field (parse_unsigned 16) (idx + 1) "Invalid SRV weight on line";
     port ← field (parse_unsigned 16) (idx + 2) "Invalid SRV port on line";
     target ← domain_field (idx + 3) "Invalid SRV target on line";
     Ok (Some (RData.SRV priority weight port target))).

(** [flags & mask != 0] *)
Definition has_flag (mask flags : Z) : bool := negb (Z.land flags mask =? 0).

Definition parse_caa : outcome (option RData.t) :=
  at_least (idx + 3)
    (flags ← field (parse_unsigned 8) idx "Invalid CAA flags on line";
     tag ← index parts (idx + 1);
     rest ← slice_from parts (idx + 2);
     let value := trim_matches c_quote (str_join [c_space] rest) in
     let caa :=
       if bool_decide (tag = lit "issue") || bool_decide (tag = lit "issuewild") then
         if bool_decide (value = []) || bool_decide (value = [c_semicolon]) then
           RData.CAA_issue (has_flag 128 flags) None
         else
           RData.CAA_issue (has_flag 128 flags) (Some (default name_root (name_from_str value)))
       else RData.CAA_issue (has_flag 128 flags) None in
     Ok (Some caa)).

Definition parse_dnskey : outcome (option RData.t) :=
  at_least (idx + 4)
    (flags ← field (parse_unsigned 16) idx "Invalid DNSKEY flags on line";
     _protocol ← field (parse_unsigned 8) (idx + 1) "Invalid DNSKEY protocol on line";
     algorithm ← field (parse_unsigned 8) (idx + 2) "Invalid DNSKEY algorithm on line";
     rest ← slice_from parts (idx + 3);
     match base64_decode (str_join [] rest) with
     | Some public_key =>
         Ok (Some (RData.DNSSEC
           (DNSSECRData.DNSKEY (has_flag 256 flags) (has_flag 1 flags) (has_flag 32768 flags)
              (algorithm_from_u8 algorithm) public_key)))
     | None => Ok None
     end).

Definition parse_rrsig : outcome (option RData.t) :=
  at_least (idx + 9)
    (type_covered ← field record_type_from_str idx "Invalid RRSIG type_covered on line";
     algorithm ← field (parse_unsigned 8) (idx + 1) "Invalid RRSIG algorithm on line";
     labels ← field (parse_unsigned 8) (idx + 2) "Invalid RRSIG labels on line";
     original_ttl ← field (parse_unsigned 32) (idx + 3) "Invalid RRSIG original_ttl on line";
     sig_expiration ← field (parse_unsigned 32) (idx + 4) "Invalid RRSIG sig_expiration on line";
     sig_inception ← field (parse_unsigned 32) (idx + 5) "Invalid RRSIG sig_inception on line";
     key_tag ← field (parse_unsigned 16) (idx + 6) "Invalid RRSIG key_tag on line";
     signer_name ← domain_field (idx + 7) "Invalid RRSIG signer_name on line";
     rest ← slice_from parts (idx + 8);
     match base64_decode (str_join [] rest) with
     | Some signature =>
         Ok (Some (RData.DNSSEC
           (DNSSECRData.SIG type_covered (algorithm_from_u8 algorithm) labels original_ttl
              sig_expiration sig_inception key_tag signer_name signature)))
     | None => Ok None
     end).

Definition parse_nsec : outcome (option RData.t) :=
  at_least (idx + 2)
    (next_domain_name ← domain_field idx "Invalid NSEC next_domain_name on line";
     rest ← slice_from parts (idx + 1);
     let type_bit_maps :=
       fold_left (fun type_bit_maps part => match record_type_from_str part with
                                            | Some rtype => type_bit_maps ++ [rtype]
                                            | None => type_bit_maps
                                            end) rest [] in
     Ok (Some (RData.DNSSEC (DNSSECRData.NSEC next_domain_name type_bit_maps)))).

Definition parse_ds : outcome (option RData.t) :=
  at_least (idx + 4)
    (key_tag ← field (parse_unsigned 16) idx "Invalid DS key_tag on line";
     algorithm ← field (parse_unsigned 8) (idx + 1) "Invalid DS algorithm on line";
     digest_type ← field (parse_unsigned 8) (idx + 2) "Invalid DS digest_type on line";
     rest ← slice_from parts (idx + 3);
     match hex_decode (str_join [] rest) with
     | Some digest =>
         digest_type ← of_option (digest_type_from_u8 digest_type);
         Ok (Some (RData.DNSSEC
           (DNSSECRData.DS key_tag (algorithm_from_u8 algorithm) digest_type digest)))
     | None => Ok None
     end).

Definition parse_naptr : outcome (option RData.t) :=
  at_least (idx + 6)
    (order ← field (parse_unsigned 16) idx "Invalid NAPTR order on line";
     preference ← field (parse_unsigned 16) (idx + 1) "Invalid NAPTR preference on line";
     flags ← index parts (idx + 2);
     services ← index parts (idx + 3);
     regexp ← index parts (idx + 4);
     replacement ← domain_field (idx + 5) "Invalid NAPTR replacement on line";
     Ok (Some (RData.NAPTR order preference (as_bytes (trim_matches c_quote flags))
       (as_bytes (trim_matches c_quote services)) (as_bytes (trim_matches c_quote regexp))
       replacement))).

Definition parse_tlsa : outcome (option RData.t) :=
  at_least (idx + 4)
    (cert_usage ← field (parse_unsigned 8) idx "Invalid TLSA usage on line";
     selector ← field (parse_unsigned 8) (idx + 1) "Invalid TLSA selector on line";
     matching_type ← field (parse_unsigned 8) (idx + 2) "Invalid TLSA matching_type on line";
     rest ← slice_from parts (idx + 3);
     match hex_decode (str_join [] rest) with
     | Some cert_data =>
         Ok (Some (RData.TLSA (cert_usage_from_u8 cert_usage) (selector_from_u8 selector)
           (matching_from_u8 matching_type) cert_data))
     | None => Ok None
     end).

Definition parse_sshfp : outcome (option RData.t) :=
  at_least (idx + 3)
    (algorithm ← field (parse_unsigned 8) idx "Invalid SSHFP algorithm on line";
     fp_type ← field (parse_unsigned 8) (idx + 1) "Invalid SSHFP fp_type on line";
     rest ← slice_from parts (idx + 2);
     match hex_decode (str_join [] rest) with
     | Some fingerprint =>
         Ok (Some (RData.SSHFP (sshfp_algorithm_from_u8 algorithm)
           (fingerprint_type_from_u8 fp_type) fingerprint))
     | None => Ok None
     end).

(** [match rtype], the cases in the order of the source. *)
Definition rdata_parsers : list (str * outcome (option RData.t)) :=
  [(lit "A", parse_a); (lit "AAAA", parse_aaaa); (lit "NS", parse_ns); (lit "SOA", parse_soa);
   (lit "CNAME", parse_cname); (lit "MX", parse_mx); (lit "TXT", parse_txt);
   (lit "PTR", parse_ptr); (lit "SRV", parse_srv); (lit "CAA", parse_caa);
   (lit "DNSKEY", parse_dnskey); (lit "RRSIG", parse_rrsig); (lit "NSEC", parse_nsec);
   (lit "DS", parse_ds); (lit "NAPTR", parse_naptr); (lit "TLSA", parse_tlsa);
   (lit "SSHFP", parse_sshfp)].

Definition parse_rdata (rtype : str) : outcome (option RData.t) :=
  match first_some (fun '(name, parser) => if bool_decide (rtype = name) then Some parser else None)
          rdata_parsers with
  | Some parser => parser
  | None => Ok None
  end.
End rdata.

(** * Lines and files *)

(** The owner name of a line, from its first word. *)
Definition parse_owner (part : str) (origin : Name) (line_num : nat) : outcome Name :=
  let number := [Z.of_nat line_num + 1] in
  if bool_decide (part = lit "@") then Ok origin
  else if bool_decide (part = lit "*") then
    with_context "Invalid wildcard name on line" number
      (of_option (name_from_str (lit "*." ++ name_to_string origin)))
  else if starts_with (lit "*.") part then
    if ends_with_char c_dot part then
      with_context "Invalid wildcard name on line" number (of_option (name_from_str part))
    else
      with_context "Invalid wildcard name on line" number
        (of_option (name_from_str (under_origin part origin)))
  else if ends_with_char c_dot part then
    with_context "Invalid name on line" number (of_option (name_from_str part))
  else
    with_context "Invalid name on line" number
      (of_option (name_from_str (under_origin part origin))).

(** [parse_resource_record] *)
Definition parse_resource_record (line : str) (origin : Name) (default_ttl : Z) (line_num : nat)
    : outcome (option DnsRecord) :=
  let parts := split_whitespace line in
  if bool_decide (length parts < 4)%nat then Ok None
  else
    let idx := 0%nat in
    part ← index parts idx;
    name ← parse_owner part origin line_num;
    let idx := (idx + 1)%nat in
    part ← index parts idx;
    let '(ttl, idx) := match parse_unsigned 32 part with
                       | Some ttl => (ttl, (idx + 1)%nat)
                       | None => (default_ttl, idx)
                       end in
    part ← index parts idx;
    let idx := if bool_decide (part = lit "IN") then (idx + 1)%nat else idx in
    rtype ← index parts idx;
    let idx := (idx + 1)%nat in
    rdata ← parse_rdata parts idx origin line_num rtype;
    match rdata with
    | Some rdata => Ok (Some (record_from_rdata name ttl rdata))
    | None => Ok None
    end.

(** [(zone, default_ttl, current_origin)] of [parse_zone_file]. *)
Abbreviation ParseState := (option Zone * Z * Name)%type (only parsing).

(** A directive: the new default TTL and origin. *)
Definition parse_directive (line : str) (line_num : nat) (default_ttl : Z) (current_origin : Name)
    : outcome (Z * Name) :=
  let number := [Z.of_nat line_num + 1] in
  if starts_with (lit "$ORIGIN") line then
    let parts := split_whitespace line in
    if bool_decide (2 <= length parts)%nat then
      part ← index parts 1;
      current_origin ← with_context "Invalid $ORIGIN on line" number (of_option (name_from_str part));
      Ok (default_ttl, current_origin)
    else Ok (default_ttl, current_origin)
  else if starts_with (lit "$TTL") line then
    let parts := split_whitespace line in
    if bool_decide (2 <= length parts)%nat then
      part ← index parts 1;
      default_ttl ← with_context "Invalid $TTL on line" number (of_option (parse_unsigned 32 part));
      Ok (default_ttl, current_origin)
    else Ok (default_ttl, current_origin)
  else Ok (default_ttl, current_origin).

(** A record: the zone is created at the first SOA record, and records before it have no zone. *)
Definition store_record (origin : Name) (zone : option Zone) (record : DnsRecord) : option Zone :=
  let zone :=
    if bool_decide (record_record_type record = RecordType.SOA) && bool_decide (zone = None) then
      match extract_soa_data record with
      | Some soa_data => Some (Zone_new origin soa_data)
      | None => zone
      end
    else zone in
  match zone with
  | Some z => Some (add_record z record)
  | None => None
  end.

(** The body of the loop of [parse_zone_file]. *)
Definition parse_line (origin : Name) (st : ParseState) (numbered : nat * str) : outcome ParseState :=
  let '(zone, default_ttl, current_origin) := st in
  let '(line_num, line) := numbered in
  let line := trim line in
  if bool_decide (line = []) || starts_with_char c_semicolon line then Ok st
  else if starts_with_char c_dollar line then
    '(default_ttl, current_origin) ← parse_directive line line_num default_ttl current_origin;
    Ok (zone, default_ttl, current_origin)
  else
    record ← parse_resource_record line current_origin default_ttl line_num;
    match record with
    | Some record => Ok (store_record origin zone record, default_ttl, current_origin)
    | None => Ok st
    end.

(** [parse_zone_file]; [content] is what reading the file gives. *)
Definition parse_zone_file (content : option str) (origin_name : str) : outcome Zone :=
  content ← with_context "Failed to read zone file" [] (of_option content);
  origin ← with_context "Invalid origin name" [] (of_option (name_from_str origin_name));
  let processed_lines := preprocess_zone_content content in
  '(zone, _, _) ← for_each (parse_line origin) (imap pair processed_lines) (None, 3600, origin);
  match zone with
  | Some z => Ok z
  | None => Err (EMsg "Zone file must contain an SOA record")
  end.
End zone_file.
