(* ===== verification/ZoneFileFacts.v ===== *)
(** Lemmas about the zone file parser: no step of it panics, what a parsed line says, and the
    separation of the parser into a reader of records and a builder of zones. *)
From S2P Require Import Prelude RustStr HashMap Crates Zone ZoneFacts ZoneFile.
Open Scope Z_scope.

(** ** No panic *)

Section no_panic.
Context `{Hickory} `{!Codecs}.

Lemma bind_no_panic {A B} (m : outcome A) (f : A -> outcome B) :
  m ≠ Panic -> (forall a, m = Ok a -> f a ≠ Panic) -> m ≫= f ≠ Panic.
Proof. intros Hm Hf [?|(a & Ha & Hp)]%bind_panic; [done|by eapply Hf]. Qed.

Lemma index_no_panic {A} (l : list A) i : (i < length l)%nat -> index l i ≠ Panic.
Proof. rewrite index_panic. lia. Qed.

Lemma slice_from_no_panic {A} (l : list A) i : (i <= length l)%nat -> slice_from l i ≠ Panic.
Proof. rewrite slice_from_panic. lia. Qed.

Lemma with_context_no_panic {A} msg args (m : outcome A) : m ≠ Panic -> with_context msg args m ≠ Panic.
Proof. by rewrite with_context_panic. Qed.

Lemma parse_domain_name_no_panic s o : parse_domain_name s o ≠ Panic.
Proof. unfold parse_domain_name. destruct (ends_with_char _ _); apply of_option_panic. Qed.

Lemma field_no_panic {A} parts ln (parse : str -> option A) i msg :
  (i < length parts)%nat -> field parts ln parse i msg ≠ Panic.
Proof.
  intros Hi. unfold field. apply bind_no_panic; [by apply index_no_panic|].
  intros part _. apply with_context_no_panic, of_option_panic.
Qed.

Lemma domain_field_no_panic parts o ln i msg :
  (i < length parts)%nat -> domain_field parts o ln i msg ≠ Panic.
Proof.
  intros Hi. unfold domain_field. apply bind_no_panic; [by apply index_no_panic|].
  intros part _. apply with_context_no_panic, parse_domain_name_no_panic.
Qed.

Lemma parse_owner_no_panic part o ln : parse_owner part o ln ≠ Panic.
Proof.
  unfold parse_owner. repeat match goal with |- context [if ?b then _ else _] => destruct b end;
    try done; apply with_context_no_panic, of_option_panic.
Qed.

(** A checked access in a record of enough words. *)
Ltac no_panic :=
  repeat first
    [ progress intros
    | discriminate
    | apply bind_no_panic
    | apply field_no_panic; lia
    | apply domain_field_no_panic; lia
    | apply index_no_panic; lia
    | apply slice_from_no_panic; lia
    | apply with_context_no_panic
    | apply parse_domain_name_no_panic
    | apply of_option_panic
    | match goal with |- context [match ?x with Some _ => _ | None => _ end] => destruct x end ].

Lemma at_least_no_panic parts n k :
  ((n <= length parts)%nat -> k ≠ Panic) -> at_least parts n k ≠ Panic.
Proof. intros Hk. unfold at_least. case_bool_decide; [done|]. apply Hk. lia. Qed.

Lemma rdata_parsers_no_panic parts idx o ln :
  Forall (fun p => p.2 ≠ Panic) (rdata_parsers parts idx o ln).
Proof.
  unfold rdata_parsers. repeat constructor; cbn [snd]; apply at_least_no_panic; no_panic.
Qed.

Lemma parse_rdata_no_panic parts idx o ln rtype : parse_rdata parts idx o ln rtype ≠ Panic.
Proof.
  unfold parse_rdata. destruct (first_some _ _) as [parser|] eqn:E; [|done].
  apply first_some_spec in E as (l1 & [name p] & l2 & Heq & Hp & _). case_bool_decide; [|done].
  injection Hp as ->. pose proof (rdata_parsers_no_panic parts idx o ln) as Hf.
  rewrite Heq, Forall_app, Forall_cons in Hf. by destruct Hf as (_ & ? & _).
Qed.

Lemma parse_resource_record_no_panic line o ttl ln : parse_resource_record line o ttl ln ≠ Panic.
Proof.
  unfold parse_resource_record. case_bool_decide; [done|].
  apply bind_no_panic; [apply index_no_panic; lia|]. intros part _.
  apply bind_no_panic; [apply parse_owner_no_panic|]. intros name _.
  apply bind_no_panic; [apply index_no_panic; lia|]. intros part' _.
  assert (exists ttl' idx, match parse_unsigned 32 part' with
                           | Some ttl => (ttl, (0 + 1 + 1)%nat)
                           | None => (ttl, (0 + 1)%nat)
                           end = (ttl', idx) /\ (idx <= 2)%nat) as (ttl' & idx & -> & Hidx).
  { destruct (parse_unsigned 32 part'); do 2 eexists; split; try reflexivity; lia. }
  apply bind_no_panic; [apply index_no_panic; lia|]. intros part'' _.
  apply bind_no_panic; [apply index_no_panic; case_bool_decide; lia|]. intros rtype _.
  apply bind_no_panic; [apply parse_rdata_no_panic|]. intros [?|] _; done.
Qed.

Lemma parse_directive_no_panic line ln ttl o : parse_directive line ln ttl o ≠ Panic.
Proof.
  unfold parse_directive. destruct (starts_with _ _); [|destruct (starts_with _ _); [|done]];
    case_bool_decide; try done; no_panic.
Qed.

Lemma parse_line_no_panic o st x : parse_line o st x ≠ Panic.
Proof.
  destruct st as [[zone ttl] cur], x as [ln line]. unfold parse_line. destruct (_ || _); [done|].
  destruct (starts_with_char _ _); apply bind_no_panic.
  - apply parse_directive_no_panic.
  - by intros [? ?].
  - apply parse_resource_record_no_panic.
  - by intros [?|] _.
Qed.
End no_panic.

(** ** Ranges of parsed numbers *)

Lemma to_digit_range radix c d : to_digit radix c = Some d -> 0 <= d < radix.
Proof.
  unfold to_digit. set (x := if (48 <=? c) && (c <=? 57) then _ else _).
  assert (0 <= x) as Hx.
  { unfold x. destruct ((48 <=? c) && (c <=? 57)) eqn:E1; [lia|].
    destruct ((97 <=? c) && (c <=? 122)) eqn:E2; [lia|].
    destruct ((65 <=? c) && (c <=? 90)) eqn:E3; lia. }
  clearbody x. destruct (Z.ltb_spec x radix); [intros [= <-]; lia|done].
Qed.

Lemma digits_from_nonneg radix s : forall acc v,
  0 <= acc -> digits_from radix acc s = Some v -> 0 <= v.
Proof.
  induction s as [|c s IH]; intros acc v Hacc; cbn; [by intros [= <-]|].
  destruct (to_digit radix c) as [d|] eqn:E; [|done]. apply to_digit_range in E.
  apply IH. nia.
Qed.

Lemma parse_unsigned_range w s v : parse_unsigned w s = Some v -> in_u w v.
Proof.
  unfold parse_unsigned. set (ds := match s with [] => s | _ => _ end). clearbody ds.
  destruct ds as [|d ds]; [done|].
  destruct (digits_from 10 0 (d :: ds)) as [x|] eqn:E; [|done].
  apply digits_from_nonneg in E; [|lia]. destruct (Z.ltb_spec x (2 ^ w)); [|done].
  intros [= <-]. done.
Qed.

Lemma parse_signed_range w s v :
  0 < w -> parse_signed w s = Some v -> - 2 ^ (w - 1) <= v < 2 ^ (w - 1).
Proof.
  intros Hw. unfold parse_signed. set (p := match s with [] => _ | _ => _ end). clearbody p.
  destruct p as [neg [|d ds]]; [done|].
  destruct (digits_from 10 0 (d :: ds)) as [x|] eqn:E; [|done].
  apply digits_from_nonneg in E; [|lia]. assert (0 < 2 ^ (w - 1)) by (apply Z.pow_pos_nonneg; lia).
  destruct neg; [destruct (Z.leb_spec x (2 ^ (w - 1)))|destruct (Z.ltb_spec x (2 ^ (w - 1)))];
    (done || intros [= <-]; lia).
Qed.

Definition in_i32 (z : Z) : Prop := - 2 ^ 31 <= z < 2 ^ 31.

Lemma parse_i32_range s v : parse_signed 32 s = Some v -> in_i32 v.
Proof. by apply parse_signed_range. Qed.

Lemma span_digits_range radix s : Forall (fun d => 0 <= d < radix) (span_digits radix s).1.
Proof.
  induction s as [|c s IH]; cbn; [done|]. destruct (to_digit radix c) as [d|] eqn:E; [|done].
  destruct (span_digits radix s) as [ds r]. constructor; [by apply to_digit_range in E|done].
Qed.

Lemma fold_digits_nonneg radix ds : forall acc,
  Forall (fun d => 0 <= d < radix) ds -> 0 <= acc -> 0 <= fold_left (fun acc d => acc * radix + d) ds acc.
Proof.
  induction ds as [|d ds IH]; intros acc Hds Hacc; cbn; [done|].
  apply Forall_cons in Hds as [? ?]. apply IH; [done|nia].
Qed.

Lemma read_number_range w radix m z s v r : read_number w radix m z s = Some (v, r) -> in_u w v.
Proof.
  unfold read_number. pose proof (span_digits_range radix s) as Hd.
  destruct (span_digits radix s) as [ds r']. cbn [fst] in Hd. repeat (case_bool_decide; [done|]).
  destruct (_ && _); [done|].
  pose proof (fold_digits_nonneg radix ds 0 Hd ltac:(lia)).
  destruct (Z.ltb_spec (fold_left (fun acc d => acc * radix + d) ds 0) (2 ^ w)); [|done].
  intros [= <- _]. done.
Qed.

Definition ipv4_ok (a : Ipv4Addr) : Prop :=
  let '(x, y, z, t) := a in in_u 8 x /\ in_u 8 y /\ in_u 8 z /\ in_u 8 t.
Definition ipv6_ok (a : Ipv6Addr) : Prop := length a = 8%nat /\ Forall (in_u 16) a.

Lemma read_separator_inner {A} c i (p : parser A) s v r :
  read_separator c i p s = Some (v, r) -> exists s', p s' = Some (v, r).
Proof.
  destruct i; cbn; [eauto|]. intros (x & _ & Hx)%bind_Some. destruct x as [[] s']. eauto.
Qed.

Lemma read_ipv4_addr_range s a r : read_ipv4_addr s = Some (a, r) -> ipv4_ok a.
Proof.
  unfold read_ipv4_addr. intros ([a1 s1] & (s1' & Ha1)%read_separator_inner & Hx)%bind_Some.
  apply bind_Some in Hx as ([a2 s2] & (s2' & Ha2)%read_separator_inner & Hx).
  apply bind_Some in Hx as ([a3 s3] & (s3' & Ha3)%read_separator_inner & Hx).
  apply bind_Some in Hx as ([a4 s4] & (s4' & Ha4)%read_separator_inner & Hx).
  injection Hx as <- _. by repeat split; eapply read_number_range.
Qed.

Lemma parse_ipv4_range s a : parse_ipv4 s = Some a -> ipv4_ok a.
Proof.
  unfold parse_ipv4, parse_all. case_bool_decide; [done|].
  destruct (read_ipv4_addr s) as [[a' [|]]|] eqn:E; try done. intros [= ->].
  by eapply read_ipv4_addr_range.
Qed.

Lemma read_groups_range n : forall i s,
  let '(gs, _, _) := read_groups i n s in (length gs <= n)%nat /\ Forall (in_u 16) gs.
Proof.
  induction n as [|n IH]; intros i s; cbn -[read_separator]; [done|].
  destruct (if bool_decide (n = 0%nat) then None else read_separator c_colon i read_ipv4_addr s)
    as [[[[[a b] c] d] s']|] eqn:E.
  - case_bool_decide as Hn; [done|]. apply read_separator_inner in E as (s1 & E).
    apply read_ipv4_addr_range in E as (Ha & Hb & Hc & Hd). unfold in_u in *.
    split; [cbn; lia|]. repeat constructor; unfold in_u; lia.
  - destruct (read_separator c_colon i (read_number 16 16 4 true) s) as [[g s']|] eqn:E'.
    + apply read_separator_inner in E' as (s1 & E'). apply read_number_range in E'.
      specialize (IH (S i) s'). destruct (read_groups (S i) n s') as [[gs v4] r].
      destruct IH. split; [cbn; lia|by constructor].
    + split; [cbn; lia|done].
Qed.

Lemma parse_ipv6_range s a : parse_ipv6 s = Some a -> ipv6_ok a.
Proof.
  unfold parse_ipv6, parse_all, read_ipv6_addr.
  pose proof (read_groups_range 8 0 s) as Hg.
  destruct (read_groups 0 8 s) as [[head v4] s1]. destruct Hg as [Hlen Hall].
  case_bool_decide as Hl.
  - destruct s1; [|done]. intros [= <-]. done.
  - destruct v4; [done|]. cbn [mbind option_bind].
    destruct (read_given_char c_colon s1) as [[? s2]|]; cbn; [|done].
    destruct (read_given_char c_colon s2) as [[? s3]|]; cbn; [|done].
    pose proof (read_groups_range (8 - (length head + 1)) 0 s3) as Hg.
    destruct (read_groups 0 (8 - (length head + 1)) s3) as [[tail ?] s4].
    destruct Hg as [Hlen' Hall']. destruct s4; [|done]. intros [= <-]. split.
    + rewrite !length_app, length_replicate. lia.
    + rewrite !Forall_app. split_and!; [done| |done]. apply Forall_replicate. unfold in_u. lia.
Qed.

(** ** What a parsed line says *)

Section lines.
Context `{Hickory} `{!Codecs}.

(** The widths of the numbers in record data. *)
Definition rdata_ok (d : RData.t) : Prop :=
  match d with
  | RData.A a => ipv4_ok a
  | RData.AAAA a => ipv6_ok a
  | RData.SOA _ _ serial refresh retry expire minimum =>
      in_u 32 serial /\ in_i32 refresh /\ in_i32 retry /\ in_i32 expire /\ in_u 32 minimum
  | RData.MX preference _ => in_u 16 preference
  | RData.SRV priority weight port _ => in_u 16 priority /\ in_u 16 weight /\ in_u 16 port
  | RData.NAPTR order preference _ _ _ _ => in_u 16 order /\ in_u 16 preference
  | RData.DNSSEC (DNSSECRData.SIG _ _ labels ttl expiration inception tag _ _) =>
      in_u 8 labels /\ in_u 32 ttl /\ in_u 32 expiration /\ in_u 32 inception /\ in_u 16 tag
  | RData.DNSSEC (DNSSECRData.DS tag _ _ _) => in_u 16 tag
  | _ => True
  end.

(** The type word that stands for some data in a zone file. *)
Definition type_word (d : RData.t) : option str :=
  match d with
  | RData.A _ => Some (lit "A")
  | RData.AAAA _ => Some (lit "AAAA")
  | RData.NS _ => Some (lit "NS")
  | RData.SOA _ _ _ _ _ _ _ => Some (lit "SOA")
  | RData.CNAME _ => Some (lit "CNAME")
  | RData.MX _ _ => Some (lit "MX")
  | RData.TXT _ => Some (lit "TXT")
  | RData.PTR _ => Some (lit "PTR")
  | RData.SRV _ _ _ _ => Some (lit "SRV")
  | RData.CAA_issue _ _ => Some (lit "CAA")
  | RData.DNSSEC (DNSSECRData.DNSKEY _ _ _ _ _) => Some (lit "DNSKEY")
  | RData.DNSSEC (DNSSECRData.SIG _ _ _ _ _ _ _ _ _) => Some (lit "RRSIG")
  | RData.DNSSEC (DNSSECRData.NSEC _ _) => Some (lit "NSEC")
  | RData.DNSSEC (DNSSECRData.DS _ _ _ _) => Some (lit "DS")
  | RData.NAPTR _ _ _ _ _ _ => Some (lit "NAPTR")
  | RData.TLSA _ _ _ _ => Some (lit "TLSA")
  | RData.SSHFP _ _ _ => Some (lit "SSHFP")
  | _ => None
  end.

(** The owner name a word stands for: the origin, an absolute name, or a name under the origin. *)
Definition resolve_owner (part : str) (origin : Name) : option Name :=
  if bool_decide (part = lit "@") then Some origin
  else name_from_str (if ends_with_char c_dot part then part else under_origin part origin).

(** The words after the owner: an optional TTL, an optional class IN, the type, the rest. *)
Definition line_ttl (default_ttl : Z) (ws : list str) : Z :=
  match ws with
  | w :: _ => default default_ttl (parse_unsigned 32 w)
  | [] => default_ttl
  end.

Definition line_type (ws : list str) : option str :=
  let ws := match ws with
            | w :: ws' => match parse_unsigned 32 w with Some _ => ws' | None => ws end
            | [] => ws
            end in
  match ws with
  | w :: ws' => if bool_decide (w = lit "IN") then head ws' else Some w
  | [] => None
  end.

Lemma field_ok {A} parts ln (parse : str -> option A) i msg a :
  field parts ln parse i msg = Ok a -> exists w, parts !! i = Some w /\ parse w = Some a.
Proof. unfold field. intros ?. outcome_inv. eauto. Qed.

Lemma parse_owner_resolves part o ln n : parse_owner part o ln = Ok n -> resolve_owner part o = Some n.
Proof.
  unfold parse_owner, resolve_owner. case_bool_decide; [congruence|]. case_bool_decide as Hs.
  - subst part. intros ?. by outcome_inv.
  - destruct (starts_with _ _), (ends_with_char _ _); intros ?; by outcome_inv.
Qed.

(** Reads off the ranges of the fields a parser has read. *)
Ltac field_ranges :=
  repeat match goal with
  | Hf : field _ _ _ _ _ = Ok _ |- _ => apply field_ok in Hf; destruct Hf as (? & _ & Hf)
  | Hf : parse_unsigned _ _ = Some _ |- _ => apply parse_unsigned_range in Hf
  | Hf : parse_signed 32 _ = Some _ |- _ => apply parse_i32_range in Hf
  | Hf : parse_ipv4 _ = Some _ |- _ => apply parse_ipv4_range in Hf
  | Hf : parse_ipv6 _ = Some _ |- _ => apply parse_ipv6_range in Hf
  end.

Lemma at_least_ok parts n k d : at_least parts n k = Ok (Some d) -> k = Ok (Some d).
Proof. unfold at_least. by case_bool_decide. Qed.

Lemma rdata_parsers_ok parts idx o ln :
  Forall (fun p => forall d, p.2 = Ok (Some d) -> type_word d = Some p.1 /\ rdata_ok d)
    (rdata_parsers parts idx o ln).
Proof.
  unfold rdata_parsers. repeat (apply List.Forall_cons || apply List.Forall_nil); cbn [fst snd]; intros d Hd; apply at_least_ok in Hd;
    outcome_inv; cbv zeta in *; outcome_inv; repeat match goal with
      | Hm : match ?x with Some _ => _ | None => _ end = Ok _ |- _ => destruct x; outcome_inv
      end; field_ranges; try discriminate; simplify_eq; try (split; [done|cbn [rdata_ok]; tauto]).
  (* CAA: three ways to the same variant *)
  repeat match goal with |- context [if ?b then _ else _] => destruct b end; by split.
Qed.

Lemma parse_rdata_ok parts idx o ln rtype d :
  parse_rdata parts idx o ln rtype = Ok (Some d) -> type_word d = Some rtype /\ rdata_ok d.
Proof.
  unfold parse_rdata. destruct (first_some _ _) as [parser|] eqn:E; [|done]. intros Hd.
  apply first_some_spec in E as (l1 & [name p] & l2 & Heq & Hp & _). case_bool_decide as Hn; [|done].
  injection Hp as ->. subst name. pose proof (rdata_parsers_ok parts idx o ln) as Hf.
  rewrite Heq, Forall_app, Forall_cons in Hf. destruct Hf as (_ & Hf & _). by apply Hf.
Qed.

Lemma parse_resource_record_says `{!RecordLaws} line o dttl ln r :
  parse_resource_record line o dttl ln = Ok (Some r) ->
  exists w ws d rtype, split_whitespace line = w :: ws /\
    resolve_owner w o = Some (record_name r) /\ record_ttl r = line_ttl dttl ws /\
    record_data r = Some d /\ line_type ws = Some rtype /\ type_word d = Some rtype /\ rdata_ok d /\
    record_record_type r = rdata_record_type d.
Proof.
  unfold parse_resource_record. case_bool_decide; [done|]. intros Hr.
  destruct (split_whitespace line) as [|w [|w1 [|w2 [|w3 ws]]]]; try (cbn in *; lia).
  apply bind_ok in Hr as (w' & Hw & Hr). injection Hw as <-.
  apply bind_ok in Hr as (name & Hname%parse_owner_resolves & Hr).
  apply bind_ok in Hr as (w1' & Hw1 & Hr). injection Hw1 as <-.
  exists w, (w1 :: w2 :: w3 :: ws). unfold line_ttl, line_type.
  destruct (parse_unsigned 32 w1) as [ttl|]; cbn [default from_option id];
    apply bind_ok in Hr as (w2' & Hw2 & Hr); injection Hw2 as <-;
    apply bind_ok in Hr as (rtype & Ht & Hr); apply bind_ok in Hr as ([d|] & Hd & Hr); try done;
    injection Hr as <-; apply parse_rdata_ok in Hd as [Hword Hok]; exists d, rtype;
    rewrite record_name_from, record_ttl_from, record_data_from, record_type_from;
    (split_and!; try done); case_bool_decide; by rewrite index_ok in Ht.
Qed.
End lines.
