(* ===== verification/ZonePrint.v ===== *)
(** A printer of zone file lines, the inverse of the parser on all its record types: what the round-trip
    theorem of [ZoneFileProps] is about.  How codes and bytes are written is a parameter ([Spellings]). *)
From S2P Require Import Prelude RustStr HashMap Crates Zone ZoneFile ZoneFileFacts.
Open Scope Z_scope.

(** ** Numbers *)

Fixpoint show_digits (fuel : nat) (n : Z) : str :=
  match fuel with
  | O => []
  | S fuel' => if n <? 10 then [48 + n] else show_digits fuel' (n / 10) ++ [48 + n mod 10]
  end.

(** Ten digits are enough for 32 bits. *)
Definition show_num (n : Z) : str := show_digits 10 n.
Definition show_int (n : Z) : str := if n <? 0 then c_minus :: show_num (- n) else show_num n.

Definition is_digit (c : char) : Prop := 48 <= c <= 57.

Lemma show_digits_digits fuel : forall n, 0 <= n -> Forall is_digit (show_digits fuel n).
Proof.
  induction fuel as [|fuel IH]; intros n Hn; cbn; [done|]. unfold is_digit in *.
  destruct (Z.ltb_spec n 10); [repeat constructor; lia|].
  apply Forall_app. split; [apply IH, Z.div_pos; lia|].
  pose proof (Z.mod_pos_bound n 10). repeat constructor; lia.
Qed.

Lemma show_digits_nonempty fuel n : show_digits (S fuel) n ≠ [].
Proof. cbn. destruct (n <? 10); [done|]. by destruct (show_digits fuel (n / 10)). Qed.

Lemma to_digit_digit c : is_digit c -> to_digit 10 c = Some (c - 48).
Proof.
  unfold is_digit, to_digit. intros Hc.
  rewrite (proj2 (Z.leb_le 48 c)), (proj2 (Z.leb_le c 57)) by lia. cbn [andb].
  by rewrite (proj2 (Z.ltb_lt (c - 48) 10)) by lia.
Qed.

Lemma digits_from_app radix s1 s2 : forall acc,
  digits_from radix acc (s1 ++ s2) =
  match digits_from radix acc s1 with Some acc => digits_from radix acc s2 | None => None end.
Proof. induction s1 as [|c s1 IH]; intros acc; cbn; [done|]. destruct (to_digit radix c); [apply IH|done]. Qed.

Lemma digits_from_show fuel : forall n, 0 <= n < 10 ^ Z.of_nat fuel -> (0 < fuel)%nat ->
  digits_from 10 0 (show_digits fuel n) = Some n.
Proof.
  induction fuel as [|fuel IH]; intros n Hn Hf; [lia|]. cbn [show_digits].
  destruct (Z.ltb_spec n 10).
  - cbn [digits_from]. rewrite to_digit_digit by (unfold is_digit; lia). f_equal. lia.
  - rewrite Nat2Z.inj_succ, Z.pow_succ_r in Hn by lia.
    assert (0 < fuel)%nat. { destruct fuel; [cbn in Hn; lia|lia]. }
    rewrite digits_from_app, IH; [|split; [apply Z.div_pos; lia|apply Z.div_lt_upper_bound; lia]|done].
    pose proof (Z.mod_pos_bound n 10). cbn [digits_from].
    rewrite to_digit_digit by (unfold is_digit; lia). f_equal.
    pose proof (Z.div_mod n 10). lia.
Qed.

Lemma show_num_digits n : 0 <= n -> Forall is_digit (show_num n).
Proof. apply show_digits_digits. Qed.

(** A number starts with a digit, so the parser sees no sign. *)
Lemma show_digits_cons fuel n : 0 <= n -> exists c s, show_digits (S fuel) n = c :: s /\ is_digit c.
Proof.
  intros Hn. pose proof (show_digits_digits (S fuel) n Hn) as Hd.
  pose proof (show_digits_nonempty fuel n) as Hne.
  destruct (show_digits (S fuel) n) as [|c s]; [done|]. apply Forall_cons in Hd as [? _]. eauto.
Qed.

Lemma show_num_cons n : 0 <= n -> exists c s, show_num n = c :: s /\ is_digit c.
Proof. apply show_digits_cons. Qed.

Lemma parse_show_digits fuel w n : 2 ^ w <= 10 ^ Z.of_nat (S fuel) -> in_u w n ->
  parse_unsigned w (show_digits (S fuel) n) = Some n.
Proof.
  intros Hw Hn. unfold in_u in Hn.
  destruct (show_digits_cons fuel n) as (c & s & Hs & Hc); [lia|]. unfold parse_unsigned.
  rewrite Hs. unfold is_digit in Hc. assert (c =? c_plus = false) as -> by (unfold c_plus; lia).
  rewrite <- Hs. rewrite digits_from_show by lia.
  by rewrite (proj2 (Z.ltb_lt n (2 ^ w))) by lia.
Qed.

Lemma parse_show_num w n : w <= 32 -> in_u w n -> parse_unsigned w (show_num n) = Some n.
Proof.
  intros Hw. apply (parse_show_digits 9).
  assert (2 ^ w <= 2 ^ 32) by (apply Z.pow_le_mono_r; lia). cbn in *. lia.
Qed.

Lemma parse_show_int n : in_i32 n -> parse_signed 32 (show_int n) = Some n.
Proof.
  unfold in_i32. intros Hn. unfold parse_signed, show_int. destruct (Z.ltb_spec n 0).
  - cbn [app]. rewrite Z.eqb_refl. destruct (show_num_cons (- n)) as (c & s & Hs & _); [lia|].
    rewrite Hs, <- Hs. unfold show_num. rewrite digits_from_show by (cbn; lia).
    rewrite (proj2 (Z.leb_le (- n) (2 ^ (32 - 1)))) by (cbn; lia). f_equal. lia.
  - destruct (show_num_cons n) as (c & s & Hs & Hc); [lia|]. rewrite Hs. unfold is_digit in Hc.
    assert (c =? c_minus = false) as -> by (unfold c_minus; lia).
    assert (c =? c_plus = false) as -> by (unfold c_plus; lia).
    rewrite <- Hs. unfold show_num. rewrite digits_from_show by (cbn; lia).
    by rewrite (proj2 (Z.ltb_lt n (2 ^ (32 - 1)))) by (cbn; lia).
Qed.

(** ** Addresses *)

Definition show_ipv4 (a : Ipv4Addr) : str :=
  let '(x, y, z, t) := a in
  show_num x ++ c_dot :: show_num y ++ c_dot :: show_num z ++ c_dot :: show_num t.

Lemma span_digits_app s r :
  Forall is_digit s -> match r with c :: _ => c = c_dot | [] => True end ->
  span_digits 10 (s ++ r) = (map (fun c => c - 48) s, r).
Proof.
  intros Hs Hr. induction Hs as [|c s Hc _ IH]; cbn [app map].
  - destruct r as [|c r]; [done|]. by subst c.
  - cbn [span_digits]. by rewrite to_digit_digit, IH by done.
Qed.

(** What reading an octet needs, for each of the 256 of them. *)
Definition octet_facts (n : Z) : bool :=
  let s := show_num n in
  let ds := map (fun c => c - 48) s in
  bool_decide (length ds <= 3)%nat && negb (bool_decide (ds = []))
  && negb (bool_decide (head s = Some 48) && bool_decide (1 < length ds)%nat)
  && (fold_left (fun acc d => acc * 10 + d) ds 0 =? n).

Lemma octet_facts_all : forallb octet_facts (map Z.of_nat (seq 0 256)) = true.
Proof. by vm_compute. Qed.

Lemma octet_facts_ok n : in_u 8 n -> octet_facts n = true.
Proof.
  intros Hn. unfold in_u in Hn. pose proof octet_facts_all as Hall. rewrite forallb_forall in Hall.
  apply Hall, in_map_iff. exists (Z.to_nat n). rewrite Z2Nat.id by lia. split; [done|].
  apply in_seq. lia.
Qed.

Lemma read_octet n r :
  in_u 8 n -> match r with c :: _ => c = c_dot | [] => True end ->
  read_number 8 10 3 false (show_num n ++ r) = Some (n, r).
Proof.
  intros Hn Hr. pose proof (octet_facts_ok n Hn) as Hf. unfold in_u in Hn. unfold octet_facts in Hf.
  unfold read_number. rewrite span_digits_app by (done || (apply show_num_digits; lia)).
  destruct (show_num_cons n) as (c & s & Hs & Hc); [lia|].
  assert (head (show_num n ++ r) = head (show_num n)) as -> by (by rewrite Hs).
  apply andb_true_iff in Hf as [[[H3 Hne]%andb_true_iff Hz]%andb_true_iff Hv].
  apply bool_decide_eq_true in H3. apply negb_true_iff in Hne, Hz. apply Z.eqb_eq in Hv.
  rewrite bool_decide_eq_false_2 by lia. rewrite Hne. cbn [negb andb]. rewrite Hz, Hv.
  by rewrite (proj2 (Z.ltb_lt n (2 ^ 8))) by lia.
Qed.

Lemma show_octet_length n : in_u 8 n -> (length (show_num n) <= 3)%nat.
Proof.
  intros Hf%octet_facts_ok. unfold octet_facts in Hf.
  apply andb_true_iff in Hf as [[[H3 _]%andb_true_iff _]%andb_true_iff _].
  apply bool_decide_eq_true in H3. by rewrite length_map in H3.
Qed.

Lemma parse_show_ipv4 a : ipv4_ok a -> parse_ipv4 (show_ipv4 a) = Some a.
Proof.
  destruct a as [[[x y] z] t]. intros (Hx & Hy & Hz & Ht). unfold parse_ipv4, parse_all, show_ipv4.
  rewrite bool_decide_eq_false_2.
  2: { repeat (rewrite length_app; cbn [length]). pose proof (show_octet_length x Hx).
       pose proof (show_octet_length y Hy). pose proof (show_octet_length z Hz).
       pose proof (show_octet_length t Ht). lia. }
  unfold read_ipv4_addr. cbn [read_separator].
  do 3 (rewrite read_octet by done; cbn [mbind option_bind read_given_char];
        rewrite Z.eqb_refl; cbn [mbind option_bind]).
  rewrite <- (app_nil_r (show_num t)). by rewrite read_octet.
Qed.

(** *** IPv6, as eight groups of up to four hexadecimal digits *)

Definition hex_char (d : Z) : char := if d <? 10 then 48 + d else 87 + d.

Fixpoint show_hex_digits (fuel : nat) (n : Z) : str :=
  match fuel with
  | O => []
  | S fuel' => if n <? 16 then [hex_char n] else show_hex_digits fuel' (n / 16) ++ [hex_char (n mod 16)]
  end.

Definition show_group (n : Z) : str := show_hex_digits 4 n.
Definition show_ipv6 (a : Ipv6Addr) : str := str_join [c_colon] (show_group <$> a).

Definition is_hex (c : char) : Prop := 48 <= c <= 57 \/ 97 <= c <= 102.
Definition hex_value (c : char) : Z := if c <=? 57 then c - 48 else c - 87.

Lemma hex_char_ok d : 0 <= d < 16 -> is_hex (hex_char d) /\ hex_value (hex_char d) = d.
Proof.
  intros Hd. unfold is_hex, hex_value, hex_char. destruct (Z.ltb_spec d 10).
  - rewrite (proj2 (Z.leb_le _ _)) by lia. lia.
  - rewrite (proj2 (Z.leb_gt _ _)) by lia. lia.
Qed.

Lemma to_digit_hex c : is_hex c -> to_digit 16 c = Some (hex_value c).
Proof.
  unfold is_hex, to_digit, hex_value. intros [Hc|Hc].
  - rewrite (proj2 (Z.leb_le 48 c)), (proj2 (Z.leb_le c 57)) by lia. cbn [andb].
    by rewrite (proj2 (Z.ltb_lt (c - 48) 16)) by lia.
  - rewrite (proj2 (Z.leb_gt c 57)) by lia. rewrite andb_false_r.
    rewrite (proj2 (Z.leb_le 97 c)), (proj2 (Z.leb_le c 122)) by lia. cbn [andb].
    by rewrite (proj2 (Z.ltb_lt (c - 87) 16)) by lia.
Qed.

Lemma show_hex_digits_ok fuel : forall n, 0 <= n < 16 ^ Z.of_nat fuel -> (0 < fuel)%nat ->
  let s := show_hex_digits fuel n in
  Forall is_hex s /\ s ≠ [] /\ (length s <= fuel)%nat /\
  fold_left (fun acc d => acc * 16 + d) (map hex_value s) 0 = n.
Proof.
  induction fuel as [|fuel IH]; intros n Hn Hf; [lia|]. cbn [show_hex_digits].
  destruct (Z.ltb_spec n 16).
  - destruct (hex_char_ok n) as [Hh Hv]; [lia|]. cbn [map fold_left length]. rewrite Hv.
    split_and!; [by constructor|done|lia|lia].
  - rewrite Nat2Z.inj_succ, Z.pow_succ_r in Hn by lia.
    assert (0 < fuel)%nat. { destruct fuel; [cbn in Hn; lia|lia]. }
    destruct (IH (n / 16)) as (Hh & Hne & Hl & Hv);
      [split; [apply Z.div_pos; lia|apply Z.div_lt_upper_bound; lia]|done|].
    pose proof (Z.mod_pos_bound n 16 ltac:(lia)) as Hm. destruct (hex_char_ok (n mod 16) Hm) as [Hh' Hv'].
    rewrite map_app, fold_left_app, Hv, length_app. cbn [map fold_left length]. rewrite Hv'.
    split_and!; [by apply Forall_app; split; [|constructor]|by destruct (show_hex_digits fuel (n / 16))|lia|].
    pose proof (Z.div_mod n 16). lia.
Qed.

Lemma span_hex_app s r :
  Forall is_hex s -> match r with c :: _ => c = c_colon | [] => True end ->
  span_digits 16 (s ++ r) = (map hex_value s, r).
Proof.
  intros Hs Hr. induction Hs as [|c s Hc _ IH]; cbn [app map].
  - destruct r as [|c r]; [done|]. by subst c.
  - cbn [span_digits]. by rewrite to_digit_hex, IH by done.
Qed.

Lemma read_group n r :
  in_u 16 n -> match r with c :: _ => c = c_colon | [] => True end ->
  read_number 16 16 4 true (show_group n ++ r) = Some (n, r).
Proof.
  intros Hn Hr. unfold in_u in Hn. destruct (show_hex_digits_ok 4 n) as (Hh & Hne & Hl & Hv); [cbn; lia|lia|].
  fold (show_group n) in Hh, Hne, Hl, Hv. unfold read_number. rewrite span_hex_app by done.
  rewrite bool_decide_eq_false_2 by (rewrite length_map; lia).
  rewrite bool_decide_eq_false_2 by (by intros Hm%map_eq_nil). cbn [negb andb]. rewrite Hv.
  by rewrite (proj2 (Z.ltb_lt n (2 ^ 16))) by lia.
Qed.

(** Without a dot no IPv4 address is read. *)
Lemma span_digits_suffix radix s : exists p, s = p ++ (span_digits radix s).2.
Proof.
  induction s as [|c s [p IH]]; cbn [span_digits]; [by exists []|].
  destruct (to_digit radix c); [|by exists []]. destruct (span_digits radix s) as [ds r]. cbn in *.
  exists (c :: p). cbn. by f_equal.
Qed.

Lemma read_number_suffix w radix m z s v r : read_number w radix m z s = Some (v, r) -> exists p, s = p ++ r.
Proof.
  unfold read_number. pose proof (span_digits_suffix radix s) as [p Hp].
  destruct (span_digits radix s) as [ds r']. cbn [snd] in Hp. repeat case_match; try done.
  intros [= _ <-]. by exists p.
Qed.

Lemma read_ipv4_no_dot s : c_dot ∉ s -> read_ipv4_addr s = None.
Proof.
  intros Hs. unfold read_ipv4_addr. cbn [read_separator].
  destruct (read_number 8 10 3 false s) as [[v r]|] eqn:E; cbn [mbind option_bind]; [|done].
  apply read_number_suffix in E as [p ->]. destruct r as [|d r]; cbn; [done|].
  destruct (Z.eqb_spec d c_dot) as [->|]; [|done]. destruct Hs. set_solver.
Qed.

Definition groups_text (gs : list Z) : str := flat_map (fun g => c_colon :: show_group g) gs.

Lemma show_group_no_dot n : in_u 16 n -> c_dot ∉ show_group n.
Proof.
  unfold in_u. intros Hn. destruct (show_hex_digits_ok 4 n) as (Hh & _); [cbn; lia|lia|].
  rewrite Forall_forall in Hh. intros Hd%Hh. unfold is_hex, c_dot in Hd. lia.
Qed.

Lemma groups_text_no_dot gs : Forall (in_u 16) gs -> c_dot ∉ groups_text gs.
Proof.
  induction 1 as [|g gs Hg _ IH]; cbn; [apply not_elem_of_nil|].
  rewrite elem_of_cons, elem_of_app. pose proof (show_group_no_dot g Hg). intros [|[|]]; done.
Qed.

Lemma groups_text_colon gs : match groups_text gs with c :: _ => c = c_colon | [] => True end.
Proof. by destruct gs. Qed.

Lemma read_groups_text gs : forall i, Forall (in_u 16) gs ->
  read_groups (S i) (length gs) (groups_text gs) = (gs, false, []).
Proof.
  induction gs as [|g gs IH]; intros i Hgs; [done|]. apply Forall_cons in Hgs as [Hg Hgs].
  pose proof (groups_text_no_dot _ Hgs). pose proof (show_group_no_dot _ Hg).
  cbn [length read_groups]. cbn [groups_text flat_map app]. fold (groups_text gs).
  unfold read_separator. cbn [read_given_char]. rewrite Z.eqb_refl. cbn [mbind option_bind].
  rewrite read_ipv4_no_dot by (rewrite elem_of_app; tauto).
  rewrite read_group by (done || apply groups_text_colon). rewrite IH by done. by case_bool_decide.
Qed.

Lemma read_all_groups g gs : in_u 16 g -> Forall (in_u 16) gs ->
  read_groups 0 (S (length gs)) (show_group g ++ groups_text gs) = (g :: gs, false, []).
Proof.
  intros Hg Hgs. pose proof (groups_text_no_dot _ Hgs). pose proof (show_group_no_dot _ Hg).
  cbn [read_groups]. unfold read_separator. rewrite read_ipv4_no_dot by (rewrite elem_of_app; tauto).
  rewrite read_group by (done || apply groups_text_colon). rewrite read_groups_text by done. by case_bool_decide.
Qed.

Lemma show_ipv6_text g gs : show_ipv6 (g :: gs) = show_group g ++ groups_text gs.
Proof.
  unfold show_ipv6. revert g. induction gs as [|g' gs IH]; intros g; [cbn -[show_group]; by rewrite app_nil_r|].
  change (str_join [c_colon] (show_group <$> g :: g' :: gs))
    with (show_group g ++ c_colon :: str_join [c_colon] (show_group <$> g' :: gs)).
  by rewrite IH.
Qed.

Lemma parse_show_ipv6 a : ipv6_ok a -> parse_ipv6 (show_ipv6 a) = Some a.
Proof.
  intros [Hl Ha]. destruct a as [|g gs]; [done|]. apply Forall_cons in Ha as [Hg Hgs].
  rewrite show_ipv6_text. unfold parse_ipv6, parse_all, read_ipv6_addr.
  rewrite <- Hl. cbn [length]. rewrite read_all_groups by done.
  by rewrite bool_decide_eq_true_2.
Qed.

(** ** Words *)

(** No character with a meaning of its own in a zone file. *)
Definition plain_char (c : char) : bool :=
  negb (is_whitespace c) && negb (c =? c_lparen) && negb (c =? c_rparen) && negb (c =? c_semicolon)
  && negb (c =? c_dollar).

Definition is_word (w : str) : Prop := w ≠ [] /\ Forall (fun c => plain_char c = true) w.

Lemma plain_char_spec c :
  plain_char c = true <->
  is_whitespace c = false /\ c ≠ c_lparen /\ c ≠ c_rparen /\ c ≠ c_semicolon /\ c ≠ c_dollar.
Proof. unfold plain_char. rewrite !andb_true_iff, !negb_true_iff, !Z.eqb_neq. tauto. Qed.

Lemma split_word w : forall cur s,
  Forall (fun c => plain_char c = true) w ->
  split_whitespace_from cur (w ++ s) = split_whitespace_from (cur ++ w) s.
Proof.
  induction w as [|c w IH]; intros cur s Hw; cbn [app]; [by rewrite app_nil_r|].
  apply Forall_cons in Hw as [[Hc _]%plain_char_spec Hw]. cbn [split_whitespace_from]. rewrite Hc, IH by done.
  by rewrite <- app_assoc.
Qed.

Lemma split_join ws : Forall is_word ws -> split_whitespace (str_join [c_space] ws) = ws.
Proof.
  unfold split_whitespace. induction ws as [|w ws IH]; intros Hws; [done|].
  apply Forall_cons in Hws as [[Hne Hw] Hws]. destruct ws as [|w' ws].
  - cbn [str_join]. rewrite <- (app_nil_r w) at 1. rewrite split_word by done. cbn.
    by rewrite decide_False.
  - change (str_join [c_space] (w :: w' :: ws)) with (w ++ c_space :: str_join [c_space] (w' :: ws)).
    rewrite split_word by done. cbn [split_whitespace_from app].
    change (is_whitespace c_space) with true. cbn match. rewrite decide_False by done.
    cbn [app]. f_equal. by apply IH.
Qed.

Lemma digit_plain c : is_digit c -> plain_char c = true.
Proof.
  unfold is_digit. intros ?. apply plain_char_spec. split_and!; [|unfold c_lparen, c_rparen, c_semicolon, c_dollar; lia..].
  unfold is_whitespace. repeat (apply orb_false_iff; split); lia.
Qed.

Lemma show_num_word n : 0 <= n -> is_word (show_num n).
Proof.
  intros Hn. split; [by destruct (show_num_cons n Hn) as (c & s & -> & _)|].
  eapply Forall_impl; [by apply show_num_digits|]. apply digit_plain.
Qed.

Lemma show_int_word n : is_word (show_int n).
Proof.
  unfold show_int. destruct (Z.ltb_spec n 0).
  - split; [done|]. constructor; [done|]. apply show_num_word. lia.
  - apply show_num_word. lia.
Qed.

Lemma is_word_app s1 s2 : is_word s1 -> Forall (fun c => plain_char c = true) s2 -> is_word (s1 ++ s2).
Proof. intros [? ?] ?. split; [by destruct s1|]. by apply Forall_app. Qed.

Lemma show_ipv4_word a : ipv4_ok a -> is_word (show_ipv4 a).
Proof.
  destruct a as [[[x y] z] t]. unfold ipv4_ok, in_u. intros (Hx & Hy & Hz & Ht). unfold show_ipv4.
  apply is_word_app; [apply show_num_word; lia|].
  repeat (constructor; [done|apply Forall_app; split; [apply show_num_word; lia|]]).
  constructor; [done|]. apply show_num_word. lia.
Qed.

Lemma hex_plain c : is_hex c -> plain_char c = true.
Proof.
  unfold is_hex. intros ?. apply plain_char_spec. split_and!; [|unfold c_lparen, c_rparen, c_semicolon, c_dollar; lia..].
  unfold is_whitespace. repeat (apply orb_false_iff; split); lia.
Qed.

Lemma show_ipv6_word a : ipv6_ok a -> is_word (show_ipv6 a).
Proof.
  intros [Hl Ha]. destruct a as [|g gs]; [done|]. rewrite show_ipv6_text.
  assert (forall n, in_u 16 n -> is_word (show_group n)) as Hgroup.
  { unfold in_u. intros n Hn. destruct (show_hex_digits_ok 4 n) as (Hh & Hne & _); [cbn; lia|lia|].
    split; [done|]. eapply Forall_impl; [exact Hh|apply hex_plain]. }
  apply Forall_cons in Ha as [Hg Hgs]. apply is_word_app; [by apply Hgroup|].
  clear -Hgs Hgroup. induction Hgs as [|n gs Hn _ IH]; cbn; [done|].
  constructor; [done|]. apply Forall_app. split; [by apply Hgroup|done].
Qed.

(** ** Quoted text *)

(** Quotes around the text of some words. *)
Definition quote_words (ws : list str) : list str :=
  match ws with
  | [] => [[c_quote; c_quote]]
  | [w] => [c_quote :: w ++ [c_quote]]
  | w :: ws => (c_quote :: w) :: removelast ws ++ [default [] (last ws) ++ [c_quote]]
  end.

(** No quote at either end, where it would be trimmed. *)
Definition unquoted (s : str) : Prop := head s ≠ Some c_quote /\ last s ≠ Some c_quote.

Lemma trim_start_other s : head s ≠ Some c_quote -> trim_start_matches (Z.eqb c_quote) s = s.
Proof. destruct s as [|c s]; [done|]. cbn [head trim_start_matches]. by destruct (Z.eqb_spec c_quote c) as [->|]. Qed.

Lemma trim_quoted s : unquoted s -> trim_matches c_quote (c_quote :: s ++ [c_quote]) = s.
Proof.
  intros [Hh Hl]. unfold trim_matches, trim_end_matches. cbn [trim_start_matches]. rewrite Z.eqb_refl.
  destruct s as [|c s]; [done|]. rewrite (trim_start_other ((c :: s) ++ [c_quote])) by done.
  rewrite reverse_snoc. cbn [trim_start_matches]. rewrite Z.eqb_refl, trim_start_other; [by rewrite reverse_involutive|].
  by rewrite head_reverse.
Qed.

Lemma join_snoc sep ws w : ws ≠ [] -> str_join sep (ws ++ [w]) = str_join sep ws ++ sep ++ w.
Proof.
  induction ws as [|w1 [|w2 ws] IH]; intros Hne; [done|done|]. cbn [app] in IH |- *.
  change (str_join sep (w1 :: w2 :: ws ++ [w])) with (w1 ++ sep ++ str_join sep (w2 :: ws ++ [w])).
  change (str_join sep (w1 :: w2 :: ws)) with (w1 ++ sep ++ str_join sep (w2 :: ws)).
  rewrite IH by done. by rewrite <- !app_assoc.
Qed.

Lemma join_quote_words ws :
  str_join [c_space] (quote_words ws) = c_quote :: str_join [c_space] ws ++ [c_quote].
Proof.
  destruct ws as [|w [|w' ws]]; [done|done|]. unfold quote_words.
  destruct (exists_last (l := w' :: ws)) as (ws' & w2 & Heq); [done|]. rewrite Heq.
  rewrite removelast_last, last_snoc. cbn [default from_option].
  rewrite !app_comm_cons, join_snoc, join_snoc by done.
  destruct ws' as [|w3 ws']; cbn [str_join app]; by rewrite ?app_assoc, <- ?app_assoc.
Qed.

Lemma quote_words_word ws : Forall is_word ws -> Forall is_word (quote_words ws).
Proof.
  intros Hws. destruct ws as [|w [|w' ws]]; unfold quote_words.
  - constructor; [|done]. split; [done|]. by repeat constructor.
  - apply Forall_cons in Hws as [Hw _]. constructor; [|done]. split; [done|].
    constructor; [done|]. apply Forall_app. split; [apply Hw|by repeat constructor].
  - apply Forall_cons in Hws as [Hw Hws].
    destruct (exists_last (l := w' :: ws)) as (ws' & w2 & Heq); [done|]. rewrite Heq in Hws |- *.
    rewrite removelast_last, last_snoc. cbn [default from_option].
    apply Forall_app in Hws as [Hws' [Hw2 _]%Forall_cons].
    constructor; [split; [done|constructor; [done|apply Hw]]|].
    apply Forall_app. split; [done|]. constructor; [|done]. apply is_word_app; [done|by repeat constructor].
Qed.

Lemma quote_words_nonempty ws : (0 < length (quote_words ws))%nat.
Proof. destruct ws as [|w [|w' ws]]; cbn; lia. Qed.

(** ** Records *)

(** How the values of the crates' types are written: the inverses of their readers, as far as they
    have one. *)
Class Spellings `{Hickory} := {
  hex_encode : list Z -> str;
  base64_encode : list Z -> str;
  record_type_name : RecordType.t -> str;
  algorithm_code : Algorithm -> Z;
  digest_type_code : DigestType.t -> Z;
  cert_usage_code : CertUsage -> Z;
  selector_code : Selector -> Z;
  matching_code : Matching -> Z;
  sshfp_algorithm_code : SshfpAlgorithm -> Z;
  fingerprint_type_code : FingerprintType -> Z
}.

Section records.
Context `{Hickory} `{!Codecs} `{!Spellings}.

(** An absolute name that reads back from its text. *)
Definition printable (n : Name) : Prop :=
  is_word (name_to_string n) /\ ends_with_char c_dot (name_to_string n) = true /\
  name_from_str (name_to_string n) = Some n.

(** A code of eight bits, encoded bytes and a type that read back from their text. *)
Definition code_ok {A} (from : Z -> A) (code : A -> Z) (a : A) : Prop := in_u 8 (code a) /\ from (code a) = a.
Definition bytes_ok (decode : str -> option (list Z)) (encode : list Z -> str) (bs : list Z) : Prop :=
  is_word (encode bs) /\ decode (encode bs) = Some bs.
Definition type_ok (t : RecordType.t) : Prop :=
  is_word (record_type_name t) /\ record_type_from_str (record_type_name t) = Some t.

(** A text of words with one space between them. *)
Definition text_ok (t : str) : Prop :=
  Forall is_word (split_whitespace t) /\ str_join [c_space] (split_whitespace t) = t /\ unquoted t.

(** A field that is quoted as one word: ASCII without spaces. *)
Definition flags_ok (s : str) : Prop :=
  Forall (fun c => c < 128 /\ plain_char c = true) s /\ unquoted s.

Definition bit (b : bool) (v : Z) : Z := if b then v else 0.

Definition quoted_word (s : str) : str := c_quote :: s ++ [c_quote].

Definition show_rdata (d : RData.t) : option (list str) :=
  match d with
  | RData.A a => Some [lit "A"; show_ipv4 a]
  | RData.AAAA a => Some [lit "AAAA"; show_ipv6 a]
  | RData.NS n => Some [lit "NS"; name_to_string n]
  | RData.CNAME n => Some [lit "CNAME"; name_to_string n]
  | RData.PTR n => Some [lit "PTR"; name_to_string n]
  | RData.MX preference n => Some [lit "MX"; show_num preference; name_to_string n]
  | RData.TXT [t] => Some (lit "TXT" :: quote_words (split_whitespace t))
  | RData.SRV priority weight port n =>
      Some [lit "SRV"; show_num priority; show_num weight; show_num port; name_to_string n]
  | RData.SOA m r serial refresh retry expire minimum =>
      Some [lit "SOA"; name_to_string m; name_to_string r; show_num serial; show_int refresh;
            show_int retry; show_int expire; show_num minimum]
  | RData.CAA_issue critical name =>
      Some [lit "CAA"; show_num (bit critical 128); lit "issue";
            quoted_word (match name with Some n => name_to_string n | None => [] end)]
  | RData.DNSSEC (DNSSECRData.DNSKEY zone_key secure_entry_point revoke algorithm public_key) =>
      Some [lit "DNSKEY"; show_num (bit zone_key 256 + bit secure_entry_point 1 + bit revoke 32768);
            lit "3"; show_num (algorithm_code algorithm); base64_encode public_key]
  | RData.DNSSEC (DNSSECRData.SIG covered algorithm labels ttl expiration inception tag signer signature) =>
      Some [lit "RRSIG"; record_type_name covered; show_num (algorithm_code algorithm); show_num labels;
            show_num ttl; show_num expiration; show_num inception; show_num tag; name_to_string signer;
            base64_encode signature]
  | RData.DNSSEC (DNSSECRData.NSEC next types) =>
      Some (lit "NSEC" :: name_to_string next :: (record_type_name <$> types))
  | RData.DNSSEC (DNSSECRData.DS tag algorithm digest_type digest) =>
      Some [lit "DS"; show_num tag; show_num (algorithm_code algorithm);
            show_num (digest_type_code digest_type); hex_encode digest]
  | RData.NAPTR order preference flags services regexp replacement =>
      Some [lit "NAPTR"; show_num order; show_num preference; quoted_word flags; quoted_word services;
            quoted_word regexp; name_to_string replacement]
  | RData.TLSA usage selector matching data =>
      Some [lit "TLSA"; show_num (cert_usage_code usage); show_num (selector_code selector);
            show_num (matching_code matching); hex_encode data]
  | RData.SSHFP algorithm fp_type fingerprint =>
      Some [lit "SSHFP"; show_num (sshfp_algorithm_code algorithm);
            show_num (fingerprint_type_code fp_type); hex_encode fingerprint]
  | _ => None
  end.

(** Data whose parts read back from their text: numbers within their widths, names, codes, bytes. *)
Definition spelled (d : RData.t) : Prop :=
  match d with
  | RData.A a => ipv4_ok a
  | RData.AAAA a => ipv6_ok a
  | RData.NS n | RData.CNAME n | RData.PTR n => printable n
  | RData.MX preference n => in_u 16 preference /\ printable n
  | RData.TXT [t] => text_ok t
  | RData.SRV priority weight port n =>
      in_u 16 priority /\ in_u 16 weight /\ in_u 16 port /\ printable n
  | RData.SOA m r serial refresh retry expire minimum =>
      printable m /\ printable r /\ in_u 32 serial /\ in_i32 refresh /\ in_i32 retry /\ in_i32 expire /\
      in_u 32 minimum
  | RData.CAA_issue _ (Some n) => printable n /\ unquoted (name_to_string n)
  | RData.CAA_issue _ None => True
  | RData.DNSSEC (DNSSECRData.DNSKEY _ _ _ algorithm key) =>
      code_ok algorithm_from_u8 algorithm_code algorithm /\ bytes_ok base64_decode base64_encode key
  | RData.DNSSEC (DNSSECRData.SIG covered algorithm labels ttl expiration inception tag signer signature) =>
      type_ok covered /\ code_ok algorithm_from_u8 algorithm_code algorithm /\ in_u 8 labels /\
      in_u 32 ttl /\ in_u 32 expiration /\ in_u 32 inception /\ in_u 16 tag /\ printable signer /\
      bytes_ok base64_decode base64_encode signature
  | RData.DNSSEC (DNSSECRData.NSEC next types) => printable next /\ types ≠ [] /\ Forall type_ok types
  | RData.DNSSEC (DNSSECRData.DS tag algorithm digest_type digest) =>
      in_u 16 tag /\ code_ok algorithm_from_u8 algorithm_code algorithm /\
      in_u 8 (digest_type_code digest_type) /\
      digest_type_from_u8 (digest_type_code digest_type) = Some digest_type /\
      bytes_ok hex_decode hex_encode digest
  | RData.NAPTR order preference flags services regexp replacement =>
      in_u 16 order /\ in_u 16 preference /\ flags_ok flags /\ flags_ok services /\ flags_ok regexp /\
      printable replacement
  | RData.TLSA usage selector matching data =>
      code_ok cert_usage_from_u8 cert_usage_code usage /\ code_ok selector_from_u8 selector_code selector /\
      code_ok matching_from_u8 matching_code matching /\ bytes_ok hex_decode hex_encode data
  | RData.SSHFP algorithm fp_type fingerprint =>
      code_ok sshfp_algorithm_from_u8 sshfp_algorithm_code algorithm /\
      code_ok fingerprint_type_from_u8 fingerprint_type_code fp_type /\
      bytes_ok hex_decode hex_encode fingerprint
  | _ => False
  end.

(** A record on one line: owner, TTL, class, type and data. *)
Definition show_record (n : Name) (ttl : Z) (d : RData.t) : option str :=
  (fun ws => str_join [c_space] (name_to_string n :: show_num ttl :: lit "IN" :: ws)) <$> show_rdata d.

Lemma parse_printable n o : printable n -> parse_domain_name (name_to_string n) o = Ok n.
Proof. intros (_ & Hdot & Hn). unfold parse_domain_name. by rewrite Hdot, Hn. Qed.

Lemma parse_owner_printable n o ln : printable n -> parse_owner (name_to_string n) o ln = Ok n.
Proof.
  intros (_ & Hdot & Hn). unfold parse_owner.
  rewrite bool_decide_eq_false_2, bool_decide_eq_false_2 by (intros Heq; rewrite Heq in Hdot; discriminate).
  rewrite Hdot, Hn. by destruct (starts_with _ _).
Qed.

Lemma lit_word s : lit s ≠ [] -> forallb plain_char (lit s) = true -> is_word (lit s).
Proof.
  intros Hne Hf. split; [done|]. apply Forall_forall. intros c Hc. rewrite forallb_forall in Hf.
  apply Hf. by apply list_elem_of_In.
Qed.

Lemma quoted_word_word s : Forall (fun c => plain_char c = true) s -> is_word (quoted_word s).
Proof. intros Hs. split; [done|]. constructor; [done|]. apply Forall_app. by split; [|repeat constructor]. Qed.

Lemma flags_word s : flags_ok s -> is_word (quoted_word s).
Proof. intros [Hs _]. apply quoted_word_word. eapply Forall_impl; [exact Hs|]. by intros c []. Qed.

Lemma bit_range b v : 0 <= v -> 0 <= bit b v <= v.
Proof. destruct b; cbn; lia. Qed.

Lemma show_code_word {A} (from : Z -> A) code a : code_ok from code a -> is_word (show_num (code a)).
Proof. intros [Hc _]. apply show_num_word. unfold in_u in Hc. lia. Qed.

Lemma show_rdata_words d ws : spelled d -> show_rdata d = Some ws -> Forall is_word ws.
Proof.
  intros Hok Hs.
  assert (forall b, is_word (show_num (bit b 128))) by (intros b; apply show_num_word, bit_range; lia).
  assert (forall a b c, is_word (show_num (bit a 256 + bit b 1 + bit c 32768))) as Hflags.
  { intros a b c. apply show_num_word. pose proof (bit_range a 256). pose proof (bit_range b 1).
    pose proof (bit_range c 32768). lia. }
  destruct d as [| | | | | |[|t [|]]| | |? [n|]|[]| | | |]; try done;
    cbn [show_rdata] in Hs; injection Hs as <-; cbn [spelled] in Hok;
    repeat match goal with Hx : _ /\ _ |- _ => destruct Hx end;
    repeat (apply List.Forall_cons || apply List.Forall_nil);
    try (apply lit_word; [done|by vm_compute]);
    try (by apply show_ipv4_word); try (by apply show_ipv6_word); try apply show_int_word; try done;
    try (by apply flags_word); try (by eapply show_code_word);
    try (apply show_num_word; unfold in_u in *; lia);
    try match goal with Hx : printable ?n |- is_word (name_to_string ?n) => apply Hx
          | Hx : bytes_ok _ ?e ?bs |- is_word (?e ?bs) => apply Hx
          | Hx : type_ok ?t |- is_word (record_type_name ?t) => apply Hx
          | Hx : text_ok ?t |- Forall _ (quote_words _) => apply quote_words_word, Hx end.
  - match goal with Hx : printable _ |- _ => destruct Hx as [[_ Hx] _] end. by apply quoted_word_word.
  - apply Forall_fmap. eapply Forall_impl; [eassumption|]. by intros t [].
Qed.

(** The parser that the type word of some data selects. *)
Definition rdata_parser (d : RData.t) (parts : list str) (idx : nat) (o : Name) (ln : nat)
    : outcome (option RData.t) :=
  match d with
  | RData.A _ => parse_a parts idx ln
  | RData.AAAA _ => parse_aaaa parts idx ln
  | RData.NS _ => parse_ns parts idx o ln
  | RData.SOA _ _ _ _ _ _ _ => parse_soa parts idx o ln
  | RData.CNAME _ => parse_cname parts idx o ln
  | RData.MX _ _ => parse_mx parts idx o ln
  | RData.TXT _ => parse_txt parts idx
  | RData.PTR _ => parse_ptr parts idx o ln
  | RData.SRV _ _ _ _ => parse_srv parts idx o ln
  | RData.CAA_issue _ _ => parse_caa parts idx ln
  | RData.DNSSEC (DNSSECRData.DNSKEY _ _ _ _ _) => parse_dnskey parts idx ln
  | RData.DNSSEC (DNSSECRData.SIG _ _ _ _ _ _ _ _ _) => parse_rrsig parts idx o ln
  | RData.DNSSEC (DNSSECRData.NSEC _ _) => parse_nsec parts idx o ln
  | RData.DNSSEC (DNSSECRData.DS _ _ _ _) => parse_ds parts idx ln
  | RData.NAPTR _ _ _ _ _ _ => parse_naptr parts idx o ln
  | RData.TLSA _ _ _ _ => parse_tlsa parts idx ln
  | RData.SSHFP _ _ _ => parse_sshfp parts idx ln
  | _ => Ok None
  end.

Lemma parse_rdata_selects d w parts idx o ln :
  type_word d = Some w -> parse_rdata parts idx o ln w = rdata_parser d parts idx o ln.
Proof. destruct d as [| | | | | | | | | |[]| | | |]; intros [= <-]; reflexivity. Qed.

(** ** Reading a field back *)

Lemma as_bytes_ascii s : Forall (fun c => c < 128 /\ plain_char c = true) s -> as_bytes s = s.
Proof.
  induction 1 as [|c s [Hc _] _ IH]; [done|].
  change (as_bytes (c :: s)) with (char_bytes c ++ as_bytes s). unfold char_bytes.
  by rewrite (proj2 (Z.ltb_lt c 128)), IH.
Qed.

Lemma as_bytes_flags s : flags_ok s -> as_bytes (trim_matches c_quote (quoted_word s)) = s.
Proof. intros [Hs Hu]. unfold quoted_word. rewrite trim_quoted by done. by apply as_bytes_ascii. Qed.

Lemma has_flag_bit a b c :
  let flags := bit a 256 + bit b 1 + bit c 32768 in
  has_flag 256 flags = a /\ has_flag 1 flags = b /\ has_flag 32768 flags = c /\ in_u 16 flags.
Proof. destruct a, b, c; vm_compute; repeat split; (reflexivity || discriminate). Qed.

Lemma has_flag_critical b : has_flag 128 (bit b 128) = b /\ in_u 8 (bit b 128).
Proof. destruct b; vm_compute; repeat split; (reflexivity || discriminate). Qed.

Lemma read_type_names ts : forall acc, Forall type_ok ts ->
  fold_left (fun type_bit_maps part => match record_type_from_str part with
                                       | Some rtype => type_bit_maps ++ [rtype]
                                       | None => type_bit_maps
                                       end) (record_type_name <$> ts) acc = acc ++ ts.
Proof.
  induction ts as [|t ts IH]; intros acc Hts; cbn; [by rewrite app_nil_r|].
  apply Forall_cons in Hts as [[_ Ht] Hts]. by rewrite Ht, IH, <- app_assoc.
Qed.

(** Evaluates the fields of a printed record one by one. *)
Ltac read_fields :=
  unfold at_least, field, domain_field, slice_from; cbn [length bool_decide];
  repeat first
    [ rewrite parse_printable by done
    | rewrite parse_show_num by (done || lia)
    | rewrite parse_show_int by done
    | rewrite parse_show_ipv4 by done
    | rewrite parse_show_ipv6 by done
    | match goal with |- context [bool_decide (?a < ?b)%nat] => rewrite (bool_decide_eq_false_2 (a < b)%nat) by lia end
    | match goal with |- context [bool_decide (?a <= ?b)%nat] => rewrite (bool_decide_eq_true_2 (a <= b)%nat) by lia end
    | rewrite drop_0
    | progress cbn [mbind outcome_bind with_context of_option index lookup list_lookup Nat.add drop] ].

(** The parts of [spelled]. *)
Ltac spelled_parts :=
  repeat match goal with
    | Hx : _ /\ _ |- _ => destruct Hx
    | Hx : code_ok _ _ _ |- _ => destruct Hx as [? Hx]
    | Hx : bytes_ok _ _ _ |- _ => destruct Hx as [_ Hx]
    | Hx : type_ok _ |- _ => destruct Hx as [_ Hx]
    end.

(** Decodes the last field, and compares what was read with what was printed. *)
Ltac spelled_back :=
  cbn [str_join];
  match goal with Hd : ?x = Some _ |- context [match ?x with Some _ => _ | None => _ end] => rewrite Hd end;
  try match goal with Hd : digest_type_from_u8 _ = Some _ |- _ => rewrite Hd end;
  cbn [of_option mbind outcome_bind]; congruence.

Lemma show_rdata_type d ws : show_rdata d = Some ws -> exists rtype rest, ws = rtype :: rest /\ type_word d = Some rtype.
Proof.
  intros Hs. destruct d as [| | | | | |[|t [|]]| | | |[]| | | |]; try done; cbn [show_rdata] in Hs;
    injection Hs as <-; by do 2 eexists.
Qed.

Lemma parse_caa_named w1 w2 w3 w4 critical n ln : printable n -> unquoted (name_to_string n) ->
  parse_caa [w1; w2; w3; w4; show_num (bit critical 128); lit "issue"; quoted_word (name_to_string n)] 4 ln =
  Ok (Some (RData.CAA_issue critical (Some n))).
Proof.
  intros ([Hne Hp] & _ & Hn) Hu. destruct (has_flag_critical critical) as [Hf Hb].
  unfold parse_caa. read_fields. cbn [str_join]. unfold quoted_word. rewrite trim_quoted, Hf by done. cbn [mbind outcome_bind].
  rewrite (bool_decide_eq_true_2 (lit "issue" = _)) by done. cbn [orb].
  rewrite (bool_decide_eq_false_2 (_ = [])) by done. rewrite bool_decide_eq_false_2; [by rewrite Hn|].
  intros Heq. rewrite Heq in Hp. by apply Forall_cons in Hp as [Hp _].
Qed.

Lemma parse_show_rdata w1 w2 w3 d rtype rest o ln :
  spelled d -> show_rdata d = Some (rtype :: rest) ->
  rdata_parser d (w1 :: w2 :: w3 :: rtype :: rest) 4 o ln = Ok (Some d).
Proof.
  intros Hok Hs.
  destruct d as [| | | | | |[|t [|]]| | |? [n|]|[]| | | |]; try done;
    cbn [show_rdata] in Hs; injection Hs as <- <-; cbn [spelled rdata_parser] in Hok |- *.
  - unfold parse_a. by read_fields.
  - unfold parse_aaaa. by read_fields.
  - unfold parse_ns. by read_fields.
  - spelled_parts. unfold parse_soa. by read_fields.
  - unfold parse_cname. by read_fields.
  - spelled_parts. unfold parse_mx. by read_fields.
  - destruct Hok as (_ & Hj & Hu). pose proof (quote_words_nonempty (split_whitespace t)).
    unfold parse_txt. read_fields. by rewrite join_quote_words, Hj, trim_quoted.
  - unfold parse_ptr. by read_fields.
  - spelled_parts. unfold parse_srv. by read_fields.
  - destruct Hok as [Hn Hu]. by apply parse_caa_named.
  - destruct (has_flag_critical issuer_critical) as [Hf Hb]. unfold parse_caa. read_fields. by rewrite Hf.
  - destruct (has_flag_bit zone_key secure_entry_point revoke) as (Hz & He & Hr & Hb). spelled_parts.
    unfold parse_dnskey. read_fields. change (parse_unsigned 8 (lit "3")) with (Some 3). read_fields.
    spelled_back.
  - destruct Hok as ([_ Ht] & Hok). spelled_parts. unfold parse_rrsig. read_fields. rewrite Ht. read_fields. spelled_back.
  - destruct Hok as (Hn & Hne & Hts). unfold parse_nsec. destruct type_bit_maps as [|t ts]; [done|].
    read_fields. by rewrite read_type_names.
  - spelled_parts. unfold parse_ds. read_fields. spelled_back.
  - spelled_parts. unfold parse_naptr. read_fields. by rewrite !as_bytes_flags.
  - spelled_parts. unfold parse_tlsa. read_fields. spelled_back.
  - spelled_parts. unfold parse_sshfp. read_fields. spelled_back.
Qed.

Lemma parse_show_record n ttl d line o dttl ln :
  printable n -> in_u 32 ttl -> spelled d -> show_record n ttl d = Some line ->
  parse_resource_record line o dttl ln = Ok (Some (record_from_rdata n ttl d)).
Proof.
  intros Hn Httl Hok Hl. unfold show_record in Hl. apply fmap_Some in Hl as (ws & Hws & ->).
  pose proof (show_rdata_words d ws Hok Hws) as Hw.
  unfold parse_resource_record. rewrite split_join.
  2: { constructor; [apply Hn|]. constructor; [apply show_num_word; unfold in_u in Httl; lia|].
       constructor; [apply lit_word; [done|by vm_compute]|done]. }
  destruct (show_rdata_type d ws Hws) as (rtype & rest & -> & Hty).
  rewrite bool_decide_eq_false_2 by (cbn; lia). cbn [index lookup list_lookup mbind outcome_bind].
  rewrite parse_owner_printable by done. cbn [mbind outcome_bind Nat.add index lookup list_lookup].
  rewrite parse_show_num by (done || lia). cbn [mbind outcome_bind Nat.add index lookup list_lookup].
  rewrite bool_decide_eq_true_2 by done. cbn [mbind outcome_bind Nat.add index lookup list_lookup].
  by rewrite (parse_rdata_selects d), parse_show_rdata.
Qed.
End records.
