(* ===== verification/ZoneFileProps.v ===== *)
(** Theorems about the zone file parser: it never panics, it is a reader of records followed by a
    builder of zones, what a record line means, how lines are joined. *)
From S2P Require Import Prelude RustStr HashMap Crates CratesModel Zone.
From S2P Require Import Fixtures ZoneFacts ZoneFile ZoneFileFacts ZonePrint.
Open Scope Z_scope.

(** * Reading and building *)

Section reader.
Context `{Hickory} `{!Codecs}.

(** A line read without a zone: [(records, default_ttl, current_origin)]. *)
Definition read_line (st : list DnsRecord * Z * Name) (numbered : nat * str)
    : outcome (list DnsRecord * Z * Name) :=
  let '(rs, default_ttl, current_origin) := st in
  let '(line_num, line) := numbered in
  let line := trim line in
  if bool_decide (line = []) || starts_with_char c_semicolon line then Ok st
  else if starts_with_char c_dollar line then
    '(default_ttl, current_origin) ← parse_directive line line_num default_ttl current_origin;
    Ok (rs, default_ttl, current_origin)
  else
    record ← parse_resource_record line current_origin default_ttl line_num;
    match record with
    | Some record => Ok (rs ++ [record], default_ttl, current_origin)
    | None => Ok st
    end.

(** All the records of a file, in order, with the origin of the zone. *)
Definition read_records (content : option str) (origin_name : str) : outcome (Name * list DnsRecord) :=
  content ← with_context "Failed to read zone file" [] (of_option content);
  origin ← with_context "Invalid origin name" [] (of_option (name_from_str origin_name));
  '(rs, _, _) ← for_each read_line (imap pair (preprocess_zone_content content)) ([], 3600, origin);
  Ok (origin, rs).

Definition soa_of (r : DnsRecord) : option SoaRecord :=
  if bool_decide (record_record_type r = RecordType.SOA) then extract_soa_data r else None.

(** The zone of a list of records: the records from the first SOA record on. *)
Fixpoint build_zone (origin : Name) (rs : list DnsRecord) : option Zone :=
  match rs with
  | [] => None
  | r :: rs' => match soa_of r with
                | Some soa => Some (zone_of_list origin soa rs)
                | None => build_zone origin rs'
                end
  end.

Lemma store_record_some origin z r : store_record origin (Some z) r = Some (add_record z r).
Proof. unfold store_record. by rewrite (bool_decide_eq_false_2 (Some z = None)), andb_false_r. Qed.

Lemma store_record_none origin r :
  store_record origin None r = (fun soa => add_record (Zone_new origin soa) r) <$> soa_of r.
Proof.
  unfold store_record, soa_of. rewrite (bool_decide_eq_true_2 (None = None)), andb_true_r by done.
  case_bool_decide; [|done]. by destruct (extract_soa_data r).
Qed.

Lemma store_records_some origin rs z :
  fold_left (store_record origin) rs (Some z) = Some (fold_left add_record rs z).
Proof. revert z. induction rs as [|r rs IH]; intros z; cbn; [done|]. by rewrite store_record_some. Qed.

Lemma store_records origin rs : fold_left (store_record origin) rs None = build_zone origin rs.
Proof.
  induction rs as [|r rs IH]; cbn -[store_record]; [done|]. rewrite store_record_none.
  destruct (soa_of r); cbn -[store_record]; [|done]. by rewrite store_records_some.
Qed.

(** The parser runs in step with the reader: its zone is what the records read so far build. *)
Lemma parse_line_read origin rs ttl cur x :
  parse_line origin (fold_left (store_record origin) rs None, ttl, cur) x =
  '(rs, ttl, cur) ← read_line (rs, ttl, cur) x;
  Ok (fold_left (store_record origin) rs None, ttl, cur).
Proof.
  destruct x as [ln line]. unfold parse_line, read_line. destruct (_ || _); [done|].
  destruct (starts_with_char _ _).
  - by destruct (parse_directive _ _ _ _) as [[]| |].
  - destruct (parse_resource_record _ _ _ _) as [[r|]| |]; cbn -[store_record]; try done.
    by rewrite fold_left_app.
Qed.

Lemma parse_lines_read origin xs : forall rs ttl cur,
  for_each (parse_line origin) xs (fold_left (store_record origin) rs None, ttl, cur) =
  '(rs, ttl, cur) ← for_each read_line xs (rs, ttl, cur);
  Ok (fold_left (store_record origin) rs None, ttl, cur).
Proof.
  induction xs as [|x xs IH]; intros rs ttl cur; [done|].
  cbn [for_each]. rewrite parse_line_read.
  destruct (read_line (rs, ttl, cur) x) as [[[rs' ttl'] cur']| |]; cbn [mbind outcome_bind]; [apply IH|done|done].
Qed.

Lemma build_zone_wf origin rs z : build_zone origin rs = Some z -> zone_wf z.
Proof.
  induction rs as [|r rs IH]; cbn -[zone_of_list]; [done|].
  destruct (soa_of r); [|done]. intros [= <-]. apply zone_wf_of_list.
Qed.
End reader.

(** * Joining lines *)

(** A line as it is written: without a comment, or a text and a comment after a semicolon. *)
Inductive Line :=
  | Bare (line : str)
  | Commented (text comment : str).

Definition line_string (l : Line) : str :=
  match l with
  | Bare line => line
  | Commented text comment => text ++ [c_semicolon] ++ comment
  end.

(** A semicolon begins a comment if it is the first of the line and no quotes are open before it: an
    even number of them precedes it.  A line whose first semicolon is in quotes has no comment. *)
Definition line_written (l : Line) : Prop :=
  match l with
  | Bare line =>
      c_semicolon ∉ line \/
      exists quoted rest, line = quoted ++ [c_semicolon] ++ rest /\ c_semicolon ∉ quoted /\
        Nat.odd (count_char c_quote quoted) = true
  | Commented text comment => c_semicolon ∉ text /\ Nat.even (count_char c_quote text) = true
  end.

(** Every line is written in one of these ways. *)
Lemma line_reads line : exists l, line_written l /\ line_string l = line.
Proof.
  destruct (decide (c_semicolon ∈ line)) as [Hin|Hn]; [|exists (Bare line); split; [by left|done]].
  apply list_elem_of_split_l in Hin as (text & rest & -> & Ht).
  destruct (Nat.even (count_char c_quote text)) eqn:E.
  - exists (Commented text rest). done.
  - exists (Bare (text ++ c_semicolon :: rest)). split; [|done]. right. exists text, rest.
    split_and!; [done|done|]. by rewrite <- Nat.negb_even, E.
Qed.

(** The text of a line that counts: without its comment, without space at its ends. *)
Definition line_text (l : Line) : str :=
  trim match l with Bare line => line | Commented text _ => text end.

Lemma find_char_None c s : c ∉ s -> find_char c s = None.
Proof.
  induction s as [|d s IH]; cbn; [done|]. intros Hn. destruct (Z.eqb_spec d c) as [->|].
  - destruct Hn. left.
  - rewrite IH; [done|]. intros ?. apply Hn. by right.
Qed.

Lemma find_char_first c s rest : c ∉ s -> find_char c (s ++ c :: rest) = Some (length s).
Proof.
  induction s as [|d s IH]; cbn; intros Hn; [by rewrite Z.eqb_refl|].
  apply not_elem_of_cons in Hn as [Hd Hn]. by rewrite (proj2 (Z.eqb_neq d c)), IH by done.
Qed.

Lemma strip_comment_written l : line_written l -> trim (strip_comment (line_string l)) = line_text l.
Proof.
  unfold strip_comment, line_text.
  assert (forall n, Nat.odd n = bool_decide (n mod 2 = 1)%nat) as Hodd.
  { intros n. pose proof (Nat.div_mod_eq n 2). pose proof (Nat.mod_upper_bound n 2 ltac:(lia)). case_bool_decide.
    - apply Nat.odd_spec. exists (n / 2)%nat. lia.
    - destruct (Nat.odd n) eqn:O; [|done]. apply Nat.odd_spec in O as [k ->]. lia. }
  destruct l as [line|text comment]; cbn [line_string line_written].
  - intros [Hn|(quoted & rest & -> & Hq & Ho)]; [by rewrite find_char_None|]. cbn [app].
    rewrite find_char_first, take_app_length by done. cbv zeta. by rewrite <- Hodd, Ho.
  - intros [Ht He]. cbn [app]. rewrite find_char_first, take_app_length by done. cbv zeta.
    by rewrite <- Hodd, <- Nat.negb_even, He.
Qed.

Definition no_parens (l : Line) : Prop := c_lparen ∉ line_text l /\ c_rparen ∉ line_text l.

(** The shapes of the lines of a file: one line, or a record in parentheses over several lines, the
    first of which has the opening parenthesis and the last the closing one. *)
Inductive Block :=
  | Plain (line : Line)
  | Group (open : Line) (middle : list Line) (close : Line).

Definition block_lines (b : Block) : list str :=
  line_string <$> match b with
                  | Plain line => [line]
                  | Group open middle close => open :: middle ++ [close]
                  end.

Definition block_ok (b : Block) : Prop :=
  match b with
  | Plain line => line_written line /\ no_parens line
  | Group open middle close =>
      Forall line_written (open :: close :: middle) /\ c_lparen ∈ line_text open /\
      Forall no_parens middle /\ c_lparen ∉ line_text close /\ c_rparen ∈ line_text close
  end.

(** The lines a block becomes: its texts on one line, separated by spaces, without parentheses. *)
Definition block_texts (b : Block) : list str :=
  match b with
  | Plain line => if bool_decide (line_text line = []) then [] else [line_text line]
  | Group open middle close =>
      [trim (trim (remove_char c_lparen (line_text open)) ++ [c_space]
             ++ flat_map (fun l => line_text l ++ [c_space]) middle
             ++ trim (remove_char c_rparen (line_text close)))]
  end.

(** One line of the loop. *)
Lemma preprocess_written l result cur inp : line_written l ->
  preprocess_line (result, cur, inp) (line_string l) =
  if contains_char c_lparen (line_text l) then
    (result, cur ++ trim (remove_char c_lparen (line_text l)) ++ [c_space], true)
  else if contains_char c_rparen (line_text l) then
    (result ++ [trim (cur ++ trim (remove_char c_rparen (line_text l)))], [], false)
  else if inp then (result, cur ++ line_text l ++ [c_space], inp)
  else if bool_decide (line_text l = []) then (result, cur, inp)
  else (result ++ [line_text l], cur, inp).
Proof. intros Hl. unfold preprocess_line. by rewrite strip_comment_written. Qed.

Lemma contains_char_true c s : c ∈ s -> contains_char c s = true.
Proof. apply bool_decide_eq_true_2. Qed.
Lemma contains_char_false c s : c ∉ s -> contains_char c s = false.
Proof. apply bool_decide_eq_false_2. Qed.

Lemma preprocess_middle middle result : forall cur,
  Forall line_written middle -> Forall no_parens middle ->
  fold_left preprocess_line (line_string <$> middle) (result, cur, true) =
  (result, cur ++ flat_map (fun l => line_text l ++ [c_space]) middle, true).
Proof.
  induction middle as [|l middle IH]; intros cur Hw Hm; cbn [fmap list_fmap fold_left flat_map].
  - by rewrite app_nil_r.
  - apply Forall_cons in Hw as [Hl Hw]. apply Forall_cons in Hm as [[Hn1 Hn2] Hm].
    rewrite preprocess_written, !contains_char_false, IH by done. by rewrite <- !app_assoc.
Qed.

Lemma preprocess_block b result :
  block_ok b ->
  fold_left preprocess_line (block_lines b) (result, [], false) = (result ++ block_texts b, [], false).
Proof.
  destruct b as [line|open middle close]; unfold block_lines; cbn [block_ok block_texts].
  - intros (Hl & Hn1 & Hn2). cbn [fmap list_fmap fold_left].
    rewrite preprocess_written, !contains_char_false by done. case_bool_decide; [by rewrite app_nil_r|done].
  - intros (Hw & Ho & Hm & Hc1 & Hc2). apply Forall_cons in Hw as [Hwo Hw]. apply Forall_cons in Hw as [Hwc Hw].
    cbn [fmap list_fmap fold_left]. change (list_fmap _ _ line_string (middle ++ [close])) with (line_string <$> middle ++ [close]).
    rewrite fmap_app, preprocess_written, contains_char_true, fold_left_app by done. cbn [app].
    rewrite preprocess_middle by done. cbn [fmap list_fmap fold_left].
    rewrite preprocess_written, contains_char_false, contains_char_true by done. by rewrite <- !app_assoc.
Qed.

Lemma preprocess_blocks bs : forall result,
  Forall block_ok bs ->
  fold_left preprocess_line (flat_map block_lines bs) (result, [], false) =
  (result ++ flat_map block_texts bs, [], false).
Proof.
  induction bs as [|b bs IH]; intros result Hbs; cbn [flat_map fold_left]; [by rewrite app_nil_r|].
  apply Forall_cons in Hbs as [Hb Hbs].
  by rewrite fold_left_app, preprocess_block, IH, app_assoc.
Qed.

(** * Printed files *)

(** Only plain characters and spaces, and no space at either end. *)
Definition plain_line (l : str) : Prop :=
  Forall (fun c => c = c_space \/ plain_char c = true) l /\
  (exists c, head l = Some c /\ plain_char c = true) /\ (exists c, last l = Some c /\ plain_char c = true).

Lemma word_plain_line w : is_word w -> plain_line w.
Proof.
  intros [Hne Hw]. split_and!.
  - eapply Forall_impl; [exact Hw|]. auto.
  - destruct w as [|c w]; [done|]. apply Forall_cons in Hw as [? _]. eauto.
  - destruct (last w) as [c|] eqn:E; [|by apply last_None in E]. exists c. split; [done|].
    rewrite Forall_forall in Hw. apply Hw. by apply last_Some_elem_of.
Qed.

Lemma join_plain_line w ws : Forall is_word (w :: ws) -> plain_line (str_join [c_space] (w :: ws)).
Proof.
  revert w. induction ws as [|w' ws IH]; intros w Hws; apply Forall_cons in Hws as [Hw Hws].
  - by apply word_plain_line.
  - change (str_join [c_space] (w :: w' :: ws)) with (w ++ c_space :: str_join [c_space] (w' :: ws)).
    specialize (IH w' Hws). apply word_plain_line in Hw as (Ha & (c & Hc & Hpc) & _).
    destruct IH as (Ha' & _ & (d & Hd & Hpd)). split_and!.
    + apply Forall_app. split; [done|]. constructor; [by left|done].
    + exists c. split; [|done]. by destruct w.
    + exists d. split; [|done]. by rewrite last_app, last_cons, Hd.
Qed.

Lemma plain_line_not_elem l c : plain_line l -> c ≠ c_space -> plain_char c = false -> c ∉ l.
Proof.
  intros (Ha & _) Hc Hp Hin. rewrite Forall_forall in Ha. destruct (Ha c Hin) as [?|?]; congruence.
Qed.

Lemma trim_start_id p c s : head s = Some c -> p c = false -> trim_start_matches p s = s.
Proof. destruct s as [|d s]; cbn; [done|]. intros [= ->] ->. done. Qed.

Lemma plain_line_trim l : plain_line l -> trim l = l.
Proof.
  intros (_ & (c & Hc & Hpc) & (d & Hd & Hpd)). apply plain_char_spec in Hpc as [Hc' _]. apply plain_char_spec in Hpd as [Hd' _].
  unfold trim, trim_end_matches. rewrite (trim_start_id is_whitespace c l) by done.
  rewrite (trim_start_id is_whitespace d (reverse l)); [by rewrite reverse_involutive|by rewrite head_reverse|done].
Qed.

Lemma plain_line_ok l : plain_line l -> block_ok (Plain (Bare l)) /\ block_texts (Plain (Bare l)) = [l].
Proof.
  intros Hl. cbn [block_ok block_texts line_written]. unfold no_parens, line_text. rewrite plain_line_trim by done.
  split; [split_and!; [left| |]; by apply plain_line_not_elem|].
  case_bool_decide as Hn; [|done]. destruct Hl as (_ & (c & Hc & _) & _). by rewrite Hn in Hc.
Qed.

Lemma plain_lines_preprocess ls : Forall plain_line ls -> preprocess_lines ls = ls.
Proof.
  intros Hls. unfold preprocess_lines.
  assert (ls = flat_map block_lines ((fun l => Plain (Bare l)) <$> ls) /\
          ls = flat_map block_texts ((fun l => Plain (Bare l)) <$> ls) /\
          Forall block_ok ((fun l => Plain (Bare l)) <$> ls)) as (E1 & E2 & E3).
  { induction Hls as [|l ls Hl _ (IH1 & IH2 & IH3)]; [done|]. destruct (plain_line_ok l Hl) as [Hok Ht].
    cbn [fmap list_fmap flat_map]. rewrite Ht. split_and!; [|by rewrite <- IH2|by constructor].
    cbn. by rewrite <- IH1. }
  rewrite E1 at 1. rewrite preprocess_blocks by done. cbn [app]. by rewrite <- E2.
Qed.

Lemma lines_from_app l : forall cur s,
  c_newline ∉ l -> lines_from cur (l ++ s) = lines_from (cur ++ l) s.
Proof.
  induction l as [|c l IH]; intros cur s Hl; cbn [app]; [by rewrite app_nil_r|].
  rewrite elem_of_cons in Hl. cbn [lines_from]. destruct (Z.eqb_spec c c_newline) as [->|].
  - destruct Hl. by left.
  - rewrite IH by tauto. by rewrite <- app_assoc.
Qed.

Lemma lines_join ls : Forall plain_line ls -> lines (str_join [c_newline] ls) = ls.
Proof.
  unfold lines. induction ls as [|l ls IH]; intros Hls; [done|].
  apply Forall_cons in Hls as [Hl Hls]. pose proof (plain_line_not_elem l c_newline Hl) as Hn.
  destruct ls as [|l' ls].
  - cbn [str_join]. rewrite <- (app_nil_r l) at 1. rewrite lines_from_app by (by apply Hn). cbn.
    rewrite decide_False; [done|]. intros ->. by destruct Hl as (_ & (c & Hc & _) & _).
  - change (str_join [c_newline] (l :: l' :: ls)) with (l ++ c_newline :: str_join [c_newline] (l' :: ls)).
    rewrite lines_from_app by (by apply Hn). cbn [lines_from app]. rewrite Z.eqb_refl. f_equal.
    + unfold strip_return. destruct Hl as (_ & _ & (d & -> & Hpd)).
      destruct (Z.eqb_spec d c_return) as [->|]; [discriminate|done].
    + by apply IH.
Qed.

Section printed.
Context `{Hickory} `{!Codecs} `{!Spellings}.

(** A record to print: owner, TTL and data. *)
Abbreviation entry := (Name * Z * RData.t)%type (only parsing).

Definition entry_ok (e : entry) : Prop :=
  let '(n, ttl, d) := e in
  printable n /\ in_u 32 ttl /\ spelled d.

Definition entry_record (e : entry) : DnsRecord := let '(n, ttl, d) := e in record_from_rdata n ttl d.

(** The text of a zone file with one record per line. *)
Definition show_zone_file (es : list entry) : option str :=
  str_join [c_newline] <$> mapM (fun '(n, ttl, d) => show_record n ttl d) es.

Lemma show_record_plain n ttl d line :
  entry_ok (n, ttl, d) -> show_record n ttl d = Some line -> plain_line line.
Proof.
  intros (Hn & Httl & Hok) Hl. unfold show_record in Hl. apply fmap_Some in Hl as (ws & Hws & ->).
  apply join_plain_line. constructor; [apply Hn|]. constructor; [apply show_num_word; unfold in_u in Httl; lia|].
  constructor; [apply lit_word; [done|by vm_compute]|]. by eapply show_rdata_words.
Qed.

Lemma read_shown_line rs ttl0 cur i e line :
  entry_ok e -> (let '(n, ttl, d) := e in show_record n ttl d) = Some line ->
  read_line (rs, ttl0, cur) (i, line) = Ok (rs ++ [entry_record e], ttl0, cur).
Proof.
  destruct e as [[n ttl] d]. intros He Hl. pose proof (show_record_plain n ttl d line He Hl) as Hp.
  destruct He as (Hn & Httl & Hok). unfold read_line. rewrite plain_line_trim by done.
  destruct Hp as (_ & (c & Hc & Hpc) & _). apply plain_char_spec in Hpc as (_ & _ & _ & Hs & Hd).
  rewrite bool_decide_eq_false_2 by (by intros ->). unfold starts_with_char.
  rewrite !bool_decide_eq_false_2 by congruence. cbn [orb].
  by rewrite (parse_show_record n ttl d line cur ttl0 i Hn Httl Hok Hl).
Qed.

Lemma read_shown_lines es : forall lines f rs ttl0 cur,
  Forall entry_ok es -> mapM (fun '(n, ttl, d) => show_record n ttl d) es = Some lines ->
  for_each read_line (imap (fun i l => (f i, l)) lines) (rs, ttl0, cur) =
  Ok (rs ++ map entry_record es, ttl0, cur).
Proof.
  induction es as [|e es IH]; intros lines f rs ttl0 cur Hes Hl.
  - injection Hl as <-. cbn. by rewrite app_nil_r.
  - apply Forall_cons in Hes as [He Hes]. cbn [mapM] in Hl.
    apply bind_Some in Hl as (line & Hline & Hl). apply bind_Some in Hl as (lines' & Hlines & Hl).
    injection Hl as <-. cbn [imap for_each]. rewrite (read_shown_line _ _ _ _ e) by done.
    cbn [mbind outcome_bind]. rewrite (IH lines' (f ∘ S)) by done. by rewrite <- app_assoc.
Qed.

Lemma read_shown_file es text origin_name origin :
  Forall entry_ok es -> show_zone_file es = Some text -> name_from_str origin_name = Some origin ->
  read_records (Some text) origin_name = Ok (origin, map entry_record es).
Proof.
  intros Hes Ht Ho. unfold show_zone_file in Ht. apply fmap_Some in Ht as (ls & Hls & ->).
  assert (Forall plain_line ls) as Hp.
  { clear -Hes Hls. revert ls Hls. induction Hes as [|[[n ttl] d] es He _ IH]; intros ls Hls.
    - by injection Hls as <-.
    - cbn [mapM] in Hls. apply bind_Some in Hls as (l & Hl & Hls). apply bind_Some in Hls as (ls' & Hls' & Hls).
      injection Hls as <-. constructor; [by eapply show_record_plain|by apply IH]. }
  unfold read_records. cbn [of_option with_context mbind outcome_bind]. rewrite Ho.
  cbn [of_option with_context mbind outcome_bind]. unfold preprocess_zone_content.
  rewrite lines_join, plain_lines_preprocess by done.
  change (imap pair ls) with (imap (fun i l => (id i, l)) ls).
  by rewrite (read_shown_lines es ls id [] 3600 origin Hes Hls).
Qed.
End printed.

(** * Properties *)

Section properties.
Context `{Hickory} `{!Codecs}.

Lemma parse_zone_file_reads content origin_name :
  parse_zone_file content origin_name =
  '(origin, rs) ← read_records content origin_name;
  match build_zone origin rs with
  | Some z => Ok z
  | None => Err (EMsg "Zone file must contain an SOA record")
  end.
Proof.
  unfold parse_zone_file, read_records.
  destruct (with_context _ _ (of_option content)) as [text| |]; cbn [mbind outcome_bind]; [|done|done].
  destruct (with_context _ _ (of_option (name_from_str origin_name))) as [origin| |]; cbn [mbind outcome_bind]; [|done|done].
  rewrite (parse_lines_read origin _ [] 3600 origin).
  destruct (for_each read_line _ _) as [[[rs ttl] cur]| |]; cbn -[store_record build_zone]; [|done|done].
  by rewrite store_records.
Qed.

Lemma parse_zone_file_safe content origin_name : parse_zone_file content origin_name ≠ Panic.
Proof.
  unfold parse_zone_file. apply bind_no_panic; [apply with_context_no_panic, of_option_panic|].
  intros text _. apply bind_no_panic; [apply with_context_no_panic, of_option_panic|].
  intros origin _. apply bind_no_panic; [|by intros [[[z|] ttl] cur] _].
  apply for_each_no_panic. intros. apply parse_line_no_panic.
Qed.

(** C20 (safety): parsing a zone file never panics: whatever the text, the origin and the behaviour of
    the crates, every index and slice of the parser is in range. *)
Theorem parse_zone_file_no_panic (content : option str) (origin_name : str) :
  parse_zone_file content origin_name ≠ Panic.
Proof. apply parse_zone_file_safe. Qed.

(** C5 (refinement): the parser is a reader of records followed by a builder of zones.  The zone is
    the list of the records from the first SOA record on, filed one by one: its SOA data come from
    that record, the records before it are dropped, and a file without SOA record is an error.  The
    zone meets the zone invariant. *)
Theorem parse_zone_file_refines_reader (content : option str) (origin_name : str) :
  parse_zone_file content origin_name =
    ('(origin, rs) ← read_records content origin_name;
     match build_zone origin rs with
     | Some z => Ok z
     | None => Err (EMsg "Zone file must contain an SOA record")
     end) /\
  (forall z, parse_zone_file content origin_name = Ok z -> zone_wf z).
Proof.
  split; [apply parse_zone_file_reads|]. intros z. rewrite parse_zone_file_reads.
  intros ([origin rs] & _ & Hz)%bind_ok. destruct (build_zone origin rs) as [z'|] eqn:E; [|done].
  injection Hz as <-. by eapply build_zone_wf.
Qed.

(** C30 (bounds): what an accepted record line means.  Its owner is what the first word stands for
    (the origin for an at sign, the word itself when it ends with a dot, a name under the origin
    otherwise, wildcards included), its TTL the optional second word or the default, its data of the
    type the type word names, and every number of the data fits its width. *)
Theorem record_line_meaning `{!RecordLaws} (line : str) (origin : Name) (default_ttl : Z)
    (line_num : nat) (r : DnsRecord) :
  parse_resource_record line origin default_ttl line_num = Ok (Some r) ->
  in_u 32 default_ttl ->
  exists w ws d rtype, split_whitespace line = w :: ws /\
    resolve_owner w origin = Some (record_name r) /\
    record_ttl r = line_ttl default_ttl ws /\ in_u 32 (record_ttl r) /\
    record_data r = Some d /\ line_type ws = Some rtype /\ type_word d = Some rtype /\
    record_record_type r = rdata_record_type d /\ rdata_ok d.
Proof.
  intros Hr Httl. apply parse_resource_record_says in Hr as (w & ws & d & rtype & Hw & Ho & Ht & Hd & Hl & Hty & Hok & Hrt).
  exists w, ws, d, rtype. split_and!; try done. rewrite Ht. destruct ws as [|w1 ws]; [done|]. cbn.
  destruct (parse_unsigned 32 w1) eqn:E; [by apply parse_unsigned_range in E|done].
Qed.

(** C31 (functional): comments are cut, blank lines are dropped, and the lines of a record in
    parentheses are joined with spaces into one, without the parentheses; lines outside parentheses
    stay as they are but for their comments and the space around them.  A comment is what begins with
    the first semicolon of a line, if no quotes are open before it; a line whose first semicolon is in
    quotes is kept whole ([line_written]; every line is of one of the two kinds, [line_reads]). *)
Theorem preprocess_joins_blocks (blocks : list Block) :
  Forall block_ok blocks ->
  preprocess_lines (flat_map block_lines blocks) = flat_map block_texts blocks.
Proof. intros Hb. unfold preprocess_lines. by rewrite preprocess_blocks. Qed.

(** C4 (roundtrip): printing the records of a zone, one per line with their absolute names, and
    parsing the text gives back the zone of exactly those records, of all seventeen record types, the
    SOA record first.  The data must be spelled with what a zone file can hold: numbers within their
    widths, names and codes that read back from their text, text with single spaces between words. *)
Theorem zone_file_roundtrip `{!RecordLaws} `{!Spellings} (origin_name : str) (origin owner : Name) (ttl : Z)
    (m r : Name) (s f t e n : Z) (es : list (Name * Z * RData.t)) (text : str) :
  let soa := RData.SOA m r s f t e n in
  Forall entry_ok ((owner, ttl, soa) :: es) ->
  name_from_str origin_name = Some origin ->
  show_zone_file ((owner, ttl, soa) :: es) = Some text ->
  parse_zone_file (Some text) origin_name =
  Ok (zone_of_list origin
        {| mname := m; rname := r; serial := s; refresh := f; retry := t; expire := e; minimum := n |}
        (map entry_record ((owner, ttl, soa) :: es))).
Proof.
  intros soa Hes Ho Ht. subst soa. rewrite parse_zone_file_reads, (read_shown_file _ _ _ _ Hes Ht Ho).
  cbn [mbind outcome_bind map build_zone]. unfold soa_of, extract_soa_data. cbn [entry_record].
  rewrite record_type_from, rdata_type_soa, bool_decide_eq_true_2 by done.
  by rewrite record_data_from.
Qed.
End properties.

(** * Witnesses *)

Import Concrete.

Definition test_record : DnsRecord :=
  record_from_rdata (nm "www.example.com.") 600 (a_rdata 10 0 0 1).

Lemma record_line_meaning_witness :
  exists w ws d rtype, split_whitespace (lit "www 600 IN A 10.0.0.1") = w :: ws /\
    resolve_owner w (nm "example.com.") = Some (record_name test_record) /\
    record_ttl test_record = line_ttl 3600 ws /\ in_u 32 (record_ttl test_record) /\
    record_data test_record = Some d /\ line_type ws = Some rtype /\ type_word d = Some rtype /\
    record_record_type test_record = rdata_record_type d /\ rdata_ok d.
Proof.
  apply (record_line_meaning (lit "www 600 IN A 10.0.0.1") (nm "example.com.") 3600 0 test_record).
  - vm_compute. reflexivity.
  - vm_compute. split; [discriminate|reflexivity].
Defined.

(** A record in parentheses over three lines, with comments, between two plain lines. *)
Definition test_blocks : list Block :=
  [Plain (Commented (lit "$TTL 300 ") (lit " default; the rest"));
   Group (Commented (lit "@ IN SOA ns1 admin ( 1 7200 ") (lit " serial, refresh")) [Bare (lit "  3600 1209600")]
     (Bare (lit " 60 )"));
   Plain (Commented (lit "  ") (lit " nothing")); Plain (Bare (lit "www 600 IN A 10.0.0.1"));
   Plain (Bare (lit "t 600 IN TXT " ++ [c_quote] ++ lit "a;b" ++ [c_quote] ++ lit " ; c"))].

(** Closes the conditions of a written line. *)
Ltac written_line :=
  repeat match goal with
    | |- _ /\ _ => split
    | |- Forall _ [] => apply List.Forall_nil
    | |- Forall _ (_ :: _) => apply List.Forall_cons
    | |- no_parens _ => split
    | |- line_written _ => cbn [line_written]
    | |- _ \/ _ => left
    | |- _ => first [apply (bool_decide_unpack _); vm_compute; exact I | vm_compute; reflexivity]
    end.

Lemma test_blocks_ok : Forall block_ok test_blocks.
Proof.
  apply Forall_app with (l1 := take 4 test_blocks) (l2 := drop 4 test_blocks). split; cbn [take drop test_blocks].
  - repeat (apply List.Forall_cons; [cbn [block_ok]; written_line|]). apply List.Forall_nil.
  - apply List.Forall_cons; [|apply List.Forall_nil]. split; [right|written_line].
    exists (lit "t 600 IN TXT " ++ [c_quote] ++ lit "a"), (lit "b" ++ [c_quote] ++ lit " ; c").
    split; [by vm_compute|written_line].
Qed.

Lemma preprocess_joins_blocks_witness :
  preprocess_lines (flat_map block_lines test_blocks) = flat_map block_texts test_blocks.
Proof. apply preprocess_joins_blocks. exact test_blocks_ok. Defined.

Example test_blocks_texts :
  flat_map block_texts test_blocks =
  [lit "$TTL 300"; lit "@ IN SOA ns1 admin  1 7200 3600 1209600 60"; lit "www 600 IN A 10.0.0.1";
   lit "t 600 IN TXT " ++ [c_quote] ++ lit "a;b" ++ [c_quote] ++ lit " ; c"].
Proof. by vm_compute. Qed.

(** Both parentheses on one line: the closing one stays in the text, and the lines up to the next
    closing one are joined to it. *)
Example one_line_parentheses :
  preprocess_lines [lit "@ IN SOA ns1 admin ( 1 7200 3600 1209600 60 )"; lit "www IN A 10.0.0.1"] =
  [lit "@ IN SOA ns1 admin  1 7200 3600 1209600 60 ) www IN A 10.0.0.1"].
Proof. by vm_compute. Qed.

(** A line of three words is no record, and no error. *)
Example short_line_ignored :
  parse_resource_record (lit "www A 10.0.0.1") (nm "example.com.") 3600 0 = Ok None.
Proof. by vm_compute. Qed.

(** The names of codes and encodings in the concrete instance. *)
Definition c_hex_encode (bs : list Z) : str := flat_map (fun b => [hex_char (b / 16); hex_char (b mod 16)]) bs.

Definition base64_char (z : Z) : char :=
  if z <? 26 then z + 65 else if z <? 52 then z + 71 else if z <? 62 then z - 4
  else if z =? 62 then 43 else 47.

Fixpoint c_base64_encode (bs : list Z) : str :=
  match bs with
  | [] => []
  | [x] => [base64_char (x / 4); base64_char (x mod 4 * 16); 61; 61]
  | [x; y] => [base64_char (x / 4); base64_char (x mod 4 * 16 + y / 16); base64_char (y mod 16 * 4); 61]
  | x :: y :: z :: bs =>
      [base64_char (x / 4); base64_char (x mod 4 * 16 + y / 16); base64_char (y mod 16 * 4 + z / 64);
       base64_char (z mod 64)] ++ c_base64_encode bs
  end.

#[local] Instance c_spellings : Spellings := {
  hex_encode := c_hex_encode;
  base64_encode := c_base64_encode;
  record_type_name := c_rtype_debug;
  algorithm_code z := z;
  digest_type_code t :=
    match t with DigestType.SHA256 => 2 | DigestType.SHA384 => 4 | DigestType.SHA512 => 5 | DigestType.Other z => z end;
  cert_usage_code z := z;
  selector_code z := z;
  matching_code z := z;
  sshfp_algorithm_code z := z;
  fingerprint_type_code z := z
}.

(** A record of every type but SOA. *)
Definition test_entries : list (Name * Z * RData.t) :=
  let www := nm "www.example.com." in
  let mail := nm "mail.example.com." in
  [(www, 600, a_rdata 10 0 0 1);
   (www, 600, RData.AAAA [8193; 3512; 0; 0; 0; 0; 0; 1]);
   (nm "example.com.", 600, RData.NS mail);
   (nm "web.example.com.", 0, RData.CNAME www);
   (nm "example.com.", 600, RData.MX 10 mail);
   (nm "example.com.", 600, RData.TXT [lit "v=spf1 -all"]);
   (nm "example.com.", 600, RData.TXT [[]]);
   (nm "ptr.example.com.", 600, RData.PTR www);
   (nm "sip.example.com.", 600, RData.SRV 1 2 5060 www);
   (nm "example.com.", 600, RData.CAA_issue true (Some mail));
   (nm "example.com.", 600, RData.CAA_issue false None);
   (nm "example.com.", 600, RData.DNSSEC (DNSSECRData.DNSKEY true true false 8 [1; 2; 3; 255]));
   (www, 600, RData.DNSSEC (DNSSECRData.SIG RecordType.A 8 3 600 1900000000 1800000000 12345 mail [9; 8; 7; 6; 5]));
   (www, 600, RData.DNSSEC (DNSSECRData.NSEC mail [RecordType.A; RecordType.AAAA]));
   (nm "sub.example.com.", 600, RData.DNSSEC (DNSSECRData.DS 12345 8 DigestType.SHA256 [171; 205; 1]));
   (nm "example.com.", 600, RData.NAPTR 100 10 (lit "U") (lit "E2U+sip") (lit "!^.*!sip:info@example.com!") www);
   (www, 600, RData.TLSA 3 1 1 [222; 173]);
   (www, 600, RData.SSHFP 4 2 [190; 239])].

Definition test_soa : RData.t :=
  RData.SOA (nm "ns1.example.com.") (nm "admin.example.com.") 2024 7200 3600 1209600 60.

Definition test_text : str := default [] (show_zone_file ((nm "example.com.", 300, test_soa) :: test_entries)).

Definition is_word_b (w : str) : bool := negb (bool_decide (w = [])) && forallb plain_char w.

Lemma plain_forall s : forallb plain_char s = true -> Forall (fun c => plain_char c = true) s.
Proof. intros Hf. rewrite forallb_forall in Hf. apply Forall_forall. intros c Hc. by apply Hf, list_elem_of_In. Qed.

Lemma is_word_test w : is_word_b w = true -> is_word w.
Proof. intros [Hne Hf]%andb_true_iff. apply negb_true_iff, bool_decide_eq_false in Hne. split; [done|by apply plain_forall]. Qed.

Lemma words_test ws : forallb is_word_b ws = true -> Forall is_word ws.
Proof. intros Hf. rewrite forallb_forall in Hf. apply Forall_forall. intros w Hw. by apply is_word_test, Hf, list_elem_of_In. Qed.

Lemma flags_test s : forallb (fun c => (c <? 128) && plain_char c) s = true ->
  Forall (fun c => c < 128 /\ plain_char c = true) s.
Proof.
  intros Hf. rewrite forallb_forall in Hf. apply Forall_forall. intros c Hc.
  apply list_elem_of_In, Hf, andb_true_iff in Hc as [Hc%Z.ltb_lt ?]. done.
Qed.

Lemma printable_test n :
  is_word_b (name_to_string n) && ends_with_char c_dot (name_to_string n)
  && bool_decide (name_from_str (name_to_string n) = Some n) = true -> printable n.
Proof.
  intros [[Hw%is_word_test Hd]%andb_true_iff Hn%bool_decide_eq_true]%andb_true_iff. by split_and!.
Qed.

(** Decides the conditions on a concrete entry. *)
Ltac check_entry :=
  lazymatch goal with
  | |- printable _ => apply printable_test; vm_compute; reflexivity
  | |- is_word _ => apply is_word_test; vm_compute; reflexivity
  | |- Forall is_word _ => apply words_test; vm_compute; reflexivity
  | |- Forall (fun c => c < 128 /\ _) _ => apply flags_test; vm_compute; reflexivity
  | |- Forall _ (_ :: _) => apply List.Forall_cons; check_entry
  | |- Forall _ [] => apply List.Forall_nil
  | |- in_u _ _ => split; [vm_compute; discriminate|vm_compute; reflexivity]
  | |- in_i32 _ => split; [vm_compute; discriminate|vm_compute; reflexivity]
  | |- _ /\ _ => split; check_entry
  | |- entry_ok _ => unfold entry_ok, a_rdata; check_entry
  | |- spelled _ => cbn [spelled]; check_entry
  | |- unquoted _ => split; vm_compute; discriminate
  | |- ?P => let P' := eval unfold ipv4_ok, ipv6_ok, code_ok, bytes_ok, type_ok, text_ok, flags_ok in P in
             lazymatch P' with
             | _ /\ _ => change P'; check_entry
             | _ => vm_compute; first [reflexivity | discriminate | exact I]
             end
  end.

Lemma test_entries_ok : Forall entry_ok ((nm "example.com.", 300, test_soa) :: test_entries).
Proof. unfold test_entries, test_soa. cbv zeta. check_entry. Qed.

Lemma zone_file_roundtrip_witness :
  parse_zone_file (Some test_text) (lit "example.com") =
  Ok (zone_of_list (default name_root (name_from_str (lit "example.com")))
        {| mname := nm "ns1.example.com."; rname := nm "admin.example.com."; serial := 2024;
           refresh := 7200; retry := 3600; expire := 1209600; minimum := 60 |}
        (map entry_record ((nm "example.com.", 300, test_soa) :: test_entries))).
Proof.
  refine (zone_file_roundtrip (lit "example.com") _ (nm "example.com.") 300 (nm "ns1.example.com.")
            (nm "admin.example.com.") 2024 7200 3600 1209600 60 test_entries test_text test_entries_ok _ _);
    vm_compute; reflexivity.
Defined.
