(* ===== verification/Config.v ===== *)
(** [src/src/config.rs]: the configuration and its validation.  Reading YAML is serde's work: [from_file]
    takes the results of reading and of parsing. *)
From S2P Require Import Prelude RustStr.
Open Scope Z_scope.

(** [DnssecConfig] of the configuration file *)
Record DnssecConfig := {
  validate_signatures : bool;
  require_dnssec : bool;
  auto_include_dnssec : bool
}.

(** [TcpConfig] *)
Record TcpConfig := {
  idle_timeout : Z;
  max_queries_per_connection : Z
}.

(** [ZoneConfig]; a path is its text. *)
Record ZoneConfig := {
  name : str;
  file : str
}.

(** [ServerConfig] *)
Record ServerConfig := {
  listen : str;
  workers : Z;
  log_level : str;
  rate_limit : option Z;
  api_listen : option str;
  dnssec : option DnssecConfig;
  tcp : option TcpConfig
}.

(** [Config] *)
Record Config := {
  server : ServerConfig;
  zone_configs : list ZoneConfig
}.

(** The defaults of missing fields. *)
Definition default_listen : str := lit "0.0.0.0:53".
Definition default_auto_include_dnssec : bool := true.
Definition default_workers : Z := 4.
Definition default_log_level : str := lit "info".
Definition default_tcp_idle_timeout : Z := 30.
Definition default_tcp_max_queries : Z := 100.

(** [Config::from_file]: [content] is the text of the file, if it can be read; [from_str] is serde_yaml. *)
Definition from_file (content : option str) (from_str : str -> option Config) : outcome Config :=
  content ← with_context "Failed to read configuration file" [] (of_option content);
  config ← with_context "Failed to parse YAML configuration" [] (of_option (from_str content));
  Ok config.

(** [Config::validate]; [exists_file] is [Path::exists]. *)
Definition validate (exists_file : str -> bool) (config : Config) : outcome unit :=
  if bool_decide (zone_configs config = []) then Err (EMsg "At least one zone must be configured")
  else
    for_each
      (fun (_ : unit) zone =>
         if bool_decide (name zone = []) then Err (EMsg "Zone name cannot be empty")
         else if negb (exists_file (file zone)) then Err (EMsg "Zone file does not exist")
         else Ok tt)
      (zone_configs config) tt.
