(* ===== verification/ConfigSerde.v ===== *)
(** The derived [Deserialize] and [Serialize] of the structures of [src/src/config.rs], from their
    fields and [#\[serde(...)\]] attributes.  The format (YAML) is the class [Format]: serde's data
    model as far as the structures use it.  Requires [Config]. *)
From S2P Require Import Prelude RustStr Config.
Open Scope Z_scope.

(** What a format's deserializer and serializer do for the derived code: a document is a [node].  An
    error of the format is [None].  [de_struct fields] gives the entries of a mapping, in the order of
    the document, or, in formats that allow it, the fields of a sequence in the order of [fields]. *)
Class Format := {
  node : Type;
  from_text : str -> option node;
  de_string : node -> option str;
  de_bool : node -> option bool;
  de_unsigned (width : Z) : node -> option Z;
  de_option : node -> option node;
  de_seq : node -> option (list node);
  de_struct (fields : list str) : node -> option (list (str * node) + list node);
  ser_string : str -> node;
  ser_bool : bool -> node;
  ser_unsigned : Z -> node;
  ser_none : node;
  ser_some : node -> node;
  ser_seq : list node -> node;
  ser_struct : list (str * node) -> node
}.

(** What the round trip needs of a format: a value that is written is read back; [Some] of a value
    that is not itself optional is not read as [None]. *)
Class FormatLaws `(Format) := {
  de_ser_string s : de_string (ser_string s) = Some s;
  de_ser_bool b : de_bool (ser_bool b) = Some b;
  de_ser_unsigned w z : w <= 64 -> in_u w z -> de_unsigned w (ser_unsigned z) = Some z;
  de_ser_none : de_option ser_none = None;
  de_ser_some_string s : de_option (ser_some (ser_string s)) = Some (ser_string s);
  de_ser_some_unsigned z : in_u 64 z -> de_option (ser_some (ser_unsigned z)) = Some (ser_unsigned z);
  de_ser_some_struct l : de_option (ser_some (ser_struct l)) = Some (ser_struct l);
  de_ser_seq l : de_seq (ser_seq l) = Some l;
  de_ser_struct fields l : de_struct fields (ser_struct l) = Some (inl l)
}.

Section serde.
Context `{Format}.

(** * The visitor of a derived struct *)

(** The position of a field among the fields of the structure. *)
Fixpoint field_index (fields : list str) (key : str) : option nat :=
  match fields with
  | [] => None
  | f :: fields => if decide (f = key) then Some 0%nat else S <$> field_index fields key
  end.

(** [visit_map]: one slot per field.  A field that is given twice is an error, a key that is no field
    is ignored. *)
Definition visit_map (fields : list str) (entries : list (str * node)) : option (list (option node)) :=
  foldl
    (fun slots entry =>
       slots ← slots;
       match field_index fields entry.1 with
       | None => Some slots
       | Some i =>
           match slots !! i with
           | Some None => Some (<[i := Some entry.2]> slots)
           | _ => None
           end
       end)
    (Some (replicate (length fields) None)) entries.

(** [visit_seq]: the fields in order; those after the end are missing. *)
Definition visit_seq (fields : list str) (elements : list node) : option (list (option node)) :=
  Some (imap (fun i _ => elements !! i) fields).

(** [deserialize_struct] with the derived visitor. *)
Definition slots (fields : list str) (n : node) : option (list (option node)) :=
  document ← de_struct fields n;
  match document with
  | inl entries => visit_map fields entries
  | inr elements => visit_seq fields elements
  end.

(** A field without attribute, and one with [#\[serde(default = ...)\]]. *)
Definition required {A} (decode : node -> option A) (slot : option node) : option A :=
  slot ≫= decode.
Definition default_to {A} (default : A) (decode : node -> option A) (slot : option node) : option A :=
  match slot with None => Some default | Some n => decode n end.

(** [Option<T>] and [Vec<T>] *)
Definition de_option_of {A} (decode : node -> option A) (n : node) : option (option A) :=
  match de_option n with None => Some None | Some n => Some <$> decode n end.
Definition de_vec_of {A} (decode : node -> option A) (n : node) : option (list A) :=
  de_seq n ≫= mapM decode.

(** [Option] fields with [#\[serde(default)\]]: [None] when they are missing. *)
Definition optional {A} (decode : node -> option A) : option node -> option (option A) :=
  default_to None (de_option_of decode).

(** * The structures *)

Definition TcpConfig_fields : list str := [lit "idle_timeout"; lit "max_queries_per_connection"].
Definition de_TcpConfig (n : node) : option TcpConfig :=
  slots ← slots TcpConfig_fields n;
  match slots with
  | [t; m] =>
      t ← default_to default_tcp_idle_timeout (de_unsigned 64) t;
      m ← default_to default_tcp_max_queries (de_unsigned 64) m;
      Some {| idle_timeout := t; max_queries_per_connection := m |}
  | _ => None
  end.

Definition DnssecConfig_fields : list str :=
  [lit "validate_signatures"; lit "require_dnssec"; lit "auto_include_dnssec"].
Definition de_DnssecConfig (n : node) : option DnssecConfig :=
  slots ← slots DnssecConfig_fields n;
  match slots with
  | [v; r; a] =>
      v ← default_to false de_bool v;
      r ← default_to false de_bool r;
      a ← default_to default_auto_include_dnssec de_bool a;
      Some {| validate_signatures := v; require_dnssec := r; auto_include_dnssec := a |}
  | _ => None
  end.

Definition ZoneConfig_fields : list str := [lit "name"; lit "file"].
Definition de_ZoneConfig (n : node) : option ZoneConfig :=
  slots ← slots ZoneConfig_fields n;
  match slots with
  | [n; f] =>
      n ← required de_string n;
      f ← required de_string f;
      Some {| name := n; file := f |}
  | _ => None
  end.

Definition ServerConfig_fields : list str :=
  [lit "listen"; lit "workers"; lit "log_level"; lit "rate_limit"; lit "api_listen"; lit "dnssec";
   lit "tcp"].
Definition de_ServerConfig (n : node) : option ServerConfig :=
  slots ← slots ServerConfig_fields n;
  match slots with
  | [l; w; g; r; a; d; t] =>
      l ← default_to default_listen de_string l;
      w ← default_to default_workers (de_unsigned 64) w;
      g ← default_to default_log_level de_string g;
      r ← optional (de_unsigned 32) r;
      a ← optional de_string a;
      d ← optional de_DnssecConfig d;
      t ← optional de_TcpConfig t;
      Some {| listen := l; workers := w; log_level := g; rate_limit := r; api_listen := a;
              dnssec := d; tcp := t |}
  | _ => None
  end.

Definition Config_fields : list str := [lit "server"; lit "zones"].
Definition de_Config (n : node) : option Config :=
  slots ← slots Config_fields n;
  match slots with
  | [s; z] =>
      s ← required de_ServerConfig s;
      z ← required (de_vec_of de_ZoneConfig) z;
      Some {| server := s; zone_configs := z |}
  | _ => None
  end.

(** [serde_yaml::from_str::<Config>] *)
Definition config_from_str (text : str) : option Config := from_text text ≫= de_Config.

(** * Serialization: every field, in the order of the declaration *)

Definition ser_option {A} (encode : A -> node) (o : option A) : node :=
  match o with None => ser_none | Some a => ser_some (encode a) end.

Definition ser_fields (fields : list str) (values : list node) : node :=
  ser_struct (zip fields values).

Definition ser_TcpConfig (c : TcpConfig) : node :=
  ser_fields TcpConfig_fields
    [ser_unsigned (idle_timeout c); ser_unsigned (max_queries_per_connection c)].
Definition ser_DnssecConfig (c : DnssecConfig) : node :=
  ser_fields DnssecConfig_fields
    [ser_bool (validate_signatures c); ser_bool (require_dnssec c); ser_bool (auto_include_dnssec c)].
Definition ser_ZoneConfig (c : ZoneConfig) : node :=
  ser_fields ZoneConfig_fields [ser_string (name c); ser_string (file c)].
Definition ser_ServerConfig (c : ServerConfig) : node :=
  ser_fields ServerConfig_fields
    [ser_string (listen c); ser_unsigned (workers c); ser_string (log_level c);
     ser_option ser_unsigned (rate_limit c); ser_option ser_string (api_listen c);
     ser_option ser_DnssecConfig (dnssec c); ser_option ser_TcpConfig (tcp c)].
Definition ser_Config (c : Config) : node :=
  ser_fields Config_fields
    [ser_ServerConfig (server c); ser_seq (ser_ZoneConfig <$> zone_configs c)].
End serde.
