(* ===== verification/YamlModel.v ===== *)
(** A reader of a part of YAML, enough for the documents in the tests of [src/src/config.rs]: block
    mappings and sequences by indentation, empty flow collections, scalars in double quotes without
    escapes and plain scalars.  It is an instance of [Format] with proofs of [FormatLaws], for the
    witnesses and the computed tests; it is not a model of serde_yaml.  Requires [ConfigSerde]. *)
From S2P Require Import Prelude RustStr ZonePrint Config ConfigSerde.
Open Scope Z_scope.

(** A value: a scalar is its text and whether it is plain (not quoted). *)
Inductive Yaml :=
  | Scalar (plain : bool) (text : str)
  | Sequence (elements : list Yaml)
  | Mapping (entries : list (str * Yaml)).

(** ** Reading text *)

(** A line as its indentation and its content. *)
Definition indented (line : str) : nat * str :=
  let content := trim_start_matches (Z.eqb c_space) line in
  ((length line - length content)%nat, trim content).

Definition content_lines (text : str) : list (nat * str) :=
  filter (fun l => l.2 ≠ []) (indented <$> lines text).

(** Whether a plain scalar may have this text: no indicator at its start, no key inside. *)
Definition plain_text (s : str) : bool :=
  match s with
  | [] => true
  | c :: _ =>
      negb (bool_decide (c ∈ lit "{}[],&*#?|>@%!'`")) && negb (c =? c_quote)
      && negb (existsb (fun i => starts_with (lit ": ") (drop i s)) (seq 0 (length s)))
      && negb (ends_with_char c_colon s)
  end.

(** A value that stands on one line. *)
Definition read_inline (s : str) : option Yaml :=
  if decide (s = lit "[]") then Some (Sequence [])
  else if decide (s = lit "{}") then Some (Mapping [])
  else if (2 <=? length s)%nat && starts_with_char c_quote s && ends_with_char c_quote s
          && (count_char c_quote s =? 2)%nat
       then Some (Scalar false (remove_char c_quote s))
  else if plain_text s then Some (Scalar true s) else None.

(** [key: rest] *)
Definition split_key (s : str) : option (str * str) :=
  match find_char c_colon s with
  | Some i =>
      let rest := drop (S i) s in
      if decide (rest = []) then Some (take i s, [])
      else if starts_with_char c_space rest then Some (take i s, trim rest) else None
  | None => None
  end.

(** [- rest] *)
Definition split_dash (s : str) : option str :=
  if starts_with (lit "- ") s then Some (drop 2 s) else None.

(** The block of the lines with indentation [ind]: its value and the lines after it. *)
Fixpoint read_block (fuel : nat) (ind : nat) (ls : list (nat * str)) : option (Yaml * list (nat * str)) :=
  match fuel, ls with
  | S fuel, (i, s) :: rest =>
      if negb (i =? ind)%nat then None else
      match split_dash s with
      | Some first =>
          v ← read_block fuel (ind + 2) ((ind + 2, first)%nat :: rest);
          match v.2 with
          | (j, s') :: _ =>
              if (j =? ind)%nat && bool_decide (is_Some (split_dash s')) then
                more ← read_block fuel ind v.2;
                match more.1 with
                | Sequence vs => Some (Sequence (v.1 :: vs), more.2)
                | _ => None
                end
              else Some (Sequence [v.1], v.2)
          | [] => Some (Sequence [v.1], [])
          end
      | None =>
          match split_key s with
          | None => v ← read_inline s; Some (v, rest)
          | Some (key, inline) =>
              v ← (if decide (inline = []) then
                     match rest with
                     | (j, _) :: _ =>
                         if (ind <? j)%nat then read_block fuel j rest else Some (Scalar true [], rest)
                     | [] => Some (Scalar true [], [])
                     end
                   else v ← read_inline inline; Some (v, rest));
              match v.2 with
              | (j, s') :: _ =>
                  if (j =? ind)%nat then
                    more ← read_block fuel ind v.2;
                    match more.1 with
                    | Mapping es => Some (Mapping ((key, v.1) :: es), more.2)
                    | _ => None
                    end
                  else Some (Mapping [(key, v.1)], v.2)
              | [] => Some (Mapping [(key, v.1)], [])
              end
          end
      end
  | _, _ => None
  end.

(** Each line is read at most twice: as the line of a sequence and as the mapping behind the dash. *)
Definition read_yaml (text : str) : option Yaml :=
  let ls := content_lines text in
  match ls with
  | [] => Some (Scalar true [])
  | (i, _) :: _ =>
      match read_block (2 * length ls) i ls with
      | Some (v, []) => Some v
      | _ => None
      end
  end.

(** ** The instance *)

Definition is_null (v : Yaml) : bool :=
  match v with
  | Scalar true s => bool_decide (s ∈ [[]; lit "~"; lit "null"])
  | _ => false
  end.

Definition yaml_bool (v : Yaml) : option bool :=
  match v with
  | Scalar true s =>
      if decide (s = lit "true") then Some true
      else if decide (s = lit "false") then Some false else None
  | _ => None
  end.

#[export] Instance yaml_format : Format := {
  node := Yaml;
  from_text := read_yaml;
  de_string v := match v with Scalar _ s => Some s | _ => None end;
  de_bool := yaml_bool;
  de_unsigned w v := match v with Scalar true s => parse_unsigned w s | _ => None end;
  de_option v := if is_null v then None else Some v;
  de_seq v := match v with Sequence l => Some l | _ => None end;
  de_struct _ v := match v with Mapping l => Some (inl l) | _ => None end;
  ser_string := Scalar false;
  ser_bool b := Scalar true (lit (if b then "true" else "false"));
  ser_unsigned z := Scalar true (show_digits 20 z);
  ser_none := Scalar true (lit "null");
  ser_some v := v;
  ser_seq := Sequence;
  ser_struct := Mapping
}.

(** Twenty digits are enough for 64 bits. *)
#[export] Instance yaml_laws : FormatLaws yaml_format.
Proof.
  split; cbn -[show_digits]; try done.
  - by intros [].
  - intros w z Hw. apply (parse_show_digits 19).
    assert (2 ^ w <= 2 ^ 64) by (apply Z.pow_le_mono_r; lia). cbn in *. lia.
  - intros z Hz. destruct (show_digits_cons 19 z) as (c & s & -> & Hc); [unfold in_u in Hz; lia|].
    rewrite bool_decide_eq_false_2; [done|]. unfold is_digit in Hc.
    rewrite !elem_of_cons, elem_of_nil. intros [|[|[|[]]]]; try done;
      match goal with H : _ = _ |- _ => injection H; intros; lia end.
Qed.
