(* ===== verification/ConfigProps.v ===== *)
(** What a configuration file means, and that a written configuration is read back: theorems on
    [ConfigSerde]. *)
From S2P Require Import Prelude RustStr ZonePrint Config ConfigSerde YamlModel.
Open Scope Z_scope.

(** * The visitor *)

Section config.
Context `{Format}.

(** The values a mapping gives for a key. *)
Definition values_of (key : str) (entries : list (str * node)) : list node :=
  (filter (fun e => e.1 = key) entries).*2.

Lemma values_of_app key l1 l2 : values_of key (l1 ++ l2) = values_of key l1 ++ values_of key l2.
Proof. unfold values_of. by rewrite filter_app, fmap_app. Qed.

Lemma values_of_cons key e l : values_of key (e :: l) = values_of key [e] ++ values_of key l.
Proof. apply (values_of_app key [e]). Qed.

Lemma values_of_one key k v : values_of key [(k, v)] = if decide (k = key) then [v] else [].
Proof. unfold values_of. rewrite filter_cons, filter_nil. cbn. by destruct (decide (k = key)). Qed.

Lemma values_of_none key l : (forall e, e ∈ l -> e.1 ≠ key) -> values_of key l = [].
Proof.
  induction l as [|[k v] l IH]; intros Hl; [done|]. rewrite values_of_cons, values_of_one.
  rewrite decide_False by (apply (Hl (k, v)); by left). cbn. apply IH. intros e He. apply Hl. by right.
Qed.

Lemma field_index_Some fields key i : NoDup fields ->
  field_index fields key = Some i <-> fields !! i = Some key.
Proof.
  intros Hnd. revert i. induction Hnd as [|f fields Hf _ IH]; intros i; cbn [field_index]; [done|].
  destruct (decide (f = key)) as [->|Hne].
  - destruct i as [|i]; cbn; [done|]. split; [done|]. intros Hi%list_elem_of_lookup_2. done.
  - rewrite fmap_Some. destruct i as [|i]; cbn; [naive_solver|]. rewrite <- IH.
    split; [intros (? & ? & [= <-])|]; eauto.
Qed.

Lemma field_index_None fields key : field_index fields key = None <-> key ∉ fields.
Proof.
  induction fields as [|f fields IH]; cbn; [set_solver|].
  destruct (decide (f = key)) as [->|Hne]; [set_solver|]. rewrite fmap_None, IH. set_solver.
Qed.

Definition filled (values : str -> list node) (key : str) (slot : option node) : Prop :=
  values key = option_list slot.

Lemma filled_ext values values' fields slots : (forall key, key ∈ fields -> values' key = values key) ->
  Forall2 (filled values') fields slots <-> Forall2 (filled values) fields slots.
Proof.
  revert slots. induction fields as [|f fields IH]; intros slots Hv; [split; intros Hf; inversion Hf; constructor|].
  destruct slots as [|o slots]; [split; intros Hf; inversion Hf|].
  rewrite !Forall2_cons, IH by (intros; apply Hv; by right). unfold filled. by rewrite Hv by left.
Qed.

Definition visit_step (fields : list str) (slots : option (list (option node)))
    (entry : str * node) : option (list (option node)) :=
  slots ← slots;
  match field_index fields entry.1 with
  | None => Some slots
  | Some i => match slots !! i with Some None => Some (<[i := Some entry.2]> slots) | _ => None end
  end.

Lemma visit_map_snoc fields entries e :
  visit_map fields (entries ++ [e]) = visit_step fields (visit_map fields entries) e.
Proof. unfold visit_map. by rewrite foldl_app. Qed.

(** One more entry: what the slots must be before it and after it. *)
Lemma visit_step_filled fields entries k v slots : NoDup fields ->
  Forall2 (filled (fun key => values_of key (entries ++ [(k, v)]))) fields slots <->
  exists slots0, Forall2 (filled (fun key => values_of key entries)) fields slots0 /\
    visit_step fields (Some slots0) (k, v) = Some slots.
Proof.
  intros Hnd. unfold visit_step. cbn.
  assert (Hother : forall key, key ≠ k -> values_of key (entries ++ [(k, v)]) = values_of key entries).
  { intros key Hne. rewrite values_of_app, values_of_one.
    rewrite decide_False by done. by rewrite app_nil_r. }
  assert (Hsame : values_of k (entries ++ [(k, v)]) = values_of k entries ++ [v]).
  { rewrite values_of_app, values_of_one. by rewrite decide_True. }
  destruct (field_index fields k) as [i|] eqn:Ei.
  - apply field_index_Some in Ei; [|done].
    assert (Hkey : forall j key, fields !! j = Some key -> key = k -> j = i)
      by (intros; subst; by eapply NoDup_lookup).
    setoid_rewrite Forall2_lookup. split.
    + intros Hf. exists (<[i := None]> slots).
      pose proof (Hf i) as Hi. rewrite Ei in Hi. inversion Hi as [? o Hfo Hs He|]; subst.
      unfold filled in Hfo. rewrite Hsame in Hfo. destruct o as [o|]; [|by destruct (values_of k entries)].
      destruct (values_of k entries) as [|? [|]] eqn:Ev; try done. injection Hfo as ->.
      symmetry in He. pose proof (lookup_lt_Some _ _ _ He) as Hlt. split.
      * intros j. destruct (decide (j = i)) as [->|Hj].
        { rewrite list_lookup_insert_eq, Ei by done. by constructor. }
        rewrite list_lookup_insert_ne by done. pose proof (Hf j) as Hj'.
        inversion Hj' as [key o' Hfj Hk Hs'|]; constructor.
        unfold filled in *. rewrite Hother in Hfj; [done|]. intros ->. apply Hj. eauto.
      * rewrite list_lookup_insert_eq by done. rewrite list_insert_insert_eq. by rewrite list_insert_id.
    + intros (slots0 & Hf & Hs) j. destruct (slots0 !! i) as [[o|]|] eqn:Eo; try done.
      injection Hs as <-. pose proof (lookup_lt_Some _ _ _ Eo) as Hlt.
      pose proof (Hf i) as Hi. rewrite Ei, Eo in Hi. inversion Hi as [? ? Hfo|]; subst.
      destruct (decide (j = i)) as [->|Hj].
      * rewrite Ei, list_lookup_insert_eq by done. constructor. unfold filled in *.
        by rewrite Hsame, Hfo.
      * rewrite list_lookup_insert_ne by done. pose proof (Hf j) as Hj'.
        inversion Hj' as [key o' Hfj Hk Hs'|]; constructor.
        unfold filled in *. rewrite Hother; [done|]. intros ->. apply Hj. eauto.
  - apply field_index_None in Ei.
    rewrite (filled_ext (fun key => values_of key entries)) by (intros key Hin; apply Hother; by intros ->).
    split; [eauto|]. by intros (? & ? & [= ->]).
Qed.

(** [visit_map] succeeds exactly when no field is given twice; the slots then hold what is given. *)
Lemma visit_map_filled fields entries slots : NoDup fields ->
  visit_map fields entries = Some slots <->
  Forall2 (filled (fun key => values_of key entries)) fields slots.
Proof.
  intros Hnd. revert slots. induction entries as [|[k v] entries IH] using rev_ind; intros slots.
  - unfold visit_map, filled, values_of. cbn. clear Hnd. revert slots.
    induction fields as [|f fields IHf]; intros slots; cbn.
    + split; [intros [= <-]; constructor|]. intros Hf. by inversion Hf.
    + destruct slots as [|o slots]; [split; [done|intros Hf; inversion Hf]|].
      rewrite Forall2_cons, <- IHf. destruct o; naive_solver.
  - rewrite visit_map_snoc, visit_step_filled by done. setoid_rewrite <- IH.
    destruct (visit_map fields entries) as [slots0|]; [|naive_solver]. split; [eauto|].
    by intros (? & [= <-] & ?).
Qed.

(** What a document gives for a field, as a mapping or as a sequence. *)
Definition given (fields : list str) (n : node) (key : str) : list node :=
  match de_struct fields n with
  | Some (inl entries) => values_of key entries
  | Some (inr elements) => option_list (field_index fields key ≫= fun i => elements !! i)
  | None => []
  end.

Lemma slots_filled fields n slots : NoDup fields ->
  ConfigSerde.slots fields n = Some slots <->
  is_Some (de_struct fields n) /\ Forall2 (filled (given fields n)) fields slots.
Proof.
  intros Hnd. unfold ConfigSerde.slots, given, filled. destruct (de_struct fields n) as [[entries|elements]|]; cbn.
  - rewrite visit_map_filled by done. naive_solver.
  - unfold visit_seq. rewrite Forall2_lookup. split.
    + intros [= <-]. split; [done|]. intros i. rewrite list_lookup_imap.
      destruct (fields !! i) as [key|] eqn:Ei; constructor.
      apply field_index_Some in Ei; [|done]. by rewrite Ei.
    + intros [_ Hf]. f_equal. apply list_eq. intros i. rewrite list_lookup_imap.
      pose proof (Hf i) as Hi. inversion Hi as [key o Ho Hk Hs|Hk Hs]; [|done].
      symmetry in Hk. apply field_index_Some in Hk; [|done]. rewrite Hk in Ho. cbn in *.
      destruct (elements !! i), o; cbn in *; congruence.
  - split; [done|]. by intros [[? ?] _].
Qed.

Lemma TcpConfig_NoDup : NoDup TcpConfig_fields.
Proof. apply (bool_decide_unpack _). vm_compute. done. Qed.
Lemma DnssecConfig_NoDup : NoDup DnssecConfig_fields.
Proof. apply (bool_decide_unpack _). vm_compute. done. Qed.
Lemma ZoneConfig_NoDup : NoDup ZoneConfig_fields.
Proof. apply (bool_decide_unpack _). vm_compute. done. Qed.
Lemma ServerConfig_NoDup : NoDup ServerConfig_fields.
Proof. apply (bool_decide_unpack _). vm_compute. done. Qed.
Lemma Config_NoDup : NoDup Config_fields.
Proof. apply (bool_decide_unpack _). vm_compute. done. Qed.

(** * The meaning of a document *)


(** The value of a setting: what its only value means, or its default; a setting without default is
    required. *)
Definition setting {A} (fields : list str) (n : node) (key : string) (means : node -> A -> Prop)
    (default : option A) (value : A) : Prop :=
  match given fields n (lit key) with
  | [] => default = Some value
  | [v] => means v value
  | _ => False
  end.

(** A value that may be null. *)
Definition nullable {A} (means : node -> A -> Prop) (n : node) (value : option A) : Prop :=
  match de_option n, value with
  | None, None => True
  | Some n, Some a => means n a
  | _, _ => False
  end.

Definition is_string (n : node) (s : str) : Prop := de_string n = Some s.
Definition is_unsigned (width : Z) (n : node) (z : Z) : Prop := de_unsigned width n = Some z.
Definition is_flag (n : node) (b : bool) : Prop := de_bool n = Some b.

Record means_tcp (n : node) (c : TcpConfig) : Prop := {
  tcp_struct : is_Some (de_struct TcpConfig_fields n);
  tcp_idle : setting TcpConfig_fields n "idle_timeout" (is_unsigned 64) (Some 30) (idle_timeout c);
  tcp_max : setting TcpConfig_fields n "max_queries_per_connection" (is_unsigned 64) (Some 100)
              (max_queries_per_connection c)
}.

Record means_dnssec (n : node) (c : DnssecConfig) : Prop := {
  dnssec_struct : is_Some (de_struct DnssecConfig_fields n);
  dnssec_validate : setting DnssecConfig_fields n "validate_signatures" is_flag (Some false)
                      (validate_signatures c);
  dnssec_require : setting DnssecConfig_fields n "require_dnssec" is_flag (Some false)
                     (require_dnssec c);
  dnssec_include : setting DnssecConfig_fields n "auto_include_dnssec" is_flag (Some true)
                     (auto_include_dnssec c)
}.

Record means_zone (n : node) (c : ZoneConfig) : Prop := {
  zone_struct : is_Some (de_struct ZoneConfig_fields n);
  zone_name : setting ZoneConfig_fields n "name" is_string None (name c);
  zone_file : setting ZoneConfig_fields n "file" is_string None (file c)
}.

Record means_server (n : node) (c : ServerConfig) : Prop := {
  server_struct : is_Some (de_struct ServerConfig_fields n);
  server_listen : setting ServerConfig_fields n "listen" is_string (Some (lit "0.0.0.0:53")) (listen c);
  server_workers : setting ServerConfig_fields n "workers" (is_unsigned 64) (Some 4) (workers c);
  server_log : setting ServerConfig_fields n "log_level" is_string (Some (lit "info")) (log_level c);
  server_rate : setting ServerConfig_fields n "rate_limit" (nullable (is_unsigned 32)) (Some None)
                  (rate_limit c);
  server_api : setting ServerConfig_fields n "api_listen" (nullable is_string) (Some None) (api_listen c);
  server_dnssec : setting ServerConfig_fields n "dnssec" (nullable means_dnssec) (Some None) (dnssec c);
  server_tcp : setting ServerConfig_fields n "tcp" (nullable means_tcp) (Some None) (tcp c)
}.

Definition means_zones (n : node) (zones : list ZoneConfig) : Prop :=
  exists elements, de_seq n = Some elements /\ Forall2 means_zone elements zones.

Record means_config (n : node) (c : Config) : Prop := {
  config_struct : is_Some (de_struct Config_fields n);
  config_server : setting Config_fields n "server" means_server None (server c);
  config_zones : setting Config_fields n "zones" means_zones None (zone_configs c)
}.

(** ** The derived code computes it *)

(** A decoder of the values that mean something. *)
Class Decodes {A} (decode : node -> option A) (means : node -> A -> Prop) : Prop :=
  decodes n a : decode n = Some a <-> means n a.

#[local] Instance decodes_string : Decodes de_string is_string.
Proof. done. Qed.
#[local] Instance decodes_unsigned w : Decodes (de_unsigned w) (is_unsigned w).
Proof. done. Qed.
#[local] Instance decodes_flag : Decodes de_bool is_flag.
Proof. done. Qed.

#[local] Instance decodes_nullable {A} (decode : node -> option A) means :
  Decodes decode means -> Decodes (de_option_of decode) (nullable means).
Proof.
  intros Hd n value. unfold de_option_of, nullable. destruct (de_option n) as [m|].
  - destruct value as [a|]; [rewrite <- (Hd m)|]; destruct (decode m); cbn; naive_solver.
  - destruct value; naive_solver.
Qed.

Lemma filled_setting {A} fields n key slot decode (means : node -> A -> Prop) default value :
  Decodes decode means -> filled (given fields n) (lit key) slot ->
  default_to default decode slot = Some value <-> setting fields n key means (Some default) value.
Proof. unfold filled, setting. intros Hd ->. destruct slot; cbn; [apply Hd|done]. Qed.

Lemma filled_required {A} fields n key slot decode (means : node -> A -> Prop) value :
  Decodes decode means -> filled (given fields n) (lit key) slot ->
  required decode slot = Some value <-> setting fields n key means None value.
Proof. unfold filled, setting. intros Hd ->. destruct slot; cbn; [apply Hd|done]. Qed.

Lemma setting_once {A} fields n key (means : node -> A -> Prop) default value :
  setting fields n key means default value -> exists slot, filled (given fields n) (lit key) slot.
Proof.
  unfold setting, filled.
  destruct (given fields n (lit key)) as [|v [|]]; [exists None|exists (Some v)|]; done.
Qed.

Create HintDb fields.
Hint Resolve TcpConfig_NoDup DnssecConfig_NoDup ZoneConfig_NoDup ServerConfig_NoDup Config_NoDup : fields.

(** From the slots to the settings: takes the slots and the binds of the derived code apart, and
    proves each setting from its slot. *)
Ltac from_slots :=
  let sl := fresh "sl" in let Hs := fresh "Hs" in let Hc := fresh "Hc" in
  intros (sl & Hs & Hc); apply slots_filled in Hs as [? Hs]; [|by auto with fields];
  repeat match goal with
  | H : Forall2 _ _ _ |- _ => inversion H; clear H; subst
  | H : _ ≫= _ = Some _ |- _ => apply bind_Some in H as (? & ? & H)
  end;
  simplify_eq;
  match goal with H : is_Some _ |- _ => split; cbn; [exact H|..] end;
  (lazymatch goal with
   | |- setting _ _ _ _ None _ => eapply filled_required
   | |- setting _ _ _ _ _ _ => eapply filled_setting
   end; [|eassumption..]; apply _).

(** From the settings to the slots: each setting has a slot, which the derived code reads. *)
Ltac to_slots :=
  repeat match goal with
  | H : setting _ _ _ _ ?default _ |- _ =>
      let Hf := fresh "Hf" in
      destruct (setting_once _ _ _ _ _ _ H) as [? Hf];
      lazymatch default with
      | None => apply (filled_required _ _ _ _ _ _ _ _ Hf) in H
      | Some _ => apply (filled_setting _ _ _ _ _ _ _ _ _ Hf) in H
      end
  end;
  eexists; split;
    [ apply slots_filled; [by auto with fields|]; split; [done|];
      repeat (apply Forall2_cons_2; [eassumption|]); apply Forall2_nil_2
    | unfold optional, default_listen, default_auto_include_dnssec, default_workers, default_log_level,
        default_tcp_idle_timeout, default_tcp_max_queries; cbn;
      repeat match goal with H : _ = Some _ |- _ => rewrite H; clear H; cbn end; done ].

#[local] Instance decodes_tcp : Decodes de_TcpConfig means_tcp.
Proof.
  intros n c. unfold de_TcpConfig. rewrite bind_Some. split; [from_slots|].
  destruct c. intros [Hn]. cbn in *. to_slots.
Qed.

#[local] Instance decodes_dnssec : Decodes de_DnssecConfig means_dnssec.
Proof.
  intros n c. unfold de_DnssecConfig. rewrite bind_Some. split; [from_slots|].
  destruct c. intros [Hn]. cbn in *. to_slots.
Qed.

#[local] Instance decodes_zone : Decodes de_ZoneConfig means_zone.
Proof.
  intros n c. unfold de_ZoneConfig. rewrite bind_Some. split; [from_slots|].
  destruct c. intros [Hn]. cbn in *. to_slots.
Qed.

#[local] Instance decodes_server : Decodes de_ServerConfig means_server.
Proof.
  intros n c. unfold de_ServerConfig. rewrite bind_Some. split; [from_slots|].
  destruct c. intros [Hn]. cbn in *. to_slots.
Qed.

#[local] Instance decodes_zones : Decodes (de_vec_of de_ZoneConfig) means_zones.
Proof.
  intros n zones. unfold de_vec_of, means_zones. rewrite bind_Some. setoid_rewrite mapM_Some.
  split; intros (l & Hl & Hf); exists l; (split; [done|]); eapply Forall2_impl; try done;
    intros; by apply decodes_zone.
Qed.

#[local] Instance decodes_config : Decodes de_Config means_config.
Proof.
  intros n c. unfold de_Config. rewrite bind_Some. split; [from_slots|].
  destruct c. intros [Hn]. cbn in *. to_slots.
Qed.

(** C40 (functional): a configuration file parses exactly when it is a document with a [server] and a
    list of [zones], in which no known setting occurs twice and every given one is a text, number in
    its range, flag or section as its field asks; the settings that are not given have the documented
    defaults (listen on 0.0.0.0:53, 4 workers, log level info, idle timeout 30, 100 queries per
    connection, no rate limit, no API, automatic DNSSEC records), keys that are no setting have no
    effect, and the order of the entries does not matter. *)
Theorem config_file_meaning text c :
  config_from_str text = Some c <->
  exists document, from_text text = Some document /\ means_config document c.
Proof.
  unfold config_from_str. rewrite bind_Some.
  split; intros (n & Ht & Hn); exists n; (split; [done|]); by apply decodes_config.
Qed.
End config.

(** * Written configurations *)

(** Every number is in the range of its field. *)
Definition config_in_range (c : Config) : Prop :=
  in_u 64 (workers (server c)) /\
  from_option (in_u 32) True (rate_limit (server c)) /\
  from_option (fun t => in_u 64 (idle_timeout t) /\ in_u 64 (max_queries_per_connection t)) True
    (tcp (server c)).

Section written.
Context `{FormatLaws}.

Lemma values_of_zip fields values key v i : NoDup fields ->
  fields !! i = Some key -> values !! i = Some v -> values_of key (zip fields values) = [v].
Proof.
  intros Hnd. revert values i. induction Hnd as [|f fields Hf Hnd IH]; intros [|v' values] [|i] Hk Hv;
    cbn [zip zip_with lookup list_lookup] in *; try done; simplify_eq;
    rewrite values_of_cons, values_of_one.
  - rewrite decide_True by done. cbn. f_equal. apply values_of_none. intros [k v'] Hin. cbn. intros ->. apply Hf.
    by apply elem_of_zip_l in Hin.
  - rewrite decide_False; [cbn; eauto|]. intros ->. by apply list_elem_of_lookup_2 in Hk.
Qed.

Lemma slots_ser_fields fields values : NoDup fields -> length values = length fields ->
  slots fields (ser_fields fields values) = Some (Some <$> values).
Proof.
  intros Hnd Hlen. unfold slots, ser_fields. rewrite de_ser_struct. cbn.
  apply visit_map_filled; [done|]. apply Forall2_same_length_lookup. rewrite length_fmap.
  split; [done|]. intros i key slot Hk Hs. rewrite list_lookup_fmap in Hs.
  apply fmap_Some in Hs as (v & Hv & ->). by eapply values_of_zip.
Qed.

Lemma de_ser_option {A} (decode : node -> option A) encode o :
  (forall a, o = Some a -> de_option (ser_some (encode a)) = Some (encode a) /\ decode (encode a) = Some a) ->
  de_option_of decode (ser_option encode o) = Some o.
Proof.
  intros Ho. unfold de_option_of, ser_option. destruct o as [a|].
  - destruct (Ho a eq_refl) as [-> ->]. done.
  - by rewrite de_ser_none.
Qed.

Lemma de_ser_TcpConfig c : in_u 64 (idle_timeout c) -> in_u 64 (max_queries_per_connection c) ->
  de_TcpConfig (ser_TcpConfig c) = Some c.
Proof.
  intros ? ?. unfold de_TcpConfig, ser_TcpConfig.
  rewrite slots_ser_fields by (done || apply TcpConfig_NoDup). cbn.
  rewrite !de_ser_unsigned by done. by destruct c.
Qed.

Lemma de_ser_DnssecConfig c : de_DnssecConfig (ser_DnssecConfig c) = Some c.
Proof.
  unfold de_DnssecConfig, ser_DnssecConfig.
  rewrite slots_ser_fields by (done || apply DnssecConfig_NoDup). cbn.
  rewrite !de_ser_bool. by destruct c.
Qed.

Lemma de_ser_ZoneConfig c : de_ZoneConfig (ser_ZoneConfig c) = Some c.
Proof.
  unfold de_ZoneConfig, ser_ZoneConfig.
  rewrite slots_ser_fields by (done || apply ZoneConfig_NoDup). cbn.
  rewrite !de_ser_string. by destruct c.
Qed.

Lemma de_ser_ServerConfig c zones : config_in_range {| server := c; zone_configs := zones |} ->
  de_ServerConfig (ser_ServerConfig c) = Some c.
Proof.
  intros (Hw & Hr & Ht). cbn in *. unfold de_ServerConfig, ser_ServerConfig.
  rewrite slots_ser_fields by (done || apply ServerConfig_NoDup). cbn. unfold optional. cbn.
  rewrite !de_ser_string, de_ser_unsigned by done. cbn.
  rewrite (de_ser_option (de_unsigned 32)); cbn.
  2:{ intros r Er. rewrite Er in Hr. cbn in Hr.
      assert (in_u 64 r) by (unfold in_u in *; lia).
      by rewrite de_ser_some_unsigned, de_ser_unsigned. }
  rewrite (de_ser_option de_string); cbn.
  2:{ intros. by rewrite de_ser_some_string, de_ser_string. }
  rewrite (de_ser_option de_DnssecConfig); cbn.
  2:{ intros d _. split; [apply de_ser_some_struct|apply de_ser_DnssecConfig]. }
  rewrite (de_ser_option de_TcpConfig); cbn; [by destruct c|].
  intros t Et. rewrite Et in Ht. destruct Ht.
  split; [apply de_ser_some_struct|by apply de_ser_TcpConfig].
Qed.

(** C36 (roundtrip): a configuration that was written with the derived serializer, whatever text the
    format gives it, is read back by [Config::from_file] as it was: every section, optional or not, and
    every zone in its order. *)
Theorem config_roundtrip text c :
  config_in_range c -> from_text text = Some (ser_Config c) ->
  from_file (Some text) config_from_str = Ok c.
Proof.
  intros Hc Ht. unfold from_file, config_from_str. cbn. rewrite Ht. cbn.
  unfold de_Config, ser_Config. rewrite slots_ser_fields by (done || apply Config_NoDup). cbn.
  destruct c as [s zones]. cbn. rewrite (de_ser_ServerConfig s zones) by done. cbn.
  unfold de_vec_of. rewrite de_ser_seq. cbn.
  assert (mapM de_ZoneConfig (ser_ZoneConfig <$> zones) = Some zones) as ->; [|done].
  apply mapM_Some, Forall2_fmap_l, Forall_Forall2_diag, Forall_true. apply de_ser_ZoneConfig.
Qed.
End written.

(** ** A file with every section *)

Definition full_config : Config :=
  {| server := {| listen := lit "127.0.0.1:53"; workers := 8; log_level := lit "debug";
                  rate_limit := Some 100; api_listen := None;
                  dnssec := Some {| validate_signatures := false; require_dnssec := true;
                                    auto_include_dnssec := false |};
                  tcp := Some {| idle_timeout := 60; max_queries_per_connection := 18446744073709551615 |} |};
     zone_configs := [{| name := lit "example.com."; file := lit "zones/example.com" |};
                      {| name := lit "example.org."; file := lit "zones/example.org" |}] |}.

Definition full_text : str :=
  flat_map (fun l => map (fun c => if c =? 39 then c_quote else c) (lit l) ++ [c_newline])
    ["server:"; "  listen: '127.0.0.1:53'"; "  workers: 8"; "  log_level: 'debug'"; "  rate_limit: 100";
     "  api_listen: null"; "  dnssec:"; "    validate_signatures: false"; "    require_dnssec: true";
     "    auto_include_dnssec: false"; "  tcp:"; "    idle_timeout: 60";
     "    max_queries_per_connection: 18446744073709551615"; "zones:"; "  - name: 'example.com.'";
     "    file: 'zones/example.com'"; "  - name: 'example.org.'"; "    file: 'zones/example.org'"]%string.

Lemma config_roundtrip_witness : from_file (Some full_text) config_from_str = Ok full_config.
Proof.
  apply (config_roundtrip full_text full_config).
  - unfold config_in_range, in_u. cbn. lia.
  - vm_compute. reflexivity.
Defined.

(** Without a section everything has its default, a key that is no setting has no effect, and a
    setting that is given twice is an error. *)
Definition zone_text : str := flat_map (fun l => lit l ++ [c_newline])
  ["zones:"; "  - file: zones/example.com"; "    name: example.com."]%string.

Example unknown_key_ignored :
  config_from_str (flat_map (fun l => lit l ++ [c_newline]) ["server:"; "  threads: 8"]%string ++ zone_text)
  = config_from_str (lit "server: {}" ++ [c_newline] ++ zone_text).
Proof. vm_compute. reflexivity. Qed.

Example duplicate_setting :
  config_from_str (flat_map (fun l => lit l ++ [c_newline])
                     ["server:"; "  workers: 8"; "  workers: 8"]%string ++ zone_text) = None.
Proof. vm_compute. reflexivity. Qed.

Example rate_limit_out_of_range :
  config_from_str (flat_map (fun l => lit l ++ [c_newline])
                     ["server:"; "  rate_limit: 4294967296"]%string ++ zone_text) = None.
Proof. vm_compute. reflexivity. Qed.
