(* ===== verification/Effects.v ===== *)
(** The effects of the server's handlers ([src/src/server.rs]) as an interface: what a handler asks of
    the clock, the shared rate limiter and metrics, the zone store and the sockets.  The handlers are
    written once against it ([Server]); [ServerIO] runs them one at a time in an environment and
    [Tasks] cuts them into the atomic steps of concurrent tasks. *)
From S2P Require Import Prelude RustTime RustStr HashMap Crates Zone RateLimit Metrics.
Open Scope Z_scope.

(** What a client does on a TCP connection: a byte arrives, time passes, the stream ends, the
    connection breaks.  An empty list is a client that stays silent. *)
Inductive Event :=
  | Byte (b : Z)
  | Wait (d : Duration)
  | Close
  | Reset.

(** [read_exact] of [n] bytes, under [tokio::time::timeout] when a timeout is given. *)
Inductive ReadResult :=
  | ReadOk (bytes : list Z)
  | ReadEof
  | ReadError
  | ReadTimeout
  | ReadBlocked.

Fixpoint read_events (timeout : option Duration) (n : nat) (input : list Event) {struct input}
    : ReadResult * list Event :=
  match n with
  | O => (ReadOk [], input)
  | S n' =>
      match input with
      | [] => (match timeout with Some _ => ReadTimeout | None => ReadBlocked end, [])
      | Byte b :: rest =>
          match read_events timeout n' rest with
          | (ReadOk bs, rest) => (ReadOk (b :: bs), rest)
          | r => r
          end
      | Wait d :: rest =>
          match timeout with
          | Some t => if t <? d then (ReadTimeout, rest) else read_events (Some (t - d)) n rest
          | None => read_events None n rest
          end
      | Close :: _ => (ReadEof, input)
      | Reset :: _ => (ReadError, input)
      end
  end.

(** What becomes of a write to a client: it goes through, the connection breaks after [n] bytes, or the
    client does not read on and the write stays pending for ever after [n] bytes. *)
Inductive Fate :=
  | Goes
  | Breaks (n : nat)
  | Stalls (n : nat).

(** What [write_all] comes to. *)
Inductive WriteResult :=
  | WriteOk
  | WriteError
  | WriteBlocked.

Definition write_result (fate : Fate) : WriteResult :=
  match fate with
  | Goes => WriteOk
  | Breaks _ => WriteError
  | Stalls _ => WriteBlocked
  end.

(** What is out of the bytes to be written. *)
Definition written (fate : Fate) (buf : list Z) : list Z :=
  match fate with
  | Goes => buf
  | Breaks n | Stalls n => take n buf
  end.

#[export] Instance Fate_eq_dec : EqDecision Fate.
Proof. solve_decision. Defined.

(** How a handler ends: with its [Result], never (it waits for a client for ever), or not yet (a loop
    needs more fuel). *)
Inductive result (A : Type) :=
  | Done (o : outcome A)
  | Blocked
  | OutOfFuel.
Arguments Done {_} _.
Arguments Blocked {_}.
Arguments OutOfFuel {_}.

(** How long the read guard of the zone store is held: not at all, as [process_query] does not look at
    the zones for the query; dropped before anything else is waited for; until the handler returns. *)
Inductive Guard := NoGuard | Dropped | Kept.

#[export] Instance Guard_eq_dec : EqDecision Guard.
Proof. solve_decision. Defined.

(** The monad of a handler with the operations it calls. *)
Class Effects `{HickoryTypes} (M : Type -> Type) := {
  eff_ret :: MRet M;
  eff_bind :: MBind M;
  (* a [Result] of pure code, [?] included *)
  lift : forall {A}, outcome A -> M A;
  (* waits for a client for ever *)
  block : forall {A}, M A;
  (* a loop needs more fuel *)
  out_of_fuel : forall {A}, M A;
  (* metrics.record_...(...) *)
  record : MetricsCall -> M unit;
  (* Instant::now() *)
  now : M Instant;
  (* limiter.check_rate_limit(addr.ip()), if there is a limiter *)
  within_rate_limit : IpAddr -> M bool;
  (* zones.read().await *)
  read_store : Guard -> M ZoneStore;
  (* socket.send_to(&buf, addr).await? *)
  send : list Z -> M unit;
  (* stream.write_all(&buf).await? *)
  write_all : list Z -> M unit;
  (* stream.read_exact(&mut buf).await, or with a timeout *)
  read_exact : option Duration -> nat -> M ReadResult
}.

Section effects.
Context `{HickoryTypes} {M : Type -> Type} (E : Effects M).

(** [metrics.record_latency(start.elapsed())] *)
Definition record_elapsed (start : Instant) : M unit :=
  t ← now;
  record (Latency (duration_since t start)).
End effects.
