(* ===== verification/ServerIO.v ===== *)
(** The effects of one handler that runs in an environment: a handler is a function on [World], and
    what the rest of the process and the peer do is an [Env] that the theorems quantify over.
    [TasksProps] shows that every run of the concurrent process is such a run for each of its tasks. *)
From S2P Require Import Prelude RustTime RustStr HashMap Crates Zone RateLimit Metrics Effects.
Open Scope Z_scope.

(** The state a handler reads and changes. *)
Record World := {
  w_tick : nat;  (* moments: readings of the clock and of the zone store so far *)
  w_limiter : option RateLimiterInner;
  w_calls : list MetricsCall;  (* recorded metrics *)
  w_sends : nat;  (* datagrams or writes attempted *)
  w_out : list (list Z);  (* datagrams or writes that went out *)
  w_input : list Event  (* what the client has still to do *)
}.

Definition io (A : Type) : Type := World -> result A * World.

#[export] Instance io_ret : MRet io := fun _ a w => (Done (Ok a), w).
#[export] Instance io_bind : MBind io := fun _ _ f m w =>
  match m w with
  | (Done (Ok a), w) => f a w
  | (Done (Err e), w) => (Done (Err e), w)
  | (Done Panic, w) => (Done Panic, w)
  | (Blocked, w) => (Blocked, w)
  | (OutOfFuel, w) => (OutOfFuel, w)
  end.

Definition io_lift {A} (m : outcome A) : io A := fun w => (Done m, w).
Definition io_block {A} : io A := fun w => (Blocked, w).
Definition io_out_of_fuel {A} : io A := fun w => (OutOfFuel, w).

Definition io_record (c : MetricsCall) : io unit := fun w =>
  (Done (Ok tt),
   {| w_tick := w_tick w; w_limiter := w_limiter w; w_calls := w_calls w ++ [c];
      w_sends := w_sends w; w_out := w_out w; w_input := w_input w |}).

Definition io_read_exact (timeout : option Duration) (n : nat) : io ReadResult := fun w =>
  let '(r, input) := read_events timeout n (w_input w) in
  (Done (Ok r),
   {| w_tick := w_tick w; w_limiter := w_limiter w; w_calls := w_calls w; w_sends := w_sends w;
      w_out := w_out w; w_input := input |}).

Section env.
Context `{HickoryTypes}.

(** The clock, the zone store as it is at each moment (a reload may replace it), what other tasks do
    to the rate limiter before each moment, which datagrams can be sent, and what becomes of each write
    to a stream. *)
Record Env := {
  env_clock : nat -> Z;
  env_store : nat -> ZoneStore;
  env_others : nat -> RateLimiterInner -> RateLimiterInner;
  env_send_ok : nat -> bool;
  env_write : nat -> Fate
}.

Context (env : Env).

Definition io_now : io Instant := fun w =>
  (Done (Ok (env_clock env (w_tick w))),
   {| w_tick := S (w_tick w); w_limiter := w_limiter w; w_calls := w_calls w; w_sends := w_sends w;
      w_out := w_out w; w_input := w_input w |}).

(** Whether [limiter.check_rate_limit(addr.ip())] lets the query through; no limiter, no limit. *)
Definition io_within_rate_limit (addr : IpAddr) : io bool := fun w =>
  match w_limiter w with
  | None => (Done (Ok true), w)
  | Some inner =>
      let inner := env_others env (w_tick w) inner in
      let '(granted, inner, tick) := check_rate_limit (env_clock env) (w_tick w) inner addr in
      (Done (Ok granted),
       {| w_tick := tick; w_limiter := Some inner; w_calls := w_calls w; w_sends := w_sends w;
          w_out := w_out w; w_input := w_input w |})
  end.

Definition io_send (buf : list Z) : io unit := fun w =>
  let ok := env_send_ok env (w_sends w) in
  (Done (if ok then Ok tt else Err EForeign),
   {| w_tick := w_tick w; w_limiter := w_limiter w; w_calls := w_calls w; w_sends := S (w_sends w);
      w_out := if ok then w_out w ++ [buf] else w_out w; w_input := w_input w |}).

(** What was written before a failure, or before the client stopped to read, is out. *)
Definition io_write_all (buf : list Z) : io unit := fun w =>
  let fate := env_write env (w_sends w) in
  (match write_result fate with
   | WriteOk => Done (Ok tt)
   | WriteError => Done (Err EForeign)
   | WriteBlocked => Blocked
   end,
   {| w_tick := w_tick w; w_limiter := w_limiter w; w_calls := w_calls w; w_sends := S (w_sends w);
      w_out := w_out w ++ [written fate buf]; w_input := w_input w |}).

(** The guard matters to the others only. *)
Definition io_read_store (guard : Guard) : io ZoneStore := fun w =>
  (Done (Ok (env_store env (w_tick w))),
   {| w_tick := S (w_tick w); w_limiter := w_limiter w; w_calls := w_calls w; w_sends := w_sends w;
      w_out := w_out w; w_input := w_input w |}).

Definition io_effects : Effects io := {|
  eff_ret := io_ret; eff_bind := io_bind;
  lift := @io_lift; block := @io_block; out_of_fuel := @io_out_of_fuel;
  record := io_record; now := io_now; within_rate_limit := io_within_rate_limit;
  read_store := io_read_store; send := io_send; write_all := io_write_all;
  read_exact := io_read_exact
|}.
End env.

(** A handler applied to an environment is the handler with the effects of that environment. *)
Coercion io_effects : Env >-> Effects.
Arguments io_effects : simpl never.

(** Shows the operations of the environment after a handler was unfolded. *)
Ltac io_norm :=
  repeat match goal with
  | |- context [@eff_ret _ io (io_effects ?e)] => change (@eff_ret _ io (io_effects e)) with io_ret
  | |- context [@eff_bind _ io (io_effects ?e)] => change (@eff_bind _ io (io_effects e)) with io_bind
  | |- context [@lift _ io (io_effects ?e) ?A] => change (@lift _ io (io_effects e) A) with (@io_lift A)
  | |- context [@block _ io (io_effects ?e) ?A] => change (@block _ io (io_effects e) A) with (@io_block A)
  | |- context [@out_of_fuel _ io (io_effects ?e) ?A] =>
      change (@out_of_fuel _ io (io_effects e) A) with (@io_out_of_fuel A)
  | |- context [@record _ io (io_effects ?e)] => change (@record _ io (io_effects e)) with io_record
  | |- context [@now _ io (io_effects ?e)] => change (@now _ io (io_effects e)) with (io_now e)
  | |- context [@within_rate_limit _ io (io_effects ?e)] =>
      change (@within_rate_limit _ io (io_effects e)) with (io_within_rate_limit e)
  | |- context [@read_store _ io (io_effects ?e)] =>
      change (@read_store _ io (io_effects e)) with (io_read_store e)
  | |- context [@send _ io (io_effects ?e)] => change (@send _ io (io_effects e)) with (io_send e)
  | |- context [@write_all _ io (io_effects ?e)] =>
      change (@write_all _ io (io_effects e)) with (io_write_all e)
  | |- context [@read_exact _ io (io_effects ?e)] =>
      change (@read_exact _ io (io_effects e)) with io_read_exact
  end.

(** The same in a hypothesis. *)
Tactic Notation "io_norm" "in" hyp(H) := revert H; io_norm; intros H.
