(* ===== verification/Server.v ===== *)
(** [src/src/server.rs]: the UDP and TCP handlers and the loops that start them.  Requires
    [Effects], [Protocol], [RateLimit] and [Metrics]. *)
From S2P Require Import Prelude RustTime RustStr HashMap Crates Zone.
From S2P Require Import Protocol RateLimit Metrics Config Effects.
Open Scope Z_scope.

Definition MAX_DNS_PACKET_SIZE : Z := 512.
Definition MAX_UDP_RECV_SIZE : Z := 4096.
Definition MAX_TCP_DNS_PACKET_SIZE : Z := 65535.

Definition len (buf : list Z) : Z := Z.of_nat (length buf).

Section server.
Context `{Hickory} {M : Type -> Type} (E : Effects M).

(** [msg.to_bytes().context(msg)?] and [msg.to_bytes()?] *)
Definition encode (context_msg : string) (m : Message) : M (list Z) :=
  lift (with_context context_msg [] (of_option (message_to_bytes m))).
Definition encode_plain (m : Message) : M (list Z) := lift (of_option (message_to_bytes m)).

(** [if data.len() >= 2 { response.set_id(u16::from_be_bytes([data[0], data[1]])) }] *)
Definition set_id_from (data : list Z) (response : Message) : outcome Message :=
  if 2 <=? len data then
    b0 ← index data 0;
    b1 ← index data 1;
    Ok (set_id (u16_from_be_bytes b0 b1) response)
  else Ok response.

(** The answer that carries a response code and nothing else. *)
Definition error_response (code : ResponseCode.t) (response : Message) : Message :=
  let response := set_message_type MessageType.Response response in
  set_response_code code response.

(** [metrics.record_query_type] of the first question, if any. *)
Definition record_first_type (query : Message) : M unit :=
  match head (message_queries query) with
  | Some question => record (QueryType (query_query_type question))
  | None => mret tt
  end.

(** The query that [process_query] comes to look up in the zones. *)
Definition looks_up (query : Message) : bool :=
  bool_decide (message_op_code query = OpCode.Query) &&
  match head (message_queries query) with
  | Some question => negb (bool_decide (query_query_type question = RecordType.AXFR))
  | None => false
  end.

(** [match processor.process_query(&query).await] with its error branch; the guard of the zones is
    dropped when [process_query] returns. *)
Definition run_query (start : Instant) (query : Message) : M Message :=
  store ← read_store (if looks_up query then Dropped else NoGuard);
  match process_query store query with
  | Err e =>
      record ErrorSeen;;
      record_elapsed E start;;
      lift (Err e)
  | o => lift o
  end.

(** * UDP *)

(** One section of the response is dropped after the other: the body of the three [while] loops.
    [inl m] goes on with [m], [inr tt] returns from the handler. *)
Fixpoint shed_section (fuel : nat) (section : Message -> list DnsRecord) (take : Message -> Message)
    (max_udp_size : Z) (start : Instant) (truncated : Message) : M (Message + unit) :=
  if bool_decide (section truncated = []) then mret (inl truncated)
  else
    match fuel with
    | O => out_of_fuel
    | S fuel =>
        let truncated := take truncated in
        buf ← encode_plain truncated;
        if len buf <=? max_udp_size then
          send buf;;
          record (ResponseSent (message_response_code truncated));;
          record_elapsed E start;;
          mret (inr tt)
        else shed_section fuel section take max_udp_size start truncated
    end.

(** The response is too large: send a truncated one. *)
Definition send_truncated (max_udp_size : Z) (start : Instant) (response : Message) : M unit :=
  let truncated := set_truncated true response in
  r ← shed_section 1 message_answers take_answers max_udp_size start truncated;
  match r with
  | inr _ => mret tt
  | inl truncated =>
      r ← shed_section 1 message_name_servers take_name_servers max_udp_size start truncated;
      match r with
      | inr _ => mret tt
      | inl truncated =>
          r ← shed_section 1 message_additionals take_additionals max_udp_size start truncated;
          match r with
          | inr _ => mret tt
          | inl truncated =>
              minimal_buf ← encode_plain truncated;
              send minimal_buf;;
              record (ResponseSent (message_response_code truncated));;
              record_elapsed E start
          end
      end
  end.

(** The largest datagram for a response. *)
Definition max_udp_size (response : Message) : Z :=
  match message_extensions response with
  | Some edns => edns_max_payload edns
  | None => MAX_DNS_PACKET_SIZE
  end.

(** A parsed query. *)
Definition answer_udp_query (start : Instant) (query : Message) : M unit :=
  record (QueryReceived Udp (bool_decide (is_Some (message_extensions query))));;
  record_first_type query;;
  response ← run_query start query;
  response_buf ← encode "Failed to encode DNS response" response;
  if max_udp_size response <? len response_buf then
    send_truncated (max_udp_size response) start response
  else
    send response_buf;;
    record (ResponseSent (message_response_code response));;
    record_elapsed E start.

(** [handle_udp_query] *)
Definition handle_udp_query (data : list Z) (addr : IpAddr) : M unit :=
  start ← now;
  within ← within_rate_limit addr;
  if negb within then
    record RateLimited;;
    response ← lift (set_id_from data message_new);
    let response := error_response ResponseCode.Refused response in
    response_buf ← encode "Failed to encode rate limit response" response;
    send response_buf
  else
    match message_from_bytes data with
    | None =>
        record ErrorSeen;;
        response ← lift (set_id_from data message_new);
        let response := error_response ResponseCode.FormErr response in
        record (ResponseSent ResponseCode.FormErr);;
        response_buf ← encode "Failed to encode FORMERR response" response;
        send response_buf;;
        record_elapsed E start
    | Some query => answer_udp_query start query
    end.

(** * TCP *)

(** A message with its length, cut to 16 bits, in front. *)
Definition send_framed (buf : list Z) : M unit :=
  write_all (u16_to_be_bytes (wrap 16 (len buf)));;
  write_all buf.

(** The message that carries one record of a zone transfer. *)
Definition axfr_message (query : Message) (question : Query) (record : DnsRecord) : Message :=
  let axfr_msg := message_new in
  let axfr_msg := set_id (message_id query) axfr_msg in
  let axfr_msg := set_message_type MessageType.Response axfr_msg in
  let axfr_msg := set_op_code OpCode.Query axfr_msg in
  let axfr_msg := set_authoritative true axfr_msg in
  let axfr_msg := add_query question axfr_msg in
  add_answer record axfr_msg.

(** [for record in all_records] *)
Fixpoint send_records (query : Message) (question : Query) (all_records : list DnsRecord) : M unit :=
  match all_records with
  | [] => mret tt
  | record :: all_records =>
      msg_buf ← encode "Failed to encode AXFR message" (axfr_message query question record);
      send_framed msg_buf;;
      send_records query question all_records
  end.

(** A zone transfer: all the records, or a refusal; the guard of the zones lives as long. *)
Definition answer_axfr (start : Instant) (query : Message) (question : Query) : M unit :=
  zone_store ← read_store Kept;
  match find_zone zone_store (query_name question) with
  | Some zone =>
      send_records query question (get_all_records zone);;
      record (ResponseSent ResponseCode.NoError);;
      record_elapsed E start
  | None =>
      let refused_response := set_id (message_id query) message_new in
      let refused_response := error_response ResponseCode.Refused refused_response in
      let refused_response := add_query question refused_response in
      response_buf ← encode "Failed to encode refused response" refused_response;
      send_framed response_buf;;
      record (ResponseSent ResponseCode.Refused);;
      record_elapsed E start
  end.

(** The question of a zone transfer request: [is_axfr] and the [if let] below it. *)
Definition axfr_question (query : Message) : option Query :=
  let first := head (message_queries query) in
  let is_axfr := match first with
                 | Some q => bool_decide (query_query_type q = RecordType.AXFR)
                 | None => false
                 end in
  if is_axfr then first else None.

(** A parsed query within the rate limit.  [true] goes on with the connection. *)
Definition answer_tcp_query (start : Instant) (query : Message) : M bool :=
  record (QueryReceived Tcp (bool_decide (is_Some (message_extensions query))));;
  record_first_type query;;
  match axfr_question query with
  | Some question =>
      answer_axfr start query question;;
      mret false
  | None =>
      response ← run_query start query;
      response_buf ← encode "Failed to encode DNS response" response;
      send_framed response_buf;;
      record (ResponseSent (message_response_code response));;
      record_elapsed E start;;
      mret true
  end.

(** One message of a connection: the FORMERR, rate limit and query branches. *)
Definition answer_tcp_message (addr : IpAddr) (start : Instant) (msg_buf : list Z) : M bool :=
  match message_from_bytes msg_buf with
  | None =>
      record ErrorSeen;;
      response ← lift (set_id_from msg_buf message_new);
      let response := error_response ResponseCode.FormErr response in
      record (ResponseSent ResponseCode.FormErr);;
      response_buf ← encode "Failed to encode FORMERR response" response;
      send_framed response_buf;;
      record_elapsed E start;;
      mret false
  | Some query =>
      within ← within_rate_limit addr;
      if negb within then
        record RateLimited;;
        let response := set_id (message_id query) message_new in
        let response := error_response ResponseCode.Refused response in
        record (ResponseSent ResponseCode.Refused);;
        response_buf ← encode "Failed to encode rate limit response" response;
        send_framed response_buf;;
        record_elapsed E start;;
        mret false
      else answer_tcp_query start query
  end.

(** One iteration of the loop of [handle_tcp_connection] after the check of the query limit. *)
Definition tcp_iteration (addr : IpAddr) (idle_timeout : Duration) (queries_handled : Z) : M bool :=
  start ← now;
  r ← read_exact (Some idle_timeout) 2;
  match r with
  | ReadOk len_buf =>
      b0 ← lift (index len_buf 0);
      b1 ← lift (index len_buf 1);
      let msg_len := u16_from_be_bytes b0 b1 in
      if (msg_len =? 0) || (MAX_TCP_DNS_PACKET_SIZE <? msg_len) then
        record ErrorSeen;;
        mret false
      else
        r ← read_exact None (Z.to_nat msg_len);
        match r with
        | ReadOk msg_buf => answer_tcp_message addr start msg_buf
        | ReadBlocked => block
        | _ => lift (Err (EContext "Failed to read DNS message" [] EForeign))
        end
  | ReadEof =>
      record (TcpConnectionClosed queries_handled);;
      mret false
  | ReadError =>
      record (TcpConnectionClosed queries_handled);;
      lift (Err (EContext "Failed to read length prefix" [] EForeign))
  | ReadTimeout =>
      record TcpConnectionTimeout;;
      record (TcpConnectionClosed queries_handled);;
      mret false
  | ReadBlocked => block
  end.

(** The loop of [handle_tcp_connection]. *)
Fixpoint tcp_loop (fuel : nat) (addr : IpAddr) (idle_timeout : Duration) (max_queries : Z)
    (queries_handled : Z) : M unit :=
  if max_queries <=? queries_handled then
    record (TcpConnectionClosed queries_handled)
  else
    match fuel with
    | O => out_of_fuel
    | S fuel =>
        continue ← tcp_iteration addr idle_timeout queries_handled;
        if (continue : bool) then tcp_loop fuel addr idle_timeout max_queries (queries_handled + 1)
        else mret tt
    end.

(** [handle_tcp_connection] *)
Definition handle_tcp_connection (fuel : nat) (addr : IpAddr) (tcp_config : option TcpConfig)
    : M unit :=
  record TcpConnection;;
  let idle_timeout_secs := match tcp_config with Some c => idle_timeout c | None => 30 end in
  let max_queries := match tcp_config with Some c => max_queries_per_connection c | None => 100 end in
  let idle_timeout := from_secs idle_timeout_secs in
  tcp_loop fuel addr idle_timeout max_queries 0.
End server.

(** * The loops that start the handlers *)

(** What the socket or listener of a server loop yields: an item of work ([recv_from], [accept]), an
    error, or the shutdown token. *)
Inductive Incoming (A : Type) :=
  | Received (a : A)
  | ReceiveError
  | Cancelled.
Arguments Received {_} _.
Arguments ReceiveError {_}.
Arguments Cancelled {_}.

(** The loop of [run_udp] and [run_tcp]: the tasks it spawns, and whether it has returned. *)
Fixpoint serve {A B} (task : A -> B) (incoming : list (Incoming A)) : list B * bool :=
  match incoming with
  | [] => ([], false)
  | Cancelled :: _ => ([], true)
  | ReceiveError :: rest => serve task rest
  | Received a :: rest => let '(tasks, returned) := serve task rest in (task a :: tasks, returned)
  end.

(** [run_udp]: a datagram is received into a buffer of [MAX_UDP_RECV_SIZE] bytes, and what does not
    fit is lost.  A task is the arguments of [handle_udp_query]. *)
Definition run_udp (bound : bool) (incoming : list (Incoming (list Z * IpAddr)))
    : outcome (list (list Z * IpAddr) * bool) :=
  if bound then
    Ok (serve (fun '(datagram, addr) => (take (Z.to_nat MAX_UDP_RECV_SIZE) datagram, addr)) incoming)
  else Err (EContext "Failed to bind UDP" [] EForeign).

(** [run_tcp]: a task is a connection and the arguments of [handle_tcp_connection]. *)
Definition run_tcp (bound : bool) (tcp_config : option TcpConfig)
    (incoming : list (Incoming (list Event * IpAddr)))
    : outcome (list (list Event * IpAddr * option TcpConfig) * bool) :=
  if bound then Ok (serve (fun '(stream, addr) => (stream, addr, tcp_config)) incoming)
  else Err (EContext "Failed to bind TCP" [] EForeign).

(** [DnsServer::run]: the first of the three futures that ends decides. *)
Inductive FirstDone := UdpDone (r : outcome unit) | TcpDone (r : outcome unit) | ShutdownDone.

Definition run (first : FirstDone) : outcome unit :=
  match first with
  | UdpDone r => r ≫= fun _ => Ok tt
  | TcpDone r => r ≫= fun _ => Ok tt
  | ShutdownDone => Ok tt
  end.
