(* ===== verification/ServerFacts.v ===== *)
(** Reasoning about handlers: how they end, what they record, what they write. *)
From S2P Require Import Prelude RustTime RustStr HashMap Crates Zone Protocol.
From S2P Require Import RateLimit Metrics MetricsProps Config Effects ServerIO Server.
Open Scope Z_scope.

(** ** What the client has sent *)

(** The bytes that arrive, whenever they do. *)
Definition received (client : list Event) : list Z :=
  omap (fun e => match e with Byte b => Some b | _ => None end) client.

Lemma received_app l1 l2 : received (l1 ++ l2) = received l1 ++ received l2.
Proof. apply omap_app. Qed.

Lemma received_split l : forall a b, received l = a ++ b ->
  exists l1 l2, l = l1 ++ l2 /\ received l1 = a /\ received l2 = b.
Proof.
  induction l as [|e l IH]; intros a b Hr.
  - symmetry in Hr. apply app_eq_nil in Hr as [-> ->]. by exists [], [].
  - destruct a as [|x a]; [by exists [], (e :: l)|].
    destruct e as [y| | |]; [injection Hr as -> Hr| | |]; destruct (IH _ _ Hr) as (l1 & l2 & -> & <- & <-);
      eexists (_ :: l1), l2; done.
Qed.

(** A read returns as many bytes as were asked for, the next ones of the client. *)
Lemma read_events_ok n : forall timeout input bytes rest,
  read_events timeout n input = (ReadOk bytes, rest) ->
  length bytes = n /\ exists first, input = first ++ rest /\ received first = bytes.
Proof.
  induction n as [|n IHn]; intros timeout input bytes rest.
  - destruct input; cbn; intros [= <- <-]; (split; [done|by exists []]).
  - revert timeout. induction input as [|e input IHi]; intros timeout; [by destruct timeout|].
    destruct e as [b|d| |]; cbn [read_events]; try done.
    + destruct (read_events timeout n input) as [[bs| | | |] rest'] eqn:E; try done. intros [= <- <-].
      destruct (IHn _ _ _ _ E) as (Hl & first & -> & Hf). split; [cbn; by rewrite Hl|].
      exists (Byte b :: first). split; [done|]. cbn. by rewrite <- Hf.
    + intros Hr. assert (exists timeout', read_events timeout' (S n) input = (ReadOk bytes, rest)) as [t' Ht'].
      { destruct timeout as [t|]; [|by exists None]. destruct (t <? d); [done|]. by exists (Some (t - d)). }
      destruct (IHi t' Ht') as (Hl & first & -> & Hf). split; [done|]. by exists (Wait d :: first).
Qed.

(** The client goes silent before it has sent [n] bytes, with its connection open. *)
Definition falls_silent (n : nat) (client : list Event) : Prop :=
  (length (received client) < n)%nat /\ Close ∉ client /\ Reset ∉ client.

(** A read waits for ever only for such a client, and only without a timeout. *)
Lemma read_events_blocked n : forall timeout input rest,
  read_events timeout n input = (ReadBlocked, rest) -> timeout = None /\ rest = [] /\ falls_silent n input.
Proof.
  unfold falls_silent. induction n as [|n IHn]; intros timeout input rest; [by destruct input|].
  revert timeout. induction input as [|e input IHi]; intros timeout; cbn [read_events].
  - destruct timeout; [done|]. intros [= <-]. split_and!; [done|done|cbn; lia|apply not_elem_of_nil..].
  - destruct e as [b|d| |]; [| |done..].
    + destruct (read_events timeout n input) as [[bs| | | |] rest'] eqn:E; try done. intros [= <-].
      destruct (IHn _ _ _ E) as (? & ? & ? & Hc & Hr).
      split_and!; [done|done|change (received (Byte b :: input)) with (b :: received input); cbn [length]; lia|..];
        by rewrite not_elem_of_cons.
    + intros Hb. assert (read_events None (S n) input = (ReadBlocked, rest) /\ timeout = None) as [Hb' ->].
      { destruct timeout as [t|]; [|done]. destruct (t <? d); [done|]. by destruct (IHi _ Hb). }
      destruct (IHi _ Hb') as (? & ? & ? & Hc & Hr). split_and!; [done|done|done|..]; by rewrite not_elem_of_cons.
Qed.

(** ** How a handler ends *)

(** What a handler should not do: panic, wait for ever (but where [except] holds), run out of fuel,
    read from the client. *)
Inductive Fault :=
  | EndsInPanic
  | EndsBlocked (except : World -> Prop)
  | EndsInLoop
  | ReadsInput.

Definition free_of {A} (e : Fault) (w : World) (r : result A) (w' : World) : Prop :=
  match e, r with
  | EndsInPanic, Done Panic | EndsInLoop, OutOfFuel => False
  | EndsBlocked except, Blocked => except w'
  | ReadsInput, _ => w_input w' = w_input w
  | _, _ => True
  end.

Definition avoids {A} (e : Fault) (m : io A) : Prop := forall w, free_of e w (m w).1 (m w).2.

Lemma avoids_ret {A} e (a : A) : avoids e (mret a).
Proof. intros w. by destruct e. Qed.

Lemma avoids_bind {A B} e (m : io A) (f : A -> io B) :
  avoids e m -> (forall a, avoids e (f a)) -> avoids e (m ≫= f).
Proof.
  intros Hm Hf w. specialize (Hm w). unfold mbind, io_bind.
  destruct (m w) as [[[a|err|]| |] w'] eqn:E; cbn in *; [|by destruct e..].
  pose proof (Hf a w') as Hw. destruct e, (f a w') as [[[]| |] w2]; cbn in *; congruence.
Qed.

Lemma avoids_lift {A} e (o : outcome A) : (e = EndsInPanic -> o ≠ Panic) -> avoids e (io_lift o).
Proof. intros Ho w. destruct e, o; cbn; try done. by apply Ho. Qed.

Lemma avoids_record e c : avoids e (io_record c).
Proof. intros w. by destruct e. Qed.

Lemma avoids_read e t n : e ≠ ReadsInput -> avoids e (io_read_exact t n).
Proof. intros He w. unfold io_read_exact. destruct (read_events t n (w_input w)). by destruct e. Qed.

(** ** What a handler records *)

(** At most [k] of the calls it records satisfy [p], however it ends. *)
Definition records {A} (p : MetricsCall -> bool) (k : Z) (m : io A) : Prop :=
  forall w, exists cs, w_calls (m w).2 = w_calls w ++ cs /\ count p cs <= k.

Lemma count_app p l1 l2 : count p (l1 ++ l2) = count p l1 + count p l2.
Proof. unfold count. rewrite List.filter_app, length_app. lia. Qed.

Lemma records_none {A} p k (m : io A) : 0 <= k -> (forall w, w_calls (m w).2 = w_calls w) -> records p k m.
Proof. intros Hk Hm w. exists []. rewrite Hm, app_nil_r. done. Qed.

Lemma records_bind {A B} p k1 k2 (m : io A) (f : A -> io B) :
  0 <= k2 -> records p k1 m -> (forall a, records p k2 (f a)) -> records p (k1 + k2) (m ≫= f).
Proof.
  intros Hk Hm Hf w. destruct (Hm w) as (cs & Hcs & Hc). unfold mbind, io_bind.
  destruct (m w) as [[[a|err|]| |] w'] eqn:E; cbn in *; try (exists cs; split; [done|lia]).
  destruct (Hf a w') as (cs' & Hcs' & Hc'). exists (cs ++ cs'). rewrite Hcs', Hcs, app_assoc. split; [done|].
  rewrite count_app. lia.
Qed.

Lemma records_bind_0 {A B} p k (m : io A) (f : A -> io B) :
  0 <= k -> records p 0 m -> (forall a, records p k (f a)) -> records p k (m ≫= f).
Proof. intros. change k with (0 + k). by apply records_bind. Qed.

Lemma records_record p c : records p (if p c then 1 else 0) (io_record c).
Proof. intros w. exists [c]. split; [done|]. unfold count. cbn. destruct (p c); cbn; lia. Qed.

Lemma records_weaken {A} p k k' (m : io A) : k <= k' -> records p k m -> records p k' m.
Proof. intros ? Hm w. destruct (Hm w) as (cs & ? & ?). exists cs. split; [done|lia]. Qed.

(** ** What a handler writes *)

(** A message on the wire of a TCP connection: two writes. *)
Definition frame (buf : list Z) : list (list Z) := [u16_to_be_bytes (wrap 16 (len buf)); buf].

(** Reads the messages off the bytes of a connection. *)
Fixpoint deframe (fuel : nat) (bytes : list Z) : option (list (list Z)) :=
  match bytes with
  | [] => Some []
  | b0 :: b1 :: rest =>
      match fuel with
      | O => None
      | S fuel =>
          let n := Z.to_nat (u16_from_be_bytes b0 b1) in
          if bool_decide (length rest < n)%nat then None
          else bufs ← deframe fuel (drop n rest); Some (take n rest :: bufs)
      end
  | _ => None
  end.

Lemma deframe_frames bufs : forall fuel,
  Forall (fun b => in_u 16 (len b)) bufs -> (length bufs <= fuel)%nat ->
  deframe fuel (concat (flat_map frame bufs)) = Some bufs.
Proof.
  induction bufs as [|b bufs IH]; intros fuel Hb Hf; [by destruct fuel|].
  apply Forall_cons in Hb as [Hb Hbs]. destruct fuel as [|fuel]; [cbn in Hf; lia|].
  cbn [flat_map frame app concat u16_to_be_bytes deframe]. rewrite wrap_small by done.
  assert (u16_from_be_bytes (len b / 256) (len b mod 256) = len b) as -> by (apply (u16_be_roundtrip _ Hb)).
  unfold len. rewrite Nat2Z.id, length_app, bool_decide_eq_false_2 by lia.
  rewrite drop_app_length, take_app_length, IH by (done || (cbn in Hf; lia)). done.
Qed.

Section frames.
Context `{Hickory} (env : Env).

(** The bytes of some message. *)
Definition encoded (buf : list Z) : Prop := exists msg, message_to_bytes msg = Some buf.

(** The beginning of a frame, left by a write that did not go through. *)
Definition cut_short (cut : list Z) : Prop :=
  exists buf, encoded buf /\ cut `prefix_of` concat (frame buf) /\ exists n, env_write env n ≠ Goes.

(** A handler that returned an error, or that waits. *)
Definition broken {A} (r : result A) : Prop := (exists e, r = Done (Err e)) \/ r = Blocked.

(** What [m] writes: the frames of encoded messages and then, only if a write failed and [m] with
    it, or never completed, the beginning of the frame of one more. *)
Definition writes_frames {A} (m : io A) : Prop :=
  forall w, exists writes bufs cut,
    w_out (m w).2 = w_out w ++ writes /\ concat writes = concat (flat_map frame bufs) ++ cut /\
    Forall encoded bufs /\ (cut = [] \/ broken (m w).1 /\ cut_short cut).

Lemma writes_none {A} (m : io A) : (forall w, w_out (m w).2 = w_out w) -> writes_frames m.
Proof. intros Hm w. exists [], [], []. rewrite Hm, app_nil_r. split_and!; [done..|by left]. Qed.

Lemma writes_bind {A B} (m : io A) (f : A -> io B) :
  writes_frames m -> (forall a, writes_frames (f a)) -> writes_frames (m ≫= f).
Proof.
  intros Hm Hf w. destruct (Hm w) as (ws & bufs & cut & Hw & Hb & Hall & Hcut). unfold mbind, io_bind.
  destruct (m w) as [[[a|err|]| |] w'] eqn:E; cbn in *.
  2-5: exists ws, bufs, cut; split_and!; [done..|];
    (destruct Hcut as [?|[[[e He]|He] ?]]; [by left|try discriminate He; right; unfold broken; eauto..]).
  destruct Hcut as [->|[[[e He]|He] _]]; [|done..].
  destruct (Hf a w') as (ws' & bufs' & cut' & Hw' & Hb' & Hall' & Hcut').
  exists (ws ++ ws'), (bufs ++ bufs'), cut'.
  rewrite Hw', Hw, concat_app, Hb, Hb', flat_map_app, concat_app, app_nil_r, !app_assoc.
  split_and!; [done..|by apply Forall_app|done].
Qed.

Lemma send_framed_writes buf : encoded buf -> writes_frames (send_framed env buf).
Proof.
  intros Hm w. unfold send_framed; io_norm; unfold io_write_all, mbind, io_bind.
  set (l := u16_to_be_bytes (wrap 16 (len buf))).
  assert (l ++ buf = concat (frame buf)) as Hl by (cbn [concat frame]; by rewrite app_nil_r).
  assert (forall n f, env_write env n = f -> f ≠ Goes -> exists k, env_write env k ≠ Goes) as Hsome
    by (intros n f <- ?; by exists n).
  destruct (env_write env (w_sends w)) as [|n1|n1] eqn:E1; cbn.
  2-3: exists [take n1 l], [], (take n1 l); split_and!; [done|apply app_nil_r|done|right];
    split; [unfold broken; eauto|]; exists buf; split_and!;
    [done|rewrite <- Hl; apply prefix_app_r, prefix_take|by eapply Hsome].
  destruct (env_write env (S (w_sends w))) as [|n2|n2] eqn:E2; cbn.
  2-3: exists [l; take n2 buf], [], (l ++ take n2 buf); rewrite <- app_assoc;
    split_and!; [done|cbn; by rewrite app_nil_r|done|right];
    split; [unfold broken; eauto|]; exists buf; split_and!;
    [done|rewrite <- Hl; apply prefix_app, prefix_take|by eapply Hsome].
  exists [l; buf], [buf], []. rewrite <- app_assoc. split_and!; [done|symmetry; apply app_nil_r| |by left].
  by apply List.Forall_cons.
Qed.

(** After encoding a message, its frame. *)
Lemma encode_send_writes {B} ctx msg (f : unit -> io B) :
  (forall u, writes_frames (f u)) -> writes_frames (buf ← encode env ctx msg; u ← send_framed env buf; f u).
Proof.
  intros Hf. unfold encode; io_norm. destruct (message_to_bytes msg) as [buf|] eqn:E.
  - intros w. exact (writes_bind _ f (send_framed_writes buf (ex_intro _ msg E)) Hf w).
  - apply writes_none. intros w. reflexivity.
Qed.
End frames.

(** ** Steps that neither write nor end *)

Section quiet.
Context `{Hickory} (env : Env).

(** The last write of the handler stays pending for ever. *)
Definition stalled (w : World) : Prop := exists n k, w_sends w = S n /\ env_write env n = Stalls k.

(** A wait with such a write is no fault. *)
Definition may_stall (e : Fault) : Prop :=
  match e with EndsBlocked except => forall w, stalled w -> except w | _ => True end.

Lemma avoids_now e : avoids e (io_now env).
Proof. intros w. by destruct e. Qed.
Lemma avoids_elapsed e start : avoids e (record_elapsed env start).
Proof. intros w. by destruct e. Qed.
Lemma avoids_store e g : avoids e (io_read_store env g).
Proof. intros w. by destruct e. Qed.
Lemma avoids_send e buf : avoids e (io_send env buf).
Proof. intros w. unfold io_send. by destruct e, (env_send_ok env (w_sends w)). Qed.
Lemma avoids_write e buf : may_stall e -> avoids e (io_write_all env buf).
Proof.
  intros He w. unfold io_write_all. destruct (env_write env (w_sends w)) as [|n|n] eqn:E, e; cbn; try done.
  apply He. by exists (w_sends w), n.
Qed.
Lemma avoids_limit e addr : avoids e (io_within_rate_limit env addr).
Proof.
  intros w. unfold io_within_rate_limit. destruct (w_limiter w) as [inner|]; [|by destruct e].
  destruct (check_rate_limit _ _ _ _) as [[granted inner'] tick]. by destruct e.
Qed.
Lemma avoids_first_type e query : avoids e (record_first_type env query).
Proof. unfold record_first_type; io_norm. destruct (head _); [apply avoids_record|apply avoids_ret]. Qed.
Lemma avoids_encode e ctx m : avoids e (encode env ctx m).
Proof. apply avoids_lift. intros _. by destruct (message_to_bytes m). Qed.
Lemma avoids_encode_plain e m : avoids e (encode_plain env m).
Proof. apply avoids_lift. intros _. by destruct (message_to_bytes m). Qed.

Lemma set_id_from_no_panic data m : set_id_from data m ≠ Panic.
Proof.
  unfold set_id_from, len. destruct (Z.leb_spec 2 (Z.of_nat (length data))); [|done].
  destruct data as [|b0 [|b1 data]]; cbn in *; (lia || done).
Qed.

Lemma process_query_no_panic store query : process_query store query ≠ Panic.
Proof.
  unfold process_query. destruct (negb _); [done|]. destruct (head _); [|done].
  destruct (bool_decide _); [done|]. by destruct (find_zone _ _).
Qed.

Lemma avoids_run_query e start query : avoids e (run_query env start query).
Proof.
  unfold run_query; io_norm. apply avoids_bind; [apply avoids_store|]. intros store.
  pose proof (process_query_no_panic store query).
  destruct (process_query store query); [by apply avoids_lift| |done].
  repeat (apply avoids_bind; [apply avoids_record || apply avoids_elapsed|intros _]). by apply avoids_lift.
Qed.

Lemma send_framed_avoids e buf : may_stall e -> avoids e (send_framed env buf).
Proof. intros He. apply avoids_bind; [by apply avoids_write|intros _; by apply avoids_write]. Qed.
End quiet.

#[export] Hint Resolve avoids_ret avoids_record avoids_read avoids_now avoids_elapsed avoids_store
  avoids_send avoids_write avoids_limit avoids_first_type avoids_encode avoids_encode_plain avoids_run_query
  send_framed_avoids : dns.

(** Walks through a handler, one step after the other. *)
Ltac walk_avoids :=
  repeat lazymatch goal with
    | |- avoids _ (_ ≫= _) => apply avoids_bind; [|intros ?]
    | |- avoids _ (match ?x with _ => _ end) => destruct x
    | |- avoids _ (io_lift _) =>
        first [by apply avoids_lift | apply avoids_lift; intros _; apply set_id_from_no_panic]
    | |- _ => solve [auto with dns]
    end.
