(* ===== verification/ServerLemmas.v ===== *)
(** Lemmas about the server's handlers: the cases of the UDP truncation, how TCP handlers end, what they
    record and what they write, conversations query by query.  The theorems are in [ServerProps]. *)
From S2P Require Import Prelude RustTime RustStr HashMap Crates CratesModel Zone Fixtures Protocol.
From S2P Require Import ProtocolFacts RateLimit Metrics MetricsProps Config Effects ServerIO Server ServerFacts.
Open Scope Z_scope.

(** ** UDP truncation *)

Section udp.
Context `{Hickory} `{!MessageLaws} (env : Env).

(** A datagram sent with its metrics. *)
Definition sent (w w' : World) (m : Message) (buf : list Z) : Prop :=
  message_to_bytes m = Some buf /\ w_out w' = w_out w ++ [buf] /\
  exists d, w_calls w' = w_calls w ++ [ResponseSent (message_response_code m); Latency d].

Lemma send_reply_sent {A} start m buf (a : A) w :
  message_to_bytes m = Some buf ->
  let '(r, w') := (io_send env buf;; io_record (ResponseSent (message_response_code m));;
                   record_elapsed env start;; mret a) w in
  (exists e, r = Done (Err e)) \/ (r = Done (Ok a) /\ sent w w' m buf).
Proof.
  intros Hm. unfold io_send, mbind, io_bind. destruct (env_send_ok env (w_sends w)); cbn; [right|by left; eexists].
  split; [done|]. unfold sent. cbn. split_and!; [done|done|]. eexists. by rewrite <- app_assoc.
Qed.

Lemma send_reply_done start m buf w :
  message_to_bytes m = Some buf ->
  let '(r, w') := (io_send env buf;; io_record (ResponseSent (message_response_code m));;
                   record_elapsed env start) w in
  (exists e, r = Done (Err e)) \/ (r = Done (Ok tt) /\ sent w w' m buf).
Proof.
  intros Hm. unfold io_send, mbind, io_bind. destruct (env_send_ok env (w_sends w)); cbn; [right|by left; eexists].
  split; [done|]. unfold sent. cbn. split_and!; [done|done|]. eexists. by rewrite <- app_assoc.
Qed.

(** What [shed_section] did with a message: nothing to a section that is empty, and a section that
    was removed leaves the message still too large. *)
Definition too_large (section : Message -> list DnsRecord) (take : Message -> Message) (max : Z)
    (t t' : Message) : Prop :=
  section t = [] /\ t' = t \/
  section t ≠ [] /\ t' = take t /\ exists buf, message_to_bytes t' = Some buf /\ max < len buf.

(** One [while] loop: it fails, goes on without the section, or has sent the message. *)
Lemma shed_section_cases section take max start t w :
  (forall m, section (take m) = []) ->
  let '(r, w') := shed_section env 1 section take max start t w in
  (exists e, r = Done (Err e)) \/
  (exists t', r = Done (Ok (inl t')) /\ w' = w /\ section t' = [] /\ too_large section take max t t') \/
  (r = Done (Ok (inr tt)) /\ section t ≠ [] /\ exists buf, len buf <= max /\ sent w w' (take t) buf).
Proof.
  intros Hs. cbn [shed_section]; io_norm. case_bool_decide as Ht.
  { right; left. exists t. split_and!; [done..|by left]. }
  unfold encode_plain; io_norm. destruct (message_to_bytes (take t)) as [buf|] eqn:E; cbn [of_option];
    [|left; by eexists].
  change ((io_lift (Ok buf) ≫= ?k) w) with (k buf w). cbv beta.
  destruct (Z.leb_spec (len buf) max).
  - pose proof (send_reply_sent start (take t) buf (inr tt : Message + unit) w E) as Hr.
    destruct ((io_send env buf;; _) w) as [r w']. destruct Hr as [?|[? ?]]; [by left|right; right]. eauto.
  - rewrite bool_decide_eq_true_2 by done. right. left. exists (take t).
    split_and!; [done|done|done|right]. split_and!; [done|done|by exists buf].
Qed.

(** The message with the first of its sections that has records emptied: the answers, then the
    authority, then the additional records. *)
Definition shed_once (v : MessageView) : option MessageView :=
  if bool_decide (v_answers v ≠ []) then Some (without_answers v)
  else if bool_decide (v_name_servers v ≠ []) then Some (without_name_servers v)
  else if bool_decide (v_additionals v ≠ []) then Some (without_additionals v)
  else None.

(** [m] with its encoding [buf] is what becomes of [t] when one section after the other is shed until
    it fits [max] bytes: each message on the way does not fit, and [m] fits or has nothing to shed. *)
Inductive shed_to (max : Z) : Message -> Message -> list Z -> Prop :=
  | shed_fits t m buf :
      shed_once (message_view t) = Some (message_view m) -> message_to_bytes m = Some buf ->
      len buf <= max -> shed_to max t m buf
  | shed_more t t' large m buf :
      shed_once (message_view t) = Some (message_view t') -> message_to_bytes t' = Some large ->
      max < len large -> shed_to max t' m buf -> shed_to max t m buf
  | shed_nothing t buf :
      shed_once (message_view t) = None -> message_to_bytes t = Some buf -> shed_to max t t buf.

(** The truncated response: the flag, then the shedding. *)
Definition truncates (max : Z) (response m : Message) (buf : list Z) : Prop :=
  exists t, message_view t = with_truncated true (message_view response) /\ shed_to max t m buf.

Lemma shed_once_code v v' : shed_once v = Some v' -> v_response_code v' = v_response_code v.
Proof. unfold shed_once. repeat case_bool_decide; by intros [= <-]. Qed.

Lemma shed_to_code max t m buf : shed_to max t m buf -> message_response_code m = message_response_code t.
Proof.
  unfold message_response_code.
  induction 1 as [t m buf Hs|t t' large m buf Hs Hb Hm Hto ->|]; [by apply shed_once_code..|done].
Qed.

Lemma truncates_code max response m buf :
  truncates max response m buf -> message_response_code m = message_response_code response.
Proof.
  intros (t & Ht & Hto). rewrite (shed_to_code _ _ _ _ Hto). unfold message_response_code. by rewrite Ht.
Qed.

(** A step of the code, a step of the specification. *)
Lemma too_large_shed section take max t t' m buf :
  (section t ≠ [] -> shed_once (message_view t) = Some (message_view (take t))) ->
  too_large section take max t t' -> shed_to max t' m buf -> shed_to max t m buf.
Proof.
  intros Hs [(_ & ->)|(Ht & -> & large & Hl & Hm)] Hto; [done|].
  by eapply shed_more; [apply Hs|exact Hl|exact Hm|].
Qed.

Lemma shed_answers t : message_answers t ≠ [] -> shed_once (message_view t) = Some (message_view (take_answers t)).
Proof using All. intros Ht. unfold shed_once. by rewrite bool_decide_eq_true_2, view_take_answers. Qed.

Lemma shed_name_servers t : message_answers t = [] -> message_name_servers t ≠ [] ->
  shed_once (message_view t) = Some (message_view (take_name_servers t)).
Proof using All.
  intros Ha Ht. unfold shed_once, message_answers in *.
  rewrite Ha, bool_decide_eq_false_2, bool_decide_eq_true_2, view_take_name_servers by (done || tauto). done.
Qed.

Lemma shed_additionals t : message_answers t = [] -> message_name_servers t = [] -> message_additionals t ≠ [] ->
  shed_once (message_view t) = Some (message_view (take_additionals t)).
Proof using All.
  intros Ha Hn Ht. unfold shed_once, message_answers, message_name_servers in *.
  rewrite Ha, Hn, !bool_decide_eq_false_2, bool_decide_eq_true_2, view_take_additionals by (done || tauto). done.
Qed.

Lemma keeps_empty (section section' : Message -> list DnsRecord) take max t t' :
  (forall m, section (take m) = section m) -> too_large section' take max t t' ->
  section t = [] -> section t' = [].
Proof. intros Hk [(_ & ->)|(_ & -> & _)] Ht; [done|by rewrite Hk]. Qed.

Lemma send_truncated_cases max start response w :
  let '(r, w') := send_truncated env max start response w in
  (exists e, r = Done (Err e)) \/
  (r = Done (Ok tt) /\ exists m buf, truncates max response m buf /\ sent w w' m buf).
Proof using All.
  unfold send_truncated; io_norm. set (t := set_truncated true response).
  assert (forall r w' m buf, r = Done (Ok tt) -> shed_to max t m buf -> sent w w' m buf ->
    (exists e, r = Done (Err e)) \/
    (r = Done (Ok tt) /\ exists m buf, truncates max response m buf /\ sent w w' m buf)) as Hend.
  { intros r w' m buf -> Hto Hs. right. split; [done|]. exists m, buf. split; [|done]. exists t.
    split; [|done]. apply view_set_truncated. }
  pose proof (shed_section_cases message_answers take_answers max start t w) as Hc.
  unfold mbind at 1, io_bind at 1. destruct (shed_section env 1 _ _ _ _ t w) as [r w1].
  destruct Hc as [[e ->]|[(t1 & -> & -> & Ha1 & Ht1)|(-> & Ht & buf & Hl & Hs)]].
  { intros m. unfold message_answers. by rewrite view_take_answers. }
  1: left; by eexists.
  2: { apply (Hend _ _ (take_answers t) buf); [done| |done].
       eapply shed_fits; [by apply shed_answers|apply Hs|done]. }
  pose proof (shed_section_cases message_name_servers take_name_servers max start t1 w) as Hc.
  unfold mbind at 1, io_bind at 1. destruct (shed_section env 1 _ _ _ _ t1 w) as [r w1].
  destruct Hc as [[e ->]|[(t2 & -> & -> & Hn2 & Ht2)|(-> & Ht & buf & Hl & Hs)]].
  { intros m. unfold message_name_servers. by rewrite view_take_name_servers. }
  1: left; by eexists.
  2: { apply (Hend _ _ (take_name_servers t1) buf); [done| |done].
       eapply too_large_shed; [apply shed_answers|exact Ht1|].
       eapply shed_fits; [by apply shed_name_servers|apply Hs|done]. }
  assert (message_answers t2 = []) as Ha2.
  { eapply keeps_empty; [|exact Ht2|done]. intros m. unfold message_answers. by rewrite view_take_name_servers. }
  pose proof (shed_section_cases message_additionals take_additionals max start t2 w) as Hc.
  unfold mbind at 1, io_bind at 1. destruct (shed_section env 1 _ _ _ _ t2 w) as [r w1].
  assert (forall m buf, shed_to max t2 m buf -> shed_to max t m buf) as Hto2.
  { intros m buf Hto. eapply too_large_shed; [apply shed_answers|exact Ht1|].
    by eapply too_large_shed; [intros ?; by apply shed_name_servers|exact Ht2|]. }
  destruct Hc as [[e ->]|[(t3 & -> & -> & Hd3 & Ht3)|(-> & Ht & buf & Hl & Hs)]].
  { intros m. unfold message_additionals. by rewrite view_take_additionals. }
  1: left; by eexists.
  2: { apply (Hend _ _ (take_additionals t2) buf); [done|apply Hto2|done].
       eapply shed_fits; [by apply shed_additionals|apply Hs|done]. }
  assert (message_answers t3 = []) as Ha3.
  { eapply keeps_empty; [|exact Ht3|done]. intros m. unfold message_answers. by rewrite view_take_additionals. }
  assert (message_name_servers t3 = []) as Hn3.
  { eapply keeps_empty; [|exact Ht3|done]. intros m. unfold message_name_servers. by rewrite view_take_additionals. }
  unfold encode_plain; io_norm.
  destruct (message_to_bytes t3) as [buf|] eqn:Eb; cbn [of_option]; [|left; by eexists].
  pose proof (send_reply_done start t3 buf w Eb) as Hr.
  change ((io_lift (Ok buf) ≫= ?k) w) with (k buf w). cbv beta.
  destruct ((io_send env buf;; _) w) as [r w1]. destruct Hr as [?|[? ?]]; [by left|].
  apply (Hend _ _ t3 buf); [done| |done]. apply Hto2.
  eapply too_large_shed; [intros ?; by apply shed_additionals|exact Ht3|].
  apply shed_nothing; [|done]. unfold shed_once, message_answers, message_name_servers, message_additionals in *.
  by rewrite Ha3, Hn3, Hd3.
Qed.

(** The metrics of the first question. *)
Definition type_calls (query : Message) : list MetricsCall :=
  match head (message_queries query) with
  | Some question => [QueryType (query_query_type question)]
  | None => []
  end.

Definition query_calls (p : Protocol) (query : Message) : list MetricsCall :=
  QueryReceived p (bool_decide (is_Some (message_extensions query))) :: type_calls query.

(** The world after some calls were recorded. *)
Definition with_calls (cs : list MetricsCall) (w : World) : World :=
  {| w_tick := w_tick w; w_limiter := w_limiter w; w_calls := w_calls w ++ cs; w_sends := w_sends w;
     w_out := w_out w; w_input := w_input w |}.

Lemma record_query_calls {A} p query (k : io A) w :
  (io_record (QueryReceived p (bool_decide (is_Some (message_extensions query))));;
   record_first_type env query;; k) w = k (with_calls (query_calls p query) w).
Proof.
  unfold record_first_type, query_calls, type_calls, with_calls; io_norm.
  destruct (head (message_queries query)) as [q|]; [|done].
  unfold io_record, mbind, io_bind. cbn [w_tick w_limiter w_calls w_sends w_out w_input]. by rewrite <- app_assoc.
Qed.

(** The world after the zone store was read. *)
Definition after_read (w : World) : World :=
  {| w_tick := S (w_tick w); w_limiter := w_limiter w; w_calls := w_calls w; w_sends := w_sends w;
     w_out := w_out w; w_input := w_input w |}.

Lemma run_query_ok start query response w :
  process_query (env_store env (w_tick w)) query = Ok response ->
  run_query env start query w = (Done (Ok response), after_read w).
Proof. intros Hp. unfold run_query; io_norm; unfold io_read_store, mbind, io_bind. cbn. by rewrite Hp. Qed.

Lemma answer_udp_query_cases start query response w :
  process_query (env_store env (w_tick w)) query = Ok response ->
  let '(r, w') := answer_udp_query env start query w in
  (exists e, r = Done (Err e)) \/
  (r = Done (Ok tt) /\ exists full m buf, message_to_bytes response = Some full /\
    (m = response /\ len full <= max_udp_size response \/
     max_udp_size response < len full /\ truncates (max_udp_size response) response m buf) /\
    sent (with_calls (query_calls Udp query) w) w' m buf).
Proof using All.
  intros Hp. unfold answer_udp_query; io_norm. rewrite record_query_calls.
  set (w1 := with_calls (query_calls Udp query) w).
  unfold mbind at 1, io_bind at 1. rewrite (run_query_ok start query response w1) by done.
  unfold encode; io_norm. destruct (message_to_bytes response) as [full|] eqn:Ef; cbn [of_option with_context];
    [|left; by eexists].
  change ((io_lift (Ok full) ≫= ?k) (after_read w1)) with (k full (after_read w1)). cbv beta.
  destruct (Z.ltb_spec (max_udp_size response) (len full)).
  - pose proof (send_truncated_cases (max_udp_size response) start response (after_read w1)) as Hc.
    destruct (send_truncated env (max_udp_size response) start response (after_read w1)) as [r w2].
    destruct Hc as [?|(-> & m & buf & Ht & Hs)]; [by left|]. right. split; [done|].
    exists full, m, buf. split_and!; [done| |done]. right. split_and!; done.
  - pose proof (send_reply_done start response full (after_read w1) Ef) as Hr.
    destruct ((io_send env full;; _) (after_read w1)) as [r w2]. destruct Hr as [?|[-> ?]]; [by left|]. right.
    split; [done|]. exists full, response, full. split_and!; [done|by left|done].
Qed.
End udp.

(** ** Error answers *)

Section errors.
Context `{Hickory} `{!MessageLaws}.

(** A message that carries an identifier and a response code only. *)
Definition bare_view (id : Z) (code : ResponseCode.t) : MessageView :=
  with_response_code code (with_message_type MessageType.Response (with_id id empty_view)).

(** The identifier of a datagram: its first two bytes, or zero. *)
Definition datagram_id (data : list Z) : Z :=
  match data with
  | b0 :: b1 :: _ => u16_from_be_bytes b0 b1
  | _ => 0
  end.

Lemma set_id_from_view data :
  exists m, set_id_from data message_new = Ok m /\ message_view m = with_id (datagram_id data) empty_view.
Proof using All.
  unfold set_id_from, len. destruct data as [|b0 [|b1 data]].
  - exists message_new. split; [done|]. by rewrite view_new.
  - exists message_new. split; [done|]. by rewrite view_new.
  - exists (set_id (u16_from_be_bytes b0 b1) message_new).
    rewrite (proj2 (Z.leb_le 2 _)) by (cbn; lia). split; [done|]. by rewrite view_set_id, view_new.
Qed.

Lemma error_response_view code m id :
  message_view m = with_id id empty_view -> message_view (error_response code m) = bare_view id code.
Proof using All.
  intros Hm. unfold error_response. by rewrite view_set_response_code, view_set_message_type, Hm.
Qed.

Context (env : Env).

(** The world after a limiter check. *)
Lemma within_rate_limit_frame addr w :
  let '(r, w') := io_within_rate_limit env addr w in
  (exists b, r = Done (Ok b)) /\ w_calls w' = w_calls w /\ w_out w' = w_out w.
Proof.
  unfold io_within_rate_limit. destruct (w_limiter w); [|by split; [eexists|]].
  destruct (check_rate_limit _ _ _ _) as [[granted inner'] tick]. by split; [eexists|].
Qed.

(** The datagram that answers a datagram, and what is recorded for it, given the zone store and
    whether the client is within its rate. *)
Inductive udp_answer (zones : ZoneStore) (data : list Z) : bool -> list Z -> list MetricsCall -> Prop :=
  | answer_limited m buf :
      message_to_bytes m = Some buf ->
      message_view m = bare_view (datagram_id data) ResponseCode.Refused ->
      udp_answer zones data false buf [RateLimited]
  | answer_unreadable m buf latency :
      message_from_bytes data = None -> message_to_bytes m = Some buf ->
      message_view m = bare_view (datagram_id data) ResponseCode.FormErr ->
      udp_answer zones data true buf [ErrorSeen; ResponseSent ResponseCode.FormErr; Latency latency]
  | answer_resolved query response full m buf latency :
      message_from_bytes data = Some query -> process_query zones query = Ok response ->
      message_to_bytes response = Some full ->
      (m = response /\ len full <= max_udp_size response \/
       max_udp_size response < len full /\ truncates (max_udp_size response) response m buf) ->
      message_to_bytes m = Some buf ->
      udp_answer zones data true buf
        (query_calls Udp query ++ [ResponseSent (message_response_code response); Latency latency]).

Lemma udp_handler_cases data addr w w' :
  handle_udp_query env data addr w = (Done (Ok tt), w') ->
  exists within w1 buf cs,
    io_within_rate_limit env addr (io_now env w).2 = (Done (Ok within), w1) /\
    udp_answer (env_store env (w_tick w1)) data within buf cs /\
    w_out w' = w_out w ++ [buf] /\ w_calls w' = w_calls w ++ cs.
Proof using All.
  intros Hr. unfold handle_udp_query in Hr; io_norm in Hr. unfold mbind at 1, io_bind at 1 in Hr.
  unfold io_now at 1 in Hr. unfold mbind at 1, io_bind at 1 in Hr.
  pose proof (within_rate_limit_frame addr (io_now env w).2) as Hfr. unfold io_now in Hfr |- *. cbn [snd] in *.
  destruct (io_within_rate_limit env addr _) as [r w1] eqn:Hw. destruct Hfr as ([within ->] & Hc1 & Ho1).
  exists within, w1. cbn in Hc1, Ho1. destruct (set_id_from_view data) as (m0 & Hm0 & Hv0).
  destruct within; cbn [negb] in Hr.
  - destruct (message_from_bytes data) as [query|] eqn:Hf.
    + destruct (process_query (env_store env (w_tick w1)) query) as [response|e|] eqn:Hp.
      * pose proof (answer_udp_query_cases env (env_clock env (w_tick w)) query response w1 Hp) as Hcases.
        rewrite Hr in Hcases. destruct Hcases as [[e He]|(_ & full & m & buf & Hfull & Hm & Hb & Ho & d & Hc)]; [done|].
        assert (message_response_code m = message_response_code response) as Hcode
          by (destruct Hm as [[-> _]|(_ & Ht)]; [done|by eapply truncates_code]).
        exists buf, (query_calls Udp query ++ [ResponseSent (message_response_code response); Latency d]).
        split_and!; [done|by eapply answer_resolved|by rewrite Ho; cbn; rewrite Ho1|].
        rewrite Hc, Hcode. cbn. by rewrite Hc1, <- app_assoc.
      * exfalso. unfold answer_udp_query in Hr; io_norm in Hr. rewrite record_query_calls in Hr.
        unfold run_query in Hr; io_norm in Hr.
        unfold mbind at 1, io_bind at 1 in Hr. unfold mbind at 1, io_bind at 1 in Hr.
        unfold io_read_store in Hr. cbn [with_calls w_tick] in Hr. rewrite Hp in Hr. done.
      * by apply process_query_no_panic in Hp.
    + rewrite Hm0 in Hr. unfold encode in Hr; io_norm in Hr. unfold mbind, io_bind, io_record, io_lift in Hr. cbn in Hr.
      destruct (message_to_bytes (error_response ResponseCode.FormErr m0)) as [buf|] eqn:E; [|done].
      unfold io_send in Hr. cbn in Hr. destruct (env_send_ok env _) in Hr; [|done]. cbn in Hr. injection Hr as <-.
      eexists buf, _. split_and!; [done|eapply answer_unreadable; [done|exact E|by apply error_response_view]| |].
      * cbn. by rewrite Ho1.
      * cbn. rewrite Hc1, <- !app_assoc. reflexivity.
  - rewrite Hm0 in Hr. unfold encode in Hr; io_norm in Hr. unfold mbind, io_bind, io_record, io_lift in Hr. cbn in Hr.
    destruct (message_to_bytes (error_response ResponseCode.Refused m0)) as [buf|] eqn:E; [|done].
    unfold io_send in Hr. cbn in Hr. destruct (env_send_ok env _) in Hr; [|done]. injection Hr as <-.
    exists buf, [RateLimited]. split_and!; [done|eapply answer_limited; [exact E|by apply error_response_view]| |].
    + cbn. by rewrite Ho1.
    + cbn. by rewrite Hc1.
Qed.
End errors.

(** ** TCP connections *)

Section tcp.
Context `{Hickory} (env : Env).

Lemma avoids_send_records e query question rs :
  may_stall env e -> avoids e (send_records env query question rs).
Proof.
  intros He. induction rs as [|r rs IH]; cbn [send_records]; io_norm; [apply avoids_ret|].
  apply avoids_bind; [apply avoids_encode|intros buf]. apply avoids_bind; [by apply send_framed_avoids|by intros _].
Qed.

Lemma avoids_answer_axfr e start query question :
  may_stall env e -> avoids e (answer_axfr env start query question).
Proof.
  intros He. unfold answer_axfr; io_norm. apply avoids_bind; [apply avoids_store|intros store].
  destruct (find_zone _ _); [|walk_avoids].
  apply avoids_bind; [by apply avoids_send_records|intros _]. walk_avoids.
Qed.

Lemma avoids_answer_tcp_query e start query :
  may_stall env e -> avoids e (answer_tcp_query env start query).
Proof.
  intros He. unfold answer_tcp_query; io_norm.
  apply avoids_bind; [apply avoids_record|intros _]. apply avoids_bind; [apply avoids_first_type|intros _].
  destruct (axfr_question query) as [question|]; [|walk_avoids].
  apply avoids_bind; [by apply avoids_answer_axfr|intros _; apply avoids_ret].
Qed.

Lemma avoids_answer_tcp_message e addr start buf :
  may_stall env e -> avoids e (answer_tcp_message env addr start buf).
Proof.
  intros He. unfold answer_tcp_message; io_norm. destruct (message_from_bytes buf) as [query|].
  - apply avoids_bind; [apply avoids_limit|intros within]. destruct (negb within); [walk_avoids|].
    by apply avoids_answer_tcp_query.
  - apply avoids_bind; [apply avoids_record|intros _].
    apply avoids_bind; [apply avoids_lift; intros _; apply set_id_from_no_panic|intros m]. walk_avoids.
Qed.

(** A read returns as many bytes as were asked for. *)
Lemma read_exact_ok t n w r w' : io_read_exact t n w = (Done (Ok r), w') ->
  match r with ReadOk bs => length bs = n | _ => True end.
Proof.
  unfold io_read_exact. destruct (read_events t n (w_input w)) as [r' rest] eqn:E. intros [= <- _].
  destruct r'; try done. by apply read_events_ok in E as [? _].
Qed.

Lemma avoids_bind_value {A B} e (m : io A) (P : A -> Prop) (f : A -> io B) :
  e ≠ ReadsInput ->
  avoids e m -> (forall w a w', m w = (Done (Ok a), w') -> P a) -> (forall a, P a -> avoids e (f a)) ->
  avoids e (m ≫= f).
Proof.
  intros He Hm HP Hf w. specialize (Hm w). specialize (HP w). unfold mbind, io_bind.
  destruct (m w) as [[[a|err|]| |] w'] eqn:E; cbn in *; [|by destruct e..].
  assert (P a) as Ha by by eapply HP. specialize (Hf a Ha w'). by destruct e.
Qed.

(** What remains besides a panic and an endless loop is for [tcp_loop_waits]. *)
Definition plain_fault (e : Fault) : Prop :=
  match e with EndsInPanic | EndsInLoop => True | _ => False end.

Lemma avoids_tcp_iteration e addr t q : plain_fault e -> avoids e (tcp_iteration env addr t q).
Proof.
  intros He. assert (may_stall env e) as Hs by by destruct e.
  assert (e ≠ ReadsInput) as Hr by by intros ->.
  unfold tcp_iteration; io_norm. apply avoids_bind; [apply avoids_now|intros start].
  apply (avoids_bind_value e _ (fun r => match r with ReadOk bs => length bs = 2%nat | _ => True end));
    [done|by apply avoids_read|apply read_exact_ok|].
  intros [bs| | | |] Hbs; [|walk_avoids..|intros w; by destruct e]. destruct bs as [|b0 [|b1 [|]]]; try discriminate.
  change (avoids e (let msg_len := u16_from_be_bytes b0 b1 in
      if (msg_len =? 0) || (MAX_TCP_DNS_PACKET_SIZE <? msg_len) then io_record ErrorSeen;; mret false
      else r ← io_read_exact None (Z.to_nat msg_len);
           match r with
           | ReadOk msg_buf => answer_tcp_message env addr start msg_buf
           | ReadBlocked => io_block
           | _ => io_lift (Err (EContext "Failed to read DNS message" [] EForeign))
           end)). cbv zeta.
  destruct (_ || _); [walk_avoids|]. apply avoids_bind; [by apply avoids_read|]. intros [bs| | | |].
  - by apply avoids_answer_tcp_message.
  - by apply avoids_lift.
  - by apply avoids_lift.
  - by apply avoids_lift.
  - intros w. by destruct e.
Qed.

(** The counter of handled queries reaches the limit before the fuel runs out. *)
Lemma tcp_loop_ends e fuel addr t max : forall q,
  plain_fault e -> max <= q + Z.of_nat fuel -> avoids e (tcp_loop env fuel addr t max q).
Proof.
  induction fuel as [|fuel IH]; intros q He Hf; cbn [tcp_loop]; io_norm; destruct (Z.leb_spec max q);
    try apply avoids_record; [lia|].
  apply avoids_bind; [by apply avoids_tcp_iteration|]. intros []; [|apply avoids_ret].
  apply IH; [done|lia].
Qed.

(** *** Where a connection waits *)

(** The client goes silent in the middle of a message, after [msgs] whole ones, whose length it has
    announced. *)
Definition silent_in_message (limit : Z) (client : list Event) : Prop :=
  exists msgs before header body b0 b1, client = before ++ header ++ body /\
    deframe (length msgs) (received before) = Some msgs /\ Z.of_nat (length msgs) < limit /\
    received header = [b0; b1] /\ u16_from_be_bytes b0 b1 ≠ 0 /\
    falls_silent (Z.to_nat (u16_from_be_bytes b0 b1)) body.

(** A round that goes on has read one message; one that waits does so with a pending write or for the
    rest of a message. *)
Lemma tcp_iteration_waits addr t q w :
  let '(r, w') := tcp_iteration env addr t q w in
  (r = Done (Ok true) -> exists first b0 b1 body, w_input w = first ++ w_input w' /\
    received first = b0 :: b1 :: body /\ length body = Z.to_nat (u16_from_be_bytes b0 b1)) /\
  (r = Blocked -> stalled env w' \/ w_input w' = [] /\ exists header body b0 b1, w_input w = header ++ body /\
    received header = [b0; b1] /\ u16_from_be_bytes b0 b1 ≠ 0 /\
    falls_silent (Z.to_nat (u16_from_be_bytes b0 b1)) body).
Proof.
  unfold tcp_iteration; io_norm. unfold mbind at 1, io_bind at 1. cbn [io_now].
  unfold mbind at 1, io_bind at 1. unfold io_read_exact at 1. cbn [w_input].
  destruct (read_events (Some t) 2 (w_input w)) as [r rest] eqn:E.
  destruct r as [bs| | | |]; [|done..|by apply read_events_blocked in E as [? _]].
  apply read_events_ok in E as (Hl & header & Hi & Hh). rewrite Hi.
  destruct bs as [|b0 [|b1 [|]]]; try discriminate Hl.
  set (w1 := {| w_input := rest |}).
  unfold mbind at 1, io_bind at 1. cbn [io_lift index lookup list_lookup].
  unfold mbind at 1, io_bind at 1. cbn [io_lift index lookup list_lookup].
  cbv zeta. destruct (Z.eqb_spec (u16_from_be_bytes b0 b1) 0) as [|Hz]; [done|].
  destruct (MAX_TCP_DNS_PACKET_SIZE <? _); [done|]. cbn [orb].
  unfold mbind at 1, io_bind at 1. unfold io_read_exact at 1. subst w1; cbn [w_input].
  destruct (read_events None _ rest) as [r rest'] eqn:E'. destruct r as [msg| | | |]; [|done..|].
  - apply read_events_ok in E' as (Hl' & body & -> & Hb).
    match goal with |- context [answer_tcp_message _ addr ?start _ ?w2] =>
      pose proof (avoids_answer_tcp_message ReadsInput addr start msg I w2) as Hk;
      pose proof (avoids_answer_tcp_message (EndsBlocked (stalled env)) addr start msg (fun _ Hs => Hs) w2) as Hs;
      destruct (answer_tcp_message env addr start msg w2) as [r w'] end.
    cbn in Hk, Hs. split.
    + intros ->. exists (header ++ body), b0, b1, msg. rewrite Hk, <- app_assoc, received_app, Hh, Hb. done.
    + intros ->. by left.
  - apply read_events_blocked in E' as (_ & -> & Hf). split; [done|]. intros _. right. split; [done|].
    by exists header, rest, b0, b1.
Qed.

Lemma tcp_loop_waits fuel addr t max : forall q w,
  let '(r, w') := tcp_loop env fuel addr t max q w in
  r = Blocked -> stalled env w' \/ w_input w' = [] /\ silent_in_message (max - q) (w_input w).
Proof.
  induction fuel as [|fuel IH]; intros q w; cbn [tcp_loop]; io_norm; destruct (Z.leb_spec max q); try done.
  unfold mbind, io_bind. pose proof (tcp_iteration_waits addr t q w) as Hit.
  destruct (tcp_iteration env addr t q w) as [[[[]| |]| |] w1]; try done; destruct Hit as [Hon Hwait].
  - destruct (Hon eq_refl) as (first & b0 & b1 & body & Hi & Hf & Hl). specialize (IH (q + 1) w1).
    destruct (tcp_loop env fuel addr t max (q + 1) w1) as [r w2]. intros ->.
    destruct (IH eq_refl) as [?|(? & msgs & before & header & rest & c0 & c1 & Hb & Hd & Hm & Hrest)]; [by left|].
    right. split; [done|]. exists (body :: msgs), (first ++ before), header, rest, c0, c1.
    rewrite Hi, Hb, <- app_assoc. split; [done|]. split; [|split; [cbn [length]; lia|done]].
    rewrite received_app, Hf. cbn [deframe length app]. rewrite <- Hl, length_app, bool_decide_eq_false_2 by lia.
    by rewrite drop_app_length, take_app_length, Hd.
  - intros _. destruct (Hwait eq_refl) as [?|(? & header & body & b0 & b1 & Hi & Hrest)]; [by left|right].
    split; [done|]. exists [], [], header, body, b0, b1. split_and!; [done|done|cbn [length]; lia|apply Hrest..].
Qed.

(** *** What a connection records *)

(** Counts that the walk through the handlers establishes for a kind of call. *)
Lemma records_read p t n : records p 0 (io_read_exact t n).
Proof. apply records_none; [done|]. intros w. unfold io_read_exact. by destruct (read_events t n (w_input w)). Qed.
Lemma records_now p : records p 0 (io_now env).
Proof. by apply records_none. Qed.
Lemma records_store p g : records p 0 (io_read_store env g).
Proof. by apply records_none. Qed.
Lemma records_lift {A} p (o : outcome A) : records p 0 (io_lift o).
Proof. by apply records_none. Qed.
Lemma records_ret {A} p (a : A) : records p 0 (mret a).
Proof. by apply records_none. Qed.
Lemma records_block {A} p : records p 0 (@io_block A).
Proof. by apply records_none. Qed.
Lemma records_write p buf : records p 0 (io_write_all env buf).
Proof. by apply records_none. Qed.
Lemma records_limit p addr : records p 0 (io_within_rate_limit env addr).
Proof.
  apply records_none; [done|]. intros w. unfold io_within_rate_limit. destruct (w_limiter w); [|done].
  by destruct (check_rate_limit _ _ _ _) as [[granted inner'] tick].
Qed.

Context (p : MetricsCall -> bool).
(** Calls that only start and end of a query and of a connection make. *)
Context (Hp : forall c, match c with QueryReceived _ _ | TcpConnectionClosed _ => True | _ => p c = false end).

Lemma records_other c :
  match c with QueryReceived _ _ | TcpConnectionClosed _ => False | _ => True end -> records p 0 (io_record c).
Proof using Hp.
  intros Hc. pose proof (records_record p c) as Hr. specialize (Hp c). destruct c; try done; by rewrite Hp in Hr.
Qed.

Lemma records_first_type query : records p 0 (record_first_type env query).
Proof using Hp. unfold record_first_type; io_norm. destruct (head _); [by apply records_other|apply records_ret]. Qed.

Lemma records_elapsed start : records p 0 (record_elapsed env start).
Proof using Hp. apply records_bind_0; [done|apply records_now|intros t]. by apply records_other. Qed.

Lemma records_run_query start query : records p 0 (run_query env start query).
Proof using Hp.
  apply records_bind_0; [done|apply records_store|intros store].
  destruct (process_query store query); try apply records_lift.
  apply records_bind_0; [done|by apply records_other|intros _].
  apply records_bind_0; [done|apply records_elapsed|intros _; apply records_lift].
Qed.

Lemma records_framed buf : records p 0 (send_framed env buf).
Proof. apply records_bind_0; [done|apply records_write|intros _; apply records_write]. Qed.

(** Walks through the steps of a handler that record nothing counted. *)
Ltac walk_records :=
  repeat first
    [ apply records_lift | apply records_ret | apply records_block | apply records_framed
    | apply records_first_type | apply records_elapsed | apply records_run_query | apply records_store
    | apply records_limit | apply records_read | apply records_now
    | apply records_other; exact I
    | apply records_bind_0; [done| |intros ?] ].

Lemma records_answer_axfr start query question : records p 0 (answer_axfr env start query question).
Proof using Hp.
  unfold answer_axfr; io_norm. apply records_bind_0; [done|apply records_store|intros store].
  destruct (find_zone _ _) as [zone|]; [|walk_records].
  apply records_bind_0; [done| |intros _; walk_records].
  induction (get_all_records zone) as [|r rs IH]; cbn [send_records]; io_norm; [walk_records|].
  apply records_bind_0; [done|apply records_lift|intros buf].
  apply records_bind_0; [done|apply records_framed|by intros _].
Qed.

Definition query_weight : Z := if p (QueryReceived Tcp true) || p (QueryReceived Tcp false) then 1 else 0.

Lemma records_query e : records p query_weight (io_record (QueryReceived Tcp e)).
Proof.
  eapply records_weaken; [|apply records_record]. unfold query_weight.
  destruct e, (p (QueryReceived Tcp true)), (p (QueryReceived Tcp false)); done.
Qed.

Lemma records_answer_tcp_message addr start buf :
  records p query_weight (answer_tcp_message env addr start buf).
Proof using Hp.
  assert (0 <= query_weight) as Hw by (unfold query_weight; destruct (_ || _); lia).
  unfold answer_tcp_message; io_norm. destruct (message_from_bytes buf) as [query|].
  - apply records_bind_0; [done|apply records_limit|intros within]. destruct (negb within).
    + apply (records_weaken _ 0); [done|]. walk_records.
    + unfold answer_tcp_query; io_norm. rewrite <- (Z.add_0_r query_weight).
      apply records_bind; [done|apply records_query|intros _].
      apply records_bind_0; [done|apply records_first_type|intros _].
      destruct (axfr_question query) as [question|]; [|walk_records].
      apply records_bind_0; [done|apply records_answer_axfr|intros _; apply records_ret].
  - apply (records_weaken _ 0); [done|]. walk_records.
Qed.
End tcp.

(** *** Queries and closings of a connection *)

Section connection.
Context `{Hickory} (env : Env).

Definition is_closed (c : MetricsCall) : bool :=
  match c with TcpConnectionClosed _ => true | _ => false end.

(** How a connection goes on after reading a length. *)
Lemma records_tcp_iteration (p : MetricsCall -> bool) addr t q :
  (forall c, match c with QueryReceived _ _ | TcpConnectionClosed _ => True | _ => p c = false end) ->
  forall w, exists cs, w_calls (tcp_iteration env addr t q w).2 = w_calls w ++ cs /\
    count p cs <= match (tcp_iteration env addr t q w).1 with
                  | Done (Ok true) => query_weight p
                  | _ => Z.max (query_weight p) (if p (TcpConnectionClosed q) then 1 else 0)
                  end.
Proof.
  intros Hp w. set (b := match _ with Done (Ok true) => _ | _ => _ end).
  assert (0 <= query_weight p <= b) as Hb.
  { subst b. unfold query_weight.
    destruct (_ || _), ((tcp_iteration env addr t q w).1) as [[[]| |]| |], (p (TcpConnectionClosed q)); cbn; lia. }
  assert ((tcp_iteration env addr t q w).1 ≠ Done (Ok true) -> (if p (TcpConnectionClosed q) then 1 else 0) <= b) as Hc.
  { subst b. destruct ((tcp_iteration env addr t q w).1) as [[[]| |]| |]; (done || lia). }
  assert (count p [] <= b) as Hb0 by (change (count p []) with 0; lia).
  clearbody b. revert Hc. unfold tcp_iteration; io_norm; unfold mbind, io_bind. cbn [io_now].
  unfold io_read_exact. cbn [w_input]. destruct (read_events (Some t) 2 (w_input w)) as [r1 rest1].
  assert (forall c, match c with QueryReceived _ _ | TcpConnectionClosed _ => False | _ => True end -> p c = false) as Hp'.
  { intros c. specialize (Hp c). by destruct c. }
  destruct r1 as [bs| | | |]; cbn; intros Hc.
  - unfold index. destruct (bs !! 0%nat) as [b0|]; cbn; [|exists []; rewrite app_nil_r; split; [done|exact Hb0]].
    destruct (bs !! 1%nat) as [b1|]; cbn; [|exists []; rewrite app_nil_r; split; [done|exact Hb0]].
    destruct (_ || _); cbn.
    + exists [ErrorSeen]. split; [done|]. rewrite count_cons, Hp' by done. exact Hb0.
    + destruct (read_events None _ rest1) as [r2 rest2].
      destruct r2 as [buf| | | |]; cbn; try (exists []; rewrite app_nil_r; split; [done|exact Hb0]).
      match goal with |- exists cs, w_calls (answer_tcp_message _ addr ?start buf ?w1).2 = _ /\ _ =>
        destruct (records_answer_tcp_message env p Hp addr start buf w1) as (cs & Hcs & Hn) end.
      exists cs. split; [exact Hcs|lia].
  - exists [TcpConnectionClosed q]. split; [done|]. rewrite count_cons. specialize (Hc ltac:(done)). change (count p []) with 0. lia.
  - exists [TcpConnectionClosed q]. split; [done|]. rewrite count_cons. specialize (Hc ltac:(done)). change (count p []) with 0. lia.
  - exists [TcpConnectionTimeout; TcpConnectionClosed q]. rewrite <- app_assoc. split; [done|].
    rewrite !count_cons, Hp' by done. specialize (Hc ltac:(done)). change (count p []) with 0. lia.
  - exists []. rewrite app_nil_r. split; [done|exact Hb0].
Qed.

Lemma tcp_loop_queries fuel addr t max : forall q,
  q <= max -> records is_query (max - q) (tcp_loop env fuel addr t max q).
Proof.
  induction fuel as [|fuel IH]; intros q Hq; cbn [tcp_loop]; io_norm; destruct (Z.leb_spec max q).
  - apply (records_weaken _ 0); [lia|]. apply (records_record is_query (TcpConnectionClosed q)).
  - by apply records_none; [lia|].
  - apply (records_weaken _ 0); [lia|]. apply (records_record is_query (TcpConnectionClosed q)).
  - replace (max - q) with (1 + (max - (q + 1))) by lia. apply records_bind; [lia| |].
    + intros w. destruct (records_tcp_iteration is_query addr t q) with (w := w) as (cs & Hcs & Hn).
      { by intros []. }
      exists cs. split; [exact Hcs|]. unfold query_weight in Hn. cbn in Hn.
      destruct ((tcp_iteration env addr t q w).1) as [[[]| |]| |]; lia.
    + intros []; [apply IH; lia|]. apply (records_weaken _ 0); [lia|]. by apply records_none.
Qed.

Lemma tcp_loop_closed fuel addr t max : forall q, records is_closed 1 (tcp_loop env fuel addr t max q).
Proof.
  induction fuel as [|fuel IH]; intros q; cbn [tcp_loop]; io_norm; destruct (Z.leb_spec max q).
  - apply (records_record is_closed (TcpConnectionClosed q)).
  - by apply records_none.
  - apply (records_record is_closed (TcpConnectionClosed q)).
  - intros w. destruct (records_tcp_iteration is_closed addr t q) with (w := w) as (cs & Hcs & Hn).
    { by intros []. }
    unfold mbind, io_bind. unfold query_weight in Hn. cbn in Hn.
    destruct (tcp_iteration env addr t q w) as [[[[]|e|]| |] w1]; cbn in *;
      try (exists cs; split; [done|lia]).
    destruct (IH (q + 1) w1) as (cs' & Hcs' & Hn'). exists (cs ++ cs').
    rewrite Hcs', Hcs, app_assoc, count_app. split; [done|lia].
Qed.

(** *** What a connection writes *)

(** Walks through the steps of a handler that write nothing or frames. *)
Ltac walk_writes :=
  repeat lazymatch goal with
    | |- writes_frames _ (encode _ _ _ ≫= _) => apply encode_send_writes; intros ?
    | |- writes_frames _ (_ ≫= _) => apply writes_bind; [|intros ?]
    | |- _ => by apply writes_none
    end.

Lemma writes_limit addr : writes_frames env (io_within_rate_limit env addr).
Proof.
  apply writes_none. intros w. unfold io_within_rate_limit. destruct (w_limiter w); [|done].
  by destruct (check_rate_limit _ _ _ _) as [[granted inner'] tick].
Qed.

Lemma writes_read t n : writes_frames env (io_read_exact t n).
Proof. apply writes_none. intros w. unfold io_read_exact. by destruct (read_events t n (w_input w)). Qed.

Lemma writes_first_type query : writes_frames env (record_first_type env query).
Proof. apply writes_none. intros w. unfold record_first_type; io_norm. by destruct (head _). Qed.

Lemma writes_run_query start query : writes_frames env (run_query env start query).
Proof.
  apply writes_none. intros w. unfold run_query; io_norm; unfold io_read_store, mbind, io_bind.
  by destruct (process_query (env_store env (w_tick w)) query).
Qed.

Lemma writes_answer_axfr start query question : writes_frames env (answer_axfr env start query question).
Proof.
  unfold answer_axfr; io_norm. apply writes_bind; [by apply writes_none|intros store].
  destruct (find_zone _ _) as [zone|]; [|walk_writes].
  apply writes_bind; [|intros _; walk_writes].
  induction (get_all_records zone) as [|r rs IH]; cbn [send_records]; io_norm; [by apply writes_none|].
  apply encode_send_writes; by intros _.
Qed.

Lemma writes_answer_tcp_message addr start buf : writes_frames env (answer_tcp_message env addr start buf).
Proof.
  unfold answer_tcp_message; io_norm. destruct (message_from_bytes buf) as [query|]; [|walk_writes].
  apply writes_bind; [apply writes_limit|intros within]. destruct (negb within); [walk_writes|].
  unfold answer_tcp_query; io_norm. apply writes_bind; [by apply writes_none|intros _].
  apply writes_bind; [apply writes_first_type|intros _].
  destruct (axfr_question query) as [question|].
  - apply writes_bind; [apply writes_answer_axfr|intros _; by apply writes_none].
  - apply writes_bind; [apply writes_run_query|intros response]. walk_writes.
Qed.

Lemma writes_tcp_iteration addr t q : writes_frames env (tcp_iteration env addr t q).
Proof.
  unfold tcp_iteration; io_norm. apply writes_bind; [by apply writes_none|intros start].
  apply writes_bind; [apply writes_read|]. intros [bs| | | |]; try (by apply writes_none).
  do 2 (apply writes_bind; [by apply writes_none|intros ?]). destruct (_ || _); [by apply writes_none|].
  apply writes_bind; [apply writes_read|]. intros [buf| | | |]; try (by apply writes_none).
  apply writes_answer_tcp_message.
Qed.

Lemma writes_tcp_loop fuel addr t max : forall q, writes_frames env (tcp_loop env fuel addr t max q).
Proof.
  induction fuel as [|fuel IH]; intros q; cbn [tcp_loop]; io_norm; destruct (max <=? q); try (by apply writes_none).
  apply writes_bind; [apply writes_tcp_iteration|]. intros []; [apply IH|by apply writes_none].
Qed.
End connection.

(** ** Conversations *)

Section conversation.
Context `{Hickory} (env : Env).
Context (Hok : forall n, env_write env n = Goes).

(** One query of a client with what the server makes of it. *)
Record Exchange := {
  ex_bytes : list Z;
  ex_query : Message;
  ex_response : Message;
  ex_reply : list Z
}.

(** A well-formed query that is no zone transfer, and the answer of [process_query] to it. *)
Definition exchange_ok (x : Exchange) : Prop :=
  1 <= len (ex_bytes x) <= MAX_TCP_DNS_PACKET_SIZE /\
  message_from_bytes (ex_bytes x) = Some (ex_query x) /\
  axfr_question (ex_query x) = None /\
  (forall n, process_query (env_store env n) (ex_query x) = Ok (ex_response x)) /\
  message_to_bytes (ex_response x) = Some (ex_reply x).

(** What the client sends. *)
Definition request_events (x : Exchange) : list Event :=
  map Byte (u16_to_be_bytes (len (ex_bytes x)) ++ ex_bytes x).

Definition is_latency (c : MetricsCall) : bool := match c with Latency _ => true | _ => false end.
Definition without_latency (cs : list MetricsCall) : list MetricsCall :=
  List.filter (fun c => negb (is_latency c)) cs.

(** What is recorded, the latencies apart. *)
Definition exchange_calls (x : Exchange) : list MetricsCall :=
  query_calls Tcp (ex_query x) ++ [ResponseSent (message_response_code (ex_response x))].

Lemma read_events_bytes t bs rest :
  read_events t (length bs) (map Byte bs ++ rest) = (ReadOk bs, rest).
Proof. induction bs as [|b bs IH]; cbn; [by destruct rest|]. by rewrite IH. Qed.

Lemma without_latency_app l1 l2 : without_latency (l1 ++ l2) = without_latency l1 ++ without_latency l2.
Proof. apply List.filter_app. Qed.

Lemma query_calls_no_latency p q : without_latency (query_calls p q) = query_calls p q.
Proof. unfold query_calls, type_calls. by destruct (head (message_queries q)). Qed.

(** The answer to a rate-limited query. *)
Definition refusal (query : Message) : Message :=
  error_response ResponseCode.Refused (set_id (message_id query) message_new).
Context (Henc : forall query, is_Some (message_to_bytes (refusal query))).

(** The limiter asked at a moment, if there is one: what it says, its state and the moment after. *)
Definition limiter_says (addr : IpAddr) (tick : nat) (limiter : option RateLimiterInner)
    : bool * option RateLimiterInner * nat :=
  match limiter with
  | None => (true, None, tick)
  | Some inner =>
      let '(granted, inner, tick) :=
        check_rate_limit (env_clock env) tick (env_others env tick inner) addr in
      (granted, Some inner, tick)
  end.

(** What it says to up to [n] queries of a connection, one after the other, until it refuses one.
    The clock is read before it is asked; the zone store and again the clock are read after it has
    let a query through. *)
Fixpoint verdicts (addr : IpAddr) (n : nat) (tick : nat) (limiter : option RateLimiterInner) : list bool :=
  match n with
  | O => []
  | S n =>
      let '(granted, limiter, tick) := limiter_says addr (S tick) limiter in
      granted :: (if granted then verdicts addr n (S (S tick)) limiter else [])
  end.

Lemma verdicts_unlimited addr n : forall tick, verdicts addr n tick None = replicate n true.
Proof. induction n as [|n IH]; intros tick; [done|]. cbn. by rewrite IH. Qed.

(** What the server has done with a query between two states, given what the limiter said: answered
    it, or refused it and written its last message. *)
Definition exchange_done (x : Exchange) (within : bool) (w w' : World) : Prop :=
  if within then
    w_out w' = w_out w ++ frame (ex_reply x) /\
    without_latency (w_calls w') = without_latency (w_calls w) ++ exchange_calls x
  else
    exists buf, message_to_bytes (refusal (ex_query x)) = Some buf /\ w_out w' = w_out w ++ frame buf /\
      without_latency (w_calls w') =
        without_latency (w_calls w) ++ [RateLimited; ResponseSent ResponseCode.Refused].

Lemma limit_keeps addr w : exists within w1, io_within_rate_limit env addr w = (Done (Ok within), w1) /\
  w_out w1 = w_out w /\ w_calls w1 = w_calls w /\ w_input w1 = w_input w /\
  limiter_says addr (w_tick w) (w_limiter w) = (within, w_limiter w1, w_tick w1).
Proof.
  unfold io_within_rate_limit, limiter_says. destruct (w_limiter w) as [inner|] eqn:E.
  - destruct (check_rate_limit _ _ _ _) as [[granted inner'] tick]. by do 2 eexists.
  - exists true, w. by rewrite E.
Qed.

(** A query was put to the limiter and dealt with as it said; after an answer the clock and the zone
    store were read once more each. *)
Definition dealt_with (addr : IpAddr) (x : Exchange) (tick : nat) (within : bool) (w w' : World) : Prop :=
  exchange_done x within w w' /\
  exists tick', limiter_says addr tick (w_limiter w) = (within, w_limiter w', tick') /\
    (within = true -> w_tick w' = S (S tick')).

Lemma answer_exchange addr start x w :
  exchange_ok x ->
  exists within w', answer_tcp_message env addr start (ex_bytes x) w = (Done (Ok within), w') /\
    w_input w' = w_input w /\ dealt_with addr x (w_tick w) within w w'.
Proof using Hok Henc.
  intros (_ & Hf & Ha & Hp & Hr). unfold answer_tcp_message; io_norm. rewrite Hf.
  destruct (limit_keeps addr w) as (within & w0 & Hw & Ho & Hc & Hi & Hl).
  unfold mbind at 1, io_bind at 1. rewrite Hw. destruct within; cbn [negb].
  - unfold answer_tcp_query; io_norm. rewrite record_query_calls, Ha.
    set (w1 := with_calls (query_calls Tcp (ex_query x)) w0).
    unfold mbind at 1, io_bind at 1. rewrite (run_query_ok env start _ (ex_response x) w1) by apply Hp.
    unfold encode; io_norm. rewrite Hr. cbn [of_option with_context].
    unfold send_framed, record_elapsed; io_norm; unfold io_lift, io_write_all, io_now, io_record, mbind, io_bind, mret, io_ret.
    cbn. rewrite !Hok. cbn. do 2 eexists. split; [reflexivity|]. split; [done|].
    split; [|by eexists]. unfold exchange_done. cbn.
    rewrite Ho, Hc, <- app_assoc. split; [done|].
    rewrite !without_latency_app, query_calls_no_latency. cbn. unfold exchange_calls.
    by rewrite app_nil_r, <- app_assoc.
  - destruct (Henc (ex_query x)) as [buf Hb]. unfold encode; io_norm. fold (refusal (ex_query x)). rewrite Hb.
    cbn [of_option with_context].
    unfold send_framed, record_elapsed; io_norm; unfold io_lift, io_write_all, io_now, io_record, mbind, io_bind, mret, io_ret.
    cbn. rewrite !Hok. cbn. do 2 eexists. split; [reflexivity|]. split; [done|]. split; [|by eexists].
    exists buf. cbn. rewrite Ho, Hc, <- app_assoc. split_and!; [done|done|].
    rewrite !without_latency_app. cbn. by rewrite app_nil_r, <- app_assoc.
Qed.

Lemma tcp_iteration_exchange addr t q x rest w :
  exchange_ok x -> w_input w = request_events x ++ rest ->
  exists within w', tcp_iteration env addr t q w = (Done (Ok within), w') /\
    w_input w' = rest /\ dealt_with addr x (S (w_tick w)) within w w'.
Proof using Hok Henc.
  intros Hx Hi. pose proof Hx as (Hlen & _). unfold MAX_TCP_DNS_PACKET_SIZE in Hlen.
  unfold tcp_iteration; io_norm. unfold mbind at 1, io_bind at 1. cbn [io_now].
  unfold mbind at 1, io_bind at 1. unfold io_read_exact at 1. cbn [w_input]. rewrite Hi.
  unfold request_events. rewrite map_app, <- app_assoc.
  rewrite (read_events_bytes _ (u16_to_be_bytes (len (ex_bytes x)))).
  set (w1 := {| w_input := map Byte (ex_bytes x) ++ rest |}).
  unfold mbind at 1, io_bind at 1. cbn [io_lift index u16_to_be_bytes lookup list_lookup].
  unfold mbind at 1, io_bind at 1. cbn [io_lift index u16_to_be_bytes lookup list_lookup].
  assert (u16_from_be_bytes (len (ex_bytes x) / 256) (len (ex_bytes x) mod 256) = len (ex_bytes x)) as ->
    by (apply (u16_be_roundtrip (len (ex_bytes x))); unfold in_u; lia).
  cbv zeta. unfold MAX_TCP_DNS_PACKET_SIZE.
  rewrite (proj2 (Z.eqb_neq _ 0)), (proj2 (Z.ltb_ge 65535 _)) by lia. cbn [orb].
  unfold mbind at 1, io_bind at 1. unfold io_read_exact at 1.
  assert (Z.to_nat (len (ex_bytes x)) = length (ex_bytes x)) as -> by (unfold len; lia).
  subst w1. cbn [w_input]. rewrite read_events_bytes.
  match goal with |- context [answer_tcp_message _ addr ?start _ ?w2] =>
    destruct (answer_exchange addr start x w2 Hx) as (within & w' & -> & Hi' & Hd) end.
  by exists within, w'.
Qed.

(** The loop answers queries until the client closes, the limit is reached, or one is refused. *)
Definition session_done (q : Z) (served refused : list Exchange) (w w' : World) : Prop :=
  match refused with
  | [] =>
      w_out w' = w_out w ++ flat_map (fun x => frame (ex_reply x)) served /\
      without_latency (w_calls w') =
        without_latency (w_calls w) ++ flat_map exchange_calls served
        ++ [TcpConnectionClosed (q + Z.of_nat (length served))]
  | x :: _ =>
      exists buf, message_to_bytes (refusal (ex_query x)) = Some buf /\
        w_out w' = w_out w ++ flat_map (fun x => frame (ex_reply x)) served ++ frame buf /\
        without_latency (w_calls w') =
          without_latency (w_calls w) ++ flat_map exchange_calls served
          ++ [RateLimited; ResponseSent ResponseCode.Refused]
  end.

Lemma session_step q x served refused w w1 w' :
  exchange_done x true w w1 -> session_done (q + 1) served refused w1 w' ->
  session_done q (x :: served) refused w w'.
Proof.
  intros (Ho & Hc) Hs. unfold session_done in *. destruct refused as [|x' refused].
  - destruct Hs as [-> ->]. cbn [flat_map length]. rewrite Ho, Hc, <- !app_assoc. split; [done|].
    assert (q + 1 + Z.of_nat (length served) = q + Z.of_nat (S (length served))) as -> by lia. done.
  - destruct Hs as (buf & Hb & -> & ->). exists buf. cbn [flat_map]. by rewrite Ho, Hc, <- !app_assoc.
Qed.

(** The limiter let the [served] through and refused the first of the [refused]. *)
Definition as_limited (addr : IpAddr) (served refused : list Exchange) (w : World) : Prop :=
  verdicts addr (length (served ++ refused)) (w_tick w) (w_limiter w) =
  replicate (length served) true ++ match refused with [] => [] | _ => [false] end.

Lemma unlimited_serves_all (served refused : list Exchange) :
  replicate (length (served ++ refused)) true =
    replicate (length served) true ++ match refused with [] => [] | _ => [false] end ->
  refused = [].
Proof.
  rewrite length_app, replicate_add. intros Hr%app_inv_head. by destruct refused.
Qed.

Lemma tcp_loop_exchanges addr t max xs : forall fuel q w,
  Forall exchange_ok xs -> w_input w = flat_map request_events xs ++ [Close] ->
  (length xs < fuel)%nat -> q + Z.of_nat (length xs) <= max ->
  exists served refused w', xs = served ++ refused /\ as_limited addr served refused w /\
    tcp_loop env fuel addr t max q w = (Done (Ok tt), w') /\ session_done q served refused w w'.
Proof using Hok Henc.
  induction xs as [|x xs IH]; intros fuel q w Hxs Hi Hf Hm; (destruct fuel as [|fuel]; [lia|]);
    cbn [tcp_loop]; io_norm.
  - exists [], []. cbn [session_done length]. rewrite Z.add_0_r. destruct (Z.leb_spec max q).
    + eexists. split_and!; [done|done|reflexivity|..]; cbn; by rewrite ?app_nil_r, ?without_latency_app.
    + unfold tcp_iteration; io_norm. unfold mbind, io_bind. cbn [io_now io_read_exact w_input]. unfold io_read_exact.
      cbn [w_input]. rewrite Hi. cbn. eexists. split_and!; [done|done|reflexivity|..]; cbn;
        by rewrite ?app_nil_r, ?without_latency_app.
  - apply Forall_cons in Hxs as [Hx Hxs]. cbn [length] in *. rewrite (proj2 (Z.leb_gt max q)) by lia.
    cbn [flat_map] in Hi. rewrite <- app_assoc in Hi.
    destruct (tcp_iteration_exchange addr t q x _ w Hx Hi)
      as (within & w1 & Hit & Hi1 & Hd & tick' & Hsays & Htick).
    unfold mbind, io_bind. rewrite Hit. destruct within.
    + destruct (IH fuel (q + 1) w1 Hxs Hi1) as (served & refused & w' & -> & Hl & -> & Hs); [lia|lia|].
      exists (x :: served), refused, w'. split_and!; [done| |done|by eapply session_step].
      unfold as_limited in *. cbn [app length verdicts replicate]. rewrite Hsays, <- Htick, Hl by done. done.
    + exists [], (x :: xs), w1. split_and!; [done| |done|exact Hd].
      unfold as_limited. cbn [app length verdicts replicate]. by rewrite Hsays.
Qed.
End conversation.

Section axfr.
Context `{Hickory} `{!MessageLaws} (env : Env).

(** The message of a zone transfer for one of the records. *)
Definition transfer_view (query : Message) (question : Query) (r : DnsRecord) : MessageView :=
  {| v_id := message_id query; v_message_type := MessageType.Response; v_op_code := OpCode.Query;
     v_authoritative := true; v_truncated := false; v_recursion_desired := false;
     v_recursion_available := false; v_response_code := ResponseCode.NoError; v_queries := [question];
     v_answers := [r]; v_name_servers := []; v_additionals := []; v_extensions := None |}.

(** What is due to a request for a zone transfer: a message for every record, or a refusal. *)
Definition transfer_views (query : Message) (question : Query) (zone : option Zone) : list MessageView :=
  match zone with
  | Some zone => transfer_view query question <$> get_all_records zone
  | None =>
      [ {| v_id := message_id query; v_message_type := MessageType.Response; v_op_code := OpCode.Query;
           v_authoritative := false; v_truncated := false; v_recursion_desired := false;
           v_recursion_available := false; v_response_code := ResponseCode.Refused;
           v_queries := [question]; v_answers := []; v_name_servers := []; v_additionals := [];
           v_extensions := None |} ]
  end.

(** [buf] encodes a message with the view. *)
Definition encodes (v : MessageView) (buf : list Z) : Prop :=
  exists m, message_view m = v /\ message_to_bytes m = Some buf.

Lemma axfr_message_view query question r :
  message_view (axfr_message query question r) = transfer_view query question r.
Proof using All.
  unfold axfr_message. by rewrite view_add_answer, view_add_query, view_set_authoritative,
    view_set_op_code, view_set_message_type, view_set_id, view_new.
Qed.

Context (Hok : forall n, env_write env n = Goes).

Lemma send_framed_ok {A} buf (k : io A) w : exists w1,
  (send_framed env buf;; k) w = k w1 /\ w_out w1 = w_out w ++ frame buf /\ w_calls w1 = w_calls w.
Proof using Hok.
  unfold send_framed; io_norm; unfold io_write_all, mbind, io_bind. rewrite Hok. cbn. rewrite Hok. cbn.
  eexists. split; [reflexivity|]. cbn. by rewrite <- app_assoc.
Qed.

Lemma send_records_ok query question rs : forall w,
  (forall m, message_view m ∈ transfer_view query question <$> rs -> is_Some (message_to_bytes m)) ->
  exists bufs w', send_records env query question rs w = (Done (Ok tt), w') /\
    Forall2 encodes (transfer_view query question <$> rs) bufs /\
    w_out w' = w_out w ++ flat_map frame bufs /\ w_calls w' = w_calls w.
Proof using All.
  induction rs as [|r rs IH]; intros w Henc.
  - exists [], w. split_and!; [done|constructor| |done]. cbn. by rewrite app_nil_r.
  - destruct (Henc (axfr_message query question r)) as [buf Hbuf]; [rewrite axfr_message_view; left|].
    cbn [send_records]; io_norm. unfold encode; io_norm. rewrite Hbuf. cbn [of_option with_context].
    unfold mbind at 1, io_bind at 1. cbn [io_lift].
    destruct (send_framed_ok buf (send_records env query question rs) w) as (w1 & -> & Ho1 & Hc1).
    destruct (IH w1) as (bufs & w' & Hs & Hall & Ho & Hc); [intros m Hm; apply Henc; by right|].
    exists (buf :: bufs), w'. split_and!; [done| | |by rewrite Hc].
    + constructor; [exists (axfr_message query question r); split; [apply axfr_message_view|done]|done].
    + rewrite Ho, Ho1, <- app_assoc. done.
Qed.

Lemma answer_axfr_ok start query question w :
  let zone := find_zone (env_store env (w_tick w)) (query_name question) in
  let views := transfer_views query question zone in
  (forall m, message_view m ∈ views -> is_Some (message_to_bytes m)) ->
  exists bufs latency w', answer_axfr env start query question w = (Done (Ok tt), w') /\
    Forall2 encodes views bufs /\ w_out w' = w_out w ++ flat_map frame bufs /\
    w_calls w' = w_calls w ++
      [ResponseSent (if zone then ResponseCode.NoError else ResponseCode.Refused); Latency latency].
Proof using All.
  intros zone views Henc. unfold answer_axfr; io_norm. unfold mbind at 1, io_bind at 1. cbn [io_read_store].
  unfold io_read_store. fold zone. subst views. destruct zone as [zone|]; cbn [transfer_views] in Henc |- *.
  - destruct (send_records_ok query question _ (after_read w) Henc) as (bufs & w1 & Hs & Hall & Ho & Hc).
    unfold mbind at 1, io_bind at 1. unfold after_read in Hs. rewrite Hs.
    do 3 eexists. split; [reflexivity|]. split; [exact Hall|]. cbn. by rewrite Ho, Hc, <- app_assoc.
  - set (m := add_query question _).
    assert (message_view m ∈ transfer_views query question None) as Hm.
    { subst m. rewrite view_add_query, (error_response_view _ _ (message_id query)); [by left|].
      by rewrite view_set_id, view_new. }
    destruct (Henc m Hm) as [buf Hbuf]. unfold encode; io_norm. rewrite Hbuf. cbn [of_option with_context].
    unfold mbind at 1, io_bind at 1. cbn [io_lift].
    destruct (send_framed_ok buf (io_record (ResponseSent ResponseCode.Refused);; record_elapsed env start)
      (after_read w)) as (w1 & Hk & Ho1 & Hc1). unfold after_read in Hk at 1. rewrite Hk.
    exists [buf]. do 2 eexists. split; [reflexivity|]. split.
    + constructor; [|constructor]. exists m. split; [by apply list_elem_of_singleton in Hm|done].
    + cbn. by rewrite Ho1, Hc1, <- app_assoc.
Qed.
End axfr.

(** ** How the handlers end *)

Section ends.
Context `{Hickory} (env : Env).

Lemma avoids_send_truncated `{!MessageLaws} e max start response :
  e ≠ ReadsInput -> avoids e (send_truncated env max start response).
Proof.
  intros He w. pose proof (send_truncated_cases env max start response w) as Hc.
  destruct (send_truncated env max start response w) as [r w'].
  destruct Hc as [[err ->]|[-> _]]; destruct e; try done.
Qed.

Lemma avoids_handle_udp `{!MessageLaws} e data addr :
  e ≠ ReadsInput -> avoids e (handle_udp_query env data addr).
Proof.
  intros He.
  unfold handle_udp_query; io_norm. apply avoids_bind; [apply avoids_now|intros start].
  apply avoids_bind; [apply avoids_limit|intros within]. destruct (negb within); [walk_avoids|].
  destruct (message_from_bytes data) as [query|]; [|walk_avoids].
  unfold answer_udp_query; io_norm. apply avoids_bind; [apply avoids_record|intros _].
  apply avoids_bind; [apply avoids_first_type|intros _].
  apply avoids_bind; [apply avoids_run_query|intros response].
  apply avoids_bind; [apply avoids_encode|intros buf].
  destruct (_ <? _); [by apply avoids_send_truncated|walk_avoids].
Qed.

Lemma avoids_handle_tcp e fuel addr cfg :
  plain_fault e ->
  match cfg with Some c => max_queries_per_connection c | None => 100 end <= Z.of_nat fuel ->
  avoids e (handle_tcp_connection env fuel addr cfg).
Proof. intros He Hf. apply avoids_bind; [apply avoids_record|intros _]. by apply tcp_loop_ends. Qed.
End ends.
