(* ===== verification/ServerProps.v ===== *)
(** Theorems about the server: every handler returns, a UDP query is answered by one datagram that
    fits or has lost its sections one after the other, a TCP connection is a sequence of framed answers
    within its limits, a zone transfer streams the zone. *)
From S2P Require Import Prelude RustTime RustStr HashMap Crates CratesModel Zone Fixtures Protocol.
From S2P Require Import RateLimit Metrics MetricsProps Config Effects ServerIO Server ServerFacts ServerLemmas.
Open Scope Z_scope.

Section properties.
Context `{Hickory} (env : Env).

(** On any datagram, in any state, the UDP handler returns: none of its three
    truncation loops runs for ever, it never waits, no access to the datagram is out of range. *)
Theorem udp_handler_returns `{!MessageLaws} (data : list Z) (addr : IpAddr) (w : World) :
  exists o, (handle_udp_query env data addr w).1 = Done o /\ o ≠ Panic.
Proof.
  pose proof (fun e He => avoids_handle_udp env e data addr He w : free_of e w _ _) as Ha.
  pose proof (Ha EndsInPanic ltac:(done)) as Hp. pose proof (Ha (EndsBlocked (fun _ => False)) ltac:(done)) as Hb.
  pose proof (Ha EndsInLoop ltac:(done)) as Hl.
  destruct ((handle_udp_query env data addr w).1) as [o| |]; [|done..].
  exists o. split; [done|]. by intros ->.
Qed.

(** C7 (functional): a query within the rate limit is answered by exactly one datagram.  It is the
    encoded response of [process_query] when that fits the payload size (512 bytes, or the size of
    the response's EDNS option), and otherwise what [truncates] says: the response with the TC flag
    set from which the answers, then the authority, then the additional records are removed, one
    section that has any after the other, as long as it does not fit; when even the one without
    records does not, that one is sent.  The query, its type, the response code and the latency are
    recorded, once each. *)
Theorem udp_query_answered `{!MessageLaws} (data : list Z) (addr : IpAddr) (query response : Message)
    (w w1 w' : World) :
  io_within_rate_limit env addr (io_now env w).2 = (Done (Ok true), w1) ->
  message_from_bytes data = Some query ->
  process_query (env_store env (w_tick w1)) query = Ok response ->
  handle_udp_query env data addr w = (Done (Ok tt), w') ->
  exists full m buf latency, message_to_bytes response = Some full /\
    (m = response /\ len full <= max_udp_size response \/
     max_udp_size response < len full /\ truncates (max_udp_size response) response m buf) /\
    message_to_bytes m = Some buf /\ w_out w' = w_out w ++ [buf] /\
    w_calls w' = w_calls w ++ query_calls Udp query
                 ++ [ResponseSent (message_response_code response); Latency latency].
Proof.
  intros Hw Hf Hp Hr. destruct (udp_handler_cases env data addr w w' Hr) as (within & w2 & buf & cs & Hw2 & Ha & Ho & Hc).
  rewrite Hw in Hw2. injection Hw2 as <- <-. inversion Ha as [| |q r full m buf' latency Hq Hpq Hfull Hm Hb]; subst.
  - congruence.
  - rewrite Hf in Hq. injection Hq as <-. rewrite Hp in Hpq. injection Hpq as <-.
    exists full, m, buf, latency. split_and!; done.
Qed.

(** The two other answers.  A rate-limited datagram gets REFUSED and an unreadable one
    FORMERR, each a message with only the identifier of the first two bytes (zero for shorter ones),
    in exactly one datagram.  The rate-limited one is counted as such and as nothing else; the
    unreadable one as an error, a FORMERR response and a latency. *)
Theorem udp_error_answers `{!MessageLaws} (data : list Z) (addr : IpAddr) (within : bool) (w w1 w' : World) :
  io_within_rate_limit env addr (io_now env w).2 = (Done (Ok within), w1) ->
  within = false \/ message_from_bytes data = None ->
  handle_udp_query env data addr w = (Done (Ok tt), w') ->
  exists m buf latency, message_to_bytes m = Some buf /\ w_out w' = w_out w ++ [buf] /\
    message_view m = bare_view (datagram_id data)
                       (if within then ResponseCode.FormErr else ResponseCode.Refused) /\
    w_calls w' = w_calls w ++
      (if within then [ErrorSeen; ResponseSent ResponseCode.FormErr; Latency latency] else [RateLimited]).
Proof.
  intros Hw Hor Hr. destruct (udp_handler_cases env data addr w w' Hr) as (within' & w2 & buf & cs & Hw2 & Ha & Ho & Hc).
  rewrite Hw in Hw2. injection Hw2 as <- <-.
  inversion Ha as [m buf' Hb Hv|m buf' latency Hf Hb Hv|q r full m buf' latency Hq Hpq Hfull Hm Hb]; subst.
  - by exists m, buf, 0.
  - by exists m, buf, latency.
  - destruct Hor; congruence.
Qed.

(** C19 (termination): a TCP connection ends after at most as many rounds of its loop as its query
    limit allows: with that much fuel the handler never runs out of it, and it never panics.  It
    returns, except in two cases that the code puts no time limit on: its last write stays pending,
    for a client that does not read, or the client, below the query limit and after whole messages
    that the server has read, has announced the length of one more, has gone silent before the end of
    it and keeps the connection open.  A client that is idle between messages, or in the middle of a
    length, is not waited for. *)
Theorem tcp_connection_ends (fuel : nat) (addr : IpAddr) (c : TcpConfig) (w : World) :
  max_queries_per_connection c <= Z.of_nat fuel ->
  let '(r, w') := handle_tcp_connection env fuel addr (Some c) w in
  (exists o, r = Done o /\ o ≠ Panic) \/
  r = Blocked /\
    (stalled env w' \/
     w_input w' = [] /\ silent_in_message (max_queries_per_connection c) (w_input w)).
Proof.
  intros Hf.
  assert (forall e, plain_fault e -> avoids e (handle_tcp_connection env fuel addr (Some c))) as Ha.
  { intros e He. apply avoids_bind; [apply avoids_record|intros _]. by apply tcp_loop_ends. }
  pose proof (Ha EndsInPanic I w) as Hpan. pose proof (Ha EndsInLoop I w) as Hloop.
  pose proof (tcp_loop_waits env fuel addr (from_secs (idle_timeout c)) (max_queries_per_connection c) 0
                (io_record TcpConnection w).2) as Hwait. rewrite Z.sub_0_r in Hwait.
  change (tcp_loop env fuel addr (from_secs (idle_timeout c)) (max_queries_per_connection c) 0
            (io_record TcpConnection w).2) with (handle_tcp_connection env fuel addr (Some c) w) in Hwait.
  destruct (handle_tcp_connection env fuel addr (Some c) w) as [[o| |] w'].
  - left. exists o. split; [done|]. by intros ->.
  - right. split; [done|]. by apply Hwait.
  - done.
Qed.

(** However a connection goes, it handles at most as many queries as its limit allows,
    and it is recorded as opened once and as closed at most once. *)
Theorem tcp_query_limit (fuel : nat) (addr : IpAddr) (c : TcpConfig) (w : World) :
  0 <= max_queries_per_connection c ->
  exists cs, w_calls (handle_tcp_connection env fuel addr (Some c) w).2 = w_calls w ++ TcpConnection :: cs /\
    count is_query cs <= max_queries_per_connection c /\ count is_closed cs <= 1.
Proof.
  intros Hmax. set (w1 := (io_record TcpConnection w).2).
  destruct (tcp_loop_queries env fuel addr (from_secs (idle_timeout c)) _ 0 Hmax w1) as (cs & Hcs & Hq).
  destruct (tcp_loop_closed env fuel addr (from_secs (idle_timeout c)) (max_queries_per_connection c) 0 w1)
    as (cs' & Hcs' & Hc).
  exists cs. assert (cs' = cs) as -> by (rewrite Hcs in Hcs'; by apply app_inv_head in Hcs').
  split; [|lia]. unfold handle_tcp_connection; io_norm. cbn [idle_timeout max_queries_per_connection].
  unfold mbind, io_bind. change (io_record TcpConnection w) with (Done (Ok tt) : result unit, w1). cbv beta iota.
  rewrite Hcs. subst w1. cbn. by rewrite <- app_assoc.
Qed.

(** Whatever the client does, what the server writes on a connection reads back as a
    sequence of messages, each with its own length in front and each the encoding of some message
    (encodings fit 16 bits of length).  Only when a write fails or stays pending can more follow, the
    beginning of one more such message, and then the handler has returned with an error or waits. *)
Theorem tcp_output_framed (fuel : nat) (addr : IpAddr) (cfg : option TcpConfig) (w : World) :
  (forall msg buf, message_to_bytes msg = Some buf -> len buf <= 65535) ->
  let '(r, w') := handle_tcp_connection env fuel addr cfg w in
  exists writes whole cut bufs,
    w_out w' = w_out w ++ writes /\ concat writes = whole ++ cut /\
    deframe (length bufs) whole = Some bufs /\ Forall encoded bufs /\
    (cut = [] \/ broken r /\ cut_short env cut).
Proof.
  intros Hlen. assert (writes_frames env (handle_tcp_connection env fuel addr cfg)) as Hwr.
  { unfold handle_tcp_connection; io_norm. apply writes_bind; [by apply writes_none|intros _].
    by apply writes_tcp_loop. }
  destruct (Hwr w) as (writes & bufs & cut & Ho & Hc & Hall & Hcut).
  destruct (handle_tcp_connection env fuel addr cfg w) as [r w'].
  exists writes, (concat (flat_map frame bufs)), cut, bufs. split_and!; [done|done| |done|done].
  apply deframe_frames; [|done]. eapply Forall_impl; [exact Hall|]. intros b (msg & Hm).
  apply Hlen in Hm. unfold in_u, len in *. lia.
Qed.

(** C29 (functional): a request for a zone transfer over TCP, when its client reads on.  For a zone
    that the server has, every record of [get_all_records] is sent in that order ([transfer_lists_zone]
    says which it gives), each in a framed message of its own: an authoritative response with the
    identifier and the question of the request, and this record as its only one.  For any other name
    one framed REFUSED is sent.  The query, its type, the response code and the latency are recorded,
    once each, and the connection is not read any further. *)
Theorem axfr_streams_zone `{!MessageLaws} (start : Instant) (query : Message) (question : Query) (w : World) :
  (forall n, env_write env n = Goes) -> head (message_queries query) = Some question ->
  query_query_type question = RecordType.AXFR ->
  let zone := find_zone (env_store env (w_tick w)) (query_name question) in
  let views := transfer_views query question zone in
  (forall m, message_view m ∈ views -> is_Some (message_to_bytes m)) ->
  exists bufs latency w', answer_tcp_query env start query w = (Done (Ok false), w') /\
    Forall2 encodes views bufs /\ w_out w' = w_out w ++ flat_map frame bufs /\
    w_calls w' = w_calls w ++ query_calls Tcp query ++
      [ResponseSent (if zone then ResponseCode.NoError else ResponseCode.Refused); Latency latency].
Proof.
  intros Hok Hq Ht zone views Henc. unfold answer_tcp_query; io_norm. rewrite record_query_calls.
  unfold axfr_question. rewrite Hq, bool_decide_eq_true_2 by done.
  destruct (answer_axfr_ok env Hok start query question (with_calls (query_calls Tcp query) w) Henc)
    as (bufs & latency & w' & Ha & Hall & Ho & Hc).
  unfold mbind, io_bind. rewrite Ha. exists bufs, latency, w'. split_and!; [done|done|done|].
  rewrite Hc. cbn [with_calls w_calls]. by rewrite <- app_assoc.
Qed.

(** C8 (functional): queries sent one after the other on a connection, up to the limit of the
    connection, are each put to the rate limiter, if there is one, and answered by the framed response
    of [process_query], in their order, until the limiter refuses one: [verdicts] asks it once per
    query, each time in the state it was left in and that the other tasks have made of it.  The one
    it refuses is answered by a framed REFUSED with its own identifier, counted as rate-limited and
    refused, and the handler returns; otherwise the client closes, and the connection is recorded as
    closed with its number of queries. *)
Theorem tcp_answers_in_order (addr : IpAddr) (c : TcpConfig) (xs : list Exchange) (fuel : nat) (w : World) :
  (forall n, env_write env n = Goes) ->
  (forall query, is_Some (message_to_bytes (refusal query))) ->
  Forall (exchange_ok env) xs -> w_input w = flat_map request_events xs ++ [Close] ->
  (length xs < fuel)%nat -> Z.of_nat (length xs) <= max_queries_per_connection c ->
  exists served refused w', xs = served ++ refused /\ (w_limiter w = None -> refused = []) /\
    verdicts env addr (length xs) (w_tick w) (w_limiter w) =
      replicate (length served) true ++ match refused with [] => [] | _ => [false] end /\
    handle_tcp_connection env fuel addr (Some c) w = (Done (Ok tt), w') /\
    match refused with
    | [] =>
        w_out w' = w_out w ++ flat_map (fun x => frame (ex_reply x)) xs /\
        without_latency (w_calls w') =
          without_latency (w_calls w) ++ [TcpConnection] ++ flat_map exchange_calls xs
          ++ [TcpConnectionClosed (Z.of_nat (length xs))]
    | x :: _ =>
        exists buf, message_to_bytes (refusal (ex_query x)) = Some buf /\
          w_out w' = w_out w ++ flat_map (fun x => frame (ex_reply x)) served ++ frame buf /\
          without_latency (w_calls w') =
            without_latency (w_calls w) ++ [TcpConnection] ++ flat_map exchange_calls served
            ++ [RateLimited; ResponseSent ResponseCode.Refused]
    end.
Proof.
  intros Hok Henc Hxs Hi Hf Hm. set (w1 := (io_record TcpConnection w).2).
  destruct (tcp_loop_exchanges env Hok Henc addr (from_secs (idle_timeout c)) (max_queries_per_connection c)
              xs fuel 0 w1 Hxs Hi Hf Hm) as (served & refused & w' & -> & Hl & Heq & Hs).
  unfold as_limited in Hl. exists served, refused, w'. split_and!; [done| |exact Hl| |].
  - intros Hn. change (w_limiter w1) with (w_limiter w) in Hl. rewrite Hn, verdicts_unlimited in Hl.
    by apply (unlimited_serves_all served).
  - unfold handle_tcp_connection; io_norm. cbn [idle_timeout max_queries_per_connection].
    unfold mbind, io_bind. change (io_record TcpConnection w) with (Done (Ok tt) : result unit, w1). exact Heq.
  - assert (without_latency (w_calls w1) = without_latency (w_calls w) ++ [TcpConnection]) as Hc.
    { subst w1. cbn. by rewrite without_latency_app. }
    unfold session_done in Hs. rewrite Hc in Hs. destruct refused as [|x refused].
    + rewrite app_nil_r. by rewrite <- app_assoc in Hs.
    + destruct Hs as (buf & Hb & Ho & Hcs). exists buf. by rewrite <- app_assoc in Hcs.
Qed.
End properties.

(** * Witnesses *)

Section witnesses.
Import Concrete.

(** A process whose clock ticks every millisecond, with one zone store and no failing write. *)
Definition env_of (store : ZoneStore) : Env :=
  {| env_clock := fun n => Z.of_nat n * 1000000; env_store := fun _ => store;
     env_others := fun _ inner => inner; env_send_ok := fun _ => true;
     env_write := fun _ => Goes |}.

Definition new_world (limiter : option RateLimiterInner) (input : list Event) : World :=
  {| w_tick := 0; w_limiter := limiter; w_calls := []; w_sends := 0; w_out := []; w_input := input |}.

(** Twelve bytes that the concrete codec reads as a query for [www.example.com]; [b2] chooses the
    type, [b3] the EDNS option. *)
Definition query_bytes (id b2 b3 : Z) : list Z := [0; id; b2; b3] ++ replicate 8 0.

Definition message_of (data : list Z) : Message := default message_new (message_from_bytes data).
Definition response_to (store : ZoneStore) (query : Message) : Message :=
  match process_query store query with Ok r => r | _ => message_new end.

(** [www.example.com] with twenty addresses: its answer does not fit 512 bytes. *)
Definition big_store : ZoneStore :=
  add_zone ZoneStore_new
    (fold_left add_record
       ((fun k => record_from_rdata (nm "www.example.com.") 300 (a_rdata 10 0 0 k)) <$> (Z.of_nat <$> seq 0 20))
       create_test_zone).

Lemma udp_handler_returns_witness :
  exists o, (handle_udp_query (env_of test_store) [0; 7; 0] (V4 1) (new_world None [])).1 = Done o /\ o ≠ Panic.
Proof. exact (udp_handler_returns (env_of test_store) [0; 7; 0] (V4 1) (new_world None [])). Defined.

Lemma udp_query_answered_witness :
  let env := env_of big_store in
  let data := query_bytes 7 0 0 in
  let query := message_of data in
  let response := response_to big_store query in
  let w' := (handle_udp_query env data (V4 1) (new_world None [])).2 in
  exists full m buf latency, message_to_bytes response = Some full /\
    (m = response /\ len full <= max_udp_size response \/
     max_udp_size response < len full /\ truncates (max_udp_size response) response m buf) /\
    message_to_bytes m = Some buf /\ w_out w' = [] ++ [buf] /\
    w_calls w' = [] ++ query_calls Udp query
                 ++ [ResponseSent (message_response_code response); Latency latency].
Proof.
  intros env data query response w'.
  apply (udp_query_answered env data (V4 1) query response (new_world None []) (io_now env (new_world None [])).2 w');
    vm_compute; reflexivity.
Defined.

(** The answer that was sent: one datagram of 72 bytes, truncated. *)
Example udp_truncated :
  map len (w_out (handle_udp_query (env_of big_store) (query_bytes 7 0 0) (V4 1) (new_world None [])).2) = [72].
Proof. by vm_compute. Qed.

Lemma udp_error_answers_witness :
  let env := env_of test_store in
  let w' := (handle_udp_query env [1; 2] (V4 1) (new_world None [])).2 in
  exists m buf latency, message_to_bytes m = Some buf /\ w_out w' = [] ++ [buf] /\
    message_view m = bare_view (datagram_id [1; 2]) ResponseCode.FormErr /\
    w_calls w' = [] ++ [ErrorSeen; ResponseSent ResponseCode.FormErr; Latency latency].
Proof.
  intros env w'.
  apply (udp_error_answers env [1; 2] (V4 1) true (new_world None []) (io_now env (new_world None [])).2 w');
    [vm_compute; reflexivity|right; vm_compute; reflexivity|vm_compute; reflexivity].
Defined.

Definition two_query_config : TcpConfig := {| idle_timeout := 30; max_queries_per_connection := 2 |}.

(** Three requests, the last one cut short. *)
Definition busy_client : list Event :=
  map Byte ([0; 12] ++ query_bytes 1 0 0 ++ [0; 12] ++ query_bytes 2 0 1 ++ [0; 12; 9]).

Lemma tcp_connection_ends_witness :
  let env := env_of test_store in
  let w := new_world None busy_client in
  let '(r, w') := handle_tcp_connection env 2 (V4 1) (Some two_query_config) w in
  (exists o, r = Done o /\ o ≠ Panic) \/
  r = Blocked /\ (stalled env w' \/ w_input w' = [] /\ silent_in_message 2 (w_input w)).
Proof.
  exact (tcp_connection_ends (env_of test_store) 2 (V4 1) two_query_config (new_world None busy_client)
           ltac:(cbn; lia)).
Defined.

(** How a connection ends with a client that sends nothing, the half of a length, the half of a
    message, and one that does not read the answer. *)
Example tcp_ends :
  let ends (env : Env) client :=
    (handle_tcp_connection env 2 (V4 1) (Some two_query_config) (new_world None client)).1 in
  let query := map Byte (u16_to_be_bytes 12 ++ query_bytes 1 0 0) in
  let unread := {| env_clock := fun n => Z.of_nat n * 1000000; env_store := fun _ => test_store;
                   env_others := fun _ inner => inner; env_send_ok := fun _ => true;
                   env_write := fun n => if decide (n = 1)%nat then Stalls 3 else Goes |} in
  ends (env_of test_store) [] = Done (Ok tt) /\
  ends (env_of test_store) (query ++ [Byte 0]) = Done (Ok tt) /\
  ends (env_of test_store) (query ++ [Byte 0; Byte 12; Byte 5; Wait (from_secs 1000)]) = Blocked /\
  ends unread query = Blocked.
Proof. by vm_compute. Qed.

Lemma tcp_query_limit_witness :
  exists cs, w_calls (handle_tcp_connection (env_of test_store) 2 (V4 1) (Some two_query_config)
                        (new_world None busy_client)).2 = [] ++ TcpConnection :: cs /\
    count is_query cs <= 2 /\ count is_closed cs <= 1.
Proof. apply (tcp_query_limit (env_of test_store) 2 (V4 1) two_query_config (new_world None busy_client)). cbn. lia. Defined.

(** A process whose second write breaks off after three bytes. *)
Definition failing_env : Env :=
  {| env_clock := fun n => Z.of_nat n; env_store := fun _ => test_store;
     env_others := fun _ inner => inner; env_send_ok := fun _ => true;
     env_write := fun n => if decide (n = 1)%nat then Breaks 3 else Goes |}.

Lemma tcp_output_framed_witness :
  let '(r, w') := handle_tcp_connection failing_env 2 (V4 1) (Some two_query_config)
                    (new_world None busy_client) in
  exists writes whole cut bufs,
    w_out w' = [] ++ writes /\ concat writes = whole ++ cut /\
    deframe (length bufs) whole = Some bufs /\ Forall encoded bufs /\
    (cut = [] \/ broken r /\ cut_short failing_env cut).
Proof.
  apply (tcp_output_framed failing_env 2 (V4 1) (Some two_query_config) (new_world None busy_client)).
  intros msg buf Hm. change (c_to_bytes msg = Some buf) in Hm. unfold c_to_bytes in Hm.
  match type of Hm with (if ?b then _ else _) = _ => destruct b eqn:E; [|discriminate Hm] end.
  apply Z.leb_le in E. injection Hm as <-. exact E.
Defined.

(** What went out then: the length, three bytes of the answer, and nothing after. *)
Example tcp_write_fails :
  map len (w_out (handle_tcp_connection failing_env 2 (V4 1) (Some two_query_config)
                    (new_world None busy_client)).2) = [2; 3].
Proof. by vm_compute. Qed.

Definition transfer_request : Message := message_of (query_bytes 3 252 0).

(** The concrete codec encodes what is due to a transfer request. *)
Lemma transfer_encodes query question zone (m : Message) :
  message_view m ∈ transfer_views query question zone -> is_Some (message_to_bytes m).
Proof.
  intros Hm. assert (length (message_queries m) = 1 /\ length (message_answers m) <= 1 /\
    message_name_servers m = [] /\ message_additionals m = [] /\ message_extensions m = None)%nat
    as (Hq & Ha & Hn & Had & He).
  { assert (exists v, message_view m = v /\ v ∈ transfer_views query question zone) as (v & Hv & Hin) by eauto.
    unfold message_queries, message_answers, message_name_servers, message_additionals, message_extensions.
    rewrite Hv. clear Hm Hv m. destruct zone as [zone|]; cbn [transfer_views] in Hin.
    - apply list_elem_of_fmap in Hin as (r & -> & _). by cbn.
    - apply list_elem_of_singleton in Hin as ->. cbn. auto with lia. }
  change (is_Some (c_to_bytes m)). unfold c_to_bytes.
  assert (cm_name_servers m = [] /\ cm_additionals m = [] /\ cm_extensions m = None) as (-> & -> & ->) by (by destruct m).
  assert (length (cm_queries m) = 1 /\ length (cm_answers m) <= 1)%nat as [-> Han] by (by destruct m).
  rewrite !length_app, length_replicate. unfold u16_to_be_bytes. cbn [length].
  rewrite (proj2 (Z.leb_le _ 65535)) by lia. by eexists.
Qed.

Lemma axfr_streams_zone_witness :
  let env := env_of test_store in
  let question := (nm "www.example.com.", RecordType.AXFR) : Query in
  let w := new_world None [] in
  let zone := find_zone (env_store env (w_tick w)) (query_name question) in
  let views := transfer_views transfer_request question zone in
  exists bufs latency w', answer_tcp_query env 0 transfer_request w = (Done (Ok false), w') /\
    Forall2 encodes views bufs /\ w_out w' = w_out w ++ flat_map frame bufs /\
    w_calls w' = w_calls w ++ query_calls Tcp transfer_request ++
      [ResponseSent (if zone then ResponseCode.NoError else ResponseCode.Refused); Latency latency].
Proof.
  intros env question w.
  apply (axfr_streams_zone env 0 transfer_request question w); [done|vm_compute; reflexivity|done|].
  apply transfer_encodes.
Defined.

(** The idle timeout covers the length only: a client that sends a length and no message is waited
    for without end. *)
Example tcp_stalls :
  (handle_tcp_connection (env_of test_store) 2 (V4 1) (Some two_query_config)
     (new_world None [Byte 0; Byte 12])).1 = Blocked.
Proof. by vm_compute. Qed.

Definition exchange_of (id b3 : Z) : Exchange :=
  let data := query_bytes id 0 b3 in
  let query := message_of data in
  let response := response_to test_store query in
  {| ex_bytes := data; ex_query := query; ex_response := response;
     ex_reply := default [] (message_to_bytes response) |}.

(** A limiter that grants one query a second: the second query of the connection is refused. *)
Definition one_query_limiter : RateLimiterInner :=
  (RateLimiter_new (fun n => Z.of_nat n * 1000000) 0 1).1.

Lemma tcp_answers_in_order_witness :
  let env := env_of test_store in
  let xs := [exchange_of 1 0; exchange_of 2 1] in
  let w := new_world (Some one_query_limiter) (flat_map request_events xs ++ [Close]) in
  exists served refused w', xs = served ++ refused /\ (w_limiter w = None -> refused = []) /\
    verdicts env (V4 1) (length xs) (w_tick w) (w_limiter w) =
      replicate (length served) true ++ match refused with [] => [] | _ => [false] end /\
    handle_tcp_connection env 3 (V4 1) (Some two_query_config) w = (Done (Ok tt), w') /\
    match refused with
    | [] =>
        w_out w' = w_out w ++ flat_map (fun x => frame (ex_reply x)) xs /\
        without_latency (w_calls w') =
          without_latency (w_calls w) ++ [TcpConnection] ++ flat_map exchange_calls xs
          ++ [TcpConnectionClosed (Z.of_nat (length xs))]
    | x :: _ =>
        exists buf, message_to_bytes (refusal (ex_query x)) = Some buf /\
          w_out w' = w_out w ++ flat_map (fun x => frame (ex_reply x)) served ++ frame buf /\
          without_latency (w_calls w') =
            without_latency (w_calls w) ++ [TcpConnection] ++ flat_map exchange_calls served
            ++ [RateLimited; ResponseSent ResponseCode.Refused]
    end.
Proof.
  intros env xs w. apply (tcp_answers_in_order env (V4 1) two_query_config xs 3 w).
  - done.
  - intros query. vm_compute. by eexists.
  - assert (forall id b3, b3 = 0 \/ b3 = 1 -> exchange_ok env (exchange_of id b3)) as Hx.
    { intros id b3 [-> | ->]; (split; [vm_compute; split; discriminate|]); split_and!;
        try (vm_compute; reflexivity); intros n; vm_compute; reflexivity. }
    unfold xs. apply Forall_cons. split; [apply Hx; by left|].
    apply Forall_cons. split; [apply Hx; by right|done].
  - done.
  - cbn. lia.
  - cbn. lia.
Defined.

(** What went out: the answer to the first query, then a message of twelve bytes. *)
Example tcp_rate_limited :
  map len (w_out (handle_tcp_connection (env_of test_store) 3 (V4 1) (Some two_query_config)
    (new_world (Some one_query_limiter) (flat_map request_events [exchange_of 1 0; exchange_of 2 1] ++ [Close]))).2)
  = [2; 112; 2; 12].
Proof. by vm_compute. Qed.
End witnesses.
