(* ===== verification/Api.v ===== *)
(** [src/src/api.rs]: the HTTP endpoints, as the JSON values they return.  The routing by path is the
    router's table; HTTP itself is axum's. *)
From S2P Require Import Prelude RustTime RustStr HashMap Crates Metrics.
From Stdlib Require Import SpecFloat.
Open Scope Z_scope.

(** [serde_json::Value], with the kinds the endpoints build; an object is its fields in order. *)
Inductive Json :=
  | JString (s : string)
  | JNumber (n : Z)
  | JObject (fields : list (string * Json))
  | JMap (fields : list (str * Z)).

(** [health_check] *)
Definition health_check : Json :=
  JObject [("status", JString "healthy"); ("service", JString "lrmdns")]%string.

Section api.
Context `{Hickory}.

(** The counts by the [Debug] text of the type: a later type of the same text overwrites. *)
Definition query_type_counts (snapshot : MetricsSnapshot) : gmap str Z :=
  fold_left (fun m '(k, v) => <[record_type_debug k := v]> m) (map_to_list (s_query_types snapshot)) ∅.

(** [get_metrics], from a snapshot. *)
Definition metrics_json (snapshot : MetricsSnapshot) : Json :=
  let uptime_seconds := as_secs (s_uptime snapshot) in
  JObject [
    ("uptime_seconds", JNumber uptime_seconds);
    ("queries", JObject [
      ("total", JNumber (s_total_queries snapshot));
      ("udp", JNumber (s_udp_queries snapshot));
      ("tcp", JNumber (s_tcp_queries snapshot));
      ("edns", JNumber (s_edns_queries snapshot))]);
    ("responses", JObject [
      ("noerror", JNumber (s_noerror_responses snapshot));
      ("nxdomain", JNumber (s_nxdomain_responses snapshot));
      ("servfail", JNumber (s_servfail_responses snapshot));
      ("refused", JNumber (s_refused_responses snapshot));
      ("formerr", JNumber (s_formerr_responses snapshot))]);
    ("query_types", JMap (map_to_list (query_type_counts snapshot)));
    ("performance", JObject [
      ("avg_latency_us", JNumber (s_avg_latency_us snapshot));
      ("min_latency_us", JNumber (s_min_latency_us snapshot));
      ("max_latency_us", JNumber (s_max_latency_us snapshot));
      ("qps", JNumber (if 0 <? uptime_seconds then s_total_queries snapshot / uptime_seconds else 0)%Z)]);
    ("rate_limited", JNumber (s_rate_limited snapshot));
    ("errors", JNumber (s_errors snapshot))]%string.

(** [get_metrics], with the loads of its snapshot *)
Definition get_metrics (at_ : nat -> Metrics) (now : Instant) : Json := metrics_json (take_snapshot at_ now).

(** [create_router]: the answer to a GET request for a path; [None] is no route. *)
Definition create_router (at_ : nat -> Metrics) (now : Instant) (path : str) : option Json :=
  if bool_decide (path = lit "/health") then Some health_check
  else if bool_decide (path = lit "/metrics") then Some (get_metrics at_ now)
  else None.
End api.
