(* ===== verification/ApiProps.v ===== *)
(** Theorems about the HTTP endpoint [/metrics]: what it reports while the server goes on recording.
    Each number lies between what its counter was when the request began and what it was when the
    request ended, though they need not belong to one moment.  Requires [Api] and [MetricsProps]. *)
From S2P Require Import Prelude RustTime RustStr HashMap Crates CratesModel Metrics MetricsProps Api.
Open Scope Z_scope.

(** ** Counters only grow *)

(** What the steps add to a counter. *)
Definition added (c : Counter) (s : Step) : Z :=
  match s with FetchAdd d n => if decide (d = c) then n else 0 | _ => 0 end.
Definition additions (c : Counter) (l : list Step) : Z := sum (added c <$> l).

(** How often a type is counted. *)
Definition counted (t : RecordType.t) (s : Step) : Z :=
  match s with CountType t' => if decide (t' = t) then 1 else 0 | _ => 0 end.
Definition countings (t : RecordType.t) (l : list Step) : Z := sum (counted t <$> l).

(** The steps of a recording call; a connection does not close with a negative number of queries. *)
Definition call_ok (c : MetricsCall) : Prop := match c with TcpConnectionClosed n => 0 <= n | _ => True end.
Definition recorded (s : Step) : Prop := step_ok s /\ match s with FetchAdd _ n => 0 <= n | _ => True end.

Lemma call_steps_recorded c : call_ok c -> Forall recorded (call_steps c).
Proof.
  intros Hc. pose proof (call_steps_ok c) as Ho. unfold recorded. apply Forall_and. split; [done|].
  destruct c as [| | |[] []|[]| |d| |]; cbn -[wrap]; repeat constructor; try done; try lia.
  apply wrap_range. lia.
Qed.

Lemma sum_app l1 l2 : sum (l1 ++ l2) = sum l1 + sum l2.
Proof. induction l1 as [|x l1 IH]; unfold sum in *; cbn; lia. Qed.

#[export] Instance sum_perm : Proper ((≡ₚ) ==> (=)) sum.
Proof. intros l1 l2. induction 1; unfold sum in *; cbn; lia. Qed.

Lemma additions_app c l1 l2 : additions c (l1 ++ l2) = additions c l1 + additions c l2.
Proof. unfold additions. by rewrite fmap_app, sum_app. Qed.

Lemma countings_app t l1 l2 : countings t (l1 ++ l2) = countings t l1 + countings t l2.
Proof. unfold countings. by rewrite fmap_app, sum_app. Qed.

Lemma additions_nonneg c l : Forall recorded l -> 0 <= additions c l.
Proof.
  intros Hl. apply sum_nonneg, Forall_fmap. eapply Forall_impl; [exact Hl|].
  intros s [_ Hs]. cbn. destruct s; cbn; try lia. case_decide; lia.
Qed.

Lemma countings_nonneg t l : 0 <= countings t l.
Proof. apply sum_nonneg, Forall_fmap, Forall_true. intros []; cbn; try lia. case_decide; lia. Qed.

(** A counter that does not wrap around is the sum of what was added. *)
Lemma load_additions c l : c ≠ C_min_latency_us -> c ≠ C_max_latency_us -> forall m,
  Forall recorded l -> 0 <= load c m -> load c m + additions c l < 2 ^ 64 ->
  load c (run_steps m l) = load c m + additions c l.
Proof.
  intros Hmin Hmax. induction l as [|s l IH]; intros m Hl H0' Hlt; [change (additions c []) with 0; cbn; lia|].
  apply Forall_cons in Hl as [[Hs Hn] Hl]. change (additions c (s :: l)) with (added c s + additions c l) in *.
  pose proof (additions_nonneg c l Hl).
  change (run_steps m (s :: l)) with (run_steps (run_step m s) l).
  assert (load c (run_step m s) = load c m + added c s) as Hstep.
  { rewrite load_run_step. destruct s; cbn in *; repeat case_decide; subst; try lia; try done.
    apply wrap_small. unfold in_u. lia. }
  assert (0 <= added c s) by (destruct s; cbn; try case_decide; lia).
  rewrite IH; [lia|done|lia|lia].
Qed.

Lemma types_countings t l : forall m,
  0 <= default 0 (query_types m !! t) -> default 0 (query_types m !! t) + countings t l < 2 ^ 64 ->
  default 0 (query_types (run_steps m l) !! t) = default 0 (query_types m !! t) + countings t l.
Proof.
  induction l as [|s l IH]; intros m H0' Hlt; [change (countings t []) with 0; cbn; lia|].
  change (countings t (s :: l)) with (counted t s + countings t l) in *. pose proof (countings_nonneg t l).
  change (run_steps m (s :: l)) with (run_steps (run_step m s) l).
  assert (default 0 (query_types (run_step m s) !! t) = default 0 (query_types m !! t) + counted t s) as Hstep.
  { rewrite query_types_run_step. destruct s; cbn in *; try lia. case_decide as Ht.
    - subst. rewrite lookup_insert_eq. cbn. apply wrap_small. unfold in_u. cbn in *. lia.
    - rewrite lookup_insert_ne by done. lia. }
  assert (0 <= counted t s) by (destruct s; cbn; try case_decide; lia).
  rewrite IH; [lia|lia|lia].
Qed.

Lemma recorded_take n l : Forall recorded l -> Forall recorded (take n l) /\ Forall recorded (drop n l).
Proof. intros Hl. rewrite <- (take_drop n l) in Hl. by apply Forall_app in Hl. Qed.

Lemma run_steps_app m l1 l2 : run_steps m (l1 ++ l2) = run_steps (run_steps m l1) l2.
Proof. apply fold_left_app. Qed.

Lemma start_time_run_steps l : forall m, start_time (run_steps m l) = start_time m.
Proof.
  induction l as [|s l IH]; intros m; [done|]. change (run_steps m (s :: l)) with (run_steps (run_step m s) l).
  by rewrite IH, start_time_run_step.
Qed.

(** At every moment of a run the counter lies between its ends. *)
Lemma load_between c m l n : c ≠ C_min_latency_us -> c ≠ C_max_latency_us -> Forall recorded l ->
  0 <= load c m -> load c m + additions c l < 2 ^ 64 ->
  load c m <= load c (run_steps m (take n l)) <= load c (run_steps m l).
Proof.
  intros Hmin Hmax Hl H0' Hlt. destruct (recorded_take n l Hl) as [Ht Hd].
  pose proof (additions_nonneg c _ Ht). pose proof (additions_nonneg c _ Hd).
  pose proof (additions_app c (take n l) (drop n l)) as Ha. rewrite take_drop in Ha.
  rewrite !load_additions by (done || lia). lia.
Qed.

Lemma types_between t m l n :
  0 <= default 0 (query_types m !! t) -> default 0 (query_types m !! t) + countings t l < 2 ^ 64 ->
  default 0 (query_types m !! t) <= default 0 (query_types (run_steps m (take n l)) !! t)
    <= default 0 (query_types (run_steps m l) !! t).
Proof.
  intros H0' Hlt. pose proof (countings_app t (take n l) (drop n l)) as Ha. rewrite take_drop in Ha.
  pose proof (countings_nonneg t (take n l)). pose proof (countings_nonneg t (drop n l)).
  rewrite !types_countings by lia. lia.
Qed.

(** ** Moments of an interleaving *)

(** The first steps of a schedule are a schedule of first steps. *)
Lemma interleaves_take threads l : interleaves threads l -> forall n,
  exists firsts, Forall2 prefix firsts threads /\ interleaves firsts (take n l).
Proof.
  induction 1 as [threads Hn|before s t after l Hi IH]; intros n.
  - exists threads. rewrite take_nil. split; [|by apply interleaves_done].
    clear. induction threads; constructor; done.
  - destruct n as [|n].
    + exists ((fun _ => []) <$> (before ++ (s :: t) :: after)). split.
      * generalize (before ++ (s :: t) :: after). intros ts. induction ts; constructor; [apply prefix_nil|done].
      * apply interleaves_done, Forall_fmap, Forall_true. done.
    + destruct (IH n) as (firsts & Hf & Hi'). apply Forall2_app_inv_r in Hf as (fb & fr & Hb & Hr & ->).
      apply Forall2_cons_inv_r in Hr as (f & fa & Hft & Ha & ->).
      exists (fb ++ (s :: f) :: fa). split; [|by apply interleaves_step].
      apply Forall2_app; [done|]. constructor; [by apply prefix_cons|done].
Qed.

(** What a call has added to the total before it adds to a protocol. *)
Definition balance (l : list Step) : Z :=
  additions C_total_queries l - additions C_udp_queries l - additions C_tcp_queries l.

Lemma balance_app l1 l2 : balance (l1 ++ l2) = balance l1 + balance l2.
Proof. unfold balance. rewrite !additions_app. lia. Qed.

Lemma balance_prefix c l : l `prefix_of` call_steps c -> 0 <= balance l.
Proof.
  intros [l' Hl]. assert (l = take (length l) (call_steps c)) as -> by (by rewrite Hl, take_app_length).
  generalize (length l). intros n.
  destruct c as [| | |[] []|[]| |d| |], n as [|[|[|n]]]; unfold balance, additions; cbn -[wrap];
    rewrite ?take_nil; cbn -[wrap]; repeat (case_decide; try congruence); lia.
Qed.

Lemma balance_moment calls l n : interleaves (call_steps <$> calls) l -> 0 <= balance (take n l).
Proof.
  intros Hi. destruct (interleaves_take _ _ Hi n) as (firsts & Hf & Hi').
  assert (balance (take n l) = balance (concat firsts)) as ->.
  { unfold balance, additions. by rewrite (interleaves_perm _ _ Hi'). }
  clear Hi Hi'. revert firsts Hf. induction calls as [|c calls IH]; intros firsts Hf.
  - apply Forall2_nil_inv_r in Hf as ->. done.
  - apply Forall2_cons_inv_r in Hf as (f & fs & Hp & Hfs & ->). cbn [concat]. rewrite balance_app.
    pose proof (balance_prefix c f Hp). specialize (IH fs Hfs). lia.
Qed.

(** The steps of a whole schedule. *)
Lemma schedule_facts calls l : interleaves (call_steps <$> calls) l -> Forall call_ok calls ->
  Forall recorded l /\ (forall c, additions c l = additions c (flat_map call_steps calls)) /\
  (forall t, countings t l = countings t (flat_map call_steps calls)) /\
  (forall t, CountType t ∈ l -> QueryType t ∈ calls).
Proof.
  intros Hi Hok. apply interleaves_perm in Hi. rewrite flat_map_concat_map.
  change (map call_steps calls) with (call_steps <$> calls). split_and!.
  - rewrite Hi. apply Forall_concat, Forall_fmap. eapply Forall_impl; [exact Hok|]. apply call_steps_recorded.
  - intros c. unfold additions. by rewrite Hi.
  - intros t. unfold countings. by rewrite Hi.
  - intros t. rewrite Hi. intros Ht. apply list_elem_of_In, in_concat in Ht as (steps & Hc%list_elem_of_In & Hs%list_elem_of_In).
    apply list_elem_of_fmap in Hc as (c & -> & Hc).
    destruct c as [| | |[] []|[]| |d| |]; cbn -[wrap] in Hs; rewrite ?elem_of_cons in Hs; try set_solver.
Qed.

Lemma types_recorded t l : forall m, is_Some (query_types (run_steps m l) !! t) ->
  is_Some (query_types m !! t) \/ CountType t ∈ l.
Proof.
  induction l as [|s l IH]; intros m Ht; [by left|].
  destruct (IH (run_step m s) Ht) as [Hs|Hs]; [|right; by right].
  rewrite query_types_run_step in Hs. destruct s as [| | |t']; try by left. cbn in Hs.
  destruct (decide (t' = t)) as [->|Hne]; [right; by left|]. rewrite lookup_insert_ne in Hs by done. by left.
Qed.

(** At a moment of a schedule that starts from new counters. *)
Lemma load_moment calls l start n c :
  interleaves (call_steps <$> calls) l -> Forall call_ok calls ->
  (forall c, additions c (flat_map call_steps calls) < 2 ^ 64) ->
  c ≠ C_min_latency_us -> c ≠ C_max_latency_us ->
  load c (run_steps (Metrics_new start) (take n l)) = additions c (take n l).
Proof.
  intros Hi Hok Hadd Hmin Hmax. destruct (schedule_facts _ _ Hi Hok) as (Hrec & Hsum & _).
  destruct (recorded_take n l Hrec) as [Ht Hd]. specialize (Hadd c). rewrite <- Hsum, <- (take_drop n l), additions_app in Hadd.
  pose proof (additions_nonneg c _ Hd). pose proof (additions_nonneg c _ Ht).
  assert (load c (Metrics_new start) = 0) as H0' by (by destruct c).
  rewrite load_additions; [lia|done|done|done|lia|lia].
Qed.

Lemma queries_consistent calls l start n :
  interleaves (call_steps <$> calls) l -> Forall call_ok calls ->
  (forall c, additions c (flat_map call_steps calls) < 2 ^ 64) ->
  let m := run_steps (Metrics_new start) (take n l) in udp_queries m + tcp_queries m <= total_queries m.
Proof.
  intros Hi Hok Hadd. pose proof (fun c => load_moment calls l start n c Hi Hok Hadd) as Hl.
  pose proof (Hl C_total_queries ltac:(done) ltac:(done)) as H1'. pose proof (Hl C_udp_queries ltac:(done) ltac:(done)) as H2'.
  pose proof (Hl C_tcp_queries ltac:(done) ltac:(done)) as H3'.
  pose proof (balance_moment calls l n Hi) as Hbal. unfold balance in Hbal. cbn [load] in *. lia.
Qed.

Lemma take_moment {A} (before during later : list A) k :
  before ++ take k during = take (length before + k `min` length during) (before ++ during ++ later).
Proof. rewrite firstn_app_2. f_equal. rewrite take_app_le by lia. by rewrite <- take_take, firstn_all. Qed.

(** ** Reading the JSON *)

Fixpoint json_at (path : list string) (j : Json) : option Json :=
  match path with
  | [] => Some j
  | key :: path =>
      match j with
      | JObject fields => f ← find (fun f => String.eqb f.1 key) fields; json_at path f.2
      | _ => None
      end
  end.

Definition json_number (path : list string) (j : Json) : option Z :=
  match json_at path j with Some (JNumber n) => Some n | _ => None end.

(** The number under a key of a map, zero if there is none. *)
Definition json_count (path : list string) (key : str) (j : Json) : Z :=
  match json_at path j with
  | Some (JMap fields) => default 0 ((list_to_map fields : gmap str Z) !! key)
  | _ => 0
  end.

(** Where each counter is reported. *)
Definition reported : list (list string * Counter) :=
  [(["queries"; "total"], C_total_queries); (["queries"; "udp"], C_udp_queries);
   (["queries"; "tcp"], C_tcp_queries); (["queries"; "edns"], C_edns_queries);
   (["responses"; "noerror"], C_noerror_responses); (["responses"; "nxdomain"], C_nxdomain_responses);
   (["responses"; "servfail"], C_servfail_responses); (["responses"; "refused"], C_refused_responses);
   (["responses"; "formerr"], C_formerr_responses); (["rate_limited"], C_rate_limited);
   (["errors"], C_errors)]%string.

Section api.
Context `{Hickory}.

Lemma fold_insert_other (f : RecordType.t -> str) l t : forall m0 : gmap str Z,
  (forall t', t' ∈ l.*1 -> f t' ≠ f t) ->
  fold_left (fun m '(k, v) => <[f k := v]> m) l m0 !! f t = m0 !! f t.
Proof.
  induction l as [|[k v] l IH]; intros m0 Hf; cbn; [done|]. rewrite IH.
  - rewrite lookup_insert_ne; [done|]. apply Hf. by left.
  - intros t' Ht. apply Hf. by right.
Qed.

(** Counts by text are the counts by type, when the texts tell the types apart. *)
Lemma query_type_counts_lookup s t :
  (forall t', is_Some (s_query_types s !! t') -> record_type_debug t' = record_type_debug t -> t' = t) ->
  query_type_counts s !! record_type_debug t = s_query_types s !! t.
Proof.
  intros Hinj. unfold query_type_counts.
  assert (forall t', t' ∈ (map_to_list (s_query_types s)).*1 -> record_type_debug t' = record_type_debug t -> t' = t) as Hi.
  { intros t' Ht. apply Hinj. apply list_elem_of_fmap in Ht as ([k v] & -> & Hk).
    exists v. by apply elem_of_map_to_list. }
  pose proof (NoDup_fst_map_to_list (s_query_types s)) as Hnd.
  destruct (s_query_types s !! t) as [v|] eqn:E.
  - apply elem_of_map_to_list in E. apply list_elem_of_split in E as (l1 & l2 & E). rewrite E in *.
    rewrite fold_left_app. cbn [fold_left]. rewrite fold_insert_other, lookup_insert_eq; [done|].
    intros t' Ht Heq. apply Hi in Heq as ->; [|rewrite fmap_app; set_solver].
    rewrite fmap_app, NoDup_app in Hnd. destruct Hnd as (_ & _ & Hnd). cbn in Hnd. by apply NoDup_cons in Hnd as [Hnd _].
  - rewrite fold_insert_other; [done|]. intros t' Ht Heq. pose proof (Hi t' Ht Heq) as ->.
    apply list_elem_of_fmap in Ht as ([k v] & -> & Hk). apply elem_of_map_to_list in Hk. cbn in E. congruence.
Qed.

Lemma json_count_types at_ now key :
  json_count ["query_types"%string] key (get_metrics at_ now) =
  default 0 (query_type_counts (take_snapshot at_ now) !! key).
Proof. unfold json_count, get_metrics, metrics_json. cbn [json_at]. cbn. by rewrite list_to_map_to_list. Qed.

(** * Property *)

(** GET /metrics while any calls record at the same time.  Each counter it reports, also
    per query type, lies between what it was when the request began and what it was when the request
    ended, and the queries per second are the reported total by the uptime, rounded down.  The
    numbers may belong to different moments; at each moment by itself the queries over UDP and TCP
    are no more than the total. *)
Theorem metrics_endpoint_bounds (calls : list MetricsCall) (start now : Instant) (before during later : list Step)
    (at_ : nat -> Metrics) (moment : nat -> nat) :
  interleaves (call_steps <$> calls) (before ++ during ++ later) -> Forall call_ok calls ->
  (forall c, additions c (flat_map call_steps calls) < 2 ^ 64) ->
  (forall t, countings t (flat_map call_steps calls) < 2 ^ 64) ->
  (forall t t', QueryType t ∈ calls -> record_type_debug t = record_type_debug t' -> t = t') ->
  let m1 := run_steps (Metrics_new start) before in
  let m2 := run_steps m1 during in
  (forall k, at_ k = run_steps m1 (take (moment k) during)) ->
  exists j, create_router at_ now (lit "/metrics") = Some j /\
    Forall (fun '(path, c) => exists n, json_number path j = Some n /\ load c m1 <= n <= load c m2) reported /\
    (forall t, let n := json_count ["query_types"%string] (record_type_debug t) j in
       default 0 (query_types m1 !! t) <= n <= default 0 (query_types m2 !! t)) /\
    (let uptime := as_secs (duration_since now start) in
     exists total qps, json_number ["queries"; "total"]%string j = Some total /\
       json_number ["performance"; "qps"]%string j = Some qps /\
       (if 0 <? uptime then qps * uptime <= total < (qps + 1) * uptime else qps = 0)) /\
    (forall k, udp_queries (at_ k) + tcp_queries (at_ k) <= total_queries (at_ k)).
Proof.
  intros Hi Hok Hadd Hcnt Hinj m1 m2 Hat.
  pose proof (schedule_facts _ _ Hi Hok) as (Hrec & Hsum & Hcsum & Htypes).
  apply Forall_app in Hrec as [Hrb [Hrd Hrl]%Forall_app].
  assert (forall c n, c ≠ C_min_latency_us -> c ≠ C_max_latency_us ->
            load c m1 <= load c (run_steps m1 (take n during)) <= load c m2) as Hb.
  { intros c n Hmin Hmax. pose proof (Hsum c) as Hs. rewrite !additions_app in Hs. specialize (Hadd c).
    pose proof (additions_nonneg c _ Hrb). pose proof (additions_nonneg c _ Hrd). pose proof (additions_nonneg c _ Hrl).
    assert (load c (Metrics_new start) = 0) as H0' by (by destruct c).
    assert (load c m1 = additions c before) as H1'.
    { unfold m1. rewrite load_additions by (done || lia). lia. }
    apply load_between; [done..|lia|lia]. }
  eexists. split; [reflexivity|]. split_and!.
  - unfold reported. repeat (apply List.Forall_cons || apply List.Forall_nil);
      (eexists; split; [reflexivity|]; unfold take_snapshot; cbn [s_total_queries s_udp_queries s_tcp_queries
         s_edns_queries s_noerror_responses s_nxdomain_responses s_servfail_responses s_refused_responses
         s_formerr_responses s_rate_limited s_errors]; rewrite Hat; by apply Hb).
  - intros t. cbv zeta. rewrite json_count_types, query_type_counts_lookup.
    + unfold take_snapshot; cbn [s_query_types]. rewrite Hat. pose proof (Hcsum t) as Hs. rewrite !countings_app in Hs.
      specialize (Hcnt t). pose proof (countings_nonneg t before). pose proof (countings_nonneg t during).
      pose proof (countings_nonneg t later).
      assert (default 0 (query_types m1 !! t) = countings t before) as H1'.
      { assert (default 0 (query_types (Metrics_new start) !! t) = 0) by reflexivity.
        unfold m1. rewrite types_countings by lia. lia. }
      apply types_between; lia.
    + unfold take_snapshot; cbn [s_query_types]. rewrite Hat. unfold m1. intros t' Ht' Heq. apply Hinj; [|done].
      apply Htypes. apply types_recorded in Ht' as [Ht'|Ht'].
      * apply types_recorded in Ht' as [[? Ht']|Ht']; [done|]. apply elem_of_app. by left.
      * rewrite <- (take_drop (moment 13%nat) during). set_solver.
  - cbv zeta. do 2 eexists. split_and!; [reflexivity|reflexivity|]. unfold take_snapshot; cbn [s_uptime s_total_queries].
    rewrite !Hat. unfold m1. rewrite !start_time_run_steps. cbn [Metrics_new start_time].
    destruct (Z.ltb_spec 0 (as_secs (duration_since now start))); [|done].
    match goal with |- context [?x / ?y] => pose proof (Z.div_mod x y ltac:(lia)); pose proof (Z.mod_pos_bound x y ltac:(lia)) end.
    lia.
  - intros k. rewrite Hat. unfold m1. rewrite <- run_steps_app, (take_moment before during later (moment k)).
    by eapply queries_consistent.
Qed.
End api.

(** * Witnesses *)

Section witnesses.
Import Concrete.

Lemma debug_a t : record_type_debug RecordType.A = record_type_debug t -> RecordType.A = t.
Proof.
  destruct t as [| | | | | | | | | | | | | | | | | |code]; try (vm_compute; (reflexivity || discriminate)).
  change (record_type_debug (RecordType.Other code)) with (c_rtype_debug (RecordType.Other code)).
  unfold c_rtype_debug. cbn [find rtype_names snd]. repeat (rewrite bool_decide_eq_false_2 by discriminate).
  case_bool_decide; vm_compute; discriminate.
Qed.

(** Two queries, the second one over TCP with EDNS, whose steps take turns. *)
Definition turn_calls : list MetricsCall := [QueryReceived Udp false; QueryReceived Tcp true; QueryType RecordType.A].
Definition turn_before : list Step := [FetchAdd C_total_queries 1].
Definition turn_during : list Step :=
  [FetchAdd C_total_queries 1; FetchAdd C_udp_queries 1; CountType RecordType.A; FetchAdd C_tcp_queries 1].
Definition turn_later : list Step := [FetchAdd C_edns_queries 1].

Lemma turns : interleaves (call_steps <$> turn_calls) (turn_before ++ turn_during ++ turn_later).
Proof.
  cbn. apply (interleaves_step []). cbn. apply (interleaves_step [_]). cbn. apply (interleaves_step []). cbn.
  apply (interleaves_step [_; _] _ []). cbn. apply (interleaves_step [_]). cbn. apply (interleaves_step [_]). cbn.
  apply interleaves_done. by repeat constructor.
Qed.

(** The total is read first, the other counters at the end. *)
Definition late_moment (k : nat) : nat := if bool_decide (k = 0)%nat then 0%nat else 4%nat.

Lemma metrics_endpoint_bounds_witness :
  let m1 := run_steps (Metrics_new 0) turn_before in
  let m2 := run_steps m1 turn_during in
  let at_ k := run_steps m1 (take (late_moment k) turn_during) in
  exists j, create_router at_ 2000000000 (lit "/metrics") = Some j /\
    Forall (fun '(path, c) => exists n, json_number path j = Some n /\ load c m1 <= n <= load c m2) reported /\
    (forall t, let n := json_count ["query_types"%string] (record_type_debug t) j in
       default 0 (query_types m1 !! t) <= n <= default 0 (query_types m2 !! t)) /\
    (let uptime := as_secs (duration_since 2000000000 0) in
     exists total qps, json_number ["queries"; "total"]%string j = Some total /\
       json_number ["performance"; "qps"]%string j = Some qps /\
       (if 0 <? uptime then qps * uptime <= total < (qps + 1) * uptime else qps = 0)) /\
    (forall k, udp_queries (at_ k) + tcp_queries (at_ k) <= total_queries (at_ k)).
Proof.
  apply (metrics_endpoint_bounds turn_calls 0 2000000000 turn_before turn_during turn_later _ late_moment turns).
  - by repeat constructor.
  - intros c. destruct c; vm_compute; reflexivity.
  - intros t. unfold countings. cbn. case_decide; vm_compute; reflexivity.
  - intros t t' Ht. unfold turn_calls in Ht. rewrite !elem_of_cons in Ht. destruct Ht as [|[|[[= ->]|]]]; [done|done| |set_solver].
    by apply debug_a.
  - done.
Defined.

(** The reported numbers are from different moments: one query in total, one over UDP and one over TCP. *)
Example torn_report :
  let j := get_metrics (fun k => run_steps (Metrics_new 0) (take (late_moment k + 1) (turn_before ++ turn_during))) 0 in
  json_number ["queries"; "total"]%string j = Some 1 /\ json_number ["queries"; "udp"]%string j = Some 1 /\
  json_number ["queries"; "tcp"]%string j = Some 1.
Proof. by vm_compute. Qed.
End witnesses.
