(* ===== verification/Main.v ===== *)
(** [src/src/main.rs]: start-up, loading of the zones, and the signal handler as a step relation on the
    state of the process. *)
From S2P Require Import Prelude RustTime RustStr HashMap Crates Zone ZoneFile RateLimit Metrics Config.
Open Scope Z_scope.

Section main.
Context `{Hickory} `{!Codecs}.

(** What reading each file gives at some moment. *)
Abbreviation Files := (str -> option str) (only parsing).

(** The number of records that is logged for a zone. *)
Definition record_count (zone : Zone) : nat :=
  sum_list (map (fun type_map => sum_list (map (fun p => length (p.2 : list DnsRecord)) (map_to_list type_map)))
              (hm_values (records zone))).

(** [load_zones] *)
Definition load_zones (files : Files) (config : Config) : outcome ZoneStore :=
  for_each
    (fun zone_store zone_config =>
       zone ← with_context "Failed to load zone" [] (parse_zone_file (files (file zone_config)) (name zone_config));
       Ok (add_zone zone_store zone))
    (zone_configs config) ZoneStore_new.

(** What [main] has built when the server starts. *)
Record Started := {
  p_config : Config;
  p_store : ZoneStore;
  p_metrics : Metrics;
  p_limiter : option RateLimiterInner;
  p_listen : str;
  p_tcp : option TcpConfig;
  p_api_listen : option str
}.

(** The path of the configuration file. *)
Definition config_path (args : list str) : outcome str :=
  if bool_decide (1 < length args)%nat then index args 1 else Ok (lit "lrmdns.yaml").

(** [main], up to the start of the server; [from_str] is serde_yaml and [exists_file] the file
    system. *)
Definition start (clock : Clock) (args : list str) (files : Files) (from_str : str -> option Config)
    (exists_file : str -> bool) : outcome Started :=
  path ← config_path args;
  config ← with_context "Failed to load config" [] (from_file (files path) from_str);
  _ ← with_context "Configuration validation failed" [] (validate exists_file config);
  zone_store ← load_zones files config;
  let metrics := Metrics_new (clock 0%nat) in
  let rate_limiter := (fun limit => (RateLimiter_new clock 1 limit).1) <$> rate_limit (server config) in
  Ok {| p_config := config; p_store := zone_store; p_metrics := metrics; p_limiter := rate_limiter;
        p_listen := listen (server config); p_tcp := tcp (server config);
        p_api_listen := api_listen (server config) |}.

(** * Signals *)

Inductive Signal := SIGHUP | SIGUSR1 | SIGINT | SIGQUIT | SIGTERM.

(** The state the signal handler shares with the server. *)
Record Process := {
  store : ZoneStore;
  cancelled : bool;
  summaries : nat  (* metrics summaries logged *)
}.

(** One round of the loop of [handle_signals]; [files] is the file system at that moment.  The loop
    has ended once the token is cancelled.  The step of a reload is the moment the store is replaced;
    that the handler first waits for the lock of the store, [zone_store.write().await], is modelled in
    [StoreLock], with what that means for other signals. *)
Inductive signal_step (config : Config) (files : Files) : Process -> Signal -> Process -> Prop :=
  | step_reload p new_store :
      cancelled p = false -> load_zones files config = Ok new_store ->
      signal_step config files p SIGHUP
        {| store := new_store; cancelled := false; summaries := summaries p |}
  | step_reload_failed p e :
      cancelled p = false -> load_zones files config = Err e ->
      signal_step config files p SIGHUP p
  | step_log p :
      cancelled p = false ->
      signal_step config files p SIGUSR1
        {| store := store p; cancelled := false; summaries := S (summaries p) |}
  | step_shutdown p s :
      cancelled p = false -> s = SIGINT \/ s = SIGQUIT \/ s = SIGTERM ->
      signal_step config files p s
        {| store := store p; cancelled := true; summaries := S (summaries p) |}.

(** The signals a process receives, each with the files at its moment. *)
Inductive signal_steps (config : Config) : Process -> list (Files * Signal) -> Process -> Prop :=
  | signal_steps_nil p : signal_steps config p [] p
  | signal_steps_cons p1 files s p2 l p3 :
      signal_step config files p1 s p2 -> signal_steps config p2 l p3 ->
      signal_steps config p1 ((files, s) :: l) p3.

(** The handler of other platforms: the first Ctrl+C ends the process. *)
Definition handle_ctrl_c (p : Process) : Process :=
  {| store := store p; cancelled := true; summaries := S (summaries p) |}.
End main.
