(* ===== verification/MainProps.v ===== *)
(** Theorems about start-up and reloading: a server that starts serves every configured zone, and a
    reload replaces the whole store or nothing. *)
From S2P Require Import Prelude RustTime RustStr HashMap Crates CratesModel Zone Fixtures ZoneFacts.
From S2P Require Import ProtocolFacts ZoneFile ZoneFileFacts ZonePrint ZoneFileProps RateLimit Metrics Config Main.
Open Scope Z_scope.

Section main.
Context `{Hickory} `{!Codecs}.

Abbreviation Files := (str -> option str) (only parsing).

(** ** Loading *)

Lemma build_zone_origin o rs z : build_zone o rs = Some z -> origin z = o.
Proof.
  induction rs as [|r rs IH]; cbn -[zone_of_list]; [done|]. destruct (soa_of r); [|done].
  intros [= <-]. apply origin_of_list.
Qed.

Lemma parse_zone_file_origin content n z :
  parse_zone_file content n = Ok z -> exists o, name_from_str n = Some o /\ origin z = o.
Proof.
  rewrite parse_zone_file_reads. intros ([o rs] & Hr & Hz)%bind_ok.
  destruct (build_zone o rs) as [z'|] eqn:E; [|done]. injection Hz as <-. exists o.
  split; [|by eapply build_zone_origin]. unfold read_records in Hr. outcome_inv.
  destruct x1 as [[rs' ttl] cur]. cbn in *. by simplify_eq.
Qed.

(** A zone configuration names this zone. *)
Definition names_zone (zc : ZoneConfig) (o : Name) : Prop :=
  exists o', name_from_str (name zc) = Some o' /\ key_equiv o' o.

(** The store has a zone for the name of a zone configuration, parsed from the file of the last
    configuration with that name. *)
Definition serves (files : Files) (configs : list ZoneConfig) (s : ZoneStore) (zc : ZoneConfig) : Prop :=
  exists o z before zc' after, name_from_str (name zc) = Some o /\ hm_get o (zones s) = Some z /\
    configs = before ++ zc' :: after /\ names_zone zc' o /\ Forall (fun c => ~ names_zone c o) after /\
    parse_zone_file (files (file zc')) (name zc') = Ok z.

Definition load_step (files : Files) (zone_store : ZoneStore) (zone_config : ZoneConfig)
    : outcome ZoneStore :=
  zone ← with_context "Failed to load zone" [] (parse_zone_file (files (file zone_config)) (name zone_config));
  Ok (add_zone zone_store zone).

Lemma load_step_serves files s zc s' l :
  load_step files s zc = Ok s' ->
  (forall zc', zc' ∈ l -> serves files l s zc') ->
  forall zc', zc' ∈ l ++ [zc] -> serves files (l ++ [zc]) s' zc'.
Proof.
  intros Hs Hl zc' Hzc'. unfold load_step in Hs. apply bind_ok in Hs as (z & Hz & Hs).
  rewrite with_context_ok in Hz. injection Hs as <-.
  destruct (parse_zone_file_origin _ _ _ Hz) as (oz & Hoz & Ho).
  apply elem_of_app in Hzc' as [Hzc'| ->%list_elem_of_singleton].
  - destruct (Hl zc' Hzc') as (o & z' & before & zc'' & after & Hn & Hg & -> & Hc & Ha & Hp).
    unfold serves, add_zone. cbn [zones]. destruct (key_eqb (origin z) o) eqn:E.
    + exists o, z, (before ++ zc'' :: after), zc, []. rewrite hm_get_insert, E. split_and!; [done..| |done|done].
      exists oz. split; [done|]. by rewrite <- Ho.
    + exists o, z', before, zc'', (after ++ [zc]). rewrite hm_get_insert, E. split_and!; [done|done| |done| |done].
      * by rewrite <- app_assoc.
      * apply Forall_app. split; [done|]. apply List.Forall_cons; [|constructor].
        intros (o' & Ho' & Heq). assert (o' = oz) as -> by congruence.
        unfold key_equiv in Heq. congruence.
  - exists oz, z, l, zc, []. unfold add_zone. cbn [zones]. rewrite hm_get_insert, Ho, key_eqb_refl.
    split_and!; [done..| |done|done]. exists oz. split; [done|]. apply key_eqb_refl.
Qed.

Lemma load_zones_serves_from files l : forall l0 s s',
  (forall zc, zc ∈ l0 -> serves files l0 s zc) -> for_each (load_step files) l s = Ok s' ->
  forall zc, zc ∈ l0 ++ l -> serves files (l0 ++ l) s' zc.
Proof.
  induction l as [|zc l IH]; intros l0 s s' Hs Hf.
  - injection Hf as <-. by rewrite app_nil_r.
  - cbn [for_each] in Hf. apply bind_ok in Hf as (s1 & Hs1 & Hf).
    rewrite (cons_middle zc l0 l), app_assoc. by eapply IH; [eapply load_step_serves|].
Qed.

Lemma load_zones_serves files config s :
  load_zones files config = Ok s ->
  forall zc, zc ∈ zone_configs config -> serves files (zone_configs config) s zc.
Proof.
  intros Hl. apply (load_zones_serves_from files (zone_configs config) [] ZoneStore_new);
    [by intros zc ?%elem_of_nil|exact Hl].
Qed.

(** A zone that no other configuration names is parsed from its own file. *)
Lemma serves_own files configs s zc : serves files configs s zc ->
  (forall zc' o, zc' ∈ configs -> name_from_str (name zc) = Some o -> names_zone zc' o -> zc' = zc) ->
  exists o z, name_from_str (name zc) = Some o /\ hm_get o (zones s) = Some z /\
    parse_zone_file (files (file zc)) (name zc) = Ok z.
Proof.
  intros (o & z & before & zc' & after & Hn & Hg & -> & Hc & _ & Hp) Hown.
  assert (zc' = zc) as <-; [|by exists o, z]. eapply Hown; [|exact Hn|done].
  apply elem_of_app. right. left.
Qed.

Lemma load_zones_no_panic files config : load_zones files config ≠ Panic.
Proof.
  apply for_each_no_panic. intros s zc _. apply bind_no_panic; [|done].
  apply with_context_no_panic, parse_zone_file_safe.
Qed.

(** ** Validation *)

Lemma validate_ok exists_file config :
  validate exists_file config = Ok tt <->
  zone_configs config ≠ [] /\
  Forall (fun zc => name zc ≠ [] /\ exists_file (file zc) = true) (zone_configs config).
Proof.
  unfold validate. case_bool_decide as Hz; [split; [done|by intros []]|].
  assert (forall l, for_each (fun (_ : unit) zone =>
      if bool_decide (name zone = []) then Err (EMsg "Zone name cannot be empty")
      else if negb (exists_file (file zone)) then Err (EMsg "Zone file does not exist") else Ok tt) l tt = Ok tt
    <-> Forall (fun zc => name zc ≠ [] /\ exists_file (file zc) = true) l) as Hf.
  { induction l as [|zc l IH]; cbn [for_each]; [by split|]. rewrite Forall_cons.
    case_bool_decide as Hn; cbn [mbind outcome_bind]; [split; [done|by intros [[? _] _]]|].
    destruct (exists_file (file zc)) eqn:E; cbn [negb mbind outcome_bind].
    - rewrite IH. split; [intros ?; by split_and!|by intros [_ ?]].
    - split; [done|]. intros [[_ ?] _]. congruence. }
  rewrite Hf. tauto.
Qed.

(** ** Signals *)

Definition is_shutdown (s : Signal) : bool :=
  match s with SIGINT | SIGQUIT | SIGTERM => true | _ => false end.

(** The store after some signals: what the last successful reload has loaded. *)
Fixpoint last_loaded (config : Config) (current : ZoneStore) (events : list (Files * Signal)) : ZoneStore :=
  match events with
  | [] => current
  | (files, s) :: events =>
      let current := match s with
                     | SIGHUP => match load_zones files config with Ok new => new | _ => current end
                     | _ => current
                     end in
      last_loaded config current events
  end.

Definition logs_summary (s : Signal) : bool :=
  match s with SIGHUP => false | _ => true end.

Lemma signal_step_effect config files p s p' :
  signal_step config files p s p' ->
  cancelled p = false /\ store p' = last_loaded config (store p) [(files, s)] /\
  cancelled p' = is_shutdown s /\
  summaries p' = (summaries p + if logs_summary s then 1 else 0)%nat.
Proof.
  intros [p0 new Hc Hl|p0 e Hc Hl|p0 Hc|p0 s0 Hc Hs]; cbn [last_loaded].
  - rewrite Hl. split_and!; [done..|]. cbn. lia.
  - rewrite Hl. split_and!; [done..|]. cbn. lia.
  - split_and!; [done..|]. cbn. lia.
  - destruct Hs as [->|[->| ->]]; (split_and!; [done..|]; cbn; lia).
Qed.

(** * Properties *)

(** C35 (safety): a server that starts has at least one zone, every configured zone has a name and an
    existing file, and the store has a zone for each configured name, parsed from the file of the last
    zone configured with that name, in any case of its letters: the zone's own file, when no other
    configuration has its name.  There is a limiter exactly if a rate limit is configured. *)
Theorem start_serves_all_zones (clock : nat -> Z) (args : list str) (files : Files)
    (from_str : str -> option Config) (exists_file : str -> bool) (p : Started) :
  start clock args files from_str exists_file = Ok p ->
  let configs := zone_configs (p_config p) in
  configs ≠ [] /\
  (forall zc, zc ∈ configs ->
     name zc ≠ [] /\ exists_file (file zc) = true /\ serves files configs (p_store p) zc /\
     ((forall zc' o, zc' ∈ configs -> name_from_str (name zc) = Some o -> names_zone zc' o -> zc' = zc) ->
      exists o z, name_from_str (name zc) = Some o /\ hm_get o (zones (p_store p)) = Some z /\
        parse_zone_file (files (file zc)) (name zc) = Ok z)) /\
  (is_Some (p_limiter p) <-> is_Some (rate_limit (server (p_config p)))).
Proof.
  unfold start. intros Hs. apply bind_ok in Hs as (path & _ & Hs). apply bind_ok in Hs as (config & _ & Hs).
  apply bind_ok in Hs as ([] & Hv & Hs). apply bind_ok in Hs as (s & Hl & Hs). injection Hs as <-.
  rewrite with_context_ok in Hv. apply validate_ok in Hv as [Hne Hall]. cbn [p_config p_store p_limiter].
  split_and!; [done| |by rewrite fmap_is_Some]. intros zc Hzc. rewrite Forall_forall in Hall.
  destruct (Hall zc Hzc). pose proof (load_zones_serves _ _ _ Hl zc Hzc) as Hz.
  split_and!; [done|done|done|]. by apply serves_own.
Qed.

(** C21 (refinement): whatever signals arrive and whatever the zone files are at each moment, the
    store that queries see is the whole result of the last successful reload, or the first store: a
    failed reload changes nothing.  A shutdown signal ends the handler and cancels the token, and
    every other signal but a reload logs the metrics.  The handler can always go on until then. *)
Theorem reload_all_or_nothing (config : Config) (p p' : Process) (events : list (Files * Signal)) :
  signal_steps config p events p' -> cancelled p = false ->
  store p' = last_loaded config (store p) events /\
  cancelled p' = existsb (fun e => is_shutdown e.2) events /\
  summaries p' = (summaries p + length (List.filter (fun e => logs_summary e.2) events))%nat /\
  (cancelled p' = false -> forall files s, exists p'', signal_step config files p' s p'').
Proof.
  intros Hsteps Hc.
  assert (forall q, cancelled q = false -> forall files s, exists q', signal_step config files q s q') as Hgo.
  { intros q Hq files s. destruct s.
    - pose proof (load_zones_no_panic files config). destruct (load_zones files config) eqn:E; [..|done];
        eexists; [by apply step_reload|by eapply step_reload_failed].
    - eexists. by apply step_log.
    - eexists. apply step_shutdown; auto.
    - eexists. apply step_shutdown; auto.
    - eexists. apply step_shutdown; auto. }
  split_and!; [| | |by apply Hgo]; revert Hc.
  - induction Hsteps as [q|q1 files s q2 l q3 Hstep Hsteps IH]; intros Hc; [done|].
    apply signal_step_effect in Hstep as (_ & Hst & Hca & _).
    destruct (cancelled q2) eqn:E.
    + inversion Hsteps as [q|qa f sa qb la qc Hstep2]; subst; [by rewrite Hst|].
      apply signal_step_effect in Hstep2 as (? & _). congruence.
    + rewrite IH by done. by rewrite Hst.
  - induction Hsteps as [q|q1 files s q2 l q3 Hstep Hsteps IH]; intros Hc; [done|].
    apply signal_step_effect in Hstep as (_ & _ & Hca & _). cbn. rewrite <- Hca.
    destruct (cancelled q2) eqn:E; [|by apply IH].
    inversion Hsteps as [q|qa f sa qb la qc Hstep2]; subst; [done|].
    apply signal_step_effect in Hstep2 as (? & _). congruence.
  - induction Hsteps as [q|q1 files s q2 l q3 Hstep Hsteps IH]; intros Hc; [cbn; lia|].
    apply signal_step_effect in Hstep as (_ & _ & Hca & Hsu).
    destruct (cancelled q2) eqn:E.
    + inversion Hsteps as [q|qa f sa qb la qc Hstep2]; subst;
        [cbn; destruct (logs_summary s); cbn in *; lia|].
      apply signal_step_effect in Hstep2 as (? & _). congruence.
    + rewrite IH, Hsu by done. cbn. destruct (logs_summary s); cbn; lia.
Qed.
End main.

(** * Witnesses *)

Section witnesses.
Import Concrete.

Definition test_config : Config :=
  {| server := {| listen := default_listen; workers := default_workers; log_level := default_log_level;
                  rate_limit := Some 100; api_listen := None; dnssec := None; tcp := None |};
     zone_configs := [{| name := lit "example.com."; file := lit "example.com.zone" |}] |}.

(** A file system with the zone file, and one where it is gone. *)
Definition test_files (path : str) : option str := Some test_text.
Definition no_files (path : str) : option str := None.

Definition loaded_store : ZoneStore :=
  match load_zones test_files test_config with Ok s => s | _ => ZoneStore_new end.

Lemma test_starts : exists p,
  start (fun n => Z.of_nat n) [lit "lrmdns"] test_files (fun _ => Some test_config) (fun _ => true) = Ok p.
Proof.
  assert (forall A (o : outcome A), match o with Ok _ => true | _ => false end = true -> exists a, o = Ok a) as Hok
    by (intros A [a| |]; [by exists a|done..]).
  apply Hok. vm_compute. reflexivity.
Qed.

Lemma start_serves_all_zones_witness :
  exists p, start (fun n => Z.of_nat n) [lit "lrmdns"] test_files (fun _ => Some test_config) (fun _ => true) = Ok p /\
  let configs := zone_configs (p_config p) in
  configs ≠ [] /\
  (forall zc, zc ∈ configs -> name zc ≠ [] /\ true = true /\ serves test_files configs (p_store p) zc /\
     ((forall zc' o, zc' ∈ configs -> name_from_str (name zc) = Some o -> names_zone zc' o -> zc' = zc) ->
      exists o z, name_from_str (name zc) = Some o /\ hm_get o (zones (p_store p)) = Some z /\
        parse_zone_file (test_files (file zc)) (name zc) = Ok z)) /\
  (is_Some (p_limiter p) <-> is_Some (rate_limit (server (p_config p)))).
Proof.
  destruct test_starts as [p E].
  exists p. split; [exact E|].
  exact (start_serves_all_zones _ _ _ _ (fun _ => true) p E).
Defined.

Definition first_process : Process := {| store := ZoneStore_new; cancelled := false; summaries := 0 |}.
Definition last_process : Process := {| store := loaded_store; cancelled := true; summaries := 2 |}.

(** A reload, a reload without the file, a summary, the end. *)
Definition test_events : list ((str -> option str) * Signal) :=
  [(test_files, SIGHUP); (no_files, SIGHUP); (test_files, SIGUSR1); (no_files, SIGTERM)].

Lemma reload_all_or_nothing_witness :
  store last_process = last_loaded test_config (store first_process) test_events /\
  cancelled last_process = existsb (fun e => is_shutdown e.2) test_events /\
  summaries last_process =
    (summaries first_process + length (List.filter (fun e => logs_summary e.2) test_events))%nat /\
  (cancelled last_process = false ->
   forall files s, exists p'', signal_step test_config files last_process s p'').
Proof.
  apply reload_all_or_nothing; [|reflexivity].
  assert (load_zones test_files test_config = Ok loaded_store) as Hl by (vm_compute; reflexivity).
  eapply signal_steps_cons; [by apply step_reload|].
  eapply signal_steps_cons; [eapply step_reload_failed; [done|vm_compute; reflexivity]|].
  eapply signal_steps_cons; [by apply step_log|].
  eapply signal_steps_cons; [apply (step_shutdown _ _ _ SIGTERM); [done|by right; right]|].
  apply signal_steps_nil.
Defined.
End witnesses.
