(* ===== verification/Typed.v ===== *)
(** Everything the server serves is well-typed: the records of a zone that was parsed, hence those of
    every answer and zone transfer, have data of their type with numbers of the right width.  Requires
    [ZoneFileProps], [ProtocolProps], [ZoneTransfer] and [MainProps]. *)
From S2P Require Import Prelude RustTime RustStr HashMap Crates CratesModel Zone Fixtures ZoneFacts.
From S2P Require Import ZoneTransfer ZoneStoreFacts Protocol ProtocolFacts ProtocolProps ZoneFile.
From S2P Require Import ZoneFileFacts ZonePrint ZoneFileProps RateLimit Metrics Config Main MainProps.
Open Scope Z_scope.

Section typed.
Context `{Hickory} `{!Codecs} `{!RecordLaws}.

(** A record whose type is that of its data, and whose numbers have their widths. *)
Definition typed_record (r : DnsRecord) : Prop :=
  in_u 32 (record_ttl r) /\
  exists d, record_data r = Some d /\ record_record_type r = rdata_record_type d /\ rdata_ok d.

Definition typed_soa (s : SoaRecord) : Prop :=
  in_u 32 (serial s) /\ in_i32 (refresh s) /\ in_i32 (retry s) /\ in_i32 (expire s) /\ in_u 32 (minimum s).

Definition typed_zone (z : Zone) : Prop :=
  exists o s rs, z = zone_of_list o s rs /\ typed_soa s /\ Forall typed_record rs.

Definition typed_store (st : ZoneStore) : Prop := store_wf st /\ Forall typed_zone (hm_values (zones st)).

(** ** Parsing *)

Lemma parse_resource_record_typed line o ttl ln r :
  in_u 32 ttl -> parse_resource_record line o ttl ln = Ok (Some r) -> typed_record r.
Proof.
  intros Httl Hr. apply parse_resource_record_says in Hr as (w & ws & d & rtype & _ & _ & Ht & Hd & _ & _ & Hok & Hrt).
  split; [|by exists d]. rewrite Ht. destruct ws as [|w1 ws]; [done|]. cbn.
  destruct (parse_unsigned 32 w1) eqn:E; [by apply parse_unsigned_range in E|done].
Qed.

Lemma parse_directive_ttl line ln ttl cur ttl' cur' :
  in_u 32 ttl -> parse_directive line ln ttl cur = Ok (ttl', cur') -> in_u 32 ttl'.
Proof.
  intros Httl. unfold parse_directive. repeat case_bool_decide; repeat destruct (starts_with _ _); intros Hd; outcome_inv;
    simplify_eq; try done. by eapply parse_unsigned_range.
Qed.

Lemma read_lines_typed xs ttl cur rs ttl' cur' :
  in_u 32 ttl -> for_each read_line xs ([], ttl, cur) = Ok (rs, ttl', cur') -> Forall typed_record rs.
Proof.
  intros Httl Hr.
  eapply (for_each_inv (fun st : list DnsRecord * Z * Name => Forall typed_record st.1.1 /\ in_u 32 st.1.2)) in Hr;
    [apply Hr| |by split].
  intros [[rs1 ttl1] cur1] [ln line] [[rs2 ttl2] cur2] _ [Hrs Httl1] Hs. cbn in Hrs, Httl1 |- *.
  unfold read_line in Hs. destruct (_ || _); [by simplify_eq|]. destruct (starts_with_char _ _).
  - apply bind_ok in Hs as ([ttl3 cur3] & Hd & Hs). simplify_eq. split; [done|]. by eapply parse_directive_ttl.
  - apply bind_ok in Hs as ([r|] & Hp & Hs); simplify_eq; [|done]. split; [|done].
    apply Forall_app. split; [done|]. constructor; [|constructor]. by eapply parse_resource_record_typed.
Qed.

Lemma soa_of_typed r s : typed_record r -> soa_of r = Some s -> typed_soa s.
Proof.
  intros (_ & d & Hd & _ & Hok). unfold soa_of. case_bool_decide; [|done]. unfold extract_soa_data. rewrite Hd.
  destruct d; try done. intros [= <-]. exact Hok.
Qed.

Lemma build_zone_typed o rs z : Forall typed_record rs -> build_zone o rs = Some z -> typed_zone z.
Proof.
  induction 1 as [|r rs Hr Hrs IH]; cbn -[zone_of_list]; [done|].
  destruct (soa_of r) as [s|] eqn:E; [|apply IH]. intros [= <-].
  exists o, s, (r :: rs). split_and!; [done|by eapply soa_of_typed|by constructor].
Qed.

Lemma parse_zone_file_typed content n z : parse_zone_file content n = Ok z -> typed_zone z.
Proof.
  rewrite parse_zone_file_reads. intros ([o rs] & Hr & Hz)%bind_ok.
  destruct (build_zone o rs) as [z'|] eqn:E; [|done]. injection Hz as <-.
  eapply build_zone_typed; [|exact E]. unfold read_records in Hr. outcome_inv.
  destruct x1 as [[rs' ttl] cur]. cbn in *. simplify_eq.
  eapply (read_lines_typed _ 3600); [split; [done|reflexivity]|done].
Qed.

Lemma load_zones_typed files config st : load_zones files config = Ok st -> typed_store st.
Proof.
  intros Hl. unfold load_zones in Hl. revert Hl. apply for_each_inv; [|split; [apply store_wf_new|constructor]].
  intros s0 zc s1 _ [Hwf Hall] Hs1. apply bind_ok in Hs1 as (z & Hz%with_context_ok & Hs1). injection Hs1 as <-.
  split; [by apply store_wf_add_zone|]. apply Forall_forall. intros z' ((k & z0) & -> & Hin)%list_elem_of_fmap.
  apply parse_zone_file_typed in Hz. rewrite Forall_forall in Hall. cbn.
  apply hm_entry_elem in Hin as [Hin|[(? & _ & _ & ->)|(_ & _ & ->)]]; [|done..].
  apply Hall, list_elem_of_fmap. by exists (k, z0).
Qed.

(** ** Answers *)

Lemma find_zone_typed `{!NameLaws} st name z : typed_store st -> find_zone st name = Some z -> typed_zone z.
Proof. intros [Hwf Hall] Hz. apply find_zone_sound in Hz as [Hin _]; [|done]. rewrite Forall_forall in Hall. by apply Hall. Qed.

Lemma soa_record_typed z : typed_soa (soa z) -> typed_record (get_soa_record z).
Proof.
  intros Hs. unfold get_soa_record. split; [rewrite record_ttl_from; apply Hs|].
  eexists. rewrite record_data_from, record_type_from. split_and!; [done|done|exact Hs].
Qed.

(** A response has records only from the zone that was found. *)
Lemma process_query_records `{!MessageLaws} st q response :
  process_query st q = Ok response ->
  (message_answers response = [] /\ message_name_servers response = []) \/
  exists question z, message_op_code q = OpCode.Query /\ head (message_queries q) = Some question /\
    query_query_type question ≠ RecordType.AXFR /\ find_zone st (query_name question) = Some z.
Proof.
  unfold process_query, message_answers, message_name_servers. intros Hr.
  destruct (bool_decide (message_op_code q = OpCode.Query)) eqn:Eop; cbn [negb] in Hr.
  2: { injection Hr as <-. left. by rewrite view_set_response_code, view_base_response. }
  destruct (head (message_queries q)) as [question|].
  2: { injection Hr as <-. left. by rewrite view_set_response_code, view_base_response. }
  destruct (bool_decide (query_query_type question = RecordType.AXFR)) eqn:Et.
  { injection Hr as <-. left. by rewrite view_set_authoritative, view_add_query, view_base_response. }
  destruct (find_zone st (query_name question)) as [z|] eqn:Ez.
  2: { injection Hr as <-. left. by rewrite view_set_response_code, view_add_query, view_base_response. }
  right. apply bool_decide_eq_true in Eop. apply bool_decide_eq_false in Et. by exists question, z.
Qed.

Lemma response_typed `{!NameLaws} `{!MessageLaws} st q response :
  typed_store st -> process_query st q = Ok response ->
  Forall typed_record (message_answers response ++ message_name_servers response).
Proof.
  intros Hst Hr. destruct (process_query_records st q response Hr) as [[-> ->]|(question & z & Hop & Hq & Ht & Hz)]; [done|].
  destruct (find_zone_typed _ _ _ Hst Hz) as (o & s & rs & -> & Hs & Hrs).
  destruct (process_query_found o s rs st q question Hop Hq Ht Hz) as (r0 & Hr0 & Hv).
  rewrite Hr in Hr0. injection Hr0 as <-. unfold message_answers, message_name_servers.
  rewrite Hv. unfold response_view. cbn. rewrite Forall_forall in Hrs.
  apply Forall_app. split; apply Forall_forall; intros r Hin.
  - apply Hrs. by eapply resolution_answers_subset.
  - apply resolution_authority_subset in Hin as [->|Hin]; [|by apply Hrs].
    apply soa_record_typed. by rewrite soa_of_list.
Qed.

Lemma transfer_typed `{!NameLaws} z : typed_zone z -> Forall typed_record (get_all_records z).
Proof.
  intros (o & s & rs & -> & Hs & Hrs). rewrite get_all_records_eq.
  assert (typed_record (get_soa_record (zone_of_list o s rs))) as Hsoa by (apply soa_record_typed; by rewrite soa_of_list).
  constructor; [done|]. apply Forall_app. split; [|by constructor].
  rewrite transfer_body_perm, table_records_of_list by apply zone_wf_of_list.
  apply Forall_forall. intros r Hin%list_elem_of_In%filter_In. rewrite Forall_forall in Hrs.
  apply Hrs, list_elem_of_In, Hin.
Qed.
End typed.

(** ** Properties *)

(** C18 (type): whatever the zone files hold, once they are loaded every record in the answer and
    authority sections of every response, and every record of a zone transfer, has data of its own
    type, a TTL of 32 bits, and numbers, addresses and SOA fields of the right widths. *)
Theorem served_records_typed `{Hickory} `{!Codecs} `{!NameLaws} `{!RecordLaws} `{!MessageLaws}
    (files : str -> option str) (config : Config) (st : ZoneStore) :
  load_zones files config = Ok st ->
  (forall q response, process_query st q = Ok response ->
     Forall typed_record (message_answers response ++ message_name_servers response)) /\
  (forall name z, find_zone st name = Some z -> Forall typed_record (get_all_records z)).
Proof.
  intros Hl%load_zones_typed. split.
  - intros q response. by apply response_typed.
  - intros name z Hz. apply transfer_typed. by eapply find_zone_typed.
Qed.

(** * Witnesses *)

Section witnesses.
Import Concrete.

Lemma served_records_typed_witness :
  (forall q response, process_query loaded_store q = Ok response ->
     Forall typed_record (message_answers response ++ message_name_servers response)) /\
  (forall name z, find_zone loaded_store name = Some z -> Forall typed_record (get_all_records z)).
Proof. apply (served_records_typed test_files test_config). vm_compute. reflexivity. Defined.
End witnesses.
