(* ===== verification/Tasks.v ===== *)
(** The running process: the loops of [src/src/server.rs] that start a task per datagram and per
    connection, the tasks cut into atomic steps that interleave, and the signal handler of
    [src/src/main.rs], as one step relation on the state they share.  A read of the zone store and a
    reload are one step each, whenever they come; that they wait for the lock of the store is added by
    [StoreLock].  Requires [Server] and [Main]. *)
From S2P Require Import Prelude RustTime RustStr HashMap Crates Zone Protocol RateLimit Metrics Config.
From S2P Require Import Effects Server Main.
Open Scope Z_scope.

(** * Handlers as programs of atomic commands *)

Section programs.
Context `{HickoryTypes}.

(** What a handler does in one indivisible step, with the type of what it gets back. *)
Inductive command : Type -> Type :=
  | CNow : command Instant
  | CAtomic (s : Step) : command unit  (* one operation on one counter *)
  | CLimit (addr : IpAddr) : command bool  (* under the limiter's mutex *)
  | CStore (guard : Guard) : command ZoneStore  (* under the store's read lock *)
  | CSend (buf : list Z) : command bool  (* whether the datagram was sent *)
  | CWrite (buf : list Z) : command WriteResult
  | CRead (timeout : option Duration) (n : nat) : command ReadResult.

(** A handler that has still to run; it goes on with the answer to its next command. *)
Inductive prog (A : Type) :=
  | Return (r : result A)
  | Do {R : Type} (c : command R) (k : R -> prog A).
Arguments Return {_} _.
Arguments Do {_ _} _ _.

#[export] Instance prog_ret : MRet prog := fun _ a => Return (Done (Ok a)).

Fixpoint prog_then {A B} (f : A -> prog B) (p : prog A) : prog B :=
  match p with
  | Return (Done (Ok a)) => f a
  | Return (Done (Err e)) => Return (Done (Err e))
  | Return (Done Panic) => Return (Done Panic)
  | Return Blocked => Return Blocked
  | Return OutOfFuel => Return OutOfFuel
  | Do c k => Do c (fun r => prog_then f (k r))
  end.

#[export] Instance prog_bind : MBind prog := fun A B => @prog_then A B.

(** The steps of a call to the metrics, one after the other. *)
Fixpoint prog_steps (l : list Step) : prog unit :=
  match l with
  | [] => mret tt
  | s :: l => Do (CAtomic s) (fun _ => prog_steps l)
  end.

(** [send_to]: a failure ends the handler. *)
Definition prog_try (c : command bool) : prog unit :=
  Do c (fun ok : bool => Return (Done (if ok then Ok tt else Err EForeign))).

(** [write_all]: a failure ends the handler, and it waits with a write that stays pending. *)
Definition prog_write (buf : list Z) : prog unit :=
  Do (CWrite buf) (fun r =>
    Return (match r with
            | WriteOk => Done (Ok tt)
            | WriteError => Done (Err EForeign)
            | WriteBlocked => Blocked
            end)).

Definition prog_call {R} (c : command R) : prog R := Do c (fun r => Return (Done (Ok r))).

#[export] Instance prog_effects : Effects prog := {|
  eff_ret := prog_ret; eff_bind := prog_bind;
  lift _ o := Return (Done o);
  block _ := Return Blocked;
  out_of_fuel _ := Return OutOfFuel;
  record c := prog_steps (call_steps c);
  now := prog_call CNow;
  within_rate_limit addr := prog_call (CLimit addr);
  read_store guard := prog_call (CStore guard);
  send buf := prog_try (CSend buf);
  write_all := prog_write;
  read_exact timeout n := prog_call (CRead timeout n)
|}.
End programs.
Arguments Return {_ _} _.
Arguments Do {_ _ _} _ _.

(** * The state of the process *)

Section process.
Context `{Hickory} `{!Codecs}.

(** What a task was started for. *)
Inductive Origin :=
  | FromDatagram (data : list Z) (addr : IpAddr)
  | FromConnection (client : list Event) (addr : IpAddr).

Record Task := {
  t_origin : Origin;
  t_prog : prog unit;  (* what it has still to do *)
  t_input : list Event;  (* what its client has still to do *)
  t_out : list (list Z);  (* what it has sent *)
  t_steps : list Step  (* history: its steps on the metrics *)
}.

Record System := {
  s_process : Process;  (* the zone store, the shutdown token *)
  s_limiter : option RateLimiterInner;
  s_metrics : Metrics;
  s_tick : nat;  (* readings of the clock *)
  s_tasks : list Task;  (* every task there was, in the order of their start *)
  s_finished : bool;  (* [main] has returned *)
  s_decisions : list Call  (* history: the answers of the limiter *)
}.

(** The task that [run_udp] spawns for a datagram, received into a buffer of [MAX_UDP_RECV_SIZE]. *)
Definition udp_task (datagram : list Z) (addr : IpAddr) : Task :=
  let data := take (Z.to_nat MAX_UDP_RECV_SIZE) datagram in
  {| t_origin := FromDatagram data addr; t_prog := handle_udp_query prog_effects data addr;
     t_input := []; t_out := []; t_steps := [] |}.

(** One round per query, and one to find that the limit is reached. *)
Definition connection_fuel (tcp_config : option TcpConfig) : nat :=
  S (Z.to_nat (match tcp_config with Some c => max_queries_per_connection c | None => 100 end)).

(** The task that [run_tcp] spawns for a connection. *)
Definition tcp_task (tcp_config : option TcpConfig) (client : list Event) (addr : IpAddr) : Task :=
  {| t_origin := FromConnection client addr;
     t_prog := handle_tcp_connection prog_effects (connection_fuel tcp_config) addr tcp_config;
     t_input := client; t_out := []; t_steps := [] |}.

Definition with_task (i : nat) (t : Task) (sys : System) : System :=
  {| s_process := s_process sys; s_limiter := s_limiter sys; s_metrics := s_metrics sys;
     s_tick := s_tick sys; s_tasks := <[i := t]> (s_tasks sys); s_finished := s_finished sys;
     s_decisions := s_decisions sys |}.

Definition spawn (t : Task) (sys : System) : System :=
  {| s_process := s_process sys; s_limiter := s_limiter sys; s_metrics := s_metrics sys;
     s_tick := s_tick sys; s_tasks := s_tasks sys ++ [t]; s_finished := s_finished sys;
     s_decisions := s_decisions sys |}.

Definition with_process (p : Process) (sys : System) : System :=
  {| s_process := p; s_limiter := s_limiter sys; s_metrics := s_metrics sys; s_tick := s_tick sys;
     s_tasks := s_tasks sys; s_finished := s_finished sys; s_decisions := s_decisions sys |}.

Definition finish (sys : System) : System :=
  {| s_process := s_process sys; s_limiter := s_limiter sys; s_metrics := s_metrics sys;
     s_tick := s_tick sys; s_tasks := s_tasks sys; s_finished := true;
     s_decisions := s_decisions sys |}.

Definition next_tick (sys : System) : System :=
  {| s_process := s_process sys; s_limiter := s_limiter sys; s_metrics := s_metrics sys;
     s_tick := S (s_tick sys); s_tasks := s_tasks sys; s_finished := s_finished sys;
     s_decisions := s_decisions sys |}.

Definition with_metrics (m : Metrics) (sys : System) : System :=
  {| s_process := s_process sys; s_limiter := s_limiter sys; s_metrics := m; s_tick := s_tick sys;
     s_tasks := s_tasks sys; s_finished := s_finished sys; s_decisions := s_decisions sys |}.

(** The limiter's answer to a task. *)
Definition ask_limiter (clock : Clock) (addr : IpAddr) (sys : System) : bool * System :=
  match s_limiter sys with
  | None => (true, sys)
  | Some inner =>
      let now := clock (deciding_tick clock (s_tick sys) inner) in
      let '(granted, inner, tick) := check_rate_limit clock (s_tick sys) inner addr in
      (granted,
       {| s_process := s_process sys; s_limiter := Some inner; s_metrics := s_metrics sys;
          s_tick := tick; s_tasks := s_tasks sys; s_finished := s_finished sys;
          s_decisions :=
            s_decisions sys ++ [{| call_addr := addr; call_now := now; call_granted := granted |}] |})
  end.

(** * Steps *)

(** A task after a command: its rest, its client, its output, its steps. *)
Definition after (t : Task) (p : prog unit) (input : list Event) (sent : list (list Z))
    (steps : list Step) : Task :=
  {| t_origin := t_origin t; t_prog := p; t_input := input; t_out := t_out t ++ sent;
     t_steps := t_steps t ++ steps |}.

(** One command of task [i]; [fate] says what becomes of what it sends.  A datagram waits for no
    client: it goes, or [send_to] fails. *)
Definition exec {R} (clock : Clock) (fate : Fate) (i : nat) (t : Task) (c : command R)
    : (R -> prog unit) -> System -> System :=
  match c with
  | CNow => fun k sys =>
      with_task i (after t (k (clock (s_tick sys))) (t_input t) [] []) (next_tick sys)
  | CAtomic s => fun k sys =>
      with_task i (after t (k tt) (t_input t) [] [s]) (with_metrics (run_step (s_metrics sys) s) sys)
  | CLimit addr => fun k sys =>
      let '(granted, sys) := ask_limiter clock addr sys in
      with_task i (after t (k granted) (t_input t) [] []) sys
  | CStore _ => fun k sys =>
      with_task i (after t (k (Main.store (s_process sys))) (t_input t) [] []) sys
  | CSend buf => fun k sys =>
      match fate with
      | Goes => with_task i (after t (k true) (t_input t) [buf] []) sys
      | _ => with_task i (after t (k false) (t_input t) [] []) sys
      end
  | CWrite buf => fun k sys =>
      with_task i (after t (k (write_result fate)) (t_input t) [written fate buf] []) sys
  | CRead timeout n => fun k sys =>
      let '(r, input) := read_events timeout n (t_input t) in
      with_task i (after t (k r) input [] []) sys
  end.

(** What happens to the process. *)
Inductive Action :=
  | Datagram (datagram : list Z) (addr : IpAddr)
  | RecvError
  | Connect (client : list Event) (addr : IpAddr)
  | AcceptError
  | Signalled (files : str -> option str) (s : Signal)
  | RunTask (i : nat) (fate : Fate)
  | ServerEnds.

(** One step.  [select!] may take a datagram or a connection that is ready before it sees the
    cancelled token; once it has seen it [run] and [main] return, and the runtime drops the tasks. *)
Inductive step (config : Config) (clock : Clock) : System -> Action -> System -> Prop :=
  | step_datagram sys datagram addr :
      s_finished sys = false ->
      step config clock sys (Datagram datagram addr) (spawn (udp_task datagram addr) sys)
  | step_recv_error sys :
      s_finished sys = false -> step config clock sys RecvError sys
  | step_connect sys client addr :
      s_finished sys = false ->
      step config clock sys (Connect client addr)
        (spawn (tcp_task (tcp (server config)) client addr) sys)
  | step_accept_error sys :
      s_finished sys = false -> step config clock sys AcceptError sys
  | step_signal sys files s p :
      s_finished sys = false -> signal_step config files (s_process sys) s p ->
      step config clock sys (Signalled files s) (with_process p sys)
  | step_task sys i fate t R (c : command R) k :
      s_finished sys = false -> s_tasks sys !! i = Some t -> t_prog t = Do c k ->
      step config clock sys (RunTask i fate) (exec clock fate i t c k sys)
  | step_end sys :
      s_finished sys = false -> cancelled (s_process sys) = true ->
      step config clock sys ServerEnds (finish sys).

Inductive steps (config : Config) (clock : Clock) : System -> list Action -> System -> Prop :=
  | steps_nil sys : steps config clock sys [] sys
  | steps_cons sys1 a sys2 l sys3 :
      step config clock sys1 a sys2 -> steps config clock sys2 l sys3 ->
      steps config clock sys1 (a :: l) sys3.

(** The same as functions: what an action does, if it can happen. *)
Definition perform_signal (config : Config) (files : str -> option str) (p : Process) (s : Signal)
    : option Process :=
  if cancelled p then None
  else match s with
       | SIGHUP =>
           match load_zones files config with
           | Ok new => Some {| Main.store := new; cancelled := false; summaries := summaries p |}
           | Err _ => Some p
           | Panic => None
           end
       | SIGUSR1 => Some {| Main.store := Main.store p; cancelled := false; summaries := S (summaries p) |}
       | _ => Some {| Main.store := Main.store p; cancelled := true; summaries := S (summaries p) |}
       end.

Definition perform (config : Config) (clock : Clock) (sys : System) (a : Action) : option System :=
  if s_finished sys then None
  else match a with
       | Datagram datagram addr => Some (spawn (udp_task datagram addr) sys)
       | Connect client addr => Some (spawn (tcp_task (tcp (server config)) client addr) sys)
       | RecvError | AcceptError => Some sys
       | Signalled files s => (fun p => with_process p sys) <$> perform_signal config files (s_process sys) s
       | RunTask i fate =>
           t ← s_tasks sys !! i;
           match t_prog t with
           | Return _ => None
           | Do c k => Some (exec clock fate i t c k sys)
           end
       | ServerEnds => if cancelled (s_process sys) then Some (finish sys) else None
       end.

Fixpoint perform_all (config : Config) (clock : Clock) (sys : System) (l : list Action) : option System :=
  match l with
  | [] => Some sys
  | a :: l => sys' ← perform config clock sys a; perform_all config clock sys' l
  end.

(** The process when [main] has started the server: the clock was read for the metrics and, if there
    is one, for the limiter. *)
Definition boot (p : Started) : System :=
  {| s_process := {| Main.store := p_store p; cancelled := false; summaries := 0 |};
     s_limiter := p_limiter p; s_metrics := p_metrics p;
     s_tick := match p_limiter p with Some _ => 2 | None => 1 end; s_tasks := [];
     s_finished := false; s_decisions := [] |}.

(** A store that was in force at some moment from [sys1] to [sys2]. *)
Definition in_force (config : Config) (clock : Clock) (sys1 sys2 : System) (z : ZoneStore) : Prop :=
  exists l1 sys l2, steps config clock sys1 l1 sys /\ steps config clock sys l2 sys2 /\
    z = Main.store (s_process sys).
End process.
