(* ===== verification/TasksFacts.v ===== *)
(** A task of the concurrent process against the handler that runs alone in an environment: the
    program of a handler does what the handler does ([runs_as]), and what happens to a task among the
    others is a run of its program in some environment ([task_run]). *)
From S2P Require Import Prelude RustTime RustStr HashMap Crates Zone Protocol RateLimit Metrics Config.
From S2P Require Import Effects ServerIO Server ServerFacts Main Tasks.
Open Scope Z_scope.

(** * A program run in an environment *)

Section run.
Context `{HickoryTypes} (env : Env).

Definition moved (tick sends : nat) (w : World) : World :=
  {| w_tick := w_tick w + tick; w_limiter := w_limiter w; w_calls := w_calls w;
     w_sends := w_sends w + sends; w_out := w_out w; w_input := w_input w |}.

(** The answer to a command, the world after it, and the steps on the metrics. *)
Definition answer {R} (c : command R) (w : World) : R * World * list Step :=
  match c with
  | CNow => (env_clock env (w_tick w), moved 1 0 w, [])
  | CAtomic s => (tt, w, [s])
  | CLimit addr =>
      match io_within_rate_limit env addr w with
      | (Done (Ok granted), w) => (granted, w, [])
      | (_, w) => (true, w, [])
      end
  | CStore _ => (env_store env (w_tick w), moved 1 0 w, [])
  | CSend buf => (env_send_ok env (w_sends w), (io_send env buf w).2, [])
  | CWrite buf =>
      (write_result (env_write env (w_sends w)), (io_write_all env buf w).2, [])
  | CRead timeout n =>
      let '(r, input) := read_events timeout n (w_input w) in
      (r, {| w_tick := w_tick w; w_limiter := w_limiter w; w_calls := w_calls w; w_sends := w_sends w;
             w_out := w_out w; w_input := input |}, [])
  end.

Fixpoint run_prog {A} (p : prog A) (w : World) (st : list Step) : result A * World * list Step :=
  match p with
  | Return r => (r, w, st)
  | Do c k => let '(a, w, s) := answer c w in run_prog (k a) w (st ++ s)
  end.

(** Worlds that differ in the recorded calls only. *)
Definition same_but_calls (w v : World) : Prop :=
  w_tick w = w_tick v /\ w_limiter w = w_limiter v /\ w_sends w = w_sends v /\
  w_out w = w_out v /\ w_input w = w_input v.

(** The program [p] does what [m] does, and the steps of what it records. *)
Definition runs_as {A} (p : prog A) (m : io A) : Prop :=
  forall w v st, same_but_calls w v ->
    exists v' cs, run_prog p v st = ((m w).1, v', st ++ flat_map call_steps cs) /\
      same_but_calls (m w).2 v' /\ w_calls (m w).2 = w_calls w ++ cs.

Lemma run_prog_then {A B} (f : A -> prog B) (p : prog A) w st :
  run_prog (p ≫= f) w st =
  match run_prog p w st with
  | (Done (Ok a), w, st) => run_prog (f a) w st
  | (Done (Err e), w, st) => (Done (Err e), w, st)
  | (Done Panic, w, st) => (Done Panic, w, st)
  | (Blocked, w, st) => (Blocked, w, st)
  | (OutOfFuel, w, st) => (OutOfFuel, w, st)
  end.
Proof.
  revert w st. induction p as [[[a|e|]| |]|R c k IH]; intros w st; [done..|].
  change (Do c k ≫= f) with (Do c (fun r => k r ≫= f)). cbn [run_prog].
  destruct (answer c w) as [[a w'] s]. apply IH.
Qed.

Lemma runs_as_bind {A B} (p : prog A) (m : io A) (f : A -> prog B) (g : A -> io B) :
  runs_as p m -> (forall a, runs_as (f a) (g a)) -> runs_as (p ≫= f) (m ≫= g).
Proof.
  intros Hp Hf w v st Hs. destruct (Hp w v st Hs) as (v1 & cs & Hr & Hs1 & Hc).
  rewrite run_prog_then, Hr. unfold mbind, io_bind.
  destruct (m w) as [[[a|e|]| |] w1]; cbn in *; try (by exists v1, cs).
  destruct (Hf a w1 v1 (st ++ flat_map call_steps cs) Hs1) as (v2 & cs2 & Hr2 & Hs2 & Hc2).
  exists v2, (cs ++ cs2). rewrite Hr2, Hc2, Hc, flat_map_app, !app_assoc. done.
Qed.

(** A step without calls. *)
Lemma runs_as_quiet {A} (p : prog A) (m : io A) :
  (forall w v st, same_but_calls w v ->
     exists v', run_prog p v st = ((m w).1, v', st) /\ same_but_calls (m w).2 v' /\
       w_calls (m w).2 = w_calls w) -> runs_as p m.
Proof.
  intros Hp w v st Hs. destruct (Hp w v st Hs) as (v' & Hr & Hs' & Hc).
  exists v', []. cbn [flat_map]. by rewrite !app_nil_r, Hr, Hc.
Qed.

Lemma runs_as_return {A} (o : outcome A) : runs_as (lift (Effects := prog_effects) o) (io_lift o).
Proof. apply runs_as_quiet. intros w v st Hs. by exists v. Qed.
Lemma runs_as_ret {A} (a : A) : runs_as (mret a) (mret a).
Proof. apply runs_as_quiet. intros w v st Hs. by exists v. Qed.
Lemma runs_as_block {A} : runs_as (block (Effects := prog_effects)) (@io_block A).
Proof. apply runs_as_quiet. intros w v st Hs. by exists v. Qed.
Lemma runs_as_fuel {A} : runs_as (out_of_fuel (Effects := prog_effects)) (@io_out_of_fuel A).
Proof. apply runs_as_quiet. intros w v st Hs. by exists v. Qed.

Lemma run_prog_steps l w st : run_prog (prog_steps l) w st = (Done (Ok tt), w, st ++ l).
Proof.
  revert st. induction l as [|s l IH]; intros st; cbn [prog_steps run_prog answer].
  - by rewrite app_nil_r.
  - by rewrite IH, <- app_assoc.
Qed.

Lemma runs_as_record c : runs_as (record (Effects := prog_effects) c) (io_record c).
Proof.
  intros w v st Hs. exists v, [c]. cbn. by rewrite run_prog_steps, app_nil_r.
Qed.

(** Closes the goals about commands that record nothing. *)
Ltac quiet := apply runs_as_quiet; intros w v st (Ht & Hl & Hn & Ho & Hi).

Lemma runs_as_now : runs_as (now (Effects := prog_effects)) (io_now env).
Proof.
  quiet. eexists. cbn. rewrite app_nil_r, Ht. split; [done|]. split; [|done].
  unfold same_but_calls, moved. cbn. rewrite Hl, Hn, Ho, Hi. split_and!; (done || lia).
Qed.
Lemma runs_as_store g : runs_as (read_store (Effects := prog_effects) g) (io_read_store env g).
Proof.
  quiet. eexists. cbn. rewrite app_nil_r, Ht. split; [done|]. split; [|done].
  unfold same_but_calls, moved. cbn. rewrite Hl, Hn, Ho, Hi. split_and!; (done || lia).
Qed.
Lemma runs_as_limit addr :
  runs_as (within_rate_limit (Effects := prog_effects) addr) (io_within_rate_limit env addr).
Proof.
  quiet. cbn. unfold io_within_rate_limit. rewrite <- Hl, <- Ht. destruct (w_limiter w) as [inner|] eqn:E.
  - destruct (check_rate_limit _ _ _ _) as [[granted inner'] tick]. rewrite app_nil_r.
    eexists. split; [done|]. unfold same_but_calls. cbn. by rewrite Hn, Ho, Hi.
  - rewrite app_nil_r. eexists. split; [done|]. unfold same_but_calls. cbn. by rewrite <- Hl, E.
Qed.
Lemma runs_as_send buf : runs_as (send (Effects := prog_effects) buf) (io_send env buf).
Proof.
  quiet. cbn. unfold io_send. cbn. rewrite <- Hn, app_nil_r. eexists. split; [done|]. split; [|done].
  unfold same_but_calls. cbn. rewrite Ht, Hl, Ho, Hi. done.
Qed.
Lemma runs_as_write buf : runs_as (write_all (Effects := prog_effects) buf) (io_write_all env buf).
Proof.
  quiet. cbn. unfold io_write_all. cbn. rewrite <- Hn, app_nil_r.
  destruct (env_write env (w_sends w)); (eexists; split; [done|]; split; [|done]);
    unfold same_but_calls; cbn; by rewrite Ht, Hl, Ho, Hi.
Qed.
Lemma runs_as_read t n : runs_as (read_exact (Effects := prog_effects) t n) (io_read_exact t n).
Proof.
  quiet. cbn. unfold io_read_exact. rewrite <- Hi. destruct (read_events t n (w_input w)) as [r rest].
  rewrite app_nil_r. eexists. split; [done|]. split; [|done]. unfold same_but_calls. cbn. by rewrite Ht, Hl, Hn, Ho.
Qed.
End run.

#[export] Hint Resolve runs_as_return runs_as_ret runs_as_block runs_as_fuel runs_as_record runs_as_now
  runs_as_store runs_as_limit runs_as_send runs_as_write runs_as_read : dns.

(** Walks through a handler and its program, one step after the other. *)
Ltac walk_runs :=
  repeat first
    [ solve [auto with dns]
    | apply runs_as_bind; [|intros ?]
    | match goal with |- runs_as _ (match ?x with _ => _ end) (match ?x with _ => _ end) =>
        destruct x
      end ].

Section handlers.
Context `{Hickory} (env : Env).

Lemma runs_as_elapsed start : runs_as env (record_elapsed prog_effects start) (record_elapsed env start).
Proof. unfold record_elapsed; io_norm. walk_runs. Qed.

Lemma runs_as_encode ctx m : runs_as env (encode prog_effects ctx m) (encode env ctx m).
Proof. unfold encode; io_norm. walk_runs. Qed.

Lemma runs_as_encode_plain m : runs_as env (encode_plain prog_effects m) (encode_plain env m).
Proof. unfold encode_plain; io_norm. walk_runs. Qed.

Lemma runs_as_first_type q : runs_as env (record_first_type prog_effects q) (record_first_type env q).
Proof. unfold record_first_type; io_norm. walk_runs. Qed.

Hint Resolve runs_as_elapsed runs_as_encode runs_as_encode_plain runs_as_first_type : dns.

Lemma runs_as_run_query start q : runs_as env (run_query prog_effects start q) (run_query env start q).
Proof. unfold run_query; io_norm. walk_runs. Qed.

Lemma runs_as_framed buf : runs_as env (send_framed prog_effects buf) (send_framed env buf).
Proof. unfold send_framed; io_norm. walk_runs. Qed.

Hint Resolve runs_as_run_query runs_as_framed : dns.

Lemma runs_as_shed fuel section take max start m :
  runs_as env (shed_section prog_effects fuel section take max start m)
    (shed_section env fuel section take max start m).
Proof. revert m. induction fuel as [|fuel IH]; intros m; cbn [shed_section]; io_norm; walk_runs. Qed.

Hint Resolve runs_as_shed : dns.

Lemma runs_as_truncated max start m :
  runs_as env (send_truncated prog_effects max start m) (send_truncated env max start m).
Proof. unfold send_truncated; io_norm. walk_runs. Qed.

Hint Resolve runs_as_truncated : dns.

(** The UDP handler cut into commands is the UDP handler. *)
Lemma runs_as_udp data addr :
  runs_as env (handle_udp_query prog_effects data addr) (handle_udp_query env data addr).
Proof.
  unfold handle_udp_query; io_norm. walk_runs.
Qed.

Lemma runs_as_records q question rs :
  runs_as env (send_records prog_effects q question rs) (send_records env q question rs).
Proof. induction rs as [|r rs IH]; cbn [send_records]; io_norm; walk_runs. Qed.

Hint Resolve runs_as_records : dns.

Lemma runs_as_message addr start buf :
  runs_as env (answer_tcp_message prog_effects addr start buf) (answer_tcp_message env addr start buf).
Proof.
  unfold answer_tcp_message; io_norm. walk_runs.
Qed.

Hint Resolve runs_as_message : dns.

Lemma runs_as_iteration addr t q :
  runs_as env (tcp_iteration prog_effects addr t q) (tcp_iteration env addr t q).
Proof. unfold tcp_iteration; io_norm. walk_runs. Qed.

Hint Resolve runs_as_iteration : dns.

Lemma runs_as_loop fuel addr t max : forall q,
  runs_as env (tcp_loop prog_effects fuel addr t max q) (tcp_loop env fuel addr t max q).
Proof. induction fuel as [|fuel IH]; intros q; cbn [tcp_loop]; io_norm; walk_runs. Qed.

Hint Resolve runs_as_loop : dns.

(** And so for a connection. *)
Lemma runs_as_tcp fuel addr cfg :
  runs_as env (handle_tcp_connection prog_effects fuel addr cfg) (handle_tcp_connection env fuel addr cfg).
Proof. unfold handle_tcp_connection; io_norm. walk_runs. Qed.
End handlers.

(** * What depends on which part of the environment *)

Section agree.
Context `{HickoryTypes}.

(** Environments that are equal from some moment and some write on. *)
Definition agree_from (tick sends : nat) (e1 e2 : Env) : Prop :=
  (forall n, (tick <= n)%nat ->
     env_clock e1 n = env_clock e2 n /\ env_store e1 n = env_store e2 n /\
     forall inner, env_others e1 n inner = env_others e2 n inner) /\
  (forall n, (sends <= n)%nat ->
     env_send_ok e1 n = env_send_ok e2 n /\ env_write e1 n = env_write e2 n).

Lemma agree_from_mono t t' s s' e1 e2 :
  (t <= t')%nat -> (s <= s')%nat -> agree_from t s e1 e2 -> agree_from t' s' e1 e2.
Proof. intros ?? [Ht Hs]. split; intros n Hn; [apply Ht|apply Hs]; lia. Qed.

(** The limiter reads the clock as often whatever the clock's numbering. *)
Lemma check_rate_limit_clocks (c1 c2 : Clock) t1 t2 inner addr granted inner' t2' :
  check_rate_limit c2 t2 inner addr = (granted, inner', t2') ->
  (t2 < t2')%nat /\
  ((forall i, (i < t2' - t2)%nat -> c1 (t1 + i)%nat = c2 (t2 + i)%nat) ->
   check_rate_limit c1 t1 inner addr = (granted, inner', (t1 + (t2' - t2))%nat)).
Proof.
  unfold check_rate_limit.
  destruct (from_secs 60 <? duration_since (c2 t2) (last_cleanup inner)) eqn:Hb; cbv beta zeta iota.
  - intros Hc. assert (t2' = S (S (S (S t2)))) as -> by (destruct (_ <=? _) in Hc; by injection Hc).
    split; [lia|]. intros Hi. assert (forall i j k, (i < 4)%nat -> j = (t1 + i)%nat -> k = (t2 + i)%nat -> c1 j = c2 k) as Hr
      by (intros i j k ? -> ->; apply Hi; lia).
    rewrite (Hr 0%nat t1 t2), Hb by lia. rewrite (Hr 1%nat (S t1) (S t2)) by lia.
    rewrite (Hr 2%nat (S (S t1)) (S (S t2))) by lia. rewrite (Hr 3%nat (S (S (S t1))) (S (S (S t2)))) by lia.
    destruct (_ <=? _); injection Hc as <- <-; (do 2 f_equal; lia).
  - intros Hc. assert (t2' = S (S t2)) as -> by (destruct (_ <=? _) in Hc; by injection Hc).
    split; [lia|]. intros Hi. assert (forall i j k, (i < 2)%nat -> j = (t1 + i)%nat -> k = (t2 + i)%nat -> c1 j = c2 k) as Hr
      by (intros i j k ? -> ->; apply Hi; lia).
    rewrite (Hr 0%nat t1 t2), Hb by lia. rewrite (Hr 1%nat (S t1) (S t2)) by lia.
    destruct (_ <=? _); injection Hc as <- <-; (do 2 f_equal; lia).
Qed.

Lemma answer_agree e1 e2 {R} (c : command R) w :
  agree_from (w_tick w) (w_sends w) e1 e2 -> answer e1 c w = answer e2 c w.
Proof.
  intros [Ht Hs]. destruct (Ht (w_tick w)) as (E1 & E2 & E3); [lia|].
  destruct (Hs (w_sends w)) as [E4 E5]; [lia|]. destruct c; cbn; try done.
  - by rewrite E1.
  - unfold io_within_rate_limit. destruct (w_limiter w) as [inner|]; [|done]. rewrite E3.
    destruct (check_rate_limit (env_clock e2) (w_tick w) (env_others e2 (w_tick w) inner) addr)
      as [[granted inner'] t'] eqn:E.
    apply (check_rate_limit_clocks (env_clock e1) _ (w_tick w)) in E as [Hlt E].
    rewrite E; [by replace (w_tick w + (t' - w_tick w))%nat with t' by lia|].
    intros i Hi. apply Ht. lia.
  - by rewrite E2.
  - unfold io_send. cbn. by rewrite E4.
  - unfold io_write_all. cbn. by rewrite E5.
Qed.

(** Moments and writes only go up. *)
Lemma answer_moves e {R} (c : command R) w :
  (w_tick w <= w_tick (answer e c w).1.2)%nat /\ (w_sends w <= w_sends (answer e c w).1.2)%nat.
Proof.
  destruct c; cbn; try (split; lia).
  - unfold io_within_rate_limit. destruct (w_limiter w) as [inner|]; [|cbn; split; lia].
    destruct (check_rate_limit _ _ _ _) as [[granted inner'] t'] eqn:E.
    apply (check_rate_limit_clocks (env_clock e) _ 0) in E as [Hlt _]. cbn. split; lia.
  - destruct (read_events timeout n (w_input w)). cbn. split; lia.
Qed.

Lemma run_prog_agree e1 e2 {A} (p : prog A) : forall w st,
  agree_from (w_tick w) (w_sends w) e1 e2 -> run_prog e1 p w st = run_prog e2 p w st.
Proof.
  induction p as [r|R c k IH]; intros w st Hag; cbn [run_prog]; [done|].
  rewrite (answer_agree e1 e2 c w Hag). pose proof (answer_moves e2 c w) as [Ht Hs].
  destruct (answer e2 c w) as [[a w'] s]. cbn in *. apply IH. by eapply agree_from_mono.
Qed.
End agree.

(** * A task among the others *)

Section task.
Context `{Hickory} `{!Codecs} (config : Config) (clock : Clock).

(** The environment of one step before an environment for the rest: [d] moments from [tick] on show
    the clock from its [g]-th reading, the store [z] and the limiter [inner]; [e] writes meet a
    fate. *)
Definition before_env (tick d g : nat) (z : ZoneStore) (inner : option RateLimiterInner)
    (sends e : nat) (fate : Fate) (rest : Env) : Env :=
  {| env_clock n := if decide (n < tick + d)%nat then clock (g + (n - tick)) else env_clock rest n;
     env_store n := if decide (n < tick + d)%nat then z else env_store rest n;
     env_others n x := if decide (n < tick + d)%nat then default x inner else env_others rest n x;
     env_send_ok n := if decide (n < sends + e)%nat then bool_decide (fate = Goes) else env_send_ok rest n;
     env_write n := if decide (n < sends + e)%nat then fate else env_write rest n |}.

Lemma before_env_agree tick d g z inner sends e fate rest :
  agree_from (tick + d) (sends + e) (before_env tick d g z inner sends e fate rest) rest.
Proof. split; intros n Hn; cbn; split_and!; try intros inner0; by rewrite decide_False by lia. Qed.

(** The world that task [t] of the process sees, up to the recorded calls. *)
Definition task_world (sys : System) (t : Task) (tick sends : nat) (w : World) : Prop :=
  w_tick w = tick /\ w_sends w = sends /\ (w_limiter w = None <-> s_limiter sys = None) /\
  w_input w = t_input t /\ w_out w = t_out t.

Lemma lookup_with_task i t t0 sys :
  s_tasks sys !! i = Some t0 -> s_tasks (with_task i t sys) !! i = Some t.
Proof. intros Hi. cbn. apply list_lookup_insert_eq. by eapply lookup_lt_Some. Qed.

(** One command of a task, in the process and in an environment. *)
Lemma exec_answer {R} (c : command R) fate i t k sys :
  s_tasks sys !! i = Some t ->
  let sys2 := exec clock fate i t c k sys in
  exists a d e t2 st,
    s_tasks sys2 !! i = Some t2 /\ t_prog t2 = k a /\ t_steps t2 = t_steps t ++ st /\
    t_origin t2 = t_origin t /\
    (s_tick sys + d <= S (s_tick sys2))%nat /\
    forall rest tick sends w, task_world sys t tick sends w ->
      exists w2,
        answer (before_env tick d (s_tick sys) (store (s_process sys)) (s_limiter sys) sends e fate rest)
          c w = (a, w2, st) /\ task_world sys2 t2 (tick + d) (sends + e) w2.
Proof.
  intros Hi. cbv zeta. destruct c as [|s|addr|guard|buf|buf|timeout n]; cbn [exec].
  - eexists _, 1%nat, 0%nat, _, _. split_and!; [by eapply lookup_with_task|done|done|done|cbn; lia|].
    intros rest tick sends w (Ht & Hs & Hl & Hin & Ho). eexists. cbn. rewrite decide_True by lia.
    rewrite Ht, Nat.sub_diag, Nat.add_0_r. split; [done|]. unfold task_world, moved. cbn.
    rewrite app_nil_r, Ht, Hs. done.
  - eexists _, 0%nat, 0%nat, _, _. split_and!; [by eapply lookup_with_task|done|done|done|cbn; lia|].
    intros rest tick sends w (Ht & Hs & Hl & Hin & Ho). eexists. cbn. split; [done|].
    unfold task_world. cbn. rewrite app_nil_r, Ht, Hs, !Nat.add_0_r. done.
  - unfold ask_limiter. destruct (s_limiter sys) as [inner|] eqn:El.
    + destruct (check_rate_limit clock (s_tick sys) inner addr) as [[granted inner'] tick'] eqn:Ec.
      pose proof (check_rate_limit_clocks clock clock (s_tick sys) (s_tick sys) inner addr _ _ _ Ec) as [Hlt _].
      eexists _, (tick' - s_tick sys)%nat, 0%nat, _, _.
      split_and!; [by eapply lookup_with_task|done|done|done|cbn; lia|].
      intros rest tick sends w (Ht & Hs & Hl & Hin & Ho). cbn. unfold io_within_rate_limit.
      destruct (w_limiter w) as [winner|] eqn:Ew; [|exfalso; destruct Hl as [Hl _]; specialize (Hl eq_refl); congruence].
      cbn [env_others before_env default]. rewrite decide_True by lia. unfold id.
      match goal with |- context [check_rate_limit ?c1 (w_tick w) _ _] =>
        destruct (check_rate_limit_clocks c1 clock (w_tick w) (s_tick sys) inner addr _ _ _ Ec) as [_ ->] end.
      * eexists. split; [done|]. unfold task_world. cbn. rewrite app_nil_r, Ht, Hs, Nat.add_0_r. done.
      * intros j Hj. cbn. rewrite decide_True by lia. f_equal. lia.
    + eexists _, 0%nat, 0%nat, _, _. split_and!; [by eapply lookup_with_task|done|done|done|cbn; lia|].
      intros rest tick sends w (Ht & Hs & Hl & Hin & Ho). cbn. unfold io_within_rate_limit.
      destruct (w_limiter w) eqn:Ew; [exfalso; destruct Hl as [_ Hl]; specialize (Hl El); congruence|].
      eexists. split; [done|]. unfold task_world. cbn. rewrite app_nil_r, Ht, Hs, !Nat.add_0_r, El. done.
  - eexists _, 1%nat, 0%nat, _, _. split_and!; [by eapply lookup_with_task|done|done|done|cbn; lia|].
    intros rest tick sends w (Ht & Hs & Hl & Hin & Ho). eexists. cbn. rewrite decide_True by lia.
    split; [done|]. unfold task_world, moved. cbn. rewrite app_nil_r, Ht, Hs. done.
  - destruct fate as [|n|n]; eexists _, 0%nat, 1%nat, _, _;
      (split_and!; [by eapply lookup_with_task|done|done|done|cbn; lia|]);
      intros rest tick sends w (Ht & Hs & Hl & Hin & Ho); unfold answer, io_send; cbn -[decide];
      rewrite decide_True by lia; cbn; (eexists; split; [done|]); unfold task_world; cbn;
      rewrite ?app_nil_r, Ht, Hs, ?Ho, !Nat.add_0_r, Nat.add_1_r; done.
  - destruct fate as [|n|n]; eexists _, 0%nat, 1%nat, _, _;
      (split_and!; [by eapply lookup_with_task|done|done|done|cbn; lia|]);
      intros rest tick sends w (Ht & Hs & Hl & Hin & Ho); unfold answer, io_write_all; cbn -[decide];
      rewrite decide_True by lia; cbn; (eexists; split; [done|]); unfold task_world; cbn;
      rewrite ?app_nil_r, Ht, Hs, ?Ho, !Nat.add_0_r, Nat.add_1_r; done.
  - destruct (read_events timeout n (t_input t)) as [r input] eqn:Er.
    eexists _, 0%nat, 0%nat, _, _. split_and!; [by eapply lookup_with_task|done|done|done|cbn; lia|].
    intros rest tick sends w (Ht & Hs & Hl & Hin & Ho). cbn. rewrite Hin, Er. eexists. split; [done|].
    unfold task_world. cbn. rewrite app_nil_r, Ht, Hs, !Nat.add_0_r. done.
Qed.

(** What every step preserves. *)
Lemma ask_limiter_frame addr sys :
  let sys0 := (ask_limiter clock addr sys).2 in
  s_process sys0 = s_process sys /\ s_finished sys0 = s_finished sys /\
  (s_tick sys <= s_tick sys0)%nat /\ (s_limiter sys0 = None <-> s_limiter sys = None) /\
  s_tasks sys0 = s_tasks sys.
Proof.
  unfold ask_limiter. destruct (s_limiter sys) as [inner|] eqn:El; [|cbn; by rewrite El].
  destruct (check_rate_limit clock (s_tick sys) inner addr) as [[granted inner'] tick'] eqn:Ec.
  pose proof (check_rate_limit_clocks clock clock (s_tick sys) (s_tick sys) inner addr _ _ _ Ec) as [Hlt _].
  cbn. split_and!; (done || lia).
Qed.

Lemma exec_frame {R} (c : command R) fate i t k sys :
  let sys2 := exec clock fate i t c k sys in
  s_process sys2 = s_process sys /\ s_finished sys2 = s_finished sys /\
  (s_tick sys <= s_tick sys2)%nat /\ (s_limiter sys2 = None <-> s_limiter sys = None) /\
  length (s_tasks sys2) = length (s_tasks sys) /\
  forall j, j ≠ i -> s_tasks sys2 !! j = s_tasks sys !! j.
Proof.
  assert (forall t0 sys0, length (s_tasks (with_task i t0 sys0)) = length (s_tasks sys0) /\
      forall j, j ≠ i -> s_tasks (with_task i t0 sys0) !! j = s_tasks sys0 !! j) as Hw.
  { intros t0 sys0. split; [apply length_insert|]. intros j Hj. cbn. by apply list_lookup_insert_ne. }
  assert (forall t0 sys0, s_process sys0 = s_process sys -> s_finished sys0 = s_finished sys ->
      (s_tick sys <= s_tick sys0)%nat -> (s_limiter sys0 = None <-> s_limiter sys = None) ->
      s_tasks sys0 = s_tasks sys -> let sys2 := with_task i t0 sys0 in
      s_process sys2 = s_process sys /\ s_finished sys2 = s_finished sys /\
      (s_tick sys <= s_tick sys2)%nat /\ (s_limiter sys2 = None <-> s_limiter sys = None) /\
      length (s_tasks sys2) = length (s_tasks sys) /\ forall j, j ≠ i -> s_tasks sys2 !! j = s_tasks sys !! j) as Hsame.
  { intros t0 sys0 Hp Hf Ht Hl Hs sys2. destruct (Hw t0 sys0) as [Hlen Hlook]. split_and!; [done|done|done|done| |].
    - unfold sys2. by rewrite Hlen, Hs.
    - intros j Hj. unfold sys2. by rewrite Hlook, Hs. }
  destruct c as [|s|addr|guard|buf|buf|timeout n]; cbn [exec]; cbv zeta; try (by apply Hsame).
  - apply Hsame; (done || (cbn; lia)).
  - pose proof (ask_limiter_frame addr sys) as Hask. destruct (ask_limiter clock addr sys) as [granted sys0].
    cbn in Hask. destruct Hask as (? & ? & ? & ? & ?). by apply Hsame.
  - destruct fate; by apply Hsame.
  - destruct (read_events timeout n (t_input t)). by apply Hsame.
Qed.

Lemma step_frame sys a sys2 :
  step config clock sys a sys2 ->
  s_finished sys = false /\ (s_tick sys <= s_tick sys2)%nat /\ (s_limiter sys2 = None <-> s_limiter sys = None) /\
  (length (s_tasks sys) <= length (s_tasks sys2))%nat /\
  (forall i, (i < length (s_tasks sys))%nat -> (forall fate, a ≠ RunTask i fate) ->
     s_tasks sys2 !! i = s_tasks sys !! i).
Proof.
  intros Hstep. destruct Hstep as [sys datagram addr|sys|sys client addr|sys|sys files s p|sys i fate t R c k|sys];
    (split; [done|]); try (split_and!; [cbn; lia|done|cbn; lia|done]).
  - split_and!; [cbn; lia|done|cbn; rewrite length_app; lia|]. intros i Hi _. cbn. by apply lookup_app_l.
  - split_and!; [cbn; lia|done|cbn; rewrite length_app; lia|]. intros i Hi _. cbn. by apply lookup_app_l.
  - destruct (exec_frame c fate i t k sys) as (_ & _ & Ht & Hl & Hlen & Hlook).
    split_and!; [done|done|lia|]. intros j _ Hj. apply Hlook. intros ->. by apply (Hj fate).
Qed.

Lemma in_force_earlier sys1 a sys2 sys3 z :
  step config clock sys1 a sys2 -> in_force config clock sys2 sys3 z -> in_force config clock sys1 sys3 z.
Proof. intros Hs (l1 & sys & l2 & H1' & H2' & Hz). exists (a :: l1), sys, l2. split_and!; [by econstructor|done|done]. Qed.

Lemma in_force_now sys l sys' :
  steps config clock sys l sys' -> in_force config clock sys sys' (store (s_process sys)).
Proof. intros Hs. exists [], sys, l. split_and!; [constructor|done|done]. Qed.

(** What a task sees of a run of the process: the clock, the stores in force, what became of what it
    sent. *)
Definition env_of_run (sys sys' : System) (i : nat) (acts : list Action) (tick : nat) (env : Env) : Prop :=
  (exists f, (forall n, env_clock env n = clock (f n)) /\
     (forall m n, (tick <= m <= n)%nat -> (f m <= f n)%nat) /\ (s_tick sys <= f tick)%nat) /\
  (forall n, in_force config clock sys sys' (env_store env n)) /\
  ((forall fate, RunTask i fate ∈ acts -> fate = Goes) ->
     forall n, env_send_ok env n = true /\ env_write env n = Goes) /\
  (forall n k, env_write env n = Stalls k -> RunTask i (Stalls k) ∈ acts).

(** A task between two states of the process is a run of its program in such an environment. *)
Lemma task_run sys acts sys' : steps config clock sys acts sys' ->
  forall i t t' tick sends, s_tasks sys !! i = Some t -> s_tasks sys' !! i = Some t' ->
  exists env, env_of_run sys sys' i acts tick env /\
    forall w, task_world sys t tick sends w ->
      exists w', run_prog env (t_prog t) w (t_steps t) = run_prog env (t_prog t') w' (t_steps t') /\
        w_input w' = t_input t' /\ w_out w' = t_out t' /\
        (tick <= w_tick w')%nat /\ (sends <= w_sends w')%nat.
Proof.
  induction 1 as [sys|sys1 a sys2 acts sys' Hstep Hsteps IH]; intros i t t' tick sends Ht Ht'.
  - rewrite Ht in Ht'. injection Ht' as <-.
    exists {| env_clock n := clock (s_tick sys + n)%nat; env_store _ := store (s_process sys);
              env_others _ x := x; env_send_ok _ := true; env_write _ := Goes |}. split.
    + split_and!; [|intros n; apply (in_force_now sys []); constructor|done|done].
      exists (fun n => s_tick sys + n)%nat. split_and!; [done|intros; lia|lia].
    + intros w (Hw1 & Hw2 & _ & Hw3 & Hw4). exists w. split_and!; (done || lia).
  - pose proof (step_frame _ _ _ Hstep) as (Hfin & Htick & Hlim & _ & Hother).
    assert ((exists fate, a = RunTask i fate) \/ forall fate, a ≠ RunTask i fate) as Ha.
    { destruct a as [| | | | |j fl|]; try (right; congruence). destruct (decide (j = i)) as [->|].
      - left. by exists fl.
      - right. congruence. }
    destruct Ha as [[fate ->]|Ha].
    + inversion Hstep as [| | | | |sys i0 fate0 t0 R c k Hf0 Ht0 Hp|]; subst.
      rewrite Ht in Ht0. injection Ht0 as <-.
      destruct (exec_answer c fate i t k sys1 Ht) as (x & d & e & t2 & st & Ht2 & Hp2 & Hst2 & _ & Hd & Hans).
      destruct (IH i t2 t' (tick + d)%nat (sends + e)%nat Ht2 Ht') as
        (rest & ((f & Hf & Hmono & Hge) & Hforce & Hfail & Hstall) & Hrun).
      exists (before_env tick d (s_tick sys1) (store (s_process sys1)) (s_limiter sys1) sends e fate rest).
      pose proof (before_env_agree tick d (s_tick sys1) (store (s_process sys1)) (s_limiter sys1) sends e fate rest) as Hag.
      split; [split_and!|].
      * exists (fun n => if decide (n < tick + d)%nat then s_tick sys1 + (n - tick) else f n)%nat. split_and!.
        -- intros n. cbn. case_decide; [done|apply Hf].
        -- intros m n Hmn. pose proof (Hmono (tick + d)%nat n). repeat case_decide; try lia.
           by apply Hmono; lia.
        -- case_decide; [lia|]. assert (d = 0)%nat as -> by lia. rewrite Nat.add_0_r in Hge. lia.
      * intros n. cbn. case_decide; [|by eapply in_force_earlier].
        eapply in_force_now. econstructor; [exact Hstep|exact Hsteps].
      * intros Hnone n. cbn. assert (fate = Goes) as -> by (apply Hnone; left).
        destruct (Hfail) with (n := n) as [? ?]; [intros fl Hin; apply Hnone; by right|].
        repeat case_decide; by rewrite ?bool_decide_eq_true_2.
      * intros n k'. cbn. case_decide; [intros ->; left|]. intros Hn. right. by eapply Hstall.
      * intros w Hw. destruct (Hans rest tick sends w Hw) as (w2 & Hans2 & Hw2).
        destruct (Hrun w2 Hw2) as (w' & Hr & Hin & Hout & Hk1 & Hk2). exists w'.
        split_and!; [|done|done|lia|lia]. rewrite Hp. cbn [run_prog]. rewrite Hans2, <- Hp2, <- Hst2.
        destruct Hw2 as (Hw21 & Hw22 & _).
        rewrite (run_prog_agree _ rest) by (by rewrite Hw21, Hw22).
        rewrite Hr. symmetry. apply run_prog_agree. by eapply agree_from_mono.
    + assert (s_tasks sys2 !! i = Some t) as Ht2 by (rewrite Hother; [done|by eapply lookup_lt_Some|done]).
      destruct (IH i t t' tick sends Ht2 Ht') as (env & ((f & Hf & Hmono & Hge) & Hforce & Hfail & Hstall) & Hrun).
      exists env. split; [split_and!|].
      * exists f. split_and!; [done|done|lia].
      * intros n. by eapply in_force_earlier.
      * intros Hnone. apply Hfail. intros fl Hin. apply Hnone. by right.
      * intros n k Hn. right. by eapply Hstall.
      * intros w (Hw1 & Hw2 & Hw3 & Hw4 & Hw5). apply Hrun. split_and!; try done. by rewrite Hlim.
Qed.
End task.

(** * The executable steps *)

Section perform.
Context `{Hickory} `{!Codecs} (config : Config) (clock : Clock).

Lemma perform_signal_step files p s p' :
  perform_signal config files p s = Some p' <-> signal_step config files p s p'.
Proof.
  unfold perform_signal. destruct p as [st [] n]; cbn.
  { split; [done|]. intros Hs. inversion Hs; subst; cbn in *; congruence. }
  split.
  - destruct s; [destruct (load_zones files config) eqn:E; [..|done]|..]; intros [= <-].
    + by apply step_reload.
    + by eapply step_reload_failed.
    + by apply (step_log config files {| store := st; cancelled := false; summaries := n |}).
    + apply (step_shutdown config files {| store := st; cancelled := false; summaries := n |}); auto.
    + apply (step_shutdown config files {| store := st; cancelled := false; summaries := n |}); auto.
    + apply (step_shutdown config files {| store := st; cancelled := false; summaries := n |}); auto.
  - intros Hs. inversion Hs as [q new Hc Hl|q e Hc Hl|q Hc|q s' Hc Hor]; subst; [by rewrite Hl|by rewrite Hl|done|].
    by destruct Hor as [->|[->| ->]].
Qed.

(** What can happen is what the function computes. *)
Lemma perform_step sys a sys' : perform config clock sys a = Some sys' <-> step config clock sys a sys'.
Proof.
  unfold perform. destruct (s_finished sys) eqn:Hf.
  { split; [done|]. intros Hs. inversion Hs; subst; congruence. }
  split.
  - destruct a as [d addr| |client addr| |files s|i fate|].
    + intros [= <-]. by constructor.
    + intros [= <-]. by constructor.
    + intros [= <-]. by constructor.
    + intros [= <-]. by constructor.
    + intros (p & Hp & ->)%fmap_Some. apply step_signal; [done|]. by apply perform_signal_step.
    + intros (t & Ht & Hp)%bind_Some. destruct (t_prog t) as [|R c k] eqn:E; [done|]. injection Hp as <-.
      by econstructor.
    + destruct (cancelled (s_process sys)) eqn:E; [|done]. intros [= <-]. by constructor.
  - intros Hs. inversion Hs as [| | | |sys0 files s p _ Hsig|sys0 i fate t R c k _ Ht Hp|sys0 _ Hc]; subst; try done.
    + apply perform_signal_step in Hsig. by rewrite Hsig.
    + rewrite Ht. cbn. by rewrite Hp.
    + by rewrite Hc.
Qed.

Lemma perform_all_steps l : forall sys sys',
  perform_all config clock sys l = Some sys' <-> steps config clock sys l sys'.
Proof.
  induction l as [|a l IH]; intros sys sys'; cbn.
  - split; [intros [= <-]; constructor|intros Hs; by inversion Hs].
  - rewrite bind_Some. split.
    + intros (s1 & Hs1%perform_step & Hl%IH). by econstructor.
    + intros Hs. inversion Hs as [|s1 a' s2 l' s3 Hs1 Hl]; subst. exists s2. by rewrite perform_step, IH.
Qed.
End perform.
