(* ===== verification/TasksProps.v ===== *)
(** Theorems about the running process: each of its tasks is a run of its handler in an environment,
    every query is answered from one zone store that was in force while it was handled, the state
    stays well-formed.  [TasksLive] adds how a task ends and the rate limit of all clients together. *)
From S2P Require Import Prelude RustTime RustStr HashMap Crates CratesModel Zone Fixtures ZoneStoreFacts.
From S2P Require Import Protocol ZoneFile RateLimit RateLimitProps Metrics MetricsProps Config.
From S2P Require Import Effects ServerIO Server ServerFacts ServerLemmas Main MainProps Tasks TasksFacts.
Open Scope Z_scope.

Section process.
Context `{Hickory} `{!Codecs} (config : Config) (clock : Clock).

(** ** Runs of the process *)

Lemma steps_app sys1 l1 sys2 l2 sys3 :
  steps config clock sys1 l1 sys2 -> steps config clock sys2 l2 sys3 -> steps config clock sys1 (l1 ++ l2) sys3.
Proof. induction 1 as [|sys1 a sys2 l sys3' Hs Hss IH]; intros Hl; [done|]. cbn. econstructor; eauto. Qed.

(** The rule of invariants. *)
Lemma steps_inv (P : System -> Prop) sys l sys' :
  (forall s a s', P s -> step config clock s a s' -> P s') ->
  steps config clock sys l sys' -> P sys -> P sys'.
Proof. intros Hp. induction 1 as [|sys1 a sys2 l sys3 Hs Hss IH]; eauto. Qed.

(** The task as it is started. *)
Definition fresh_task (o : Origin) : Task :=
  match o with
  | FromDatagram data addr =>
      {| t_origin := FromDatagram data addr; t_prog := handle_udp_query prog_effects data addr;
         t_input := []; t_out := []; t_steps := [] |}
  | FromConnection client addr => tcp_task (tcp (server config)) client addr
  end.

Lemma exec_origin {R} (c : command R) fate i t k sys j t' :
  s_tasks sys !! i = Some t -> s_tasks (exec clock fate i t c k sys) !! j = Some t' ->
  exists t0, s_tasks sys !! j = Some t0 /\ t_origin t0 = t_origin t'.
Proof.
  intros Hi Hj. destruct (decide (j = i)) as [->|Hne].
  - destruct (exec_answer clock c fate i t k sys Hi) as (x & d & e & t2 & st & Ht2 & _ & _ & Ho & _).
    rewrite Ht2 in Hj. injection Hj as <-. by exists t.
  - destruct (exec_frame clock c fate i t k sys) as (_ & _ & _ & _ & _ & Hlook).
    rewrite Hlook in Hj by done. by exists t'.
Qed.

(** A task of a later state was there before or is started by a step in between. *)
Lemma step_tasks sys a sys' i t' :
  step config clock sys a sys' -> s_tasks sys' !! i = Some t' ->
  (exists t, s_tasks sys !! i = Some t /\ t_origin t = t_origin t') \/
  (i = length (s_tasks sys) /\ t' = fresh_task (t_origin t')).
Proof.
  intros Hstep. destruct Hstep as [sys datagram addr|sys|sys client addr|sys|sys files s p|sys j fate t R c k Hf Ht Hp|sys];
    intros Hi; try (left; by exists t').
  - apply lookup_app_Some in Hi as [Hi|[Hlen Hi]]; [left; by exists t'|right].
    apply list_lookup_singleton_Some in Hi as [Hi <-]. split; [lia|done].
  - apply lookup_app_Some in Hi as [Hi|[Hlen Hi]]; [left; by exists t'|right].
    apply list_lookup_singleton_Some in Hi as [Hi <-]. split; [lia|done].
  - left. by eapply exec_origin.
Qed.

Lemma task_started sys acts sys' i t' :
  steps config clock sys acts sys' -> s_tasks sys !! i = None -> s_tasks sys' !! i = Some t' ->
  exists l1 sys1 l2, acts = l1 ++ l2 /\ steps config clock sys l1 sys1 /\ steps config clock sys1 l2 sys' /\
    s_tasks sys1 !! i = Some (fresh_task (t_origin t')).
Proof.
  induction 1 as [|sys1 a sys2 acts sys3 Hstep Hsteps IH]; intros Hn Hi; [congruence|].
  destruct (s_tasks sys2 !! i) as [t2|] eqn:E2.
  - assert (t_origin t2 = t_origin t') as Ho.
    { clear IH Hn Hstep. revert t2 E2. induction Hsteps as [|sa a' sb acts sc Hs Hss IH]; intros t2 E2; [congruence|].
      destruct (s_tasks sb !! i) as [tb|] eqn:Eb.
      - destruct (step_tasks _ _ _ _ _ Hs Eb) as [(t0 & Ht0 & Ho)|[-> _]]; [|by rewrite lookup_ge_None_2 in E2].
        rewrite <- (IH Hi tb eq_refl). congruence.
      - exfalso. apply lookup_ge_None in Eb. apply lookup_lt_Some in E2.
        pose proof (step_frame _ _ _ _ _ Hs) as (_ & _ & _ & ? & _). lia. }
    destruct (step_tasks _ _ _ _ _ Hstep E2) as [(t0 & Ht0 & _)|[-> Hf]]; [congruence|].
    exists [a], sys2, acts. split_and!; [done|by repeat econstructor|done|]. by rewrite <- Ho, <- Hf.
  - destruct (IH eq_refl Hi) as (l1 & sysm & l2 & -> & Hs1 & Hs2 & Hf).
    exists (a :: l1), sysm, l2. split_and!; [done|by econstructor|done|done].
Qed.

(** The world in which the handler of a task starts. *)
Definition start_world (sys : System) (t : Task) : World :=
  {| w_tick := 0; w_limiter := s_limiter sys; w_calls := []; w_sends := 0; w_out := []; w_input := t_input t |}.

(** The handler of a task, run in an environment. *)
Definition handler_of (env : Env) (o : Origin) : io unit :=
  match o with
  | FromDatagram data addr => handle_udp_query env data addr
  | FromConnection client addr =>
      handle_tcp_connection env (connection_fuel (tcp (server config))) addr (tcp (server config))
  end.

Lemma runs_as_handler env o : runs_as env (t_prog (fresh_task o)) (handler_of env o).
Proof. destruct o; [apply runs_as_udp|apply runs_as_tcp]. Qed.

(** A task that has ended did what its handler does in an environment made of the clock and of the
    stores that were in force. *)
Lemma ended_task_runs sys acts sys' i t' r :
  steps config clock sys acts sys' -> s_tasks sys !! i = None -> s_tasks sys' !! i = Some t' ->
  t_prog t' = Return r ->
  exists l1 sys1 l2 env w', acts = l1 ++ l2 /\ steps config clock sys l1 sys1 /\ steps config clock sys1 l2 sys' /\
    env_of_run config clock sys1 sys' i l2 0 env /\
    handler_of env (t_origin t') (start_world sys1 (fresh_task (t_origin t'))) = (r, w') /\
    w_out w' = t_out t' /\ t_steps t' = flat_map call_steps (w_calls w').
Proof.
  intros Hsteps Hn Hi Hr. destruct (task_started _ _ _ _ _ Hsteps Hn Hi) as (l1 & sys1 & l2 & -> & Hs1 & Hs2 & Hf).
  destruct (task_run config clock _ _ _ Hs2 i _ _ 0%nat 0%nat Hf Hi) as (env & He & Hrun).
  set (w := start_world sys1 (fresh_task (t_origin t'))).
  destruct (Hrun w) as (w1 & Hp & Hin & Hout & _).
  { subst w. unfold task_world, start_world. cbn. by destruct (t_origin t'). }
  destruct (runs_as_handler env (t_origin t') w w (t_steps (fresh_task (t_origin t'))))
    as (v' & cs & Hv & (_ & _ & _ & Hvo & _) & Hcs); [done|].
  rewrite Hp, Hr in Hv. cbn [run_prog] in Hv. injection Hv as Hv1 Hv2 Hv3.
  exists l1, sys1, l2, env, (handler_of env (t_origin t') w).2.
  split_and!; [done|done|done|done| |by rewrite Hvo, <- Hv2|].
  - rewrite Hv1. apply surjective_pairing.
  - rewrite Hv3, Hcs. cbn. by destruct (t_origin t').
Qed.

(** ** The state of the process *)

Lemma load_zones_wf files s : load_zones files config = Ok s -> store_wf s.
Proof.
  intros Hl. unfold load_zones in Hl. revert Hl. apply for_each_inv; [|apply store_wf_new].
  intros s0 zc s1 _ Hs0 Hs1. outcome_inv. subst. by apply store_wf_add_zone.
Qed.

(** The rate limit of the configuration, a [u32]. *)
Definition limit_ok : Prop := match rate_limit (server config) with Some max => in_u 32 max | None => True end.

(** The limiter as its specification sees it: all decisions follow the full history. *)
Definition limiter_ok (sys : System) : Prop :=
  match s_limiter sys with
  | None => s_decisions sys = [] /\ rate_limit (server config) = None
  | Some inner =>
      rate_limit (server config) = Some (max_qps inner) /\ window inner = from_secs 1 /\
      limiter_bounded inner /\
      limiter_refines inner (fold_left spec_log (s_decisions sys) []) (clock (s_tick sys)) /\
      spec_accepts (max_qps inner) (from_secs 1) [] (s_decisions sys)
  end.

Lemma spec_accepts_snoc max w c calls : forall log,
  spec_accepts max w log calls ->
  call_granted c = spec_check max w (fold_left spec_log calls log) (call_addr c) (call_now c) ->
  spec_accepts max w log (calls ++ [c]).
Proof. induction calls as [|c' calls IH]; intros log; cbn; [done|]. intros [? ?] ?. split; [done|by apply IH]. Qed.

Lemma limiter_ok_later sys sys' :
  monotone clock -> (s_tick sys <= s_tick sys')%nat -> s_limiter sys' = s_limiter sys ->
  s_decisions sys' = s_decisions sys -> limiter_ok sys -> limiter_ok sys'.
Proof.
  intros Hm Ht Hl Hd. unfold limiter_ok. rewrite Hl, Hd. destruct (s_limiter sys) as [inner|]; [|done].
  intros (? & ? & ? & Hr & ?). split_and!; try done. eapply refines_later; [|exact Hr]. by apply Hm.
Qed.

Lemma ask_limiter_ok addr sys :
  monotone clock -> limit_ok -> limiter_ok sys -> limiter_ok (ask_limiter clock addr sys).2.
Proof.
  intros Hm Hmax. unfold ask_limiter, limiter_ok, limit_ok in *.
  destruct (s_limiter sys) as [inner|] eqn:El; [|cbn; by rewrite El].
  intros (Hrl & Hw & Hb & Hr & Ha). rewrite Hrl in Hmax. unfold in_u in Hmax.
  pose proof (check_rate_limit_refines clock (s_tick sys) inner _ addr Hm ltac:(by rewrite Hw) Hr) as Hc.
  pose proof (check_rate_limit_bounded clock (s_tick sys) inner addr ltac:(lia) Hb) as Hbd.
  destruct (check_rate_limit clock (s_tick sys) inner addr) as [[granted inner'] tick'].
  destruct Hc as (Hg & Hr' & Hq & Hw'). destruct Hbd as [Hb' _]. cbn.
  split_and!; [by rewrite Hq|congruence|done|by rewrite fold_left_app|].
  rewrite Hq. apply spec_accepts_snoc; [done|]. cbn. by rewrite Hg, Hw.
Qed.

(** One step leaves the limiter and its history alone, or asks the limiter. *)
Lemma exec_limiter {R} (c : command R) fate i t k sys :
  let sys2 := exec clock fate i t c k sys in
  (s_limiter sys2 = s_limiter sys /\ s_decisions sys2 = s_decisions sys) \/
  exists addr, let sys0 := (ask_limiter clock addr sys).2 in
    s_limiter sys2 = s_limiter sys0 /\ s_decisions sys2 = s_decisions sys0 /\ s_tick sys2 = s_tick sys0.
Proof.
  destruct c as [|s|addr|guard|buf|buf|timeout n]; cbn [exec]; try (by left).
  - right. exists addr. by destruct (ask_limiter clock addr sys).
  - left. by destruct fate.
  - left. by destruct (read_events timeout n (t_input t)).
Qed.

Lemma step_limiter_ok sys a sys' :
  monotone clock -> limit_ok -> limiter_ok sys -> step config clock sys a sys' -> limiter_ok sys'.
Proof.
  intros Hm Hmax Hok Hstep. pose proof (step_frame _ _ _ _ _ Hstep) as (_ & Ht & _).
  destruct Hstep as [sys datagram addr|sys|sys client addr|sys|sys files s p|sys i fate t R c k Hf Hi Hp|sys];
    try by eapply limiter_ok_later.
  destruct (exec_limiter c fate i t k sys) as [[Hl Hd]|(addr & Hl & Hd & Ht')];
    [by eapply limiter_ok_later|].
  eapply limiter_ok_later; [done| |exact Hl|exact Hd|by apply (ask_limiter_ok addr sys)]. by rewrite Ht'.
Qed.

(** The steps that tasks have made on the metrics. *)
Lemma exec_metrics {R} (c : command R) fate i t k sys :
  s_tasks sys !! i = Some t ->
  exists t' st, s_tasks (exec clock fate i t c k sys) = <[i := t']> (s_tasks sys) /\
    t_steps t' = t_steps t ++ st /\ (length st <= 1)%nat /\
    s_metrics (exec clock fate i t c k sys) = run_steps (s_metrics sys) st.
Proof.
  intros Hi. destruct c as [|s|addr|guard|buf|buf|timeout n]; cbn [exec].
  - eexists _, []. split_and!; [done|done|cbn; lia|done].
  - eexists _, [s]. split_and!; [done|done|cbn; lia|done].
  - pose proof (ask_limiter_frame clock addr sys) as (_ & _ & _ & _ & Htasks).
    assert (s_metrics (ask_limiter clock addr sys).2 = s_metrics sys) as Hme.
    { unfold ask_limiter. destruct (s_limiter sys); [|done]. by destruct (check_rate_limit _ _ _ _) as [[? ?] ?]. }
    destruct (ask_limiter clock addr sys) as [granted sys0]. cbn in Htasks, Hme. cbn. rewrite Htasks, Hme.
    eexists _, []. split_and!; [done|done|cbn; lia|done].
  - eexists _, []. split_and!; [done|done|cbn; lia|done].
  - destruct fate; eexists _, []; (split_and!; [done|done|cbn; lia|done]).
  - eexists _, []. split_and!; [done|done|cbn; lia|done].
  - destruct (read_events timeout n (t_input t)). eexists _, []. split_and!; [done|done|cbn; lia|done].
Qed.

(** The counters are those of the tasks' steps in some order that keeps each task's own. *)
Definition metrics_ok (m0 : Metrics) (sys : System) : Prop :=
  exists l, interleaves (t_steps <$> s_tasks sys) l /\ s_metrics sys = run_steps m0 l.

Lemma step_metrics_ok m0 sys a sys' : metrics_ok m0 sys -> step config clock sys a sys' -> metrics_ok m0 sys'.
Proof.
  intros (l & Hi & Hm) Hstep.
  destruct Hstep as [sys datagram addr|sys|sys client addr|sys|sys files s p|sys i fate t R c k Hf Ht Hp|sys];
    try (by exists l).
  - exists l. split; [|done]. cbn. rewrite fmap_app. by apply interleaves_spawn.
  - exists l. split; [|done]. cbn. rewrite fmap_app. by apply interleaves_spawn.
  - destruct (exec_metrics c fate i t k sys Ht) as (t' & st & Htasks & Hst & Hlen & Hme).
    exists (l ++ st). unfold run_steps in *. rewrite fold_left_app, <- Hm, Htasks. split; [|done].
    apply list_elem_of_split_length in Ht as (l1 & l2 & Hl & ->). rewrite Hl in Hi |- *.
    rewrite insert_app_r_alt, Nat.sub_diag by lia. cbn [insert list_insert]. rewrite fmap_app in *. cbn [fmap list_fmap] in *.
    rewrite Hst. destruct st as [|s [|]]; [by rewrite !app_nil_r| |cbn in Hlen; lia].
    by eapply interleaves_snoc.
Qed.
End process.

Section properties.
Context `{Hickory} `{!Codecs} (clock : Clock).

(** What [main] leaves when it starts the server. *)
Lemma boot_started args (files : str -> option str) from_str exists_file p :
  start clock args files from_str exists_file = Ok p ->
  load_zones files (p_config p) = Ok (p_store p) /\ p_metrics p = Metrics_new (clock 0%nat) /\
  p_limiter p = (fun limit => (RateLimiter_new clock 1 limit).1) <$> rate_limit (server (p_config p)).
Proof.
  unfold start. intros Hs. apply bind_ok in Hs as (path & _ & Hs). apply bind_ok in Hs as (config & _ & Hs).
  apply bind_ok in Hs as ([] & _ & Hs). apply bind_ok in Hs as (s & Hl & Hs). by injection Hs as <-.
Qed.

Lemma boot_limiter_ok args files from_str exists_file p :
  start clock args files from_str exists_file = Ok p -> limit_ok (p_config p) ->
  limiter_ok (p_config p) clock (boot p).
Proof.
  intros (_ & _ & Hl)%boot_started Hmax. unfold limiter_ok, boot, limit_ok in *. cbn. rewrite Hl.
  destruct (rate_limit (server (p_config p))) as [max|]; cbn; [|done]. unfold in_u in Hmax.
  split_and!; [done|done| | |done].
  - intros a c. cbn. by rewrite lookup_empty.
  - intros a. cbn. by rewrite lookup_empty.
Qed.

(** What holds of every state of the process. *)
Record system_ok (p : Started) (sys : System) : Prop := {
  ok_store : store_wf (store (s_process sys));
  ok_loaded : exists files, load_zones files (p_config p) = Ok (store (s_process sys));
  ok_limiter : limiter_ok (p_config p) clock sys;
  ok_metrics : metrics_ok (Metrics_new (clock 0%nat)) sys;
  ok_finished : s_finished sys = true -> cancelled (s_process sys) = true
}.

Lemma step_store config sys a sys' :
  step config clock sys a sys' ->
  store (s_process sys') = store (s_process sys) \/
  exists files, load_zones files config = Ok (store (s_process sys')).
Proof.
  intros Hstep. destruct Hstep as [sys datagram addr|sys|sys client addr|sys|sys files s p Hf Hs|sys i fate t R c k Hf Ht Hp|sys];
    try by left.
  - inversion Hs; subst; [right; by exists files|by left..].
  - left. by destruct (exec_frame clock c fate i t k sys) as (-> & _).
Qed.

Lemma step_cancelled config sys a sys' :
  step config clock sys a sys' -> cancelled (s_process sys) = true -> cancelled (s_process sys') = true.
Proof.
  intros Hstep Hc. destruct Hstep as [sys datagram addr|sys|sys client addr|sys|sys files s p Hf Hs|sys i fate t R c k Hf Ht Hp|sys];
    try done.
  - inversion Hs; subst; cbn in *; congruence.
  - by destruct (exec_frame clock c fate i t k sys) as (-> & _).
Qed.

Lemma step_finished config sys a sys' :
  step config clock sys a sys' -> s_finished sys' = true -> cancelled (s_process sys') = true.
Proof.
  intros Hstep. destruct Hstep as [sys datagram addr|sys|sys client addr|sys|sys files s p Hf Hs|sys i fate t R c k Hf Ht Hp|sys];
    cbn; try congruence.
  destruct (exec_frame clock c fate i t k sys) as (_ & -> & _). congruence.
Qed.

Lemma boot_ok args files from_str exists_file p :
  start clock args files from_str exists_file = Ok p -> limit_ok (p_config p) -> system_ok p (boot p).
Proof.
  intros Hs Hmax. pose proof (boot_started _ _ _ _ _ Hs) as (Hl & Hm & _). split.
  - by eapply load_zones_wf.
  - by exists files.
  - by eapply boot_limiter_ok.
  - exists []. split; [by apply interleaves_done|]. exact Hm.
  - done.
Qed.

Lemma system_ok_reachable args files from_str exists_file p acts sys :
  start clock args files from_str exists_file = Ok p -> limit_ok (p_config p) -> monotone clock ->
  steps (p_config p) clock (boot p) acts sys -> system_ok p sys.
Proof.
  intros Hs Hmax Hm Hsteps. eapply steps_inv; [|exact Hsteps|by eapply boot_ok].
  intros s a s' [Hst Hld Hli Hme Hfi] Hstep. pose proof (step_store _ _ _ _ Hstep) as Hstore. split.
  - destruct Hstore as [->|[fs Hl]]; [done|by eapply load_zones_wf].
  - destruct Hstore as [->|Hl]; done.
  - by eapply step_limiter_ok.
  - by eapply step_metrics_ok.
  - by eapply step_finished.
Qed.

(** ** Properties *)

(** C6 (refinement): whatever happens in the process and however its tasks interleave, a task that
    has ended did what its handler does when it runs alone in some environment: same result, same
    datagrams or writes, and its steps on the metrics are those of the calls the handler records.
    The environment is made of the clock of the process, read in order, of zone stores that were in
    force while the task ran, and of what became of the task's datagrams and writes; so what is proved
    of a handler in every environment holds of every task of the process. *)
Theorem tasks_refine_handlers (p : Started) (acts : list Action) (sys : System) (i : nat) (t : Task)
    (r : result unit) :
  steps (p_config p) clock (boot p) acts sys -> s_tasks sys !! i = Some t -> t_prog t = Return r ->
  exists l1 sys1 l2 env w', acts = l1 ++ l2 /\
    steps (p_config p) clock (boot p) l1 sys1 /\ steps (p_config p) clock sys1 l2 sys /\
    env_of_run (p_config p) clock sys1 sys i l2 0 env /\
    handler_of (p_config p) env (t_origin t) (start_world sys1 (fresh_task (p_config p) (t_origin t))) = (r, w') /\
    w_out w' = t_out t /\ t_steps t = flat_map call_steps (w_calls w').
Proof. intros Hs Hi Hr. by eapply ended_task_runs. Qed.

(** C11 (safety): a UDP task that has ended well sent exactly one datagram: REFUSED or FORMERR, or
    the answer of [process_query] to its query, cut if it had to be, from one zone store that was in
    force at some moment while the task ran; a reload never mixes two stores in an answer.  What it
    added to the counters is what belongs to that answer. *)
Theorem concurrent_udp_answers `{!MessageLaws} (p : Started) (acts : list Action) (sys : System) (i : nat)
    (t : Task) (data : list Z) (addr : IpAddr) :
  steps (p_config p) clock (boot p) acts sys -> s_tasks sys !! i = Some t ->
  t_origin t = FromDatagram data addr -> t_prog t = Return (Done (Ok tt)) ->
  exists l1 sys1 l2 zones within buf cs, acts = l1 ++ l2 /\
    steps (p_config p) clock (boot p) l1 sys1 /\ steps (p_config p) clock sys1 l2 sys /\
    in_force (p_config p) clock sys1 sys zones /\
    udp_answer zones data within buf cs /\ t_out t = [buf] /\ t_steps t = flat_map call_steps cs.
Proof.
  intros Hs Hi Ho Hr.
  destruct (ended_task_runs _ _ _ _ _ _ _ _ Hs ltac:(done) Hi Hr)
    as (l1 & sys1 & l2 & env & w' & Hl & Hs1 & Hs2 & (_ & Hforce & _) & Hh & Hout & Hst).
  rewrite Ho in Hh. cbn [handler_of] in Hh.
  destruct (udp_handler_cases env data addr _ w' Hh) as (within & w1 & buf & cs & _ & Ha & Hw & Hc).
  exists l1, sys1, l2, (env_store env (w_tick w1)), within, buf, cs.
  split_and!; [done|done|done|apply Hforce|done|by rewrite <- Hout, Hw|by rewrite Hst, Hc].
Qed.

(** C10 (invariant): in every state the process can reach, whatever arrives and however the tasks
    interleave: the zone store is well-formed and is the whole result of loading the configured
    zones at some moment; the limiter stores no more times than it grants and has decided as the
    full history demands; the counters are those of the tasks' steps, none lost or made up; and the
    process is over only after a shutdown signal. *)
Theorem process_invariant (args : list str) (files : str -> option str) (from_str : str -> option Config)
    (exists_file : str -> bool) (p : Started) (acts : list Action) (sys : System) :
  start clock args files from_str exists_file = Ok p -> limit_ok (p_config p) -> monotone clock ->
  steps (p_config p) clock (boot p) acts sys -> system_ok p sys.
Proof. apply system_ok_reachable. Qed.
End properties.
