(* ===== verification/TasksLive.v ===== *)
(** How the tasks of the running process end, and the rate limit of its clients; a run of the process
    for the witnesses.  That the tasks come to their end is in [StoreLockProps].  Requires [TasksFacts]
    and [TasksProps]. *)
From S2P Require Import Prelude RustTime RustStr HashMap Crates CratesModel Zone Fixtures Protocol.
From S2P Require Import RateLimit RateLimitProps Metrics Config Effects ServerIO Server ServerFacts ServerLemmas.
From S2P Require Import ServerProps Main MainProps Tasks TasksFacts TasksProps.
Open Scope Z_scope.

(** ** The commands of a task *)

Section commands.
Context `{Hickory} `{!Codecs} {config : Config} {clock : Clock}.

(** What is left of a program after its next command. *)
Definition follows (p p' : prog unit) : Prop :=
  match p with
  | Return _ => False
  | Do c k => exists x, p' = k x
  end.

Lemma step_task_follows sys i fate sys' t :
  step config clock sys (RunTask i fate) sys' -> s_tasks sys !! i = Some t ->
  exists t', s_tasks sys' !! i = Some t' /\ t_origin t' = t_origin t /\ follows (t_prog t) (t_prog t').
Proof.
  intros Hs Ht. inversion Hs as [| | | | |sys0 i0 fate0 t0 R c k _ Ht0 Hp|]; subst.
  assert (t0 = t) as -> by congruence.
  destruct (exec_answer clock c fate i t k sys Ht) as (x & d & e & t2 & st & Ht2 & Hp2 & _ & Ho & _).
  exists t2. split_and!; [done|done|]. rewrite Hp. by exists x.
Qed.

Lemma runs_task_dec i (a : option Action) : (exists f, a = Some (RunTask i f)) \/ (forall f, a ≠ Some (RunTask i f)).
Proof.
  destruct a as [[| | | | |j f|]|]; try (right; congruence).
  destruct (decide (j = i)) as [->|]; [left; by exists f|right; congruence].
Qed.
End commands.

(** ** How a task ends *)

Section ends.
Context `{Hickory} `{!Codecs} `{!MessageLaws} (config : Config) (clock : Clock).

(** A datagram's task returns, with or without an error.  A connection's task returns, or waits without
    end with a write that stays pending ([unread]) or for the rest of a message that its client has
    announced. *)
Definition ends_as (unread : Prop) (o : Origin) (res : result unit) : Prop :=
  match o with
  | FromDatagram _ _ => exists out, res = Done out /\ out ≠ Panic
  | FromConnection client _ =>
      (exists out, res = Done out /\ out ≠ Panic) \/
      res = Blocked /\
        (unread \/
         silent_in_message (match tcp (server config) with Some c => max_queries_per_connection c | None => 100 end)
           client)
  end.

Lemma handler_ends env o sys :
  let '(res, w') := handler_of config env o (start_world sys (fresh_task config o)) in
  ends_as (exists n k, env_write env n = Stalls k) o res.
Proof.
  set (w := start_world sys (fresh_task config o)).
  assert (forall e, plain_fault e \/ (exists data addr, o = FromDatagram data addr) /\ e ≠ ReadsInput ->
    avoids e (handler_of config env o)) as Ha.
  { intros e He. destruct o as [data addr|client addr]; cbn [handler_of].
    - apply (avoids_handle_udp env e data addr). by destruct He as [He|[_ He]]; [intros ->|].
    - apply avoids_handle_tcp; [by destruct He as [?|[(? & ? & ?) _]]|].
      unfold connection_fuel. destruct (tcp (server config)); lia. }
  pose proof (Ha EndsInPanic (or_introl I) w) as Hp. pose proof (Ha EndsInLoop (or_introl I) w) as Hl.
  destruct o as [data addr|client addr]; cbn [ends_as].
  - pose proof (Ha (EndsBlocked (fun _ => False))) as Hb. specialize (Hb ltac:(right; split; [by eexists _, _|done]) w).
    destruct (handler_of _ _ _ w) as [[out| |] w']; [|done..]. exists out. split; [done|]. by intros ->.
  - set (max := match tcp (server config) with Some c => max_queries_per_connection c | None => 100 end).
    pose proof (tcp_loop_waits env (connection_fuel (tcp (server config))) addr
      (from_secs match tcp (server config) with Some c => idle_timeout c | None => 30 end) max 0
      (io_record TcpConnection w).2) as Hwait. rewrite Z.sub_0_r in Hwait.
    change (tcp_loop env (connection_fuel (tcp (server config))) addr
      (from_secs match tcp (server config) with Some c => idle_timeout c | None => 30 end) max 0
      (io_record TcpConnection w).2) with (handler_of config env (FromConnection client addr) w) in Hwait.
    destruct (handler_of _ _ _ w) as [[out| |] w']; [|right|done].
    + left. exists out. split; [done|]. by intros ->.
    + split; [done|]. destruct (Hwait eq_refl) as [(n & k & _ & Hn)|[_ Hs]]; [left; by exists n, k|by right].
Qed.

Lemma ends_as_mono (P Q : Prop) o res : (P -> Q) -> ends_as P o res -> ends_as Q o res.
Proof. intros HPQ. destruct o; cbn; tauto. Qed.

(** How a task of the process ends, by what became of its writes. *)
Lemma ended_task_ends sys acts sys' i t res :
  steps config clock sys acts sys' -> s_tasks sys !! i = None -> s_tasks sys' !! i = Some t ->
  t_prog t = Return res -> ends_as (exists k, RunTask i (Stalls k) ∈ acts) (t_origin t) res.
Proof.
  intros Hs Hn Hi Hr.
  destruct (ended_task_runs config clock _ _ _ _ _ _ Hs Hn Hi Hr)
    as (l1 & sys1 & l2 & env & w' & -> & _ & _ & (_ & _ & _ & Hstall) & Hh & _).
  pose proof (handler_ends env (t_origin t) sys1) as He. rewrite Hh in He.
  eapply ends_as_mono; [|exact He]. intros (n & k & Hk). exists k. apply elem_of_app. right. by eapply Hstall.
Qed.
End ends.

(** ** Properties *)

Section properties.
Context `{Hickory} `{!Codecs} (clock : Clock).

(** C17 (bounds): whatever the clients send and however the tasks interleave, a client is granted at
    most [rate_limit] queries in any period of one second, over UDP and TCP together. *)
Theorem process_bounds_rate (args : list str) (files : str -> option str) (from_str : str -> option Config)
    (exists_file : str -> bool) (p : Started) (acts : list Action) (sys : System) (max : Z) (addr : IpAddr)
    (t : Instant) :
  start clock args files from_str exists_file = Ok p -> rate_limit (server (p_config p)) = Some max ->
  in_u 32 max -> monotone clock -> steps (p_config p) clock (boot p) acts sys ->
  Z.of_nat (granted_in_window addr t (from_secs 1) (s_decisions sys)) <= max.
Proof.
  intros Hs Hl Hmax Hm Hsteps. unfold in_u in Hmax.
  assert (limit_ok (p_config p)) as Hlim by (unfold limit_ok; by rewrite Hl).
  pose proof (ok_limiter clock p sys (system_ok_reachable clock _ _ _ _ _ _ _ Hs Hlim Hm Hsteps)) as Hok.
  unfold limiter_ok in Hok. destruct (s_limiter sys) as [inner|]; [|destruct Hok; congruence].
  destruct Hok as (Hq & _ & _ & _ & Ha). assert (max_qps inner = max) as Hmq by congruence. rewrite Hmq in Ha.
  apply (spec_bounds_window max (from_secs 1) addr t _ []) in Ha; [exact Ha|lia|cbn; lia].
Qed.
End properties.

(** * Witnesses *)

Section witnesses.
Import Concrete.

Definition test_run_clock : Clock := fun n => Z.of_nat n.

(** The server, started with one zone and a limit of 100 queries a second. *)
Definition started : Started :=
  match start test_run_clock [lit "lrmdns"] test_files (fun _ => Some test_config) (fun _ => true) with
  | Ok p => p
  | _ => {| p_config := test_config; p_store := ZoneStore_new; p_metrics := Metrics_new 0; p_limiter := None;
            p_listen := []; p_tcp := None; p_api_listen := None |}
  end.

Lemma started_ok :
  start test_run_clock [lit "lrmdns"] test_files (fun _ => Some test_config) (fun _ => true) = Ok started.
Proof. vm_compute. reflexivity. Qed.

(** Some rounds of three tasks that take 12, 19 and 9 steps. *)
Definition rounds (first count : nat) : list Action :=
  flat_map (fun n => [RunTask 1 Goes] ++ (if decide (n < 12)%nat then [RunTask 0 Goes] else [])
                     ++ (if decide (n < 9)%nat then [RunTask 2 Goes] else [])) (seq first count).

(** Two datagrams and a connection whose tasks take turns, a reload between their steps. *)
Definition served : list Action :=
  [Datagram (query_bytes 7 0 0) (V4 1); Connect (map Byte ([0; 12] ++ query_bytes 1 0 0) ++ [Close]) (V4 1);
   Datagram [1; 2] (V4 1)] ++ rounds 0 6 ++ [Signalled test_files SIGHUP] ++ rounds 6 13.

Definition after_served : System :=
  default (boot started) (perform_all (p_config started) test_run_clock (boot started) served).

Lemma performs l : bool_decide (is_Some (perform_all (p_config started) test_run_clock (boot started) l)) = true ->
  perform_all (p_config started) test_run_clock (boot started) l =
  Some (default (boot started) (perform_all (p_config started) test_run_clock (boot started) l)).
Proof. by intros [sys ->]%bool_decide_eq_true. Qed.

Lemma served_steps : steps (p_config started) test_run_clock (boot started) served after_served.
Proof.
  apply perform_all_steps. unfold after_served. apply performs. vm_compute. reflexivity.
Qed.

Lemma test_run_clock_monotone : monotone test_run_clock.
Proof. intros m n ?. unfold test_run_clock. lia. Qed.

(** What the tasks have sent: an answer, a framed answer and FORMERR. *)
Example served_output :
  map (fun t => map len (t_out t)) (s_tasks after_served) = [[112]; [2; 112]; [12]].
Proof. vm_compute. reflexivity. Qed.

Definition task_of (i : nat) : Task :=
  default (udp_task [] (V4 0)) (s_tasks after_served !! i).

Lemma tasks_refine_handlers_witness :
  exists l1 sys1 l2 env w', served = l1 ++ l2 /\
    steps (p_config started) test_run_clock (boot started) l1 sys1 /\
    steps (p_config started) test_run_clock sys1 l2 after_served /\
    env_of_run (p_config started) test_run_clock sys1 after_served 1 l2 0 env /\
    handler_of (p_config started) env (t_origin (task_of 1))
      (start_world sys1 (fresh_task (p_config started) (t_origin (task_of 1)))) = (Done (Ok tt), w') /\
    w_out w' = t_out (task_of 1) /\ t_steps (task_of 1) = flat_map call_steps (w_calls w').
Proof. apply tasks_refine_handlers; [exact served_steps|vm_compute; reflexivity..]. Defined.

Lemma concurrent_udp_answers_witness :
  exists l1 sys1 l2 zones within buf cs, served = l1 ++ l2 /\
    steps (p_config started) test_run_clock (boot started) l1 sys1 /\
    steps (p_config started) test_run_clock sys1 l2 after_served /\
    in_force (p_config started) test_run_clock sys1 after_served zones /\
    udp_answer zones (query_bytes 7 0 0) within buf cs /\ t_out (task_of 0) = [buf] /\
    t_steps (task_of 0) = flat_map call_steps cs.
Proof.
  apply (concurrent_udp_answers test_run_clock started served after_served 0 (task_of 0) (query_bytes 7 0 0) (V4 1));
    [exact served_steps|vm_compute; reflexivity..].
Defined.

Lemma process_invariant_witness : system_ok test_run_clock started after_served.
Proof.
  apply (process_invariant test_run_clock _ _ _ _ started served after_served started_ok);
    [vm_compute; split; [discriminate|reflexivity]|exact test_run_clock_monotone|exact served_steps].
Defined.

Lemma process_bounds_rate_witness :
  Z.of_nat (granted_in_window (V4 1) 2 (from_secs 1) (s_decisions after_served)) <= 100.
Proof.
  apply (process_bounds_rate test_run_clock _ _ _ _ started served after_served 100 (V4 1) 2 started_ok);
    [vm_compute; reflexivity|vm_compute; split; [discriminate|reflexivity]|exact test_run_clock_monotone|exact served_steps].
Defined.
End witnesses.
