(* ===== verification/Monitor.v ===== *)
(** A program logic for the handlers among the tasks of the process: a monitor watches the commands of
    a task and the answers it gets; a handler obeys it when no command is ever refused, whatever the
    answers are.  What a monitor knows of a task then holds in every state of the process, of tasks
    that have not ended too ([monitored_steps]). *)
From S2P Require Import Prelude RustTime RustStr HashMap Crates Zone RateLimit Metrics Config.
From S2P Require Import Effects Server Main Tasks TasksFacts TasksProps.
Open Scope Z_scope.

(** * Monitors *)

(** A state machine over the commands: which it accepts, and where it goes with the answer. *)
Record Monitor `{HickoryTypes} (S : Type) := {
  accepts : forall {R}, command R -> S -> Prop;
  advance : forall {R}, command R -> R -> S -> S
}.
Arguments accepts {_ _} _ {_} _ _.
Arguments advance {_ _} _ {_} _ _ _.

Section logic.
Context `{HickoryTypes} {S : Type} (mon : Monitor S).

(** From state [s] every command of [p] is accepted, and where [p] ends [Q] holds. *)
Fixpoint wp {A} (p : prog A) (Q : result A -> S -> Prop) (s : S) : Prop :=
  match p with
  | Return r => Q r s
  | Do c k => accepts mon c s /\ forall a, wp (k a) Q (advance mon c a s)
  end.

Lemma wp_mono {A} (p : prog A) (Q Q' : result A -> S -> Prop) : forall s,
  (forall r s, Q r s -> Q' r s) -> wp p Q s -> wp p Q' s.
Proof.
  induction p as [r|R c k IH]; intros s HQ; cbn; [apply HQ|].
  intros [Hc Hk]. split; [done|]. intros a. by apply IH.
Qed.

(** After [p], what [f] needs; an error, a panic or a wait without end skips [f]. *)
Definition then_post {A B} (f : A -> prog B) (Q : result B -> S -> Prop) (r : result A) (s : S) : Prop :=
  match r with
  | Done (Ok a) => wp (f a) Q s
  | Done (Err e) => Q (Done (Err e)) s
  | Done Panic => Q (Done Panic) s
  | Blocked => Q Blocked s
  | OutOfFuel => Q OutOfFuel s
  end.

Lemma wp_bind {A B} (p : prog A) (f : A -> prog B) Q : forall s,
  wp p (then_post f Q) s -> wp (p ≫= f) Q s.
Proof.
  induction p as [[[a|e|]| |]|R c k IH]; intros s; cbn; [done..|].
  intros [Hc Hk]. split; [done|]. intros a. by apply IH.
Qed.

(** A piece that leaves the state in [J], however it ends; the unit of composition for invariants. *)
Lemma wp_bind_inv {A B} (p : prog A) (f : A -> prog B) (J : S -> Prop) (Q : result B -> S -> Prop) s :
  wp p (fun _ => J) s -> (forall a s, J s -> wp (f a) Q s) ->
  (forall r s, J s -> (forall a, r ≠ Done (Ok a)) -> Q r s) -> wp (p ≫= f) Q s.
Proof.
  intros Hp Hf HQ. apply wp_bind. eapply wp_mono; [|exact Hp].
  intros [[a|e|]| |] s' Hs'; cbn; (by apply Hf || by apply HQ).
Qed.

(** When only what a good end leaves behind matters. *)
Definition okpost {A} (J : A -> S -> Prop) (r : result A) (s : S) : Prop :=
  match r with Done (Ok a) => J a s | _ => True end.

Lemma wp_ok_bind {A B} (p : prog A) (f : A -> prog B) J s :
  wp p (okpost (fun a => wp (f a) (okpost J))) s -> wp (p ≫= f) (okpost J) s.
Proof. intros Hp. apply wp_bind. eapply wp_mono; [|exact Hp]. by intros [[| |]| |] ?. Qed.

Lemma wp_ok_mono {A} (p : prog A) (J J' : A -> S -> Prop) s :
  (forall a s, J a s -> J' a s) -> wp p (okpost J) s -> wp p (okpost J') s.
Proof. intros HJ. apply wp_mono. intros [[| |]| |] s'; cbn; auto. Qed.

(** ** Commands *)

Lemma wp_call {R} (c : command R) (Q : result R -> S -> Prop) s :
  accepts mon c s -> (forall a, Q (Done (Ok a)) (advance mon c a s)) -> wp (prog_call c) Q s.
Proof. intros. by split. Qed.

Lemma wp_try (c : command bool) (Q : result unit -> S -> Prop) s :
  accepts mon c s -> Q (Done (Ok tt)) (advance mon c true s) ->
  Q (Done (Err EForeign)) (advance mon c false s) -> wp (prog_try c) Q s.
Proof. intros. split; [done|]. by intros []. Qed.

Lemma wp_write buf (Q : result unit -> S -> Prop) s :
  accepts mon (CWrite buf) s -> Q (Done (Ok tt)) (advance mon (CWrite buf) WriteOk s) ->
  Q (Done (Err EForeign)) (advance mon (CWrite buf) WriteError s) ->
  Q Blocked (advance mon (CWrite buf) WriteBlocked s) -> wp (prog_write buf) Q s.
Proof. intros. split; [done|]. by intros []. Qed.

Lemma wp_lift {A} (o : outcome A) (Q : result A -> S -> Prop) s :
  Q (Done o) s -> wp (lift (Effects := prog_effects) o) Q s.
Proof. done. Qed.

(** The steps of a record, when the monitor accepts each and the state stays the same. *)
Lemma wp_record_same c (Q : result unit -> S -> Prop) s :
  (forall st, st ∈ call_steps c -> accepts mon (CAtomic st) s /\ advance mon (CAtomic st) tt s = s) ->
  Q (Done (Ok tt)) s -> wp (record (Effects := prog_effects) c) Q s.
Proof.
  cbn. generalize (call_steps c). intros l Hl HQ. induction l as [|st l IH]; [done|]. cbn.
  destruct (Hl st) as [Ha Hs]; [by left|]. split; [done|]. intros []. rewrite Hs. apply IH.
  intros st' Hin. apply Hl. by right.
Qed.
End logic.

(** * Monitored tasks *)

Section tasks.
Context `{Hickory} `{!Codecs} (config : Config) (clock : Clock).

(** What a command with its answer does to its task: what it consumes of its client, sends and
    records; [z] is the zone store at that moment. *)
Definition effect {R} (c : command R) : R -> ZoneStore -> list Event -> list Event -> list (list Z) ->
    list Step -> Prop :=
  match c with
  | CAtomic s => fun _ _ input input' sent steps => input' = input /\ sent = [] /\ steps = [s]
  | CStore _ => fun a z input input' sent steps => a = z /\ input' = input /\ sent = [] /\ steps = []
  | CSend buf => fun a _ input input' sent steps =>
      input' = input /\ sent = (if a : bool then [buf] else []) /\ steps = []
  | CWrite buf => fun a _ input input' sent steps =>
      input' = input /\ steps = [] /\
      match a with WriteOk => sent = [buf] | _ => exists n, sent = [take n buf] end
  | CRead timeout n => fun a _ input input' sent steps =>
      (a, input') = read_events timeout n input /\ sent = [] /\ steps = []
  | _ => fun _ _ input input' sent steps => input' = input /\ sent = [] /\ steps = []
  end.

(** What a task is told of its write. *)
Definition told {R} (fate : Fate) (c : command R) : R -> Prop :=
  match c with CWrite _ => fun a => a = write_result fate | _ => fun _ => True end.

Lemma exec_effect {R} (c : command R) fate i t k sys :
  s_tasks sys !! i = Some t ->
  exists a t' sent steps, s_tasks (exec clock fate i t c k sys) = <[i := t']> (s_tasks sys) /\
    t_prog t' = k a /\ t_origin t' = t_origin t /\ t_out t' = t_out t ++ sent /\
    t_steps t' = t_steps t ++ steps /\
    effect c a (store (s_process sys)) (t_input t) (t_input t') sent steps /\ told fate c a.
Proof.
  intros Hi. destruct c as [|s|addr|guard|buf|buf|timeout n]; cbn [exec].
  - by eexists _, _, _, _.
  - by eexists _, _, _, _.
  - pose proof (ask_limiter_frame clock addr sys) as (_ & _ & _ & _ & Htasks).
    destruct (ask_limiter clock addr sys) as [granted sys0]. cbn in Htasks |- *. rewrite Htasks.
    by eexists _, _, _, _.
  - by eexists _, _, _, _.
  - destruct fate; by eexists _, _, _, _.
  - eexists _, _, _, _. split_and!; [done..| |done].
    destruct fate; cbn; (split_and!; [done|done|by eauto]).
  - destruct (read_events timeout n (t_input t)) as [r input] eqn:E. eexists _, _, _, _.
    split_and!; [done..| |done]. cbn. by rewrite E.
Qed.

(** What a monitor in state [s] knows of a task: a relation of [s] and the task that every accepted
    command with its effect maintains; [seen] holds of the zone stores that the task may read. *)
Context {S : Type} (mon : Monitor S) (seen : ZoneStore -> Prop)
  (knows : Task -> S -> Prop) (ends : Task -> result unit -> S -> Prop).

Definition monitored (t : Task) : Prop :=
  exists s, knows t s /\ wp mon (t_prog t) (ends t) s.

Hypothesis knows_step : forall R (c : command R) a z t t' sent steps s,
  knows t s -> accepts mon c s -> t_origin t' = t_origin t -> t_out t' = t_out t ++ sent ->
  t_steps t' = t_steps t ++ steps -> seen z ->
  effect c a z (t_input t) (t_input t') sent steps -> knows t' (advance mon c a s).
Hypothesis ends_same : forall t t', t_origin t = t_origin t' -> ends t = ends t'.

Lemma monitored_command R (c : command R) fate i t k sys :
  s_tasks sys !! i = Some t -> t_prog t = Do c k -> seen (store (s_process sys)) -> monitored t ->
  exists t', s_tasks (exec clock fate i t c k sys) = <[i := t']> (s_tasks sys) /\ monitored t'.
Proof using All.
  intros Hi Hp Hz (s & Hk & Hw). rewrite Hp in Hw. destruct Hw as [Hc Hw].
  destruct (exec_effect c fate i t k sys Hi) as (a & t' & sent & steps & Ht & Hp' & Ho & Hout & Hst & He & _).
  exists t'. split; [done|]. exists (advance mon c a s). split; [by eapply knows_step|].
  rewrite Hp', (ends_same t' t) by done. apply Hw.
Qed.

Lemma monitored_step sys a sys' i t t' :
  step config clock sys a sys' -> seen (store (s_process sys)) ->
  s_tasks sys !! i = Some t -> s_tasks sys' !! i = Some t' -> monitored t -> monitored t'.
Proof using All.
  intros Hstep Hz Hi Hi' Hm. pose proof (step_frame _ _ _ _ _ Hstep) as (_ & _ & _ & _ & Hother).
  assert ((exists fate, a = RunTask i fate) \/ forall fate, a ≠ RunTask i fate) as [[fate ->]|Ha].
  { destruct a as [| | | | |j fl|]; try (right; congruence). destruct (decide (j = i)) as [->|];
      [left; by exists fl|right; congruence]. }
  - inversion Hstep as [| | | | |sys0 i0 fate0 t0 R c k Hf Ht0 Hp|]; subst. rewrite Hi in Ht0. injection Ht0 as <-.
    destruct (monitored_command R c fate i t k sys Hi Hp Hz Hm) as (t1 & Ht & Hm1).
    rewrite Ht, list_lookup_insert_eq in Hi' by (by eapply lookup_lt_Some). by injection Hi' as <-.
  - rewrite Hother in Hi' by (done || by eapply lookup_lt_Some). congruence.
Qed.

(** A task stays monitored as long as the stores that are in force may be seen. *)
Lemma monitored_steps sys acts sys' : steps config clock sys acts sys' ->
  (forall z, in_force config clock sys sys' z -> seen z) ->
  forall i t t', s_tasks sys !! i = Some t -> s_tasks sys' !! i = Some t' -> monitored t -> monitored t'.
Proof using All.
  induction 1 as [sys|sys1 a sys2 acts sys' Hstep Hsteps IH]; intros Hz i t t' Hi Hi' Hm; [congruence|].
  pose proof (step_frame _ _ _ _ _ Hstep) as (_ & _ & _ & Hlen & _).
  destruct (s_tasks sys2 !! i) as [t2|] eqn:E2.
  2:{ apply lookup_ge_None in E2. apply lookup_lt_Some in Hi. lia. }
  eapply IH; [|exact E2|exact Hi'|].
  - intros z Hin. apply Hz. by eapply in_force_earlier.
  - eapply monitored_step; [exact Hstep| |exact Hi|exact E2|exact Hm].
    apply Hz. eapply in_force_now. by econstructor.
Qed.
End tasks.
