(* ===== verification/StoreLock.v ===== *)
(** The lock of the zone store: [Arc<RwLock<ZoneStore>>] of [src/src/main.rs], shared by the tasks and
    the signal handler.  The process of [Tasks] reads and replaces the store whenever it comes to it;
    here a task and a reload ask for the lock, wait in its queue, and a zone transfer keeps its read
    guard until its handler returns ([src/src/server.rs] 498).  Requires [Tasks]. *)
From S2P Require Import Prelude RustTime RustStr HashMap Crates Zone RateLimit Metrics Config.
From S2P Require Import Effects Server Main Tasks.
Open Scope Z_scope.

(** * The lock *)

(** [read()] or [write()]. *)
Inductive Access := Shared | Exclusive.

#[export] Instance Access_eq_dec : EqDecision Access.
Proof. solve_decision. Defined.

(** [tokio::sync::RwLock]: whether a request may be granted, by the number of read guards there are and
    the requests that were made before it and still wait.  (Nobody waits while a write guard is held:
    the reload writes and drops it at once.) *)
Class RwLock := may_acquire : nat -> list Access -> Access -> bool.

(** Its documented behaviour: a writer is alone, no read lock is given out before the writers that came
    first, and whoever is first in the queue gets the lock when it is free for it. *)
Class RwLockLaws `{RwLock} := {
  writer_alone guards ahead : may_acquire (S guards) ahead Exclusive = false;
  behind_writer guards ahead : Exclusive ∈ ahead -> may_acquire guards ahead Shared = false;
  first_reader guards : may_acquire guards [] Shared = true;
  first_writer : may_acquire 0 [] Exclusive = true
}.

(** Who waits: a task, or the signal handler with the zones it has loaded. *)
Inductive Waiter := Reads (i : nat) | Reloads.

#[export] Instance Waiter_eq_dec : EqDecision Waiter.
Proof. solve_decision. Defined.

Definition access_of (w : Waiter) : Access := match w with Reads _ => Shared | Reloads => Exclusive end.

(** The requests before one of them. *)
Fixpoint ahead (w : Waiter) (queue : list Waiter) : list Waiter :=
  match queue with
  | [] => []
  | x :: queue => if decide (x = w) then [] else x :: ahead w queue
  end.

Definition leave (w : Waiter) (queue : list Waiter) : list Waiter := filter (fun x => x ≠ w) queue.

(** * The process with its lock *)

Section lock.
Context `{Hickory} `{!Codecs} `{!RwLock} (config : Config) (clock : Clock).

(** The lock a program comes to next. *)
Definition lock_of {A} (p : prog A) : option Guard :=
  match p with
  | Do (CStore guard) _ => match guard with NoGuard => None | _ => Some guard end
  | _ => None
  end.

(** A handler that waits for ever has not returned. *)
Definition returned {A} (p : prog A) : bool :=
  match p with Return Blocked | Do _ _ => false | Return _ => true end.

Record Locked := {
  k_system : System;
  k_guards : list nat;  (* the tasks that keep a read guard *)
  k_queue : list Waiter;
  k_reload : option (str -> option str)  (* the files that the waiting reload has read *)
}.

Definition lock_boot (p : Started) : Locked :=
  {| k_system := boot p; k_guards := []; k_queue := []; k_reload := None |}.

(** A guard is dropped when the handler returns. *)
Definition still_runs (sys : System) (i : nat) : bool :=
  match s_tasks sys !! i with Some t => negb (returned (t_prog t)) | None => false end.

Definition held (sys : System) (guards : list nat) : list nat := filter (fun i => still_runs sys i = true) guards.

(** What happens: a step of [Tasks] that has nothing to do with the lock; a task comes to
    [zones.read().await]; SIGHUP arrives, the zones are loaded and the handler comes to
    [zone_store.write().await]; a request is granted. *)
Inductive LockAction :=
  | Moves (a : Action)
  | Asks (i : nat)
  | AsksReload (files : str -> option str)
  | Gets (w : Waiter).

(** A signal is not looked at while the handler waits. *)
Definition lock_free (k : Locked) (a : Action) : bool :=
  match a with
  | RunTask i _ =>
      match s_tasks (k_system k) !! i with
      | Some t => bool_decide (lock_of (t_prog t) = None)
      | None => false
      end
  | Signalled files SIGHUP =>
      bool_decide (Reloads ∉ k_queue k) &&
      match load_zones files config with Ok _ => false | _ => true end
  | Signalled _ _ => bool_decide (Reloads ∉ k_queue k)
  | _ => true
  end.

Definition moved (sys : System) (k : Locked) : Locked :=
  {| k_system := sys; k_guards := held sys (k_guards k); k_queue := k_queue k; k_reload := k_reload k |}.

Definition enqueue (w : Waiter) (files : option (str -> option str)) (k : Locked) : Locked :=
  {| k_system := k_system k; k_guards := k_guards k; k_queue := k_queue k ++ [w]; k_reload := files |}.

(** The waiter gets the lock and does what it wanted it for. *)
Definition granted (w : Waiter) (k : Locked) : option Locked :=
  match w with
  | Reads i =>
      t ← s_tasks (k_system k) !! i;
      guard ← lock_of (t_prog t);
      sys ← perform config clock (k_system k) (RunTask i Goes);
      Some {| k_system := sys;
              k_guards := held sys (k_guards k ++ if decide (guard = Kept) then [i] else []);
              k_queue := leave w (k_queue k); k_reload := k_reload k |}
  | Reloads =>
      files ← k_reload k;
      sys ← perform config clock (k_system k) (Signalled files SIGHUP);
      Some {| k_system := sys; k_guards := k_guards k; k_queue := leave w (k_queue k); k_reload := None |}
  end.

Definition lock_step (k : Locked) (a : LockAction) : option Locked :=
  match a with
  | Moves a => if lock_free k a then (fun sys => moved sys k) <$> perform config clock (k_system k) a else None
  | Asks i =>
      if s_finished (k_system k) || bool_decide (Reads i ∈ k_queue k) then None
      else
        t ← s_tasks (k_system k) !! i;
        guard ← lock_of (t_prog t);
        Some (enqueue (Reads i) (k_reload k) k)
  | AsksReload files =>
      if s_finished (k_system k) || cancelled (s_process (k_system k)) || bool_decide (Reloads ∈ k_queue k)
      then None
      else match load_zones files config with
           | Ok _ => Some (enqueue Reloads (Some files) k)
           | _ => None
           end
  | Gets w =>
      if bool_decide (w ∈ k_queue k)
         && may_acquire (length (k_guards k)) (access_of <$> ahead w (k_queue k)) (access_of w)
      then granted w k else None
  end.

Fixpoint lock_steps (k : Locked) (acts : list LockAction) : option Locked :=
  match acts with
  | [] => Some k
  | a :: acts => k' ← lock_step k a; lock_steps k' acts
  end.

(** ** Runs without end *)

Record LockRun := {
  lr_state : nat -> Locked;
  lr_action : nat -> option LockAction;
  lr_step n : match lr_action n with
              | Some a => lock_step (lr_state n) a = Some (lr_state (S n))
              | None => lr_state (S n) = lr_state n
              end
}.

(** Again and again an action of the class is taken, or none can be. *)
Definition lock_fair_to (P : LockAction -> Prop) (r : LockRun) : Prop :=
  forall n, exists m, (n <= m)%nat /\
    ((exists a, lr_action r m = Some a /\ P a) \/
     forall a, P a -> lock_step (lr_state r m) a = None).

(** What a task does, the lock included. *)
Definition acts_for (i : nat) (a : LockAction) : Prop :=
  match a with
  | Moves (RunTask j _) | Asks j | Gets (Reads j) => j = i
  | _ => False
  end.

(** The runtime polls every task, the signal handler and the main task. *)
Definition lock_fair (r : LockRun) : Prop :=
  (forall i, lock_fair_to (acts_for i) r) /\ lock_fair_to (fun a => a = Gets Reloads) r /\
  lock_fair_to (fun a => a = Moves ServerEnds) r.

(** A transfer that keeps its guard and waits for ever. *)
Definition stuck (k : Locked) (i : nat) : Prop :=
  i ∈ k_guards k /\ exists t, s_tasks (k_system k) !! i = Some t /\ t_prog t = Return Blocked.

(** A write of the task has met a client that does not read on. *)
Definition unread (r : LockRun) (i m : nat) : Prop :=
  exists j n, (j < m)%nat /\ lr_action r j = Some (Moves (RunTask i (Stalls n))).
End lock.
