(* ===== verification/StoreLockFacts.v ===== *)
(** The lock of the zone store, step by step: the process with its lock is the process of [Tasks]; no
    handler asks for the lock while it keeps a guard; the store never changes under a zone transfer;
    what can still happen when the client of a transfer does not read.  Requires [StoreLock] and
    [Monitor]. *)
From S2P Require Import Prelude RustTime RustStr HashMap Crates Zone Protocol RateLimit.
From S2P Require Import Metrics Config Effects ServerIO Server Main MainProps.
From S2P Require Import Tasks TasksFacts TasksProps TasksLive Monitor StoreLock.
Open Scope Z_scope.

(** A query that is not looked up is answered the same from any zones: [process_query] returns before it
    comes to the lock. *)
Lemma looks_up_not `{Hickory} zones zones' query :
  looks_up query = false -> process_query zones query = process_query zones' query.
Proof.
  unfold looks_up, process_query.
  destruct (bool_decide (message_op_code query = OpCode.Query)), (head (message_queries query)) as [question|];
    try done. by destruct (bool_decide (query_query_type question = RecordType.AXFR)).
Qed.

(** * A handler that keeps a guard asks for no other *)

Section discipline.
Context `{HickoryTypes}.

(** The state says whether the task keeps a guard, and whether a write of it stays pending: then it
    comes to no other command. *)
Definition keeping : Monitor (bool * bool) := {|
  accepts R c st := st.2 = false /\
    match c with CStore guard => st.1 = true -> guard = NoGuard | _ => True end;
  advance R c a st :=
    match c in command R return R -> bool * bool with
    | CStore Kept => fun _ => (true, st.2)
    | CWrite _ => fun a => (st.1, match a with WriteBlocked => true | _ => st.2 end)
    | _ => fun _ => st
    end a
|}.

(** Who keeps a guard and waits for ever does so with a pending write. *)
Definition waits_well (blocked : bool) (st : bool * bool) : Prop := blocked = true -> st.1 = true -> st.2 = true.

Definition is_blocked {A} (r : result A) : bool := match r with Blocked => true | _ => false end.

(** A program that keeps no new guard, asks for none if there is one, and waits for its client only
    without one. *)
Definition calm_post {A} (kept : bool) (r : result A) (st : bool * bool) : Prop :=
  st.1 = kept /\ if is_blocked r then waits_well true st else st.2 = false.
Definition calm {A} (kept : bool) (p : prog A) : Prop := wp keeping p (calm_post kept) (kept, false).

Lemma calm_bind {A B} kept (p : prog A) (f : A -> prog B) : calm kept p -> (forall a, calm kept (f a)) -> calm kept (p ≫= f).
Proof.
  intros Hp Hf. apply wp_bind. eapply wp_mono; [|exact Hp].
  intros [[a|e|]| |] [k st]; unfold calm_post; cbn; try done. intros [-> ->]. apply Hf.
Qed.

Lemma calm_lift {A} kept (o : outcome A) : calm kept (lift (Effects := prog_effects) o).
Proof. done. Qed.
Lemma calm_block {A} : calm (A := A) false (block (Effects := prog_effects)).
Proof. done. Qed.
Lemma calm_fuel {A} kept : calm (A := A) kept (out_of_fuel (Effects := prog_effects)).
Proof. done. Qed.
Lemma calm_ret {A} kept (a : A) : calm kept (mret a).
Proof. done. Qed.
Lemma calm_now kept : calm kept (now (Effects := prog_effects)).
Proof. done. Qed.
Lemma calm_limit kept addr : calm kept (within_rate_limit (Effects := prog_effects) addr).
Proof. done. Qed.
Lemma calm_send kept buf : calm kept (send (Effects := prog_effects) buf).
Proof. by apply wp_try. Qed.
Lemma calm_write kept buf : calm kept (write_all (Effects := prog_effects) buf).
Proof. by apply wp_write. Qed.
Lemma calm_read kept t n : calm kept (read_exact (Effects := prog_effects) t n).
Proof. done. Qed.
Lemma calm_record kept c : calm kept (record (Effects := prog_effects) c).
Proof. by apply wp_record_same. Qed.
Lemma calm_store (b : bool) : calm false (read_store (Effects := prog_effects) (if b then Dropped else NoGuard)).
Proof. by destruct b. Qed.

(** What is asked of a whole handler. *)
Definition end_post {A} (r : result A) (st : bool * bool) : Prop := waits_well (is_blocked r) st.

Lemma calm_end {A} kept (p : prog A) : calm kept p -> wp keeping p end_post (kept, false).
Proof. apply wp_mono. intros [[a|e|]| |] st [Hk Hw]; try done. Qed.
End discipline.

#[export] Hint Resolve calm_lift calm_block calm_fuel calm_ret calm_now calm_limit calm_send calm_write
  calm_read calm_record calm_store : dns.

(** Walks through a program. *)
Ltac walk_calm :=
  repeat first
    [ solve [auto with dns]
    | apply calm_bind; [|intros ?]
    | match goal with |- calm _ (match ?x with _ => _ end) => destruct x end ].

Section handlers.
Context `{Hickory}.

Lemma calm_elapsed kept start : calm kept (record_elapsed prog_effects start).
Proof. unfold record_elapsed. walk_calm. Qed.
Lemma calm_encode kept ctx m : calm kept (encode prog_effects ctx m).
Proof. unfold encode. walk_calm. Qed.
Lemma calm_framed kept buf : calm kept (send_framed prog_effects buf).
Proof. unfold send_framed. walk_calm. Qed.
Lemma calm_first_type kept q : calm kept (record_first_type prog_effects q).
Proof. unfold record_first_type. walk_calm. Qed.
Hint Resolve calm_elapsed calm_encode calm_framed calm_first_type : dns.

Lemma calm_run_query start q : calm false (run_query prog_effects start q).
Proof. unfold run_query. walk_calm. Qed.
Hint Resolve calm_run_query : dns.

Lemma calm_shed fuel section take max start m : calm false (shed_section prog_effects fuel section take max start m).
Proof. revert m. induction fuel as [|fuel IH]; intros m; cbn [shed_section]; unfold encode_plain; walk_calm. Qed.
Hint Resolve calm_shed : dns.

Lemma calm_udp data addr : calm false (handle_udp_query prog_effects data addr).
Proof. unfold handle_udp_query, answer_udp_query, send_truncated, encode_plain. walk_calm. Qed.

Lemma calm_records q question rs : calm true (send_records prog_effects q question rs).
Proof. induction rs as [|r rs IH]; cbn [send_records]; walk_calm. Qed.
Hint Resolve calm_records : dns.

(** A zone transfer keeps its guard and asks for none after it. *)
Lemma keeps_axfr start q question :
  wp keeping (answer_axfr prog_effects start q question) (calm_post true) (false, false).
Proof.
  unfold answer_axfr. apply wp_bind. split; [done|]. intros zones. cbn [wp then_post advance keeping].
  change (calm true (match find_zone zones (query_name question) with
    | Some zone => send_records prog_effects q question (get_all_records zone);;
        record (ResponseSent ResponseCode.NoError);; record_elapsed prog_effects start
    | None => response_buf ← encode prog_effects "Failed to encode refused response"
          (add_query question (error_response ResponseCode.Refused (set_id (message_id q) message_new)));
        send_framed prog_effects response_buf;;
        record (ResponseSent ResponseCode.Refused);; record_elapsed prog_effects start end)).
  walk_calm.
Qed.

(** The connection goes on only if no guard is kept. *)
Definition lets_go_post {A} (going : A -> bool) (r : result A) (st : bool * bool) : Prop :=
  end_post r st /\ okpost (fun a st => going a = true -> st = (false, false)) r st.
Definition lets_go {A} (going : A -> bool) (p : prog A) : Prop :=
  wp keeping p (lets_go_post going) (false, false).

Lemma lets_go_calm {A} going (p : prog A) : calm false p -> lets_go going p.
Proof.
  apply wp_mono. unfold lets_go_post, end_post. intros [[a|e|]| |] [k st] [Hk Hw]; cbn in *; split; try done.
  intros _. congruence.
Qed.

Lemma lets_go_bind {A B} going (p : prog A) (f : A -> prog B) :
  calm false p -> (forall a, lets_go going (f a)) -> lets_go going (p ≫= f).
Proof.
  intros Hp Hf. apply wp_bind. eapply wp_mono; [|exact Hp].
  intros [[a|e|]| |] [k st] [Hk Hw]; cbn in *; subst; [apply Hf|by split..].
Qed.

Lemma lets_go_query start q : lets_go id (answer_tcp_query prog_effects start q).
Proof.
  unfold answer_tcp_query. apply lets_go_bind; [auto with dns|intros _].
  apply lets_go_bind; [auto with dns|intros _]. destruct (axfr_question q) as [question|].
  - apply wp_bind. eapply wp_mono; [|apply keeps_axfr].
    by intros [[[]|e|]| |] st [Hk Hw]; try done; split.
  - apply lets_go_calm. walk_calm.
Qed.

Lemma lets_go_message addr start buf : lets_go id (answer_tcp_message prog_effects addr start buf).
Proof.
  unfold answer_tcp_message. destruct (message_from_bytes buf); [|by apply lets_go_calm; walk_calm].
  apply lets_go_bind; [auto with dns|intros []]; [apply lets_go_query|apply lets_go_calm; walk_calm].
Qed.

Lemma lets_go_iteration addr t q : lets_go id (tcp_iteration prog_effects addr t q).
Proof.
  unfold tcp_iteration.
  repeat first
    [ apply lets_go_message
    | apply lets_go_calm; solve [walk_calm]
    | apply lets_go_bind; [solve [auto with dns]|intros ?]
    | match goal with |- lets_go _ (match ?x with _ => _ end) => destruct x end ].
Qed.

Lemma keeps_loop fuel addr t max : forall q,
  wp keeping (tcp_loop prog_effects fuel addr t max q) end_post (false, false).
Proof.
  induction fuel as [|fuel IH]; intros q; cbn [tcp_loop]; destruct (max <=? q);
    try by apply calm_end; auto with dns.
  apply wp_bind. eapply wp_mono; [|apply lets_go_iteration].
  intros [[[]|e|]| |] st [He Hk]; cbn in *; try done. rewrite Hk by done. apply IH.
Qed.

(** Every handler. *)
Lemma keeps_handler `{!Codecs} config o :
  wp keeping (t_prog (fresh_task config o)) end_post (false, false).
Proof.
  destruct o as [data addr|client addr]; cbn [fresh_task tcp_task t_prog].
  - apply calm_end, calm_udp.
  - unfold handle_tcp_connection. apply wp_bind. eapply wp_mono; [|apply (calm_record false)].
    intros [[a|e|]| |] [k st] [Hk Hw]; cbn in Hk, Hw; subst; cbn [then_post]; [apply keeps_loop|done..].
Qed.
End handlers.

(** * Queues *)

Lemma elem_of_leave x w queue : x ∈ leave w queue <-> x ≠ w /\ x ∈ queue.
Proof. apply (list_elem_of_filter (fun x => x ≠ w)). Qed.

Lemma ahead_incl x w queue : x ∈ ahead w queue -> x ∈ queue.
Proof.
  induction queue as [|y queue IH]; cbn; [done|]. case_decide; [by intros ?%elem_of_nil|].
  rewrite !elem_of_cons. naive_solver.
Qed.

(** A request that is made later changes nothing for those before it. *)
Lemma ahead_app w queue more : w ∈ queue -> ahead w (queue ++ more) = ahead w queue.
Proof.
  induction queue as [|y queue IH]; [by intros ?%elem_of_nil|]. cbn. case_decide; [done|].
  intros [->|Hw]%elem_of_cons; [done|]. by rewrite IH.
Qed.

(** A request that is granted leaves those behind it closer to the front. *)
Lemma ahead_leave w x queue : x ≠ w -> ahead w (leave x queue) = leave x (ahead w queue).
Proof.
  intros Hx. unfold leave. induction queue as [|y queue IH]; [done|]. cbn [ahead].
  destruct (decide (y = w)) as [->|Hy].
  - rewrite filter_cons_True by done. cbn. by rewrite decide_True.
  - destruct (decide (y = x)) as [->|Hyx].
    + rewrite !filter_cons_False by tauto. done.
    + rewrite !filter_cons_True by done. cbn. by rewrite decide_False, IH.
Qed.

Lemma leave_length w queue : (length (leave w queue) <= length queue)%nat.
Proof. apply length_filter. Qed.

Lemma leave_shorter w queue : w ∈ queue -> (length (leave w queue) < length queue)%nat.
Proof. intros Hw. apply (length_filter_lt _ _ w); [done|]. by intros ?. Qed.

(** ** The states *)

Section invariant.
Context `{Hickory} `{!Codecs} `{!RwLock} (config : Config) (clock : Clock).

Local Abbreviation lstep := (lock_step config clock).
Local Abbreviation lsteps := (lock_steps config clock).

(** A program that obeys the discipline, by whether it keeps a guard. *)
Definition keeps (p : prog unit) (kept : bool) : Prop := exists pending, wp keeping p end_post (kept, pending).

(** What a step of the process does to a task. *)
Lemma step_on_task sys a sys' j t' : step config clock sys a sys' -> s_tasks sys' !! j = Some t' ->
  (s_tasks sys !! j = Some t' /\ forall f, a ≠ RunTask j f) \/
  (s_tasks sys !! j = None /\ (forall f, a ≠ RunTask j f) /\ exists o, t' = fresh_task config o) \/
  (exists f t R (c : command R) k x, a = RunTask j f /\ s_tasks sys !! j = Some t /\
     t_prog t = Do c k /\ t_prog t' = k x /\ told f c x).
Proof.
  intros Hs Hj. pose proof (step_frame _ _ _ _ _ Hs) as (_ & _ & _ & _ & Hother).
  destruct (runs_task_dec j (Some a)) as [[f [= ->]]|Hn].
  - right. right. inversion Hs as [| | | | |sys0 i0 fate0 t R c k Hf Ht Hp|]; subst.
    destruct (exec_effect clock c f j t k sys Ht) as (x & t2 & _ & _ & Ht2 & Hp2 & _ & _ & _ & _ & Htold).
    rewrite Ht2, list_lookup_insert_eq in Hj by (by eapply lookup_lt_Some). injection Hj as <-.
    by exists f, t, R, c, k, x.
  - assert (forall f, a ≠ RunTask j f) as Ha by (intros f ->; by apply (Hn f)).
    destruct (s_tasks sys !! j) as [t|] eqn:E.
    + left. rewrite Hother in Hj by (done || by eapply lookup_lt_Some). split; [congruence|done].
    + right. left. split_and!; [done|done|]. destruct (step_tasks config clock _ _ _ _ _ Hs Hj) as [(t & Ht & _)|[_ Ht]].
      * congruence.
      * by eexists.
Qed.

Lemma step_keeps_tasks sys a sys' j t : step config clock sys a sys' -> s_tasks sys !! j = Some t ->
  is_Some (s_tasks sys' !! j).
Proof.
  intros Hs Hj. pose proof (step_frame _ _ _ _ _ Hs) as (_ & _ & _ & Hlen & _).
  apply lookup_lt_is_Some. apply lookup_lt_Some in Hj. lia.
Qed.

(** What every state has: each task obeys the discipline of the guards; a task in the queue stands
    before the lock; a task with a guard still runs; the reload in the queue has loaded its zones, and
    the signal handler has seen no shutdown. *)
Record locked_ok (k : Locked) : Prop := {
  lo_tasks i t : s_tasks (k_system k) !! i = Some t -> keeps (t_prog t) (bool_decide (i ∈ k_guards k));
  lo_readers i : Reads i ∈ k_queue k ->
    exists t, s_tasks (k_system k) !! i = Some t /\ is_Some (lock_of (t_prog t));
  lo_guards i : i ∈ k_guards k -> still_runs (k_system k) i = true;
  lo_reload : Reloads ∈ k_queue k -> cancelled (s_process (k_system k)) = false /\
    exists files new, k_reload k = Some files /\ load_zones files config = Ok new;
  lo_queue : NoDup (k_queue k)
}.

Lemma lock_boot_ok p : locked_ok (lock_boot p).
Proof.
  split; cbn.
  - intros i t. by rewrite lookup_nil.
  - by intros i ?%elem_of_nil.
  - by intros i ?%elem_of_nil.
  - by intros ?%elem_of_nil.
  - constructor.
Qed.

Lemma elem_of_held sys guards i : i ∈ held sys guards <-> still_runs sys i = true /\ i ∈ guards.
Proof. apply (list_elem_of_filter (fun i => still_runs sys i = true)). Qed.

(** A task that has returned obeys the discipline whatever is said of its guard. *)
Lemma keeps_held sys guards i t : s_tasks sys !! i = Some t -> keeps (t_prog t) (bool_decide (i ∈ guards)) ->
  keeps (t_prog t) (bool_decide (i ∈ held sys guards)).
Proof.
  intros Ht Hk. destruct (returned (t_prog t)) eqn:Er.
  { destruct (t_prog t) as [[o| |]|]; try done; by exists false. }
  replace (bool_decide (i ∈ held sys guards)) with (bool_decide (i ∈ guards)); [done|].
  apply bool_decide_ext. rewrite elem_of_held. unfold still_runs. rewrite Ht, Er. naive_solver.
Qed.

(** The tasks after a step of the process, by the guards they will have. *)
Lemma keeps_step k sys a (guards : list nat) : locked_ok k -> step config clock (k_system k) a sys ->
  (forall i, (forall f, a ≠ RunTask i f) -> i ∈ guards <-> i ∈ k_guards k) ->
  (forall i f t R (c : command R) kont x, a = RunTask i f -> s_tasks (k_system k) !! i = Some t ->
     t_prog t = Do c kont -> told f c x -> keeps (kont x) (bool_decide (i ∈ guards))) ->
  forall i t, s_tasks sys !! i = Some t -> keeps (t_prog t) (bool_decide (i ∈ held sys guards)).
Proof.
  intros Hok Hs Hsame Hrun i t Ht. apply keeps_held; [done|].
  destruct (step_on_task _ _ _ _ _ Hs Ht) as [[Hold Hn]|[(Hold & Hn & o & ->)|(f & t0 & R & c & kont & x & Ha & Hold & Hp & -> & Htold)]].
  - rewrite (bool_decide_ext _ _ (Hsame i Hn)). by apply (lo_tasks k Hok).
  - rewrite (bool_decide_ext _ _ (Hsame i Hn)). rewrite bool_decide_eq_false_2; [exists false; apply keeps_handler|].
    intros Hg%(lo_guards k Hok). unfold still_runs in Hg. by rewrite Hold in Hg.
  - by eapply Hrun.
Qed.

(** A reader that waits is not touched by the steps of others. *)
Lemma readers_step k sys a (queue : list Waiter) : locked_ok k -> step config clock (k_system k) a sys ->
  (forall i, Reads i ∈ queue -> Reads i ∈ k_queue k /\ forall f, a ≠ RunTask i f) ->
  forall i, Reads i ∈ queue -> exists t, s_tasks sys !! i = Some t /\ is_Some (lock_of (t_prog t)).
Proof.
  intros Hok Hs Hq i Hi. destruct (Hq i Hi) as [Hin Hn]. destruct (lo_readers k Hok i Hin) as (t & Ht & Hl).
  exists t. split; [|done]. pose proof (step_frame _ _ _ _ _ Hs) as (_ & _ & _ & _ & Hother).
  rewrite Hother; [done|by eapply lookup_lt_Some|done].
Qed.

Lemma lock_of_move k i f t : lock_free config k (RunTask i f) = true -> s_tasks (k_system k) !! i = Some t ->
  lock_of (t_prog t) = None.
Proof. cbn. intros Hf Ht. rewrite Ht in Hf. by apply bool_decide_eq_true in Hf. Qed.

(** A command that needs no lock changes nothing about the guards. *)
Lemma keeps_unlocked {R} (c : command R) kont x kept :
  lock_of (Do c kont) = None -> keeps (Do c kont) kept -> keeps (kont x) kept.
Proof.
  intros Hl (pending & _ & Hk). specialize (Hk x). destruct c as [| | |[]| | |]; (done || (eexists; exact Hk)).
Qed.

(** A reload in the queue stays possible: no signal is handled. *)
Lemma reload_step k sys a : locked_ok k -> lock_free config k a = true -> step config clock (k_system k) a sys ->
  Reloads ∈ k_queue k -> s_process sys = s_process (k_system k).
Proof.
  intros Hok Hf Hs Hr. destruct (lo_reload k Hok Hr) as [Hc _].
  inversion Hs as [| | | |sys0 files s p _ Hsig|sys0 i f t R c kont _ _ _|]; subst; try done.
  - cbn in Hf. rewrite bool_decide_eq_false_2 in Hf by (intros ?; done). by destruct s.
  - by destruct (exec_frame clock c f i t kont (k_system k)) as (-> & _).
Qed.
(** ** Every step keeps it *)

Lemma moves_ok k a sys : locked_ok k -> lock_free config k a = true -> step config clock (k_system k) a sys ->
  locked_ok (moved sys k).
Proof.
  intros Hok Hf Hs. split; cbn.
  - eapply keeps_step; [exact Hok|exact Hs|done|]. intros i f t R c kont x -> Ht Hp _.
    pose proof (lock_of_move _ _ _ _ Hf Ht) as Hl. rewrite Hp in Hl. eapply keeps_unlocked; [exact Hl|].
    rewrite <- Hp. by apply (lo_tasks k Hok).
  - eapply readers_step; [exact Hok|exact Hs|]. intros i Hi. split; [done|]. intros f ->.
    destruct (lo_readers k Hok i Hi) as (t & Ht & Hl). rewrite (lock_of_move _ _ _ _ Hf Ht) in Hl. by destruct Hl.
  - intros i Hi. by apply elem_of_held in Hi as [Hi _].
  - intros Hr. rewrite (reload_step k sys a Hok Hf Hs Hr). by apply (lo_reload k Hok).
  - apply (lo_queue k Hok).
Qed.

Lemma enqueue_ok k w (files : option (str -> option str)) : locked_ok k -> w ∉ k_queue k ->
  (forall i, w = Reads i -> files = k_reload k /\
     exists t, s_tasks (k_system k) !! i = Some t /\ is_Some (lock_of (t_prog t))) ->
  (w = Reloads -> cancelled (s_process (k_system k)) = false /\
     exists fs new, files = Some fs /\ load_zones fs config = Ok new) ->
  locked_ok (enqueue w files k).
Proof.
  intros Hok Hw Hreads Hrel. split; cbn.
  - apply (lo_tasks k Hok).
  - intros i [Hi|Hi%list_elem_of_singleton]%elem_of_app; [by apply (lo_readers k Hok)|].
    by destruct (Hreads i (eq_sym Hi)).
  - apply (lo_guards k Hok).
  - intros [Hr|Hr%list_elem_of_singleton]%elem_of_app; [|by apply Hrel].
    destruct w as [i|]; [|by apply Hrel]. destruct (Hreads i eq_refl) as [-> _]. by apply (lo_reload k Hok).
  - apply NoDup_app. split_and!; [apply (lo_queue k Hok)| |apply NoDup_singleton].
    by intros x Hx ->%list_elem_of_singleton.
Qed.

Lemma gets_reads_ok k i k' : locked_ok k -> granted config clock (Reads i) k = Some k' -> locked_ok k'.
Proof.
  intros Hok. cbn. intros (t & Ht & (guard & Hl & (sys & Hs%perform_step & [= <-])%bind_Some)%bind_Some)%bind_Some.
  assert (s_process sys = s_process (k_system k)) as Hp.
  { inversion Hs as [| | | | |sys0 i0 f t0 R c kont _ _ _|]; subst.
    by destruct (exec_frame clock c Goes i t0 kont (k_system k)) as (-> & _). }
  split; cbn [k_system k_guards k_queue k_reload].
  - eapply keeps_step; [exact Hok|exact Hs| |].
    + intros j Hj. rewrite elem_of_app. case_decide; rewrite ?list_elem_of_singleton, ?elem_of_nil; [|naive_solver].
      split; [intros [Hg | ->]; [done|]|tauto]. by destruct (Hj Goes).
    + intros j f t0 R c kont x [= <- <-] Ht0 Hp0 _. assert (t0 = t) as -> by congruence.
      rewrite Hp0 in Hl. pose proof (lo_tasks k Hok i t Ht) as Hk. rewrite Hp0 in Hk. destruct Hk as (pending & _ & Hk).
      specialize (Hk x). exists pending. destruct c as [| | |g0| | |]; try done. cbn in Hl.
      destruct g0; [done| |]; injection Hl as <-.
      * rewrite decide_False, app_nil_r by done. exact Hk.
      * rewrite decide_True, bool_decide_eq_true_2 by (rewrite ?elem_of_app, ?list_elem_of_singleton; auto). exact Hk.
  - eapply readers_step; [exact Hok|exact Hs|]. intros j [Hj Hin]%elem_of_leave. split; [done|]. by intros f [= <- <-].
  - intros j Hj. by apply elem_of_held in Hj as [Hj _].
  - intros [_ Hr]%elem_of_leave. rewrite Hp. by apply (lo_reload k Hok).
  - apply NoDup_filter, (lo_queue k Hok).
Qed.

Lemma signal_tasks sys files s sys' : step config clock sys (Signalled files s) sys' ->
  s_tasks sys' = s_tasks sys.
Proof. intros Hs. by inversion Hs. Qed.

Lemma gets_reloads_ok k k' : locked_ok k -> granted config clock Reloads k = Some k' -> locked_ok k'.
Proof.
  intros Hok. cbn. intros (files & Hfiles & (sys & Hs%perform_step & [= <-])%bind_Some)%bind_Some.
  pose proof (signal_tasks _ _ _ _ Hs) as Ht. split; cbn [k_system k_guards k_queue k_reload]; rewrite ?Ht.
  - apply (lo_tasks k Hok).
  - intros i [_ Hi]%elem_of_leave. by apply (lo_readers k Hok).
  - intros i Hi%(lo_guards k Hok). unfold still_runs. by rewrite Ht.
  - by intros [? _]%elem_of_leave.
  - apply NoDup_filter, (lo_queue k Hok).
Qed.

Lemma lock_step_ok k a k' : locked_ok k -> lstep k a = Some k' -> locked_ok k'.
Proof.
  intros Hok. destruct a as [a|i|files|w]; cbn.
  - destruct (lock_free config k a) eqn:Hf; [|done]. intros (sys & Hs%perform_step & ->)%fmap_Some.
    by eapply moves_ok.
  - destruct (s_finished (k_system k)); [done|]. case_bool_decide as Hq; [done|]. cbn.
    intros (t & Ht & (guard & Hl & [= <-])%bind_Some)%bind_Some. apply enqueue_ok; [done|done| |done].
    intros j [= <-]. split; [done|]. exists t. split; [done|by eexists].
  - destruct (s_finished (k_system k)), (cancelled (s_process (k_system k))) eqn:Hc; try done.
    case_bool_decide as Hq; [done|]. cbn. destruct (load_zones files config) as [new| |] eqn:El; try done.
    intros [= <-]. apply enqueue_ok; [done|done|done|]. intros _. split; [done|]. by exists files, new.
  - case_bool_decide; [|done]. cbn. destruct (may_acquire _ _ _); [|done].
    destruct w; [by apply gets_reads_ok|by apply gets_reloads_ok].
Qed.

Lemma lock_steps_inv (P : Locked -> Prop) acts : forall k k',
  (forall k a k', P k -> lstep k a = Some k' -> P k') -> lsteps k acts = Some k' -> P k -> P k'.
Proof.
  induction acts as [|a acts IH]; intros k k' Hp; cbn; [by intros [= <-]|].
  intros (k1 & Hs & Hss)%bind_Some Hk. eauto.
Qed.

Lemma reachable_ok p acts k : lsteps (lock_boot p) acts = Some k -> locked_ok k.
Proof. intros Hs. eapply lock_steps_inv; [apply lock_step_ok|exact Hs|apply lock_boot_ok]. Qed.
(** ** The process behind the lock *)

(** Every step is one of the process of [Tasks], or only moves in the queue. *)
Lemma lock_step_system k a k' : lstep k a = Some k' ->
  k_system k' = k_system k \/ exists b, step config clock (k_system k) b (k_system k') /\
    forall i n, b = RunTask i (Stalls n) -> a = Moves b.
Proof.
  destruct a as [a|i|files|w]; cbn.
  - destruct (lock_free config k a); [|done]. intros (sys & Hs%perform_step & ->)%fmap_Some. right. by exists a.
  - destruct (_ || _); [done|]. intros (t & _ & (g & _ & [= <-])%bind_Some)%bind_Some. by left.
  - destruct (_ || _); [done|]. destruct (load_zones files config); try done. intros [= <-]. by left.
  - destruct (_ && _); [|done]. destruct w as [i|]; cbn.
    + intros (t & _ & (g & _ & (sys & Hs%perform_step & [= <-])%bind_Some)%bind_Some)%bind_Some. right. by eexists.
    + intros (files & _ & (sys & Hs%perform_step & [= <-])%bind_Some)%bind_Some. right. by eexists.
Qed.


Lemma lock_steps_system acts : forall k k', lsteps k acts = Some k' ->
  exists acts', steps config clock (k_system k) acts' (k_system k') /\
    forall i n, RunTask i (Stalls n) ∈ acts' -> Moves (RunTask i (Stalls n)) ∈ acts.
Proof.
  induction acts as [|a acts IH]; intros k k'; cbn.
  - intros [= <-]. exists []. split; [constructor|]. by intros i n ?%elem_of_nil.
  - intros (k1 & Hs & Hss)%bind_Some. destruct (IH _ _ Hss) as (acts' & Hs' & Hin).
    destruct (lock_step_system _ _ _ Hs) as [Hk|(b & Hb & Ha)].
    + exists acts'. rewrite <- Hk. split; [done|]. intros i n ?. right. by apply Hin.
    + exists (b :: acts'). split; [by econstructor|]. intros i n [<-|?]%elem_of_cons; [|right; by apply Hin].
      rewrite (Ha i n eq_refl). left.
Qed.

Lemma lock_steps_app l1 l2 : forall k,
  lock_steps config clock k (l1 ++ l2) = lock_steps config clock k l1 ≫= fun k => lock_steps config clock k l2.
Proof. induction l1 as [|a l1 IH]; intros k; cbn; [done|]. destruct (lock_step config clock k a); cbn; [apply IH|done]. Qed.

(** Only a granted reload changes the store. *)
Lemma lock_step_store k a k' : lstep k a = Some k' -> a ≠ Gets Reloads ->
  store (s_process (k_system k')) = store (s_process (k_system k)).
Proof.
  intros Hs Ha. assert (forall b sys, step config clock (k_system k) b sys ->
    (forall files, b = Signalled files SIGHUP -> exists e, load_zones files config = Err e) ->
    store (s_process sys) = store (s_process (k_system k))) as Hstore.
  { intros b sys Hb Hn. inversion Hb as [| | | |sys0 files s p _ Hsig|sys0 i f t R c kont _ _ _|]; subst; try done.
    - inversion Hsig; subst; try done. destruct (Hn files eq_refl). congruence.
    - by destruct (exec_frame clock c f i t kont (k_system k)) as (-> & _). }
  destruct a as [a|i|files|[i|]]; cbn in Hs; [| | | |done].
  - destruct (lock_free config k a) eqn:Hf; [|done]. apply fmap_Some in Hs as (sys & Hb%perform_step & ->).
    apply (Hstore a); [done|]. intros files ->. cbn in Hf. destruct (load_zones files config) eqn:E.
    + by rewrite andb_false_r in Hf.
    + by eexists.
    + exfalso. inversion Hb as [| | | |? ? ? ? _ Hsig| |]; subst. inversion Hsig; subst; try congruence.
      match goal with Hor : _ \/ _ |- _ => by destruct Hor as [|[]] end.
  - destruct (_ || _); [done|]. by apply bind_Some in Hs as (t & _ & (g & _ & [= <-])%bind_Some).
  - destruct (_ || _); [done|]. destruct (load_zones files config); try done. by injection Hs as <-.
  - destruct (_ && _); [|done].
    apply bind_Some in Hs as (t & _ & (g & _ & (sys & Hb%perform_step & [= <-])%bind_Some)%bind_Some).
    by apply (Hstore (RunTask i Goes)).
Qed.

(** What a step does to a task: nothing, or its next command. *)
Lemma lock_step_task k a k' i t : lstep k a = Some k' -> s_tasks (k_system k) !! i = Some t ->
  s_tasks (k_system k') !! i = Some t \/
  acts_for i a /\ exists t', s_tasks (k_system k') !! i = Some t' /\ follows (t_prog t) (t_prog t').
Proof.
  intros Hs Ht. assert (forall b sys, step config clock (k_system k) b sys ->
    s_tasks sys !! i = Some t \/
    (exists f, b = RunTask i f) /\ exists t', s_tasks sys !! i = Some t' /\ follows (t_prog t) (t_prog t')) as Hstep.
  { intros b sys Hb. destruct (step_keeps_tasks _ _ _ _ _ Hb Ht) as [t' Ht'].
    destruct (step_on_task _ _ _ _ _ Hb Ht') as [[Hold _]|[(Hold & _)|(f & t0 & R & c & kont & x & Ha & Hold & Hp & Hp' & _)]].
    - left. congruence.
    - congruence.
    - right. split; [by exists f|]. exists t'. split; [done|]. assert (t0 = t) as -> by congruence.
      rewrite Hp. by exists x. }
  destruct a as [a|j|files|[j|]]; cbn in Hs.
  - destruct (lock_free config k a) eqn:Hf; [|done]. apply fmap_Some in Hs as (sys & Hb%perform_step & ->).
    destruct (Hstep _ _ Hb) as [|[[f ->] Hfo]]; [by left|by right].
  - destruct (_ || _); [done|]. apply bind_Some in Hs as (t0 & _ & (g & _ & [= <-])%bind_Some). by left.
  - destruct (_ || _); [done|]. destruct (load_zones files config); try done. injection Hs as <-. by left.
  - destruct (_ && _); [|done].
    apply bind_Some in Hs as (t0 & _ & (g & _ & (sys & Hb%perform_step & [= <-])%bind_Some)%bind_Some).
    destruct (Hstep _ _ Hb) as [|[[f [= <- <-]] Hfo]]; [by left|by right].
  - destruct (_ && _); [|done]. apply bind_Some in Hs as (fs & _ & (sys & Hb%perform_step & [= <-])%bind_Some).
    left. cbn. by rewrite (signal_tasks _ _ _ _ Hb).
Qed.

(** A guard is kept until its task returns. *)
Lemma lock_step_guards k a k' i : locked_ok k -> lstep k a = Some k' -> i ∈ k_guards k ->
  still_runs (k_system k') i = true -> i ∈ k_guards k'.
Proof.
  intros Hok Hs Hi Hr. destruct a as [a|j|files|[j|]]; cbn in Hs.
  - destruct (lock_free config k a); [|done]. apply fmap_Some in Hs as (sys & _ & ->).
    by apply elem_of_held.
  - destruct (_ || _); [done|]. by apply bind_Some in Hs as (t0 & _ & (g & _ & [= <-])%bind_Some).
  - destruct (_ || _); [done|]. destruct (load_zones files config); try done. by injection Hs as <-.
  - destruct (_ && _); [|done].
    apply bind_Some in Hs as (t0 & _ & (g & _ & (sys & _ & [= <-])%bind_Some)%bind_Some).
    apply elem_of_held. split; [done|]. apply elem_of_app. by left.
  - destruct (_ && _); [|done]. by apply bind_Some in Hs as (fs & _ & (sys & _ & [= <-])%bind_Some).
Qed.

(** A task that has returned stays as it is. *)
Lemma lock_step_returned k a k' i t r : lstep k a = Some k' -> s_tasks (k_system k) !! i = Some t ->
  t_prog t = Return r -> s_tasks (k_system k') !! i = Some t.
Proof.
  intros Hs Ht Hp. destruct (lock_step_task _ _ _ _ _ Hs Ht) as [|(_ & t' & _ & Hf)]; [done|].
  by rewrite Hp in Hf.
Qed.

Lemma ended_without_guard acts : forall k k' i t, locked_ok k -> lsteps k acts = Some k' ->
  s_tasks (k_system k) !! i = Some t -> returned (t_prog t) = true -> i ∉ k_guards k'.
Proof.
  induction acts as [|a acts IH]; intros k k' i t Hok; cbn.
  - intros [= <-] Ht Hp Hi%(lo_guards k Hok). unfold still_runs in Hi. by rewrite Ht, Hp in Hi.
  - intros (k1 & Hs & Hss)%bind_Some Ht Hp. eapply IH; [by eapply lock_step_ok|exact Hss| |exact Hp].
    destruct (t_prog t) as [res|] eqn:E; [|done]. by eapply lock_step_returned.
Qed.

(** While a guard is kept the store stays. *)
Lemma guarded_store `{!RwLockLaws} k a k' i : lstep k a = Some k' -> i ∈ k_guards k ->
  store (s_process (k_system k')) = store (s_process (k_system k)).
Proof.
  intros Hs Hi. apply (lock_step_store _ a); [done|]. intros ->. cbn in Hs.
  destruct (k_guards k) as [|j guards]; [by apply elem_of_nil in Hi|]. cbn in Hs.
  by rewrite writer_alone, andb_false_r in Hs.
Qed.

Lemma guarded_stores `{!RwLockLaws} acts : forall k k' i, locked_ok k -> lsteps k acts = Some k' ->
  i ∈ k_guards k -> i ∈ k_guards k' ->
  store (s_process (k_system k')) = store (s_process (k_system k)).
Proof.
  induction acts as [|a acts IH]; intros k k' i Hok; cbn; [by intros [= <-]|].
  intros (k1 & Hs & Hss)%bind_Some Hi Hi'. rewrite <- (guarded_store k a k1 i) by done.
  pose proof (lock_step_ok _ _ _ Hok Hs) as Hok1. eapply IH; [done|exact Hss| |exact Hi'].
  eapply lock_step_guards; [exact Hok|exact Hs|exact Hi|].
  pose proof (lo_guards k Hok i Hi) as Hr. unfold still_runs in *.
  destruct (s_tasks (k_system k) !! i) as [t|] eqn:E; [|done].
  assert (exists t', s_tasks (k_system k1) !! i = Some t') as [t' Ht']
    by (destruct (lock_step_task _ _ _ _ _ Hs E) as [|(_ & t' & ? & _)]; eauto).
  rewrite Ht'. destruct (returned (t_prog t')) eqn:Ep; [|done]. exfalso.
  by eapply (ended_without_guard acts k1 k' i t').
Qed.
End invariant.

(** * A transfer whose client does not read *)

Section stalled.
Context `{Hickory} `{!Codecs} `{!RwLock} `{!RwLockLaws} (config : Config) (clock : Clock).

Local Abbreviation lstep := (lock_step config clock).

Lemma ahead_total x w queue : x ∈ queue -> w ∈ queue -> x ≠ w -> x ∈ ahead w queue \/ w ∈ ahead x queue.
Proof.
  intros Hx Hw Hne. induction queue as [|y queue IH]; [by apply elem_of_nil in Hx|]. cbn.
  destruct (decide (y = w)) as [Hyw|Hyw], (decide (y = x)) as [Hyx|Hyx]; [congruence|subst; right; by left| |].
  - subst. left. by left.
  - apply elem_of_cons in Hx as [|Hx], Hw as [|Hw]; try congruence.
    destruct (IH Hx Hw); [left|right]; by right.
Qed.

(** No reader is let in before a reload that came first. *)
Lemma readers_behind k i k' : lstep k (Gets (Reads i)) = Some k' -> Reloads ∈ k_queue k ->
  Reads i ∈ ahead Reloads (k_queue k).
Proof.
  cbn. case_bool_decide as Hi; [|done]. cbn. destruct (may_acquire _ _ _) eqn:E; [|done]. intros _ Hr.
  destruct (ahead_total (Reads i) Reloads (k_queue k)) as [?|Ha]; [done|done|done|done|].
  rewrite behind_writer in E; [done|]. apply list_elem_of_fmap. by exists Reloads.
Qed.

(** A request that waits still waits, unless it is granted. *)
Lemma lock_step_queue k a k' w : lstep k a = Some k' -> w ∈ k_queue k -> a ≠ Gets w ->
  w ∈ k_queue k' /\ (k_queue k' = k_queue k \/ (exists more, k_queue k' = k_queue k ++ more) \/
    exists x, a = Gets x /\ x ∈ k_queue k /\ k_queue k' = leave x (k_queue k)).
Proof.
  intros Hs Hw Ha. destruct a as [a|j|files|x]; cbn in Hs.
  - destruct (lock_free config k a); [|done]. apply fmap_Some in Hs as (sys & _ & ->). by split; [|left].
  - destruct (_ || _); [done|]. apply bind_Some in Hs as (t0 & _ & (g & _ & [= <-])%bind_Some). cbn.
    split; [apply elem_of_app; by left|]. right. left. by eexists.
  - destruct (_ || _); [done|]. destruct (load_zones files config); try done. injection Hs as <-. cbn.
    split; [apply elem_of_app; by left|]. right. left. by eexists.
  - case_bool_decide as Hx; [|done]. destruct (may_acquire _ _ _); [|done].
    assert (k_queue k' = leave x (k_queue k)) as Hq.
    { destruct x as [j|]; cbn in Hs.
      - by apply bind_Some in Hs as (t0 & _ & (g & _ & (sys & _ & [= <-])%bind_Some)%bind_Some).
      - by apply bind_Some in Hs as (fs & _ & (sys & _ & [= <-])%bind_Some). }
    rewrite Hq. split; [|right; right; by exists x]. apply elem_of_leave. split; [congruence|done].
Qed.

(** Those before a request that waits were before it. *)
Lemma lock_step_ahead k a k' w : lstep k a = Some k' -> w ∈ k_queue k -> a ≠ Gets w ->
  ahead w (k_queue k') `sublist_of` ahead w (k_queue k).
Proof.
  intros Hs Hw Ha. destruct (lock_step_queue _ _ _ _ Hs Hw Ha) as [_ [->|[[more ->]|(x & -> & Hx & ->)]]].
  - done.
  - by rewrite ahead_app.
  - rewrite ahead_leave by congruence. apply sublist_filter.
Qed.

(** What can still happen. *)
Definition under_stall (before : list Waiter) (a : LockAction) : Prop :=
  match a with
  | Gets (Reads j) => Reads j ∈ before
  | Gets Reloads | AsksReload _ | Moves (Signalled _ _) | Moves ServerEnds => False
  | _ => True
  end.

Lemma stalled_step k a k' i : locked_ok config k -> i ∈ k_guards k -> Reloads ∈ k_queue k ->
  ~ acts_for i a -> lstep k a = Some k' ->
  i ∈ k_guards k' /\ Reloads ∈ k_queue k' /\ under_stall (ahead Reloads (k_queue k)) a.
Proof.
  intros Hok Hi Hr Ha Hs. assert (a ≠ Gets Reloads) as Hne.
  { intros ->. cbn in Hs. destruct (k_guards k); [by apply elem_of_nil in Hi|]. cbn in Hs.
    by rewrite writer_alone, andb_false_r in Hs. }
  split_and!.
  - eapply lock_step_guards; [exact Hok|exact Hs|exact Hi|].
    pose proof (lo_guards config k Hok i Hi) as Hrun. unfold still_runs in *.
    destruct (s_tasks (k_system k) !! i) as [t|] eqn:E; [|done].
    destruct (lock_step_task _ _ _ _ _ _ _ Hs E) as [->|[? _]]; done.
  - by destruct (lock_step_queue _ _ _ _ Hs Hr Hne).
  - destruct (lo_reload config k Hok Hr) as [Hc _]. destruct a as [a|j|files|[j|]]; try done.
    + cbn in Hs. destruct (lock_free config k a) eqn:Hf; [|done].
      apply fmap_Some in Hs as (sys & Hb%perform_step & ->). destruct a as [| | | |files s|j f|]; try done.
      * cbn in Hf. rewrite bool_decide_eq_false_2 in Hf by (intros ?; done). by destruct s.
      * inversion Hb; congruence.
    + cbn in Hs. rewrite (bool_decide_eq_true_2 _ Hr), orb_true_r in Hs. done.
    + by eapply readers_behind.
Qed.

Lemma stalled_steps acts : forall k k' i, locked_ok config k -> i ∈ k_guards k -> Reloads ∈ k_queue k ->
  Forall (fun a => ~ acts_for i a) acts -> lock_steps config clock k acts = Some k' ->
  i ∈ k_guards k' /\ Reloads ∈ k_queue k' /\ Forall (under_stall (ahead Reloads (k_queue k))) acts.
Proof.
  induction acts as [|a acts IH]; intros k k' i Hok Hi Hr Ha; cbn; [by intros [= <-]|].
  intros (k1 & Hs & Hss)%bind_Some. apply Forall_cons in Ha as [Ha Has].
  destruct (stalled_step _ _ _ _ Hok Hi Hr Ha Hs) as (Hi1 & Hr1 & Hu).
  destruct (IH k1 k' i) as (Hi' & Hr' & Hus); [by eapply lock_step_ok|done..|].
  split_and!; [done|done|]. apply Forall_cons. split; [done|]. eapply Forall_impl; [exact Hus|].
  assert (ahead Reloads (k_queue k1) `sublist_of` ahead Reloads (k_queue k)) as Hsub.
  { eapply lock_step_ahead; [exact Hs|exact Hr|]. intros ->. done. }
  intros [| | |[j|]] Hj; try done. cbn in *. by eapply sublist_subseteq.
Qed.

(** ** Why it waits *)

(** A command after which a handler with a guard waits for ever is a write that meets a client that
    does not read. *)
Lemma waits_after {R} (c : command R) kont x f kept : keeps (Do c kont) kept -> kont x = Return Blocked ->
  told f c x -> (kept = true \/ lock_of (Do c kont) = Some Kept) -> exists n, f = Stalls n.
Proof.
  intros (pending & [Hp Ha] & Hk) Hx Ht Hor. cbn in Hp. subst pending. specialize (Hk x). rewrite Hx in Hk.
  specialize (Hk eq_refl). destruct c as [|st|addr|g|buf|buf|t n]; cbn in Hor;
    try (destruct Hor as [->|]; [by specialize (Hk eq_refl)|done]).
  - destruct Hor as [->|Hg]; [rewrite (Ha eq_refl) in Hk; by specialize (Hk eq_refl)|].
    destruct g; try done. by specialize (Hk eq_refl).
  - destruct Hor as [->|]; [|done]. specialize (Hk eq_refl). cbn in Hk, Ht. subst x.
    destruct f as [| |n]; try done. by exists n.
Qed.

Lemma stuck_step k a k' i : locked_ok config k -> lstep k a = Some k' -> stuck k' i ->
  stuck k i \/ exists n, a = Moves (RunTask i (Stalls n)).
Proof.
  intros Hok Hs (Hi & t & Ht & Hp).
  assert (forall b sys, step config clock (k_system k) b sys -> s_tasks sys !! i = Some t ->
    (i ∈ k_guards k /\ s_tasks (k_system k) !! i = Some t /\ forall f, b ≠ RunTask i f) \/
    (forall f, b ≠ RunTask i f) /\ i ∉ k_guards k \/
    exists f R (c : command R) kont x t0, b = RunTask i f /\ s_tasks (k_system k) !! i = Some t0 /\
      t_prog t0 = Do c kont /\ kont x = Return Blocked /\ told f c x) as Hcases.
  { intros b sys Hb Hi'. destruct (step_on_task config clock _ _ _ _ _ Hb Hi')
      as [[Hold Hn]|[(Hold & Hn & _)|(f & t0 & R & c & kont & x & Ha & Hold & Hp0 & Hx & Htold)]].
    - destruct (decide (i ∈ k_guards k)); [by left|right; by left].
    - right. left. split; [done|]. intros Hg%(lo_guards config k Hok). unfold still_runs in Hg. by rewrite Hold in Hg.
    - right. right. exists f, R, c, kont, x, t0. split_and!; [done..|congruence|done]. }
  destruct a as [a|j|files|[j|]]; cbn in Hs.
  - destruct (lock_free config k a); [|done]. apply fmap_Some in Hs as (sys & Hb%perform_step & ->).
    cbn in Hi, Ht. apply elem_of_held in Hi as [_ Hi].
    destruct (Hcases _ _ Hb Ht) as [(_ & Hold & _)|[[_ ?]|(f & R & c & kont & x & t0 & -> & Hold & Hp0 & Hx & Htold)]];
      [left; split; eauto|done|right].
    pose proof (lo_tasks config k Hok i t0 Hold) as Hk. rewrite Hp0, bool_decide_eq_true_2 in Hk by done.
    destruct (waits_after c kont x f true Hk Hx Htold) as [n ->]; [by left|by exists n].
  - destruct (_ || _); [done|]. apply bind_Some in Hs as (t0 & _ & (g & _ & [= <-])%bind_Some). left. split; eauto.
  - destruct (_ || _); [done|]. destruct (load_zones files config); try done. injection Hs as <-. left. split; eauto.
  - destruct (_ && _); [|done].
    apply bind_Some in Hs as (t1 & Ht1 & (g & Hg & (sys & Hb%perform_step & [= <-])%bind_Some)%bind_Some).
    cbn in Hi, Ht. apply elem_of_held in Hi as [_ Hi]. apply elem_of_app in Hi.
    destruct (Hcases _ _ Hb Ht) as [(? & Hold & _)|[[Hj Hg']|(f & R & c & kont & x & t0 & [= -> <-] & Hold & Hp0 & Hx & Htold)]].
    + left. split; eauto.
    + exfalso. destruct Hi as [|Hi]; [done|]. case_decide; [|by apply elem_of_nil in Hi].
      apply list_elem_of_singleton in Hi as ->. by apply (Hj Goes).
    + exfalso. assert (t1 = t0) as -> by congruence. rewrite Hp0 in Hg.
      pose proof (lo_tasks config k Hok i t0 Hold) as Hk. rewrite Hp0 in Hk.
      destruct (waits_after c kont x Goes (bool_decide (i ∈ k_guards k)) Hk Hx Htold) as [n Hn]; [|done].
      destruct Hi as [Hi|Hi]; [left; by apply bool_decide_eq_true|right]. case_decide; [congruence|by apply elem_of_nil in Hi].
  - destruct (_ && _); [|done]. apply bind_Some in Hs as (fs & _ & (sys & Hb%perform_step & [= <-])%bind_Some).
    cbn in Hi, Ht. rewrite (signal_tasks _ _ _ _ _ _ Hb) in Ht. left. split; eauto.
Qed.

(** Such a task does nothing any more. *)
Lemma stuck_acts acts : forall k k' i, locked_ok config k -> stuck k i -> lock_steps config clock k acts = Some k' ->
  Forall (fun a => ~ acts_for i a) acts.
Proof.
  induction acts as [|a acts IH]; intros k k' i Hok (Hi & t & Ht & Hp); cbn; [done|].
  intros (k1 & Hs & Hss)%bind_Some.
  destruct (lock_step_task _ _ _ _ _ _ _ Hs Ht) as [Ht1|(_ & t' & _ & Hf)]; [|by rewrite Hp in Hf].
  apply Forall_cons. split.
  - intros Ha. destruct a as [[| | | | |j f|]|j|files|[j|]]; cbn in Ha; try done; subst j; cbn in Hs.
    + rewrite Ht, Hp in Hs. cbn in Hs. unfold perform in Hs. destruct (s_finished (k_system k)); [done|].
      rewrite Ht in Hs. cbn in Hs. by rewrite Hp in Hs.
    + destruct (_ || _); [done|]. rewrite Ht in Hs. cbn in Hs. by rewrite Hp in Hs.
    + destruct (_ && _); [|done]. rewrite Ht in Hs. cbn in Hs. by rewrite Hp in Hs.
  - eapply IH; [by eapply lock_step_ok| |exact Hss]. split; [|by exists t].
    eapply lock_step_guards; [exact Hok|exact Hs|exact Hi|]. unfold still_runs. by rewrite Ht1, Hp.
Qed.
End stalled.
