(* ===== verification/StoreLockProps.v ===== *)
(** The lock of the zone store: every request is granted when the runtime polls all tasks, a transfer
    sees one store from its first record to its last, and the server hangs when the client of a
    transfer stops reading while a reload waits.  Requires [StoreLockFacts]. *)
From S2P Require Import Prelude RustTime RustStr HashMap Crates CratesModel Zone Fixtures Protocol RateLimit.
From S2P Require Import Metrics Config Effects ServerIO Server ServerFacts ServerProps Main MainProps.
From S2P Require Import Tasks TasksFacts TasksProps TasksLive Monitor StoreLock StoreLockFacts.
Open Scope Z_scope.

(** * Every request is granted *)

Section live.
Context `{Hickory} `{!Codecs} `{!RwLock} `{!RwLockLaws} {config : Config} {clock : Clock}
  (r : LockRun config clock).

Local Abbreviation lstep := (lock_step config clock).
Local Abbreviation state := (lr_state config clock r).
Local Abbreviation action := (lr_action config clock r).
Local Abbreviation over n := (s_finished (k_system (state n)) = true).
(** A reload waits for a transfer that waits for ever. *)
Local Abbreviation hung n := (Reloads ∈ k_queue (state n) /\ ahead Reloads (k_queue (state n)) = [] /\
  exists i, stuck (state n) i).

Hypothesis begins : locked_ok config (state 0).

Lemma state_ok n : locked_ok config (state n).
Proof using begins.
  induction n as [|n IH]; [done|]. pose proof (lr_step _ _ r n) as Hs. destruct (action n) as [a|].
  - by eapply lock_step_ok.
  - by rewrite Hs.
Qed.

(** No action of the class from [n] to before [m]. *)
Definition quiet (P : LockAction -> Prop) (n m : nat) : Prop :=
  forall j a, (n <= j < m)%nat -> action j = Some a -> ~ P a.

Lemma quiet_step P n m : quiet P n m -> (forall a, action m = Some a -> ~ P a) -> quiet P n (S m).
Proof. intros Hq Ha j a Hj. destruct (decide (j = m)) as [->|]; [apply Ha|apply Hq; lia]. Qed.

(** The first action of the class, if there is one. *)
Lemma quiet_or_first P `{!forall a, Decision (P a)} n m : (n <= m)%nat -> quiet P n m \/
  exists j a, (n <= j < m)%nat /\ quiet P n j /\ action j = Some a /\ P a.
Proof.
  induction 1 as [|m Hm IH]; [left; intros j a Hj; lia|].
  destruct IH as [Hq|(j & a & Hj & Hq)]; [|right; exists j, a; split; [lia|done]].
  destruct (action m) as [a|] eqn:E; [destruct (decide (P a)) as [Ha|Ha]|].
  - right. exists m, a. split_and!; [lia|lia|done|done|done].
  - left. apply quiet_step; [done|]. intros a' Ha'. congruence.
  - left. apply quiet_step; [done|]. congruence.
Qed.

(** Under fairness an action of the class is taken, or none can be; none was before. *)
Lemma next_of P `{!forall a, Decision (P a)} n : lock_fair_to config clock P r ->
  exists m, (n <= m)%nat /\ quiet P n m /\
    ((exists a, action m = Some a /\ P a) \/ forall a, P a -> lstep (state m) a = None).
Proof.
  intros Hf. destruct (Hf n) as (m & Hm & Hor).
  destruct (quiet_or_first P n m Hm) as [Hq|(j & a & Hj & Hq & Ha & Hp)].
  - by exists m.
  - exists j. split_and!; [lia|done|]. left. by exists a.
Qed.

(** What the other actions preserve. *)
Lemma quiet_keeps (P : LockAction -> Prop) (Inv : Locked -> Prop) n m :
  (n <= m)%nat -> quiet P n m ->
  (forall k a k', locked_ok config k -> Inv k -> ~ P a -> lstep k a = Some k' -> Inv k') ->
  Inv (state n) -> Inv (state m).
Proof using begins.
  intros Hm Hq Hinv Hn. induction Hm as [|m Hm IH]; [done|].
  assert (Inv (state m)) as Hi by (apply IH; intros j a Hj; apply Hq; lia).
  pose proof (lr_step _ _ r m) as Hs. destruct (action m) as [a|] eqn:E; [|by rewrite Hs].
  eapply Hinv; [apply state_ok|exact Hi| |exact Hs]. eapply (Hq m); [lia|done].
Qed.

#[local] Instance acts_for_dec i a : Decision (acts_for i a).
Proof. destruct a as [[]| | |[]]; cbn; apply _. Defined.

(** ** What can be done *)

Lemma run_enabled k i t R (c : command R) kont : s_finished (k_system k) = false ->
  s_tasks (k_system k) !! i = Some t -> t_prog t = Do c kont -> lock_of (t_prog t) = None ->
  is_Some (lstep k (Moves (RunTask i Goes))).
Proof.
  intros Hf Ht Hp Hl. cbn. rewrite Ht, bool_decide_eq_true_2 by done. unfold perform. rewrite Hf, Ht. cbn.
  rewrite Hp. by eexists.
Qed.

Lemma asks_enabled k i t : s_finished (k_system k) = false -> s_tasks (k_system k) !! i = Some t ->
  is_Some (lock_of (t_prog t)) -> Reads i ∉ k_queue k -> is_Some (lstep k (Asks i)).
Proof.
  intros Hf Ht [g Hg] Hq. cbn. rewrite Hf, bool_decide_eq_false_2 by done. cbn. rewrite Ht. cbn. rewrite Hg. by eexists.
Qed.

Lemma reads_enabled k i : locked_ok config k -> s_finished (k_system k) = false -> Reads i ∈ k_queue k ->
  ahead (Reads i) (k_queue k) = [] -> is_Some (lstep k (Gets (Reads i))).
Proof.
  intros Hok Hf Hi Ha. destruct (lo_readers config k Hok i Hi) as (t & Ht & g & Hg).
  destruct (t_prog t) as [|R c kont] eqn:Ep; [done|].
  cbn. rewrite bool_decide_eq_true_2, Ha by done. cbn. rewrite first_reader. cbn [granted]. rewrite Ht. cbn.
  rewrite Ep, Hg. cbn. unfold perform. rewrite Hf, Ht. cbn. rewrite Ep. by eexists.
Qed.

Lemma reloads_enabled k : locked_ok config k -> s_finished (k_system k) = false -> Reloads ∈ k_queue k ->
  ahead Reloads (k_queue k) = [] -> k_guards k = [] -> is_Some (lstep k (Gets Reloads)).
Proof.
  intros Hok Hf Hr Ha Hg. destruct (lo_reload config k Hok Hr) as (Hc & files & new & Hfs & Hl).
  cbn. rewrite bool_decide_eq_true_2, Ha, Hg by done. cbn. rewrite first_writer. cbn. rewrite Hfs. cbn.
  unfold perform. rewrite Hf. cbn. unfold perform_signal. rewrite Hc, Hl. by eexists.
Qed.

(** ** What a task does *)

(** An action of the task is its next command, or to ask for the lock before it. *)
Lemma lock_step_own k a k' i t : locked_ok config k -> lstep k a = Some k' -> acts_for i a ->
  s_tasks (k_system k) !! i = Some t ->
  (exists t', s_tasks (k_system k') !! i = Some t' /\ follows (t_prog t) (t_prog t') /\
     (a = Gets (Reads i) \/ lock_of (t_prog t) = None)) \/
  (a = Asks i /\ is_Some (lock_of (t_prog t)) /\ Reads i ∉ k_queue k /\
     s_tasks (k_system k') !! i = Some t /\ Reads i ∈ k_queue k').
Proof.
  intros Hok Hs Ha Ht. destruct a as [a|j|files|[j|]]; cbn in Ha; [destruct a as [| | | | |j f|]|..]; try done; subst j.
  - left. cbn in Hs. rewrite Ht in Hs. case_bool_decide as Hl; [|done].
    apply fmap_Some in Hs as (sys & Hb%perform_step & ->).
    destruct (step_task_follows _ _ _ _ _ Hb Ht) as (t' & Ht' & _ & Hfo). exists t'. auto.
  - right. cbn in Hs. destruct (s_finished (k_system k)); [done|]. case_bool_decide as Hq; [done|]. cbn in Hs.
    apply bind_Some in Hs as (t0 & Ht0 & (g & Hg & [= <-])%bind_Some). assert (t0 = t) as -> by congruence.
    split_and!; [done|by eexists|done|done|].
    apply elem_of_app. right. by apply list_elem_of_singleton.
  - left. cbn in Hs. destruct (_ && _); [|done].
    apply bind_Some in Hs as (t0 & _ & (g & _ & (sys & Hb%perform_step & [= <-])%bind_Some)%bind_Some).
    destruct (step_task_follows _ _ _ _ _ Hb Ht) as (t' & Ht' & _ & Hfo). exists t'. auto.
Qed.

(** The task is as it was while it takes no action. *)
Lemma task_quiet i n m t : (n <= m)%nat -> quiet (acts_for i) n m ->
  s_tasks (k_system (state n)) !! i = Some t -> s_tasks (k_system (state m)) !! i = Some t.
Proof using begins.
  intros Hm Hq. apply (quiet_keeps _ (fun k => s_tasks (k_system k) !! i = Some t) n m Hm Hq).
  intros k a k' _ Hk Ha Hs. by destruct (lock_step_task _ _ _ _ _ _ _ Hs Hk) as [|[? _]].
Qed.

(** Before a command that needs no lock it goes on, unless the process is over. *)
Lemma runs_next i n t R (c : command R) kont : lock_fair_to config clock (acts_for i) r ->
  s_tasks (k_system (state n)) !! i = Some t -> t_prog t = Do c kont -> lock_of (t_prog t) = None ->
  exists m, (n <= m)%nat /\
    (over m \/ exists t' x, s_tasks (k_system (state (S m))) !! i = Some t' /\ t_prog t' = kont x).
Proof using begins.
  intros Hf Ht Hp Hl. destruct (next_of (acts_for i) n Hf) as (m & Hm & Hq & Hor). exists m. split; [done|].
  pose proof (task_quiet i n m t Hm Hq Ht) as Htm.
  destruct (s_finished (k_system (state m))) eqn:Ef; [by left|right].
  destruct (run_enabled _ _ _ _ _ _ Ef Htm Hp Hl) as [k' Hk'].
  destruct Hor as [(a & Ha & Hfor)|Hno]; [|by rewrite Hno in Hk'].
  pose proof (lr_step _ _ r m) as Hs. rewrite Ha in Hs.
  destruct (lock_step_own _ _ _ _ _ (state_ok m) Hs Hfor Htm) as [(t' & Ht' & Hfo & _)|(_ & [g Hg] & _)]; [|congruence].
  rewrite Hp in Hfo. destruct Hfo as [x Hx]. by exists t', x.
Qed.

(** ** Guards are dropped, or kept for ever *)

Lemma guard_dropped i : lock_fair_to config clock (acts_for i) r -> forall p n t,
  s_tasks (k_system (state n)) !! i = Some t -> t_prog t = p -> i ∈ k_guards (state n) ->
  exists m, (n <= m)%nat /\ (over m \/ i ∉ k_guards (state m) \/ stuck (state m) i).
Proof using begins.
  intros Hf p. induction p as [res|R c kont IH]; intros n t Ht Hp Hi.
  - exists n. split; [lia|right; right]. split; [done|]. exists t. split; [done|]. rewrite Hp.
    pose proof (lo_guards config _ (state_ok n) i Hi) as Hg. unfold still_runs in Hg. rewrite Ht, Hp in Hg.
    by destruct res.
  - assert (lock_of (t_prog t) = None) as Hl.
    { pose proof (lo_tasks config _ (state_ok n) i t Ht) as Hk. rewrite bool_decide_eq_true_2, Hp in Hk by done.
      destruct Hk as (pending & [_ Ha] & _). rewrite Hp. destruct c as [| | |g| | |]; try done. cbn in Ha. by rewrite Ha. }
    destruct (runs_next i n t R c kont Hf Ht Hp Hl) as (m & Hm & [Ho|(t' & x & Ht' & Hx)]).
    + exists m. split; [done|by left].
    + destruct (decide (i ∈ k_guards (state (S m)))) as [Hg|Hg]; [|exists (S m); split; [lia|auto]].
      destruct (IH x (S m) t' Ht' Hx Hg) as (m' & Hm' & Hor). exists m'. split; [lia|done].
Qed.

(** ** The front of the queue *)

(** While a request is first and is not granted it stays first. *)
Definition front (w : Waiter) (k : Locked) : Prop := w ∈ k_queue k /\ ahead w (k_queue k) = [].

Lemma front_step w k a k' : front w k -> a ≠ Gets w -> lstep k a = Some k' -> front w k'.
Proof.
  intros [Hw Hf] Ha Hs. split; [by destruct (lock_step_queue _ _ _ _ _ _ Hs Hw Ha)|].
  pose proof (lock_step_ahead _ _ _ _ _ _ Hs Hw Ha) as Hsub. rewrite Hf in Hsub. by apply sublist_nil_r in Hsub.
Qed.

#[local] Instance gets_dec w a : Decision (a = Gets w).
Proof. destruct a as [| | |x]; try (right; congruence). destruct (decide (x = w)); [left|right]; congruence. Defined.

Lemma front_quiet w n m : (n <= m)%nat -> quiet (fun a => a = Gets w) n m -> front w (state n) -> front w (state m).
Proof using begins.
  intros Hm Hq. apply (quiet_keeps _ (front w) n m Hm Hq). intros k a k' _ Hk Ha Hs. by eapply front_step.
Qed.

(** Behind a reload that is first no guard is taken. *)
Lemma guards_shrink k a k' : front Reloads k -> a ≠ Gets Reloads -> lstep k a = Some k' ->
  k_guards k' `sublist_of` k_guards k.
Proof.
  intros [Hr Hf] Ha Hs. destruct a as [a|j|files|[j|]]; try done; cbn in Hs.
  - destruct (lock_free config k a); [|done]. apply fmap_Some in Hs as (sys & _ & ->). apply sublist_filter.
  - destruct (_ || _); [done|]. by apply bind_Some in Hs as (t0 & _ & (g & _ & [= <-])%bind_Some).
  - destruct (_ || _); [done|]. destruct (load_zones files config); try done. by injection Hs as <-.
  - pose proof (readers_behind config clock k j k' Hs Hr) as Hj. rewrite Hf in Hj. by apply elem_of_nil in Hj.
Qed.

Lemma quiet_weaken (P Q : LockAction -> Prop) n m : (forall a, Q a -> P a) -> quiet P n m -> quiet Q n m.
Proof. intros Hpq Hq j a Hj Ha Hqa. by eapply Hq, Hpq. Qed.

Lemma not_over m : ~ over m -> s_finished (k_system (state m)) = false.
Proof. by destruct (s_finished (k_system (state m))). Qed.

Lemma front_reader_served i n : lock_fair_to config clock (acts_for i) r -> front (Reads i) (state n) ->
  exists m, (n <= m)%nat /\ (over m \/ action m = Some (Gets (Reads i))).
Proof using All.
  intros Hfair Hf. destruct (next_of (acts_for i) n Hfair) as (m & Hm & Hq & Hor). exists m. split; [done|].
  destruct (decide (over m)) as [|Hn%not_over]; [by left|right].
  assert (front (Reads i) (state m)) as [Hw Ha].
  { eapply front_quiet; [exact Hm| |exact Hf]. eapply quiet_weaken; [|exact Hq]. by intros a ->. }
  destruct Hor as [(a & Hact & Hfor)|Hno].
  - pose proof (lr_step _ _ r m) as Hs. rewrite Hact in Hs.
    destruct (lo_readers config _ (state_ok m) i Hw) as (t & Ht & Hl).
    destruct (lock_step_own _ _ _ _ _ (state_ok m) Hs Hfor Ht) as [(t' & _ & _ & [->|Hl'])|(-> & _ & Hn' & _)];
      [done| |done]. rewrite Hl' in Hl. by destruct Hl.
  - destruct (reads_enabled _ i (state_ok m) Hn Hw Ha) as [k' Hk']. by rewrite Hno in Hk'.
Qed.

(** A reload that is first waits for the guards that there are, and no others. *)
Lemma front_reload_served g : lock_fair config clock r -> forall n, front Reloads (state n) ->
  (length (k_guards (state n)) <= g)%nat ->
  exists m, (n <= m)%nat /\ (over m \/ action m = Some (Gets Reloads) \/ hung m).
Proof using All.
  intros (Htasks & Hrel & _). induction g as [|g IH]; intros n Hf Hg.
  - destruct (next_of (fun a => a = Gets Reloads) n Hrel) as (m & Hm & Hq & Hor). exists m. split; [done|].
    destruct (decide (over m)) as [|Hn%not_over]; [by left|right; left].
    destruct Hor as [(a & Hact & ->)|Hno]; [done|].
    assert (front Reloads (state m) /\ k_guards (state m) = []) as [[Hw Ha] Hg'].
    { apply (quiet_keeps _ (fun k => front Reloads k /\ k_guards k = []) n m Hm Hq).
      - intros k a k' _ [Hk Hnil] Hne Hs.
        split; [by eapply front_step|]. pose proof (guards_shrink _ _ _ Hk ltac:(done) Hs) as Hsub.
        rewrite Hnil in Hsub. by apply sublist_nil_r in Hsub.
      - split; [done|]. apply length_zero_iff_nil. lia. }
    destruct (reloads_enabled _ (state_ok m) Hn Hw Ha Hg') as [k' Hk']. by rewrite (Hno _ eq_refl) in Hk'.
  - destruct (k_guards (state n)) as [|i guards] eqn:Eg; [apply IH; [done|rewrite Eg; cbn; lia]|].
    assert (i ∈ k_guards (state n)) as Hi by (rewrite Eg; by left).
    assert (exists t, s_tasks (k_system (state n)) !! i = Some t) as [t Ht].
    { pose proof (lo_guards config _ (state_ok n) i Hi) as Hr. unfold still_runs in Hr.
      destruct (s_tasks _ !! i); [by eexists|done]. }
    destruct (guard_dropped i (Htasks i) _ n t Ht eq_refl Hi) as (m & Hm & [Ho|Hi']); [by exists m; auto|].
    destruct (quiet_or_first (fun a => a = Gets Reloads) n m Hm) as [Hq|(j & a & Hj & _ & Ha & ->)].
    2:{ exists j. split; [lia|right; by left]. }
    assert (front Reloads (state m) /\ k_guards (state m) `sublist_of` k_guards (state n)) as [Hf' Hsub].
    { apply (quiet_keeps _ (fun k => front Reloads k /\ k_guards k `sublist_of` k_guards (state n)) n m Hm Hq); [|done].
      intros k a k' _ [Hk Hsub] Hne Hs. split; [by eapply front_step|]. etrans; [|exact Hsub].
      by eapply guards_shrink. }
    destruct Hi' as [Hi'|Hstuck].
    2:{ exists m. split; [done|right; right]. split_and!; [apply Hf'|apply Hf'|by exists i]. }
    destruct (IH m Hf') as (m' & Hm' & Hor).
    + pose proof (sublist_length _ _ Hsub) as Hlen. rewrite Eg in Hlen. cbn in Hlen, Hg.
      destruct (decide (length (k_guards (state m)) = S (length guards))) as [He|]; [|lia]. exfalso.
      apply Hi'. rewrite (submseteq_length_Permutation _ _ (sublist_submseteq _ _ Hsub)); [done|].
      rewrite Eg. cbn. lia.
    + exists m'. split; [lia|done].
Qed.

Lemma front_served w n : lock_fair config clock r -> front w (state n) ->
  exists m, (n <= m)%nat /\ (over m \/ action m = Some (Gets w) \/ hung m).
Proof using All.
  intros Hfair Hf. destruct w as [i|].
  - destruct (front_reader_served i n (proj1 Hfair i) Hf) as (m & Hm & Hor). exists m. tauto.
  - by eapply front_reload_served.
Qed.

(** ** The queue *)

Lemma behind_front w x k : front x k -> w ∈ k_queue k -> w ≠ x -> x ∈ ahead w (k_queue k).
Proof.
  intros [Hx Ha] Hw Hne. destruct (ahead_total x w (k_queue k) Hx Hw) as [|Hb]; [done|done|].
  rewrite Ha in Hb. by apply elem_of_nil in Hb.
Qed.

Lemma ahead_first x w queue rest : ahead w queue = x :: rest -> x ∈ queue /\ ahead x queue = [] /\ x ≠ w.
Proof.
  destruct queue as [|y queue]; [done|]. cbn. destruct (decide (y = w)) as [|Hy]; [done|].
  intros [= -> _]. split_and!; [by left|by rewrite decide_True|done].
Qed.

Lemma granted_leaves k w k' : lstep k (Gets w) = Some k' -> k_queue k' = leave w (k_queue k).
Proof.
  cbn. case_bool_decide as Hx; [|done]. destruct (may_acquire _ _ _); [|done]. destruct w as [j|]; cbn.
  - by intros (t0 & _ & (g & _ & (sys & _ & [= <-])%bind_Some)%bind_Some)%bind_Some.
  - by intros (fs & _ & (sys & _ & [= <-])%bind_Some)%bind_Some.
Qed.

(** A request that is not granted stays. *)
Lemma request_stays w n m : (n <= m)%nat -> quiet (fun a => a = Gets w) n m -> w ∈ k_queue (state n) ->
  w ∈ k_queue (state m) /\ ahead w (k_queue (state m)) `sublist_of` ahead w (k_queue (state n)).
Proof using begins.
  intros Hm Hq Hw.
  apply (quiet_keeps _ (fun k => w ∈ k_queue k /\ ahead w (k_queue k) `sublist_of` ahead w (k_queue (state n)))
    n m Hm Hq); [|done].
  intros k a k' _ [Hk Hsub] Hne Hs. split; [by destruct (lock_step_queue _ _ _ _ _ _ Hs Hk Hne)|].
  etrans; [|exact Hsub]. by eapply lock_step_ahead.
Qed.

(** Who waits comes to the front, one request after the other, and is served, unless everybody hangs. *)
Lemma waiter_served l w : lock_fair config clock r -> forall n, w ∈ k_queue (state n) ->
  (length (ahead w (k_queue (state n))) <= l)%nat ->
  exists m, (n <= m)%nat /\ (over m \/ action m = Some (Gets w) \/ w ∈ k_queue (state m) /\ hung m).
Proof using All.
  intros Hfair. induction l as [|l IH]; intros n Hw Hl.
  - destruct (front_served w n Hfair) as (m & Hm & Hor).
    { split; [done|]. apply length_zero_iff_nil. lia. }
    destruct (quiet_or_first (fun a => a = Gets w) n m Hm) as [Hq|(j & a & Hj & _ & Ha & ->)].
    2:{ exists j. split; [lia|right; by left]. }
    exists m. split; [done|]. destruct (request_stays w n m Hm Hq Hw). tauto.
  - destruct (ahead w (k_queue (state n))) as [|x rest] eqn:Ea; [apply IH; [done|rewrite Ea; cbn; lia]|].
    destruct (ahead_first _ _ _ _ Ea) as (Hx & Hax & Hxw).
    destruct (front_served x n Hfair) as (m0 & Hm0 & Hor0); [done|].
    destruct (quiet_or_first (fun a => a = Gets w) n m0 Hm0) as [Hqw|(j & a & Hj & _ & Ha & ->)].
    2:{ exists j. split; [lia|right; by left]. }
    destruct Hor0 as [Ho|[Hact0|Hh]]; [by exists m0; auto| |].
    2:{ exists m0. split; [done|right; right]. split; [|done]. by eapply request_stays. }
    destruct (quiet_or_first (fun a => a = Gets x) n (S m0)) as [Hq|(m & a & Hj & Hq & Hact & ->)]; [lia| |].
    { exfalso. by apply (Hq m0 (Gets x)); [lia|done|]. }
    assert (quiet (fun a => a = Gets w) n m) as Hqm by (intros j a Hjm; apply Hqw; lia).
    destruct (request_stays w n m ltac:(lia) Hqm Hw) as [Hwm Hsub].
    assert (front x (state m)) as Hfx by (eapply front_quiet; [|exact Hq|done]; lia).
    pose proof (behind_front w x _ Hfx Hwm ltac:(done)) as Hxa.
    pose proof (lr_step _ _ r m) as Hs. rewrite Hact in Hs. pose proof (granted_leaves _ _ _ Hs) as Hqueue.
    apply sublist_length in Hsub. rewrite Ea in Hsub. cbn in Hsub, Hl.
    destruct (IH (S m)) as (m' & Hm' & Hor).
    + rewrite Hqueue. by apply elem_of_leave.
    + rewrite Hqueue, ahead_leave by done. pose proof (leave_shorter _ _ Hxa). lia.
    + exists m'. split; [lia|done].
Qed.

(** ** Tasks come to their end *)

(** The task of [i], after its next command, unless it waits for a lock that is not given any more. *)
Definition goes_on_to (i : nat) (R : Type) (kont : R -> prog unit) (m : nat) : Prop :=
  over m \/ (Reads i ∈ k_queue (state m) /\ hung m) \/ exists t x, s_tasks (k_system (state (S m))) !! i = Some t /\ t_prog t = kont x.

Lemma waiting_task_served i n t R (c : command R) kont : lock_fair config clock r ->
  s_tasks (k_system (state n)) !! i = Some t -> t_prog t = Do c kont -> Reads i ∈ k_queue (state n) ->
  exists m, (n <= m)%nat /\ goes_on_to i R kont m.
Proof using All.
  intros Hfair Ht Hp Hin.
  destruct (waiter_served _ (Reads i) Hfair n Hin (le_n _)) as (m0 & Hm0 & [Ho|[Hact0|Hh]]);
    [exists m0; split; [done|by left]| |exists m0; split; [done|right; by left]].
  destruct (quiet_or_first (fun a => a = Gets (Reads i)) n (S m0)) as [Hq|(m & a & Hj & Hq & Hact & ->)]; [lia| |].
  { exfalso. by apply (Hq m0 (Gets (Reads i))); [lia|done|]. }
  exists m. split; [lia|right; right].
  assert (s_tasks (k_system (state m)) !! i = Some t /\ Reads i ∈ k_queue (state m)) as [Htm _].
  { apply (quiet_keeps _ (fun k => s_tasks (k_system k) !! i = Some t /\ Reads i ∈ k_queue k) n m ltac:(lia) Hq); [|done].
    intros k a k' Hok [Hk Hin'] Hne Hs. split; [|by destruct (lock_step_queue _ _ _ _ _ _ Hs Hin' Hne)].
    destruct (lock_step_task _ _ _ _ _ _ _ Hs Hk) as [|[Hfor _]]; [done|].
    destruct (lock_step_own _ _ _ _ _ Hok Hs Hfor Hk) as [(t' & _ & _ & [->|Hn])|(_ & _ & _ & ? & _)]; [done| |done].
    destruct (lo_readers config k Hok i Hin') as (t0 & Ht0 & Hl). assert (t0 = t) as -> by congruence.
    rewrite Hn in Hl. by destruct Hl. }
  pose proof (lr_step _ _ r m) as Hs. rewrite Hact in Hs.
  destruct (lock_step_own _ _ _ _ _ (state_ok m) Hs eq_refl Htm) as [(t' & Ht' & Hfo & _)|(? & _)]; [|done].
  rewrite Hp in Hfo. destruct Hfo as [x Hx]. by exists t', x.
Qed.

(** Before the lock a task asks for it and gets it. *)
Lemma locking_task_served i n t R (c : command R) kont : lock_fair config clock r ->
  s_tasks (k_system (state n)) !! i = Some t -> t_prog t = Do c kont -> is_Some (lock_of (t_prog t)) ->
  exists m, (n <= m)%nat /\ goes_on_to i R kont m.
Proof using All.
  intros Hfair Ht Hp Hl. destruct (next_of (acts_for i) n (proj1 Hfair i)) as (m & Hm & Hquiet & Hor).
  pose proof (task_quiet i n m t Hm Hquiet Ht) as Htm.
  destruct (decide (over m)) as [Ho|Hn%not_over]; [exists m; split; [done|by left]|].
  destruct (decide (Reads i ∈ k_queue (state m))) as [Hq|Hq].
  { destruct (waiting_task_served i m t R c kont Hfair Htm Hp Hq) as (m' & Hm' & Hg). exists m'. split; [lia|done]. }
  destruct Hor as [(a & Hact & Hfor)|Hno].
  - pose proof (lr_step _ _ r m) as Hs. rewrite Hact in Hs.
    destruct (lock_step_own _ _ _ _ _ (state_ok m) Hs Hfor Htm) as [(t' & Ht' & Hfo & _)|(-> & _ & _ & Ht' & Hin)].
    + exists m. split; [done|right; right]. rewrite Hp in Hfo. destruct Hfo as [x Hx]. by exists t', x.
    + destruct (waiting_task_served i (S m) t R c kont Hfair Ht' Hp Hin) as (m' & Hm' & Hg). exists m'. split; [lia|done].
  - destruct (asks_enabled _ i t Hn Htm Hl Hq) as [k' Hk']. by rewrite Hno in Hk'.
Qed.

Lemma locked_task_ends : lock_fair config clock r -> forall i p n t,
  s_tasks (k_system (state n)) !! i = Some t -> t_prog t = p ->
  exists m, (n <= m)%nat /\
    (over m \/ (Reads i ∈ k_queue (state m) /\ hung m) \/
     exists t' res, s_tasks (k_system (state m)) !! i = Some t' /\ t_prog t' = Return res).
Proof using All.
  intros Hfair i p. induction p as [res|R c kont IH]; intros n t Ht Hp.
  { exists n. split; [lia|right; right]. by exists t, res. }
  assert (exists m, (n <= m)%nat /\ goes_on_to i R kont m) as (m & Hm & [Ho|[Hh|(t' & x & Ht' & Hx)]]).
  { destruct (decide (lock_of (t_prog t) = None)) as [Hl|Hl].
    - destruct (runs_next i n t R c kont (proj1 Hfair i) Ht Hp Hl) as (m & Hm & Hor).
      exists m. split; [done|]. destruct Hor; [by left|right; by right].
    - apply not_eq_None_Some in Hl. by eapply locking_task_served. }
  - exists m. auto.
  - exists m. auto.
  - destruct (IH x (S m) t' Ht' Hx) as (m' & Hm' & Hor). exists m'. split; [lia|done].
Qed.

(** ** What became of the writes *)

Lemma stuck_unread n i : (forall i, ~ stuck (state 0) i) -> stuck (state n) i -> unread config clock r i n.
Proof using begins.
  intros Hnone. induction n as [|n IH]; intros Hst; [by destruct (Hnone i)|].
  assert (unread config clock r i n -> unread config clock r i (S n)) as Hlater
    by (intros (j & b & Hj & Ha); exists j, b; split; [lia|done]).
  pose proof (lr_step _ _ r n) as Hs. destruct (action n) as [a|] eqn:Ea; [|rewrite Hs in Hst; auto].
  destruct (stuck_step config clock _ _ _ _ (state_ok n) Hs Hst) as [Hst'|[b ->]]; [auto|].
  exists n, b. split; [lia|done].
Qed.

(** A task stays the one of its datagram or connection. *)
Lemma origin_stays n m i t : (n <= m)%nat -> s_tasks (k_system (state n)) !! i = Some t ->
  exists t', s_tasks (k_system (state m)) !! i = Some t' /\ t_origin t' = t_origin t.
Proof.
  intros Hm Ht. induction Hm as [|m Hm (t1 & Ht1 & Ho)]; [by exists t|].
  pose proof (lr_step _ _ r m) as Hs. destruct (action m) as [a|]; [|rewrite Hs; by exists t1].
  destruct (lock_step_system _ _ _ _ _ Hs) as [->|(b & Hb & _)]; [by exists t1|].
  destruct (step_keeps_tasks _ _ _ _ _ _ _ Hb Ht1) as [t2 Ht2]. exists t2. split; [done|].
  destruct (step_tasks config clock _ _ _ _ _ Hb Ht2) as [(t0 & Ht0 & Ho0)|[Hi _]]; [congruence|].
  apply lookup_lt_Some in Ht1. lia.
Qed.

(** A run up to some moment as a sequence of actions. *)
Lemma run_actions n : exists acts, lock_steps config clock (state 0) acts = Some (state n) /\
  forall a, a ∈ acts -> exists j, (j < n)%nat /\ action j = Some a.
Proof.
  induction n as [|n (acts & Hacts & Hin)].
  - exists []. split; [done|]. by intros a ?%elem_of_nil.
  - pose proof (lr_step _ _ r n) as Hs. destruct (action n) as [a|] eqn:Ea.
    + exists (acts ++ [a]). split.
      * rewrite lock_steps_app, Hacts. cbn. by rewrite Hs.
      * intros b [(j & Hj & Hb)%Hin|Hb%list_elem_of_singleton]%elem_of_app; [exists j; split; [lia|done]|].
        subst b. exists n. split; [lia|done].
    + exists acts. rewrite Hs. split; [done|]. intros b (j & Hj & Hb)%Hin. exists j. split; [lia|done].
Qed.

(** ** The end of the process *)

#[local] Instance ends_dec a : Decision (a = Moves ServerEnds).
Proof. destruct a as [[]| | |]; try (right; congruence). by left. Defined.

Lemma cancelled_stays k a k' : cancelled (s_process (k_system k)) = true -> lstep k a = Some k' ->
  cancelled (s_process (k_system k')) = true.
Proof.
  intros Hc Hs. destruct (lock_step_system _ _ _ _ _ Hs) as [->|(b & Hb & _)]; [done|]. by eapply step_cancelled.
Qed.

Lemma cancelled_ends n : lock_fair config clock r -> cancelled (s_process (k_system (state n))) = true ->
  exists m, (n <= m)%nat /\ over m.
Proof using begins.
  intros (_ & _ & Hend) Hc. destruct (next_of (fun a => a = Moves ServerEnds) n Hend) as (m & Hm & Hq & Hor).
  assert (cancelled (s_process (k_system (state m))) = true) as Hcm.
  { apply (quiet_keeps _ (fun k => cancelled (s_process (k_system k)) = true) n m Hm Hq); [|done].
    intros k a k' _ Hk _ Hs. by eapply cancelled_stays. }
  destruct Hor as [(a & Ha & ->)|Hno].
  - exists (S m). split; [lia|]. pose proof (lr_step _ _ r m) as Hs. rewrite Ha in Hs. cbn in Hs.
    unfold perform in Hs. destruct (s_finished (k_system (state m))); [done|]. rewrite Hcm in Hs.
    by injection Hs as <-.
  - exists m. split; [done|]. specialize (Hno _ eq_refl). cbn in Hno. unfold perform in Hno.
    destruct (s_finished (k_system (state m))); [done|]. by rewrite Hcm in Hno.
Qed.
End live.

Section kept.
Context `{Hickory} `{!Codecs} `{!RwLock} `{!RwLockLaws} (config : Config) (clock : Clock).


End kept.

(** * Properties *)

Section properties.
Context `{Hickory} `{!Codecs} `{!RwLock} `{!RwLockLaws} (clock : Clock).


(** C15 (liveness): when the runtime polls every task, the signal handler and the main task again and
    again, then, unless the process ends first, every request for the lock of the zone store is granted
    and every task comes to its end; nobody waits in a circle, as no task asks for the lock while it
    keeps a guard.  That every write goes through is not assumed, and there is one more case: a
    transfer has met a client that does not read, keeps its guard for ever, and a reload waits for it,
    first in the queue, and everybody behind it ([stalled_transfer_blocks]).  The task of a datagram
    ends by returning without a panic.  So does that of a connection, or it waits for ever where the
    code sets no time limit: with a write that its client does not read, or for the rest of a message
    that its client has announced and does not send.  When the shutdown token is cancelled the process
    ends, whatever its tasks do. *)
Theorem lock_serves_all `{!MessageLaws} (p : Started) (r : LockRun (p_config p) clock) :
  lr_state _ _ r 0 = lock_boot p -> lock_fair _ _ r ->
  let over m := s_finished (k_system (lr_state _ _ r m)) = true in
  let hangs w m := w ∈ k_queue (lr_state _ _ r m) /\ Reloads ∈ k_queue (lr_state _ _ r m) /\
    ahead Reloads (k_queue (lr_state _ _ r m)) = [] /\
    exists j, stuck (lr_state _ _ r m) j /\ unread _ _ r j m in
  (forall n w, w ∈ k_queue (lr_state _ _ r n) ->
     exists m, (n <= m)%nat /\ (over m \/ lr_action _ _ r m = Some (Gets w) \/ hangs w m)) /\
  (forall n i t, s_tasks (k_system (lr_state _ _ r n)) !! i = Some t ->
     exists m, (n <= m)%nat /\
       (over m \/ hangs (Reads i) m \/
        exists t' res, s_tasks (k_system (lr_state _ _ r m)) !! i = Some t' /\ t_prog t' = Return res /\
          ends_as (p_config p) (unread _ _ r i m) (t_origin t) res)) /\
  (forall n, cancelled (s_process (k_system (lr_state _ _ r n))) = true -> exists m, (n <= m)%nat /\ over m).
Proof.
  intros Hr Hfair over hangs.
  assert (locked_ok (p_config p) (lr_state _ _ r 0)) as Hok by (rewrite Hr; apply lock_boot_ok).
  assert (forall i, ~ stuck (lr_state _ _ r 0) i) as Hnone by (rewrite Hr; intros i [Hi _]; by apply elem_of_nil in Hi).
  assert (forall w m, w ∈ k_queue (lr_state _ _ r m) -> Reloads ∈ k_queue (lr_state _ _ r m) ->
    ahead Reloads (k_queue (lr_state _ _ r m)) = [] ->
    (exists j, stuck (lr_state _ _ r m) j) -> hangs w m) as Hhangs.
  { intros w m Hw Hrel Ha [j Hj]. split_and!; [done|done|done|]. exists j. split; [done|]. by apply stuck_unread. }
  split_and!.
  - intros n w Hw. destruct (waiter_served r Hok _ w Hfair n Hw (le_n _)) as (m & Hm & [?|[?|(? & ? & ? & ?)]]);
      exists m; auto.
  - intros n i t Ht. destruct (locked_task_ends r Hok Hfair i _ n t Ht eq_refl) as (m & Hm & [?|[(? & ? & ? & ?)|Hend]]);
      exists m; (split; [done|]); [by left|right; left; auto|right; right].
    destruct Hend as (t' & res & Ht' & Hp). exists t', res. split_and!; [done|done|].
    destruct (origin_stays r n m i t Hm Ht) as (t1 & Ht1 & <-). assert (t1 = t') as -> by congruence.
    destruct (run_actions r m) as (acts & Hacts & Hin). rewrite Hr in Hacts.
    destruct (lock_steps_system _ _ _ _ _ Hacts) as (acts' & Hsteps & Hstall).
    eapply ends_as_mono; [|eapply ended_task_ends; [exact Hsteps|done|exact Ht'|exact Hp]].
    intros (b & Hb%Hstall%Hin). destruct Hb as (j & Hj & Ha). by exists j, b.
  - intros n. by apply cancelled_ends.
Qed.

(** C13 (safety): when the client of a zone transfer stops reading, so that its task is not run any
    more or waits for ever, and a reload has asked for the lock, the server hangs: as long as that
    lasts the reload waits, no query that came to the lock after it is looked up, no signal is
    handled, and so no shutdown either; the old zones stay and the process does not end. *)
Theorem stalled_transfer_blocks (p : Started) (acts acts' : list LockAction) (k k' : Locked) (i : nat) :
  lock_steps (p_config p) clock (lock_boot p) acts = Some k -> i ∈ k_guards k -> Reloads ∈ k_queue k ->
  Forall (fun a => ~ acts_for i a) acts' \/ stuck k i -> lock_steps (p_config p) clock k acts' = Some k' ->
  Reloads ∈ k_queue k' /\ store (s_process (k_system k')) = store (s_process (k_system k)) /\
  cancelled (s_process (k_system k')) = false /\ s_finished (k_system k') = false /\
  Forall (under_stall (ahead Reloads (k_queue k))) acts'.
Proof.
  intros Hs Hi Hr Hor Hs'. pose proof (reachable_ok _ _ _ _ _ Hs) as Hok.
  assert (Forall (fun a => ~ acts_for i a) acts') as Ha by (destruct Hor as [?|?]; [done|by eapply stuck_acts]).
  destruct (stalled_steps _ _ _ _ _ _ Hok Hi Hr Ha Hs') as (Hi' & Hr' & Hu).
  pose proof (lock_steps_inv _ _ _ _ _ _ (lock_step_ok (p_config p) clock) Hs' Hok) as Hok'.
  destruct (lo_reload _ _ Hok' Hr') as [Hc _].
  split_and!; [done|by eapply guarded_stores|done| |done].
  destruct (lock_steps_system _ _ _ _ _ Hs) as (l & Hl & _). destruct (lock_steps_system _ _ _ _ _ Hs') as (l' & Hl' & _).
  destruct (s_finished (k_system k')) eqn:Ef; [|done]. rewrite <- Hc. symmetry. revert Ef.
  apply (steps_inv (p_config p) clock (fun s => s_finished s = true -> cancelled (s_process s) = true)
    (k_system k) l' (k_system k')); [|done|].
  - intros s a s' _ Hst. by eapply step_finished.
  - apply (steps_inv (p_config p) clock (fun s => s_finished s = true -> cancelled (s_process s) = true)
      (boot p) l (k_system k)); [|exact Hl|done]. intros s a s' _ Hst. by eapply step_finished.
Qed.
End properties.

(** * Witnesses *)

Section script.
Context `{Hickory} `{!Codecs} `{!RwLock} {config : Config} {clock : Clock}.

Lemma lock_steps_rest l1 l2 k k1 k2 :
  lock_steps config clock k l1 = Some k1 -> lock_steps config clock k (l1 ++ l2) = Some k2 ->
  lock_steps config clock k1 l2 = Some k2.
Proof. intros Hk. by rewrite lock_steps_app, Hk. Qed.

Definition lock_script_state (k : Locked) (l : list LockAction) (n : nat) : Locked :=
  default k (lock_steps config clock k (take n l)).

Lemma lock_script_step k l n : is_Some (lock_steps config clock k l) ->
  match l !! n with
  | Some a => lock_step config clock (lock_script_state k l n) a = Some (lock_script_state k l (S n))
  | None => lock_script_state k l (S n) = lock_script_state k l n
  end.
Proof.
  intros [k' Hl]. unfold lock_script_state. destruct (l !! n) as [a|] eqn:En.
  - rewrite (take_S_r _ _ _ En), lock_steps_app.
    rewrite <- (take_drop n l), (drop_S _ _ _ En), lock_steps_app in Hl.
    destruct (lock_steps config clock k (take n l)) as [k1|]; [|done]. cbn in Hl |- *.
    by destruct (lock_step config clock k1 a).
  - apply lookup_ge_None in En. by rewrite !take_ge by lia.
Qed.

(** The actions of the list, then nothing. *)
Definition lock_script_run (k : Locked) (l : list LockAction) (Hl : is_Some (lock_steps config clock k l))
    : LockRun config clock :=
  {| lr_state := lock_script_state k l; lr_action n := l !! n; lr_step n := lock_script_step k l n Hl |}.

Lemma finished_stops k a : s_finished (k_system k) = true -> lock_step config clock k a = None.
Proof.
  intros Hf. assert (forall b, perform config clock (k_system k) b = None) as Hp by (intros b; unfold perform; by rewrite Hf).
  destruct (lock_step config clock k a) as [k'|] eqn:E; [|done]. exfalso. revert E.
  destruct a as [a|i|files|[i|]]; cbn -[perform]; rewrite ?Hf; try done.
  - destruct (lock_free config k a); [|done]. by rewrite Hp.
  - destruct (_ && _); [|done]. intros (t & _ & (g & _ & (sys & Hs & _)%bind_Some)%bind_Some)%bind_Some. by rewrite Hp in Hs.
  - destruct (_ && _); [|done]. intros (fs & _ & (sys & Hs & _)%bind_Some)%bind_Some. by rewrite Hp in Hs.
Qed.

Lemma lock_script_fair k l Hl :
  s_finished (k_system (lock_script_state k l (length l))) = true -> lock_fair config clock (lock_script_run k l Hl).
Proof.
  intros Hf. assert (forall P, lock_fair_to config clock P (lock_script_run k l Hl)) as Hp; [|split_and!; [intros i|..]; apply Hp].
  intros P n. exists (n + length l)%nat. split; [lia|right]. intros a _. apply finished_stops. cbn.
  unfold lock_script_state in *. rewrite take_ge in Hf |- * by lia. exact Hf.
Qed.
End script.

Section witnesses.
Import Concrete.

(** First come, first served. *)
#[local] Instance fifo : RwLock := fun guards ahead access =>
  match ahead, access with
  | [], Shared => true
  | [], Exclusive => (guards =? 0)%nat
  | _ :: _, _ => false
  end.

#[local] Instance fifo_laws : RwLockLaws.
Proof.
  split; [by intros guards []|intros guards [|x l] Hx; [by apply elem_of_nil in Hx|done]|done..].
Qed.

Local Abbreviation run_locked := (lock_steps (p_config started) test_run_clock).

(** A client asks for a zone transfer; its task has got the lock and has records to write. *)
Definition transfer : list LockAction :=
  Moves (Connect (map Byte [0; 12; 0; 9; 252; 0; 0; 0; 0; 0; 0; 0; 0; 0]) (V4 1))
  :: replicate 8 (Moves (RunTask 0 Goes)) ++ [Asks 0; Gets (Reads 0)].

(** SIGHUP arrives, then a query, which comes to the lock. *)
Definition reload_and_query : list LockAction :=
  [AsksReload test_files; Moves (Datagram (query_bytes 7 0 0) (V4 2))]
  ++ replicate 5 (Moves (RunTask 1 Goes)) ++ [Asks 1].

Definition after_actions (l : list LockAction) : Locked := default (lock_boot started) (run_locked (lock_boot started) l).

Example transfer_under_way :
  k_guards (after_actions (transfer ++ reload_and_query)) = [0%nat] /\
  k_queue (after_actions (transfer ++ reload_and_query)) = [Reloads; Reads 1].
Proof. by vm_compute. Qed.

(** Another query arrives, and waits too. *)
Definition another_query : list LockAction :=
  Moves (Datagram (query_bytes 8 0 0) (V4 3)) :: replicate 5 (Moves (RunTask 2 Goes)) ++ [Asks 2].

(** The client reads on; then the reload gets the lock, and the queries after it. *)
Definition reads_on : list LockAction :=
  replicate 45 (Moves (RunTask 0 Goes)) ++ [Gets Reloads; Gets (Reads 1); Gets (Reads 2)].

Lemma happens l : bool_decide (is_Some (run_locked (lock_boot started) l)) = true ->
  run_locked (lock_boot started) l = Some (after_actions l).
Proof. intros [k Hk]%bool_decide_eq_true. unfold after_actions. by rewrite Hk. Qed.

Definition stalled_actions : list LockAction := transfer ++ reload_and_query.
Definition stalled : Locked := after_actions stalled_actions.
Definition still_stalled : Locked := after_actions (stalled_actions ++ another_query).

Lemma stalled_steps_from_boot : run_locked (lock_boot started) stalled_actions = Some stalled.
Proof. apply happens. vm_compute. reflexivity. Qed.

Lemma stalled_goes_on : run_locked stalled another_query = Some still_stalled.
Proof.
  refine (lock_steps_rest stalled_actions another_query _ _ _ stalled_steps_from_boot (happens _ _)).
  vm_compute. reflexivity.
Qed.


Lemma another_query_by_others : Forall (fun a => ~ acts_for 0 a) another_query.
Proof. unfold another_query. cbn. repeat (apply List.Forall_cons; [intros Hi; by cbn in Hi|]). apply List.Forall_nil. Qed.

Lemma stalled_transfer_blocks_witness :
  Reloads ∈ k_queue still_stalled /\
  store (s_process (k_system still_stalled)) = store (s_process (k_system stalled)) /\
  cancelled (s_process (k_system still_stalled)) = false /\ s_finished (k_system still_stalled) = false /\
  Forall (under_stall (ahead Reloads (k_queue stalled))) another_query.
Proof.
  apply (stalled_transfer_blocks test_run_clock started stalled_actions another_query stalled still_stalled 0).
  - exact stalled_steps_from_boot.
  - replace (k_guards stalled) with [0%nat] by (vm_compute; reflexivity). left.
  - replace (k_queue stalled) with [Reloads; Reads 1] by (vm_compute; reflexivity). left.
  - left. exact another_query_by_others.
  - exact stalled_goes_on.
Defined.

(** When the client reads on, everybody is served. *)
Definition locked_day : list LockAction :=
  stalled_actions ++ another_query ++ reads_on ++ [Moves (Signalled no_files SIGTERM); Moves ServerEnds].

Lemma locked_day_happens : is_Some (run_locked (lock_boot started) locked_day).
Proof. rewrite happens by (vm_compute; reflexivity). by eexists. Qed.

Definition locked_run : LockRun (p_config started) test_run_clock :=
  lock_script_run (lock_boot started) locked_day locked_day_happens.

Lemma lock_serves_all_witness :
  let over m := s_finished (k_system (lr_state _ _ locked_run m)) = true in
  let hangs w m := w ∈ k_queue (lr_state _ _ locked_run m) /\ Reloads ∈ k_queue (lr_state _ _ locked_run m) /\
    ahead Reloads (k_queue (lr_state _ _ locked_run m)) = [] /\
    exists j, stuck (lr_state _ _ locked_run m) j /\ unread _ _ locked_run j m in
  (forall n w, w ∈ k_queue (lr_state _ _ locked_run n) ->
     exists m, (n <= m)%nat /\ (over m \/ lr_action _ _ locked_run m = Some (Gets w) \/ hangs w m)) /\
  (forall n i t, s_tasks (k_system (lr_state _ _ locked_run n)) !! i = Some t ->
     exists m, (n <= m)%nat /\
       (over m \/ hangs (Reads i) m \/
        exists t' res, s_tasks (k_system (lr_state _ _ locked_run m)) !! i = Some t' /\ t_prog t' = Return res /\
          ends_as (p_config started) (unread _ _ locked_run i m) (t_origin t) res)) /\
  (forall n, cancelled (s_process (k_system (lr_state _ _ locked_run n))) = true -> exists m, (n <= m)%nat /\ over m).
Proof.
  apply (lock_serves_all test_run_clock started locked_run); [reflexivity|].
  apply lock_script_fair. vm_compute. reflexivity.
Defined.

(** A client that does not read the first record: the task waits for ever and keeps its guard. *)
Definition unread_transfer : list LockAction :=
  transfer ++ [Moves (RunTask 0 (Stalls 1))] ++ reload_and_query.

Example transfer_stuck :
  let k := after_actions unread_transfer in
  k_guards k = [0%nat] /\ k_queue k = [Reloads; Reads 1] /\
  (fun t => t_prog t) <$> s_tasks (k_system k) !! 0%nat = Some (Return Blocked).
Proof. by vm_compute. Qed.
End witnesses.
