(* ===== verification/Lifecycle.v ===== *)
(** The life of the program: [main] of [src/src/main.rs] after the start-up of [Main], with the running
    process of [Tasks].  The sockets of [src/src/server.rs] are bound, or not; the task of the HTTP
    server of [src/src/api.rs] answers requests from the counters while the server goes on; the first
    of the futures of [DnsServer::run] that ends is the end of the program.  Requires [Api], [Main] and
    [Tasks]. *)
From S2P Require Import Prelude RustTime RustStr HashMap Crates Zone RateLimit Metrics Config.
From S2P Require Import Effects Server Api Main Tasks.
Open Scope Z_scope.

(** The socket of a server loop. *)
Inductive Socket := Unbound | Bound.

#[export] Instance Socket_eq_dec : EqDecision Socket.
Proof. solve_decision. Defined.

(** The task of the HTTP server: there is none, it has still to bind its address, it listens, or it
    has panicked ([expect]) because it could not. *)
Inductive ApiTask := NotConfigured | Starting | Listening | Panicked.

#[export] Instance ApiTask_eq_dec : EqDecision ApiTask.
Proof. solve_decision. Defined.

Section life.
Context `{Hickory} `{!Codecs}.

(** A GET request that is being handled: what the loads of its snapshot have seen so far, and the
    response, where [None] is that of a path without a route. *)
Record Request := {
  r_path : str;
  r_loads : list Metrics;
  r_response : option (option Json)
}.

(** The loads of [Metrics::get_snapshot], the start time included. *)
Definition snapshot_loads : nat := 19.

Definition at_of (loads : list Metrics) (k : nat) : Metrics := default (Metrics_new 0) (loads !! k).

(** The next thing a handler of [create_router] does: a load of its snapshot or, after them, the
    response; [now] is the reading of the clock for the uptime. *)
Definition handle_request (m : Metrics) (now : Instant) (r : Request) : Request :=
  if bool_decide (r_path r = lit "/metrics") && (length (r_loads r) <? snapshot_loads)%nat then
    {| r_path := r_path r; r_loads := r_loads r ++ [m]; r_response := None |}
  else
    {| r_path := r_path r; r_loads := r_loads r;
       r_response := Some (create_router (at_of (r_loads r)) now (r_path r)) |}.

Record Life := {
  l_system : System;
  l_udp : Socket;
  l_tcp : Socket;
  l_api : ApiTask;
  l_requests : list Request;  (* every request there was, in the order of their arrival *)
  l_result : option (outcome unit)  (* what [main] has returned *)
}.

(** [main] when it has started the server: the tasks of the HTTP server, if it is configured, and of
    the signals are spawned, and [run] has still to bind its sockets. *)
Definition launch (p : Started) : Life :=
  {| l_system := boot p; l_udp := Unbound; l_tcp := Unbound;
     l_api := match p_api_listen p with Some _ => Starting | None => NotConfigured end;
     l_requests := []; l_result := None |}.

(** What happens to the program. *)
Inductive LifeAction :=
  | UdpBinds
  | TcpBinds
  | ApiBinds (bound : bool)
  | HttpRequest (path : str)
  | HttpHandler (i : nat) (now : Instant)
  | Happens (a : Action)
  | Returns (first : FirstDone).

Definition with_system (sys : System) (l : Life) : Life :=
  {| l_system := sys; l_udp := l_udp l; l_tcp := l_tcp l; l_api := l_api l; l_requests := l_requests l;
     l_result := l_result l |}.

Definition with_sockets (udp tcp : Socket) (l : Life) : Life :=
  {| l_system := l_system l; l_udp := udp; l_tcp := tcp; l_api := l_api l; l_requests := l_requests l;
     l_result := l_result l |}.

Definition with_api (api : ApiTask) (requests : list Request) (l : Life) : Life :=
  {| l_system := l_system l; l_udp := l_udp l; l_tcp := l_tcp l; l_api := api; l_requests := requests;
     l_result := l_result l |}.

(** [run] returns, and [main] with it. *)
Definition returns (r : outcome unit) (l : Life) : Life :=
  {| l_system := finish (l_system l); l_udp := l_udp l; l_tcp := l_tcp l; l_api := l_api l;
     l_requests := l_requests l; l_result := Some r |}.

(** Datagrams and connections come from a socket that is bound; the end is [Returns]. *)
Definition possible (l : Life) (a : Action) : bool :=
  match a with
  | Datagram _ _ | RecvError => bool_decide (l_udp l = Bound)
  | Connect _ _ | AcceptError => bool_decide (l_tcp l = Bound)
  | Signalled _ _ | RunTask _ _ => true
  | ServerEnds => false
  end.

(** The result of a loop of the server, forgetting the tasks it has spawned. *)
Definition loop_result {A} (r : outcome A) : outcome unit := r ≫= fun _ => Ok tt.

(** Which of the futures of [run] can have ended: a loop whose socket cannot be bound, or that sees
    the cancelled token; and the token itself. *)
Definition ready (l : Life) (first : FirstDone) : bool :=
  let token := cancelled (s_process (l_system l)) in
  match first with
  | UdpDone r =>
      match l_udp l with
      | Unbound => bool_decide (r = loop_result (run_udp false []))
      | Bound => token && bool_decide (r = loop_result (run_udp true [Cancelled]))
      end
  | TcpDone r =>
      match l_tcp l with
      | Unbound => bool_decide (r = loop_result (run_tcp false None []))
      | Bound => token && bool_decide (r = loop_result (run_tcp true None [Cancelled]))
      end
  | ShutdownDone => token
  end.

(** One step, while [main] has not returned. *)
Inductive life_step (config : Config) (clock : Clock) (l : Life) : LifeAction -> Life -> Prop :=
  | life_udp : l_result l = None -> l_udp l = Unbound ->
      life_step config clock l UdpBinds (with_sockets Bound (l_tcp l) l)
  | life_tcp : l_result l = None -> l_tcp l = Unbound ->
      life_step config clock l TcpBinds (with_sockets (l_udp l) Bound l)
  | life_api bound : l_result l = None -> l_api l = Starting ->
      life_step config clock l (ApiBinds bound)
        (with_api (if bound : bool then Listening else Panicked) (l_requests l) l)
  | life_request path : l_result l = None -> l_api l = Listening ->
      life_step config clock l (HttpRequest path)
        (with_api (l_api l) (l_requests l ++ [{| r_path := path; r_loads := []; r_response := None |}]) l)
  | life_handler i now r : l_result l = None -> l_requests l !! i = Some r -> r_response r = None ->
      clock (pred (s_tick (l_system l))) <= now <= clock (s_tick (l_system l)) ->
      life_step config clock l (HttpHandler i now)
        (with_api (l_api l) (<[i := handle_request (s_metrics (l_system l)) now r]> (l_requests l)) l)
  | life_happens a sys : l_result l = None -> possible l a = true ->
      step config clock (l_system l) a sys -> life_step config clock l (Happens a) (with_system sys l)
  | life_returns first : l_result l = None -> ready l first = true ->
      life_step config clock l (Returns first) (returns (run first) l).

Inductive life_steps (config : Config) (clock : Clock) : Life -> list LifeAction -> Life -> Prop :=
  | life_nil l : life_steps config clock l [] l
  | life_cons l1 a l2 acts l3 :
      life_step config clock l1 a l2 -> life_steps config clock l2 acts l3 ->
      life_steps config clock l1 (a :: acts) l3.

(** The same as a function. *)
Definition perform_life (config : Config) (clock : Clock) (l : Life) (a : LifeAction) : option Life :=
  if bool_decide (is_Some (l_result l)) then None
  else match a with
       | UdpBinds => if decide (l_udp l = Unbound) then Some (with_sockets Bound (l_tcp l) l) else None
       | TcpBinds => if decide (l_tcp l = Unbound) then Some (with_sockets (l_udp l) Bound l) else None
       | ApiBinds bound =>
           if decide (l_api l = Starting)
           then Some (with_api (if bound then Listening else Panicked) (l_requests l) l) else None
       | HttpRequest path =>
           if decide (l_api l = Listening)
           then Some (with_api (l_api l)
                        (l_requests l ++ [{| r_path := path; r_loads := []; r_response := None |}]) l)
           else None
       | HttpHandler i now =>
           r ← l_requests l !! i;
           if bool_decide (is_Some (r_response r)) then None
           else if (clock (pred (s_tick (l_system l))) <=? now) && (now <=? clock (s_tick (l_system l)))
           then Some (with_api (l_api l)
                        (<[i := handle_request (s_metrics (l_system l)) now r]> (l_requests l)) l)
           else None
       | Happens a =>
           if possible l a then (fun sys => with_system sys l) <$> perform config clock (l_system l) a
           else None
       | Returns first => if ready l first then Some (returns (run first) l) else None
       end.

Fixpoint perform_life_all (config : Config) (clock : Clock) (l : Life) (acts : list LifeAction)
    : option Life :=
  match acts with
  | [] => Some l
  | a :: acts => l' ← perform_life config clock l a; perform_life_all config clock l' acts
  end.

(** The actions of the process among those of the program. *)
Definition process_actions (acts : list LifeAction) : list Action :=
  omap (fun a => match a with Happens a => Some a | _ => None end) acts.
End life.
