(* ===== verification/LifecycleProps.v ===== *)
(** Theorems about the life of the program: what it does until it returns is a run of the process of
    [Tasks], whatever becomes of the HTTP server; how and when it returns. *)
From S2P Require Import Prelude RustTime RustStr HashMap Crates CratesModel Zone Fixtures MainProps RateLimit Metrics Config.
From S2P Require Import Effects Server Api Main Tasks TasksFacts TasksProps TasksLive Lifecycle.
Open Scope Z_scope.

Section life.
Context `{Hickory} `{!Codecs} (config : Config) (clock : Clock).

Lemma is_None {A} (o : option A) : bool_decide (is_Some o) = false <-> o = None.
Proof. rewrite bool_decide_eq_false, eq_None_not_Some. done. Qed.

(** What can happen is what the function computes. *)
Lemma perform_life_step l a l' : perform_life config clock l a = Some l' <-> life_step config clock l a l'.
Proof.
  unfold perform_life. destruct (bool_decide (is_Some (l_result l))) eqn:Er.
  { apply bool_decide_eq_true in Er. split; [done|]. intros Hs. destruct Er as [? Er].
    inversion Hs; congruence. }
  apply is_None in Er. split.
  - destruct a as [| |bound|path|i now|a|first]; try case_decide; try done.
    + intros [= <-]. by constructor.
    + intros [= <-]. by constructor.
    + intros [= <-]. by constructor.
    + intros [= <-]. by constructor.
    + intros (r & Hr & Hl)%bind_Some. destruct (bool_decide (is_Some (r_response r))) eqn:E; [done|].
      apply is_None in E.
      match type of Hl with (if ?b then _ else _) = _ => destruct b eqn:Eb; [|done] end.
      apply andb_true_iff in Eb as [?%Z.leb_le ?%Z.leb_le]. injection Hl as <-. by apply life_handler.
    + destruct (possible l a) eqn:E; [|done]. intros (sys & Hs%perform_step & ->)%fmap_Some.
      by apply life_happens.
    + destruct (ready l first) eqn:E; [|done]. intros [= <-]. by apply life_returns.
  - intros Hs. destruct Hs as [_ ?|_ ?|bound _ ?|path _ ?|i now r _ Hr Hn [? ?]|a sys _ Hp Hs|first _ Hr];
      rewrite ?decide_True by done; try done.
    + rewrite Hr. cbn. rewrite (proj2 (is_None _) Hn), !(proj2 (Z.leb_le _ _)) by done. done.
    + apply perform_step in Hs. by rewrite Hp, Hs.
    + by rewrite Hr.
Qed.

Lemma perform_life_steps acts : forall l l',
  perform_life_all config clock l acts = Some l' <-> life_steps config clock l acts l'.
Proof.
  induction acts as [|a acts IH]; intros l l'; cbn.
  - split; [intros [= <-]; constructor|intros Hs; by inversion Hs].
  - rewrite bind_Some. split.
    + intros (l1 & Hs1%perform_life_step & Hl%IH). by econstructor.
    + intros Hs. inversion Hs as [|l1 a' l2 acts' l3 Hs1 Hl]; subst. exists l2. by rewrite perform_life_step, IH.
Qed.

Lemma life_steps_app l1 acts1 l2 acts2 l3 :
  life_steps config clock l1 acts1 l2 -> life_steps config clock l2 acts2 l3 ->
  life_steps config clock l1 (acts1 ++ acts2) l3.
Proof. induction 1 as [|l1 a l2 acts l3' Hs Hss IH]; intros Hl; [done|]. cbn. econstructor; eauto. Qed.

(** The rule of invariants. *)
Lemma life_steps_inv (P : Life -> Prop) l acts l' :
  (forall l a l', P l -> life_step config clock l a l' -> P l') ->
  life_steps config clock l acts l' -> P l -> P l'.
Proof. intros Hp. induction 1 as [|l1 a l2 acts l3 Hs Hss IH]; eauto. Qed.

(** The system before the end. *)
Definition running_system (l : Life) (sys : System) : Prop :=
  s_finished sys = false /\
  match l_result l with None => l_system l = sys | Some _ => l_system l = finish sys end.

(** No task was started from a socket that is not bound. *)
Definition sockets_ok (l : Life) : Prop :=
  forall t, t ∈ s_tasks (l_system l) ->
    match t_origin t with FromDatagram _ _ => l_udp l | FromConnection _ _ => l_tcp l end = Bound.

Lemma step_origins sys a sys' t' :
  step config clock sys a sys' -> t' ∈ s_tasks sys' ->
  (exists t, t ∈ s_tasks sys /\ t_origin t = t_origin t') \/
  match a, t_origin t' with Datagram _ _, FromDatagram _ _ | Connect _ _, FromConnection _ _ => True | _, _ => False end.
Proof.
  intros Hstep Hin. apply list_elem_of_lookup_1 in Hin as [i Hi].
  destruct Hstep as [sys datagram addr|sys|sys client addr|sys|sys files s p|sys j fate t R c k Hf Ht Hp|sys];
    try (left; exists t'; split; [by eapply list_elem_of_lookup_2|done]).
  - apply lookup_app_Some in Hi as [Hi|[_ Hi]]; [left; exists t'; split; [by eapply list_elem_of_lookup_2|done]|].
    apply list_lookup_singleton_Some in Hi as [_ <-]. by right.
  - apply lookup_app_Some in Hi as [Hi|[_ Hi]]; [left; exists t'; split; [by eapply list_elem_of_lookup_2|done]|].
    apply list_lookup_singleton_Some in Hi as [_ <-]. by right.
  - destruct (exec_origin clock c fate j t k sys i t' Ht Hi) as (t0 & Ht0 & Ho).
    left. exists t0. split; [by eapply list_elem_of_lookup_2|done].
Qed.

Lemma life_step_sockets l a l' : sockets_ok l -> life_step config clock l a l' -> sockets_ok l'.
Proof.
  intros Hok Hs. destruct Hs as [_ Hu|_ Ht|bound _ _|path _ _|i now r _ _ _ _|a sys _ Hp Hs|first _ _]; try exact Hok.
  - intros t Hin. specialize (Hok t Hin). cbn. destruct (t_origin t); [done|exact Hok].
  - intros t Hin. specialize (Hok t Hin). cbn. destruct (t_origin t); [exact Hok|done].
  - intros t' Hin. cbn in *. destruct (step_origins _ _ _ _ Hs Hin) as [(t & Ht & Ho)|Ho].
    + rewrite <- Ho. by apply Hok.
    + destruct a, (t_origin t'); try done; by apply bool_decide_eq_true in Hp.
Qed.

Lemma step_unfinished sys a sys' :
  step config clock sys a sys' -> a ≠ ServerEnds -> s_finished sys' = false.
Proof.
  intros Hs Ha. destruct Hs as [| | | | |sys i fate t R c k|]; try done.
  by destruct (exec_frame clock c fate i t k sys) as (_ & -> & _).
Qed.

Lemma life_steps_process l acts l' : life_steps config clock l acts l' -> forall sys,
  running_system l sys ->
  exists sys', running_system l' sys' /\ steps config clock sys (process_actions acts) sys'.
Proof.
  induction 1 as [l|l1 a l2 acts l3 Hs Hss IH]; intros sys Hr; [exists sys; split; [done|constructor]|].
  destruct Hr as [Hf0 Hr].
  destruct Hs as [Hn Hu|Hn Ht|bound Hn Ha|path Hn Ha|i now r Hn Hi Hr' Hnow|a sys' Hn Hp Hs|first Hn Hf];
    rewrite Hn in Hr; cbn [process_actions omap list_omap]; fold (process_actions acts).
  1-5: by apply IH; split; cbn; rewrite ?Hn.
  - destruct (IH sys') as (sys3 & Hr3 & Hsteps).
    { split; cbn; [|by rewrite Hn]. eapply step_unfinished; [done|]. by intros ->. }
    exists sys3. split; [done|]. subst. by econstructor.
  - apply IH. split; cbn; [done|by rewrite Hr].
Qed.
End life.

Section properties.
Context `{Hickory} `{!Codecs} (clock : Clock).

(** How [main] ends. *)
Definition ended_as (l : Life) (sys : System) (r : outcome unit) : Prop :=
  match r with
  | Ok _ => cancelled (s_process sys) = true
  | Err e =>
      (l_udp l = Unbound /\ e = EContext "Failed to bind UDP" [] EForeign) \/
      (l_tcp l = Unbound /\ e = EContext "Failed to bind TCP" [] EForeign)
  | Panic => False
  end.

Lemma ready_ended l first sys :
  ready l first = true -> l_system l = sys -> ended_as l sys (run first).
Proof.
  intros Hr <-. destruct first as [r|r|]; cbn in Hr |- *; [| |done].
  - destruct (l_udp l) eqn:E.
    + apply bool_decide_eq_true in Hr as ->. left. by rewrite E.
    + apply andb_true_iff in Hr as [Hc ->%bool_decide_eq_true]. done.
  - destruct (l_tcp l) eqn:E.
    + apply bool_decide_eq_true in Hr as ->. right. by rewrite E.
    + apply andb_true_iff in Hr as [Hc ->%bool_decide_eq_true]. done.
Qed.

Lemma returned_stays config l acts l' r : life_steps config clock l acts l' -> l_result l = Some r -> l' = l.
Proof. intros Hs Hr. destruct Hs as [|l1 a l2 acts l3 Hs Hss]; [done|]. inversion Hs; congruence. Qed.

Lemma life_ended config l acts l' sys : life_steps config clock l acts l' -> l_result l = None ->
  running_system l' sys -> match l_result l' with None => True | Some r => ended_as l' sys r end.
Proof.
  intros Hs Hn Hr. induction Hs as [l|l1 a l2 acts l3 Hs Hss IH]; [by rewrite Hn|].
  destruct (l_result l2) as [r|] eqn:E; [|by apply IH].
  pose proof (returned_stays _ _ _ _ _ Hss E) as ->. rewrite E.
  destruct Hs as [| | | | | |first _ Hf]; cbn in *; try congruence.
  injection E as <-. destruct Hr as [_ Hr]. cbn in Hr.
  pose proof (ready_ended l1 first (l_system l1) Hf eq_refl) as He.
  assert (s_process sys = s_process (l_system l1)) as Hp by (by injection Hr as ->).
  revert He. unfold ended_as. destruct (run first); rewrite ?Hp; done.
Qed.

(** C16 (refinement): until [main] returns the program is the process of [Tasks], run by the actions
    it takes there, so everything proved of the process holds of the program; whether the HTTP server
    is configured, fails to bind its address, or answers any requests makes no difference to it.  No
    datagram is taken before the UDP socket is bound and no connection before the listener is.  [main]
    returns an error only if one of the two cannot be bound, it never panics, otherwise it returns
    only after a shutdown signal, as the process ends, and after one it always can; nothing happens
    when it has returned. *)
Theorem main_runs_process (p : Started) (acts : list LifeAction) (l : Life) :
  life_steps (p_config p) clock (launch p) acts l ->
  exists sys, steps (p_config p) clock (boot p) (process_actions acts) sys /\ running_system l sys /\
    (forall t, t ∈ s_tasks sys ->
       match t_origin t with FromDatagram _ _ => l_udp l | FromConnection _ _ => l_tcp l end = Bound) /\
    match l_result l with
    | None => cancelled (s_process sys) = true ->
        exists l', life_step (p_config p) clock l (Returns ShutdownDone) l'
    | Some r => ended_as l sys r /\
        (r = Ok tt -> steps (p_config p) clock (boot p) (process_actions acts ++ [ServerEnds]) (l_system l)) /\
        forall a l', ~ life_step (p_config p) clock l a l'
    end.
Proof.
  intros Hs. destruct (life_steps_process _ _ _ _ _ Hs (boot p)) as (sys & Hr & Hsteps); [done|].
  assert (sockets_ok l) as Hok.
  { eapply life_steps_inv; [|exact Hs|by intros t ?%elem_of_nil]. apply life_step_sockets. }
  pose proof (life_ended _ _ _ _ _ Hs eq_refl Hr) as He. exists sys.
  assert (s_tasks (l_system l) = s_tasks sys) as Htasks
    by (destruct Hr as [_ Hr]; destruct (l_result l); by rewrite Hr).
  split_and!; [done|done|intros t Ht; apply Hok; by rewrite Htasks|].
  destruct Hr as [Hf Hr]. destruct (l_result l) as [r|] eqn:E.
  - split_and!; [done| |intros a l' Hl; inversion Hl; congruence]. intros ->. rewrite Hr.
    apply (steps_app _ _ _ (process_actions acts) sys); [done|].
    econstructor; [|constructor]. by apply step_end.
  - intros Hc. eexists. apply life_returns; [done|]. cbn. by rewrite Hr.
Qed.
End properties.

(** * Witnesses *)

Section witnesses.
Import Concrete.

(** The server of [TasksLive] with an HTTP address. *)
Definition started_api : Started :=
  {| p_config := p_config started; p_store := p_store started; p_metrics := p_metrics started;
     p_limiter := p_limiter started; p_listen := p_listen started; p_tcp := p_tcp started;
     p_api_listen := Some (lit "127.0.0.1:8080") |}.

(** It binds its sockets and serves; a request for the counters is answered between the steps of the
    tasks; a signal ends it. *)
Definition whole_life : list LifeAction :=
  [UdpBinds; ApiBinds true; TcpBinds] ++ (Happens <$> take 12 served) ++ [HttpRequest (lit "/metrics")]
  ++ replicate 6 (HttpHandler 0 5000000000) ++ (Happens <$> take 6 (drop 12 served)) ++ [HttpRequest (lit "/health")]
  ++ replicate 14 (HttpHandler 0 5000000000) ++ (Happens <$> drop 18 served)
  ++ [Happens (Signalled no_files SIGTERM); Returns ShutdownDone].

(** Five seconds pass at the start. *)
Definition test_life_clock : Clock := fun n => if (n <? 2)%nat then 0 else 5000000000.

Definition after_life (acts : list LifeAction) : Life :=
  default (launch started_api) (perform_life_all (p_config started_api) test_life_clock (launch started_api) acts).

Lemma life_happens_steps acts :
  is_Some (perform_life_all (p_config started_api) test_life_clock (launch started_api) acts) ->
  life_steps (p_config started_api) test_life_clock (launch started_api) acts (after_life acts).
Proof. intros [l Hl]. apply perform_life_steps. unfold after_life. by rewrite Hl. Qed.

Lemma whole_life_steps :
  life_steps (p_config started_api) test_life_clock (launch started_api) whole_life (after_life whole_life).
Proof. apply life_happens_steps, (bool_decide_unpack _). vm_compute. done. Qed.

Lemma main_runs_process_witness :
  let acts := whole_life in let l := after_life whole_life in
  exists sys, steps (p_config started_api) test_life_clock (boot started_api) (process_actions acts) sys /\
    running_system l sys /\
    (forall t, t ∈ s_tasks sys ->
       match t_origin t with FromDatagram _ _ => l_udp l | FromConnection _ _ => l_tcp l end = Bound) /\
    match l_result l with
    | None => cancelled (s_process sys) = true ->
        exists l', life_step (p_config started_api) test_life_clock l (Returns ShutdownDone) l'
    | Some r => ended_as l sys r /\
        (r = Ok tt -> steps (p_config started_api) test_life_clock (boot started_api)
                        (process_actions acts ++ [ServerEnds]) (l_system l)) /\
        forall a l', ~ life_step (p_config started_api) test_life_clock l a l'
    end.
Proof. apply (main_runs_process test_life_clock started_api whole_life). exact whole_life_steps. Defined.

(** What the tasks have sent and how the program ended. *)
Example whole_life_output :
  map (fun t => map len (t_out t)) (s_tasks (l_system (after_life whole_life))) = [[112]; [2; 112]; [12]] /\
  l_result (after_life whole_life) = Some (Ok tt) /\
  map (fun r => bool_decide (is_Some (r_response r))) (l_requests (after_life whole_life)) = [true; false].
Proof. vm_compute. done. Qed.

(** A listener that cannot be bound ends the program, though the UDP socket serves; the HTTP server
    that cannot be bound does not. *)
Example bind_failures :
  let acts := [UdpBinds; ApiBinds false; Happens (Datagram [1; 2] (V4 1));
               Returns (TcpDone (Err (EContext "Failed to bind TCP" [] EForeign)))] in
  l_result (after_life acts) = Some (Err (EContext "Failed to bind TCP" [] EForeign)) /\
  length (s_tasks (l_system (after_life acts))) = 1%nat.
Proof. vm_compute. done. Qed.
End witnesses.
