(* ===== verification/Report.v ===== *)
(** What the HTTP server reports of the running program.  A monitor of the handlers shows that every
    task, whether it has ended or not, has recorded whole calls up to the one it is in; so the counters
    are consistent in every state, and each number of a report lies between what its counter was when
    the request arrived and what it is now. *)
From S2P Require Import Prelude RustTime RustStr HashMap Crates CratesModel Zone Fixtures RateLimit.
From S2P Require Import Metrics MetricsProps Config Effects ServerIO Server Api ApiProps Main MainProps.
From S2P Require Import Tasks TasksFacts TasksProps TasksLive Monitor Lifecycle LifecycleProps.
Open Scope Z_scope.

(** * A monitor of the counters *)

(** What a step adds to the total, less what it adds to a protocol. *)
Definition tilt (s : Step) : Z := added C_total_queries s - added C_udp_queries s - added C_tcp_queries s.

Lemma balance_snoc l s : balance (l ++ [s]) = balance l + tilt s.
Proof.
  rewrite balance_app. unfold balance at 2, additions, sum, tilt. cbn. lia.
Qed.

Section monitor.
Context `{HickoryTypes}.

(** The state is the balance of the task's steps, which must not be negative. *)
Definition counting : Monitor Z := {|
  accepts R c b := match c with CAtomic s => recorded s /\ 0 <= b + tilt s | _ => True end;
  advance R c _ b := match c with CAtomic s => b + tilt s | _ => b end
|}.

Definition counts {A} (p : prog A) : Prop := forall b, 0 <= b -> wp counting p (fun _ b => 0 <= b) b.

Lemma counts_bind {A B} (p : prog A) (f : A -> prog B) : counts p -> (forall a, counts (f a)) -> counts (p ≫= f).
Proof.
  intros Hp Hf b Hb. eapply wp_bind_inv; [by apply Hp| |done]. intros a b' Hb'. by apply Hf.
Qed.

Lemma counts_return {A} (r : result A) : counts (Return r).
Proof. by intros b Hb. Qed.

(** The operations that are no steps on a counter. *)
Lemma counts_lift {A} (o : outcome A) : counts (lift (Effects := prog_effects) o).
Proof. by intros b Hb. Qed.
Lemma counts_block {A} : counts (A := A) (block (Effects := prog_effects)).
Proof. by intros b Hb. Qed.
Lemma counts_fuel {A} : counts (A := A) (out_of_fuel (Effects := prog_effects)).
Proof. by intros b Hb. Qed.
Lemma counts_ret {A} (a : A) : counts (mret a).
Proof. by intros b Hb. Qed.
Lemma counts_now : counts (now (Effects := prog_effects)).
Proof. by intros b Hb. Qed.
Lemma counts_limit addr : counts (within_rate_limit (Effects := prog_effects) addr).
Proof. by intros b Hb. Qed.
Lemma counts_store g : counts (read_store (Effects := prog_effects) g).
Proof. by intros b Hb. Qed.
Lemma counts_send buf : counts (send (Effects := prog_effects) buf).
Proof. intros b Hb. by apply wp_try. Qed.
Lemma counts_write buf : counts (write_all (Effects := prog_effects) buf).
Proof. intros b Hb. by apply wp_write. Qed.
Lemma counts_read t n : counts (read_exact (Effects := prog_effects) t n).
Proof. by intros b Hb. Qed.

Lemma counts_record c : call_ok c -> counts (record (Effects := prog_effects) c).
Proof.
  intros Hc b Hb. pose proof (call_steps_recorded c Hc) as Hr. cbn.
  assert (forall n, 0 <= balance (take n (call_steps c))) as Hbal.
  { intros n. apply (balance_prefix c). apply prefix_take. }
  revert Hr Hbal. generalize (call_steps c). intros l Hr Hbal. clear Hc.
  assert (forall done_ todo, l = done_ ++ todo ->
    wp counting (prog_steps todo) (fun _ b => 0 <= b) (b + balance done_)) as Hgo.
  { intros done_ todo. revert done_. induction todo as [|s todo IH]; intros done_ ->; cbn.
    - specialize (Hbal (length done_)). rewrite app_nil_r, firstn_all in Hbal. lia.
    - apply Forall_app in Hr as [_ Hr]. apply Forall_cons in Hr as [Hs _].
      specialize (Hbal (length (done_ ++ [s]))).
      assert (take (length (done_ ++ [s])) (done_ ++ s :: todo) = done_ ++ [s]) as Ht
        by (rewrite (cons_middle s done_ todo), app_assoc; apply take_app_length).
      rewrite Ht, balance_snoc in Hbal. split; [split; [done|lia]|]. intros _.
      rewrite <- Z.add_assoc, <- balance_snoc. apply IH. by rewrite <- app_assoc. }
  specialize (Hgo [] l eq_refl). by rewrite Z.add_0_r in Hgo.
Qed.
End monitor.

#[export] Hint Resolve counts_lift counts_block counts_fuel counts_ret counts_now counts_limit counts_store
  counts_send counts_write counts_read : dns.

(** Walks through a program. *)
Ltac walk_counts :=
  repeat first
    [ solve [auto with dns]
    | apply counts_record; done
    | apply counts_bind; [|intros ?]
    | match goal with |- counts (match ?x with _ => _ end) => destruct x end ].

Section handlers.
Context `{Hickory}.

Lemma counts_elapsed start : counts (record_elapsed prog_effects start).
Proof. unfold record_elapsed. walk_counts. Qed.

Lemma counts_first_type q : counts (record_first_type prog_effects q).
Proof. unfold record_first_type. walk_counts. Qed.

Hint Resolve counts_elapsed counts_first_type : dns.

Lemma counts_run_query start q : counts (run_query prog_effects start q).
Proof. unfold run_query. walk_counts. Qed.

Lemma counts_encode ctx m : counts (encode prog_effects ctx m).
Proof. unfold encode. walk_counts. Qed.

Lemma counts_encode_plain m : counts (encode_plain prog_effects m).
Proof. unfold encode_plain. walk_counts. Qed.

Lemma counts_framed buf : counts (send_framed prog_effects buf).
Proof. unfold send_framed. walk_counts. Qed.

Hint Resolve counts_run_query counts_encode counts_encode_plain counts_framed : dns.

Lemma counts_shed fuel section take max start m : counts (shed_section prog_effects fuel section take max start m).
Proof. revert m. induction fuel as [|fuel IH]; intros m; cbn [shed_section]; walk_counts. Qed.

Hint Resolve counts_shed : dns.

Lemma counts_truncated max start m : counts (send_truncated prog_effects max start m).
Proof. unfold send_truncated. walk_counts. Qed.

Hint Resolve counts_truncated : dns.

Lemma counts_udp data addr : counts (handle_udp_query prog_effects data addr).
Proof. unfold handle_udp_query, answer_udp_query. walk_counts. Qed.

Lemma counts_records q question rs : counts (send_records prog_effects q question rs).
Proof. induction rs as [|r rs IH]; cbn [send_records]; walk_counts. Qed.

Hint Resolve counts_records : dns.

Lemma counts_message addr start buf : counts (answer_tcp_message prog_effects addr start buf).
Proof. unfold answer_tcp_message, answer_tcp_query, answer_axfr. walk_counts. Qed.

Hint Resolve counts_message : dns.

(** A connection closes with the number of its queries, which is not negative. *)
Lemma counts_loop fuel addr t max : forall q, 0 <= q -> counts (tcp_loop prog_effects fuel addr t max q).
Proof.
  induction fuel as [|fuel IH]; intros q Hq; cbn [tcp_loop]; unfold tcp_iteration;
    repeat first [progress walk_counts | apply IH; lia].
Qed.

Lemma counts_tcp fuel addr cfg : counts (handle_tcp_connection prog_effects fuel addr cfg).
Proof. unfold handle_tcp_connection. apply counts_bind; [by apply counts_record|intros _]. by apply counts_loop. Qed.
End handlers.

(** * The counters of the process *)

(** The steps of all tasks. *)
Definition all_steps `{Hickory} `{!Codecs} (sys : System) : list Step := concat (t_steps <$> s_tasks sys).

Section process.
Context `{Hickory} `{!Codecs} (config : Config) (clock : Clock).

Definition knows_count (t : Task) (b : Z) : Prop :=
  b = balance (t_steps t) /\ 0 <= b /\ Forall recorded (t_steps t).

Lemma knows_count_step R (c : command R) a z t t' sent steps b :
  knows_count t b -> accepts counting c b -> t_origin t' = t_origin t -> t_out t' = t_out t ++ sent ->
  t_steps t' = t_steps t ++ steps -> True ->
  effect c a z (t_input t) (t_input t') sent steps -> knows_count t' (advance counting c a b).
Proof.
  intros (-> & Hb & Hr) Hc _ _ Hst _ He. unfold knows_count. rewrite Hst.
  destruct c as [|s|addr|guard|buf|buf|timeout n]; cbn in *.
  2:{ destruct He as (_ & _ & ->). destruct Hc. rewrite balance_snoc. split_and!; [done|lia|].
      apply Forall_app. split; [done|]. by apply List.Forall_cons. }
  all: repeat match goal with H : _ /\ _ |- _ => destruct H end; subst; by rewrite app_nil_r.
Qed.

Lemma fresh_counted o : monitored counting knows_count (fun _ _ b => 0 <= b) (fresh_task config o).
Proof.
  exists 0. split; [by destruct o|].
  destruct o; [by refine (counts_udp _ _ 0 _)|by refine (counts_tcp _ _ _ 0 _)].
Qed.

(** What any task has recorded at any moment. *)
Lemma task_counted sys acts sys' i t : s_tasks sys = [] -> steps config clock sys acts sys' ->
  s_tasks sys' !! i = Some t -> Forall recorded (t_steps t) /\ 0 <= balance (t_steps t).
Proof.
  intros Hn Hs Hi. destruct (task_started config clock _ _ _ _ _ Hs ltac:(by rewrite Hn) Hi)
    as (l1 & sys1 & l2 & _ & _ & Hs2 & Hf).
  assert (monitored counting knows_count (fun _ _ b => 0 <= b) t) as (b & (-> & Hb & Hr) & _); [|done].
  eapply (monitored_steps config clock counting (fun _ => True)); [|done|exact Hs2|done|exact Hf|exact Hi|].
  - apply knows_count_step.
  - apply fresh_counted.
Qed.

Lemma all_steps_recorded sys acts sys' : s_tasks sys = [] -> steps config clock sys acts sys' ->
  Forall recorded (all_steps sys') /\ 0 <= balance (all_steps sys').
Proof.
  intros Hn Hs. pose proof (fun i t => task_counted _ _ _ i t Hn Hs) as Ht. unfold all_steps.
  assert (forall t, t ∈ s_tasks sys' -> Forall recorded (t_steps t) /\ 0 <= balance (t_steps t)) as Hall.
  { intros t [i Hi]%list_elem_of_lookup_1. by apply (Ht i). }
  clear Ht. induction (s_tasks sys') as [|t ts IH]; cbn; [split; [constructor|unfold balance; cbn; lia]|].
  destruct (Hall t) as [Hr Hb]; [by left|]. destruct IH as [Hrs Hbs]; [intros; apply Hall; by right|].
  rewrite balance_app. split; [by apply Forall_app|lia].
Qed.

(** The steps between two states. *)
Definition advanced (sys1 sys2 : System) : Prop :=
  exists l, s_metrics sys2 = run_steps (s_metrics sys1) l /\ all_steps sys2 ≡ₚ all_steps sys1 ++ l.

Lemma advanced_same sys1 sys2 : s_metrics sys2 = s_metrics sys1 -> s_tasks sys2 = s_tasks sys1 ->
  advanced sys1 sys2.
Proof. intros Hm Ht. exists []. unfold all_steps. by rewrite app_nil_r, Ht. Qed.

Lemma step_advanced sys a sys' : step config clock sys a sys' -> advanced sys sys'.
Proof.
  intros Hs. destruct Hs as [sys d addr|sys|sys cl addr|sys|sys files s p|sys i fate t R c k Hf Ht Hp|sys];
    try by apply advanced_same.
  1-2: exists []; unfold all_steps; cbn; rewrite fmap_app, concat_app; cbn; by rewrite !app_nil_r.
  destruct (exec_metrics clock c fate i t k sys Ht) as (t' & st & Htasks & Hst & _ & Hme).
  exists st. split; [done|]. unfold all_steps. rewrite Htasks.
  apply list_elem_of_split_length in Ht as (ts1 & ts2 & Hl & ->).
  rewrite Hl, insert_app_r_alt, Nat.sub_diag by lia. cbn [insert list_insert].
  rewrite !fmap_app, !concat_app. cbn. rewrite Hst, <- !app_assoc.
  by rewrite (Permutation_app_comm st).
Qed.

Lemma advanced_trans sys1 sys2 sys3 : advanced sys1 sys2 -> advanced sys2 sys3 -> advanced sys1 sys3.
Proof.
  intros (l1 & Hm1 & Hp1) (l2 & Hm2 & Hp2). exists (l1 ++ l2).
  by rewrite run_steps_app, <- Hm1, Hp2, Hp1, app_assoc.
Qed.

Lemma steps_advanced sys acts sys' : steps config clock sys acts sys' -> advanced sys sys'.
Proof.
  induction 1 as [sys|sys1 a sys2 acts sys3 Hs Hss IH]; [by apply advanced_same|].
  eapply advanced_trans; [by eapply step_advanced|exact IH].
Qed.

(** Every counter is what the tasks have added to it. *)
Lemma counters_exact start sys acts sys' c : s_tasks sys = [] -> s_metrics sys = Metrics_new start ->
  steps config clock sys acts sys' -> c ≠ C_min_latency_us -> c ≠ C_max_latency_us ->
  additions c (all_steps sys') < 2 ^ 64 -> load c (s_metrics sys') = additions c (all_steps sys').
Proof.
  intros Hn Hm Hs Hmin Hmax Hlt. destruct (steps_advanced _ _ _ Hs) as (l & Hl & Hp).
  destruct (all_steps_recorded _ _ _ Hn Hs) as [Hr _].
  assert (all_steps sys = []) as E by (unfold all_steps; by rewrite Hn). rewrite E in Hp. cbn in Hp.
  unfold additions in *. rewrite Hp in Hlt, Hr. rewrite Hl, Hm, Hp. fold (additions c l) in *.
  assert (load c (Metrics_new start) = 0) as H0' by (by destruct c).
  rewrite load_additions; [lia|done|done|done|lia|lia].
Qed.

Lemma types_exact start sys acts sys' t : s_tasks sys = [] -> s_metrics sys = Metrics_new start ->
  steps config clock sys acts sys' -> countings t (all_steps sys') < 2 ^ 64 ->
  default 0 (query_types (s_metrics sys') !! t) = countings t (all_steps sys').
Proof.
  intros Hn Hm Hs Hlt. destruct (steps_advanced _ _ _ Hs) as (l & Hl & Hp).
  assert (all_steps sys = []) as E by (unfold all_steps; by rewrite Hn). rewrite E in Hp. cbn in Hp.
  unfold countings in *. rewrite Hp in Hlt. rewrite Hl, Hm, Hp. fold (countings t l) in *.
  assert (default 0 (query_types (Metrics_new start) !! t) = 0) as H0' by reflexivity.
  rewrite types_countings; lia.
Qed.
End process.

(** * Requests *)

Section requests.
Context `{Hickory} `{!Codecs} (config : Config) (clock : Clock).

(** Induction on a run from its end. *)
Lemma life_steps_snoc l1 acts l2 a l3 :
  life_steps config clock l1 acts l2 -> life_step config clock l2 a l3 ->
  life_steps config clock l1 (acts ++ [a]) l3.
Proof. intros Hs Ha. eapply life_steps_app; [exact Hs|]. econstructor; [exact Ha|constructor]. Qed.

Lemma life_steps_ind_r (P : list LifeAction -> Life -> Prop) l0 :
  P [] l0 ->
  (forall acts l a l', life_steps config clock l0 acts l -> P acts l -> life_step config clock l a l' ->
     P (acts ++ [a]) l') ->
  forall acts l, life_steps config clock l0 acts l -> P acts l.
Proof.
  intros H0' Hstep acts l Hs.
  assert (forall l1 acts2 l2, life_steps config clock l1 acts2 l2 -> forall acts1,
    life_steps config clock l0 acts1 l1 -> P acts1 l1 -> P (acts1 ++ acts2) l2) as Hgo.
  { intros l1 acts2 l2 H12. induction H12 as [l1|l1 a l2 acts2 l3 Ha Hss IH]; intros acts1 Hl1 HP; [by rewrite app_nil_r|].
    rewrite (cons_middle a acts1 acts2), app_assoc. apply IH; [by eapply life_steps_snoc|by eapply Hstep]. }
  apply (Hgo l0 acts l Hs []); [constructor|done].
Qed.

Definition metrics_of (l : Life) : Metrics := s_metrics (l_system l).

Definition arrived (path : str) : Request := {| r_path := path; r_loads := []; r_response := None |}.

(** A moment of the run from [l1] to [l]. *)
Definition moment (acts2 : list LifeAction) (l1 lm l : Life) : Prop :=
  exists acts3 acts4, acts2 = acts3 ++ acts4 /\
    life_steps config clock l1 acts3 lm /\ life_steps config clock lm acts4 l.

(** The clock at a moment of the process: between its last reading and its next. *)
Definition shows (l : Life) (now : Instant) : Prop :=
  clock (pred (s_tick (l_system l))) <= now <= clock (s_tick (l_system l)).

(** What a request in state [l] has seen since it arrived in state [l1]. *)
Record handled (acts2 : list LifeAction) (l1 l : Life) (r : Request) : Prop := {
  handled_loads : forall m, m ∈ r_loads r -> exists lm, moment acts2 l1 lm l /\ m = metrics_of lm;
  handled_response : forall resp, r_response r = Some resp ->
    exists lm now, moment acts2 l1 lm l /\ shows lm now /\ resp = create_router (at_of (r_loads r)) now (r_path r) /\
      (r_path r = lit "/metrics" -> length (r_loads r) = snapshot_loads)
}.

Lemma moment_later acts2 l1 lm l a l' : moment acts2 l1 lm l -> life_step config clock l a l' ->
  moment (acts2 ++ [a]) l1 lm l'.
Proof.
  intros (acts3 & acts4 & -> & Hs3 & Hs4) Ha. exists acts3, (acts4 ++ [a]). rewrite app_assoc.
  split_and!; [done|done|by eapply life_steps_snoc].
Qed.

Lemma moment_now acts2 l1 l a l' : life_steps config clock l1 acts2 l -> life_step config clock l a l' ->
  moment (acts2 ++ [a]) l1 l l'.
Proof. intros Hs Ha. exists acts2, [a]. split_and!; [done|done|]. econstructor; [exact Ha|constructor]. Qed.

Lemma handled_later acts2 l1 l r a l' : handled acts2 l1 l r -> life_step config clock l a l' ->
  handled (acts2 ++ [a]) l1 l' r.
Proof.
  intros [Hl Hr] Ha. split.
  - intros m Hm. destruct (Hl m Hm) as (lm & Hlm & ->). exists lm. split; [by eapply moment_later|done].
  - intros resp Hresp. destruct (Hr resp Hresp) as (lm & now & Hlm & Hrest). exists lm, now.
    split; [by eapply moment_later|done].
Qed.

Lemma handled_more acts2 l1 l r a l' now : handled acts2 l1 l r -> r_response r = None ->
  (length (r_loads r) <= snapshot_loads)%nat -> shows l now ->
  life_steps config clock l1 acts2 l -> life_step config clock l a l' ->
  handled (acts2 ++ [a]) l1 l' (handle_request (metrics_of l) now r) /\
  (length (r_loads (handle_request (metrics_of l) now r)) <= snapshot_loads)%nat.
Proof.
  intros Hh Hn Hlen Hnow H12 Ha. pose proof (handled_later _ _ _ _ _ _ Hh Ha) as [Hl Hr].
  unfold handle_request. destruct (bool_decide _ && _) eqn:E; cbn.
  - apply andb_true_iff in E as [_ E%Nat.ltb_lt]. rewrite length_app. cbn. split; [|lia]. split; [|done].
    intros m [Hm| ->%list_elem_of_singleton]%elem_of_app; [by apply Hl|].
    exists l. split; [by eapply moment_now|done].
  - split; [|done]. split; [exact Hl|]. intros resp [= <-]. exists l, now.
    split_and!; [by eapply moment_now|apply Hnow..|done|]. cbn. intros Hp.
    rewrite bool_decide_eq_true_2 in E by done. cbn [andb] in E. apply Nat.ltb_ge in E. lia.
Qed.

(** Every request has arrived at some moment and was handled from then on. *)
Lemma request_handled l0 acts l : l_requests l0 = [] -> life_steps config clock l0 acts l ->
  forall i r, l_requests l !! i = Some r ->
  (length (r_loads r) <= snapshot_loads)%nat /\
  exists acts1 l1 acts2, acts = acts1 ++ acts2 /\ life_steps config clock l0 acts1 l1 /\
    life_steps config clock l1 acts2 l /\ l_requests l1 !! i = Some (arrived (r_path r)) /\
    handled acts2 l1 l r.
Proof.
  intros Hn Hsteps. revert acts l Hsteps. apply (life_steps_ind_r (fun acts l => forall i r, l_requests l !! i = Some r ->
    (length (r_loads r) <= snapshot_loads)%nat /\
    exists acts1 l1 acts2, acts = acts1 ++ acts2 /\ life_steps config clock l0 acts1 l1 /\
      life_steps config clock l1 acts2 l /\ l_requests l1 !! i = Some (arrived (r_path r)) /\
      handled acts2 l1 l r)).
  { intros i r Hi. by rewrite Hn in Hi. }
  intros acts l a l' Hs IH Ha i r Hi.
  assert (forall r0, l_requests l !! i = Some r0 -> r = r0 ->
    (length (r_loads r) <= snapshot_loads)%nat /\
    exists acts1 l1 acts2, acts ++ [a] = acts1 ++ acts2 /\ life_steps config clock l0 acts1 l1 /\
      life_steps config clock l1 acts2 l' /\ l_requests l1 !! i = Some (arrived (r_path r)) /\
      handled acts2 l1 l' r) as Hsame.
  { intros r0 Hr0 ->. destruct (IH i r0 Hr0) as (Hlen & acts1 & l1 & acts2 & -> & Hs1 & Hs2 & Harr & Hh).
    split; [done|]. exists acts1, l1, (acts2 ++ [a]). rewrite app_assoc.
    split_and!; [done|done|by eapply life_steps_snoc|done|by eapply handled_later]. }
  pose proof Ha as Ha0.
  destruct Ha as [Hno Hu|Hno Ht|bound Hno Hap|path Hno Hap|j now r0 Hno Hj Hr0 Hnow|a sys Hno Hp Hstep|first Hno Hf];
    cbn [l_requests with_sockets with_api with_system returns] in Hi; try by eapply Hsame.
  - apply lookup_app_Some in Hi as [Hi|[Hlen Hi]]; [by eapply Hsame|].
    apply list_lookup_singleton_Some in Hi as [Hi <-]. split; [cbn; unfold snapshot_loads; lia|].
    eexists (acts ++ [HttpRequest path]), _, []. rewrite app_nil_r.
    split_and!; [done|by eapply life_steps_snoc|constructor| |].
    + cbn. rewrite lookup_app_r by lia. by rewrite (proj2 (Nat.sub_0_le _ _)) by lia.
    + split; [|done]. by intros m ?%elem_of_nil.
  - destruct (decide (i = j)) as [->|Hne]; [|rewrite list_lookup_insert_ne in Hi by done; by eapply Hsame].
    rewrite list_lookup_insert_eq in Hi by (by eapply lookup_lt_Some). injection Hi as <-.
    destruct (IH j r0 Hj) as (Hlen & acts1 & l1 & acts2 & -> & Hs1 & Hs2 & Harr & Hh).
    destruct (handled_more acts2 l1 l r0 _ _ now Hh Hr0 Hlen Hnow Hs2 Ha0) as [Hh' Hlen'].
    split; [exact Hlen'|]. eexists acts1, l1, (acts2 ++ [_]). rewrite app_assoc.
    split_and!; [done|done|by eapply life_steps_snoc| |exact Hh'].
    rewrite Harr. unfold handle_request. by destruct (_ && _).
Qed.
End requests.

(** * Property *)

Section properties.
Context `{Hickory} `{!Codecs} (clock : Clock).

(** At a moment of the program the counters are those of a reachable state of the process. *)
Lemma moment_system p acts l : life_steps (p_config p) clock (launch p) acts l ->
  exists acts' sys, steps (p_config p) clock (boot p) acts' sys /\ s_metrics sys = metrics_of l /\
    all_steps sys = all_steps (l_system l).
Proof.
  intros Hs. destruct (life_steps_process _ _ _ _ _ Hs (boot p)) as (sys & [_ Hr] & Hsteps); [done|].
  exists (process_actions acts), sys. split; [done|]. unfold metrics_of, all_steps.
  destruct (l_result l); by rewrite Hr.
Qed.

Lemma moments_advance p acts1 l1 acts2 l2 : life_steps (p_config p) clock (launch p) acts1 l1 ->
  life_steps (p_config p) clock l1 acts2 l2 ->
  exists l, all_steps (l_system l2) ≡ₚ all_steps (l_system l1) ++ l.
Proof.
  intros Hs1 Hs2. destruct (life_steps_process _ _ _ _ _ Hs1 (boot p)) as (sys1 & Hr1 & _); [done|].
  destruct (life_steps_process _ _ _ _ _ Hs2 sys1 Hr1) as (sys2 & [_ Hr2] & Hsteps). destruct Hr1 as [_ Hr1].
  destruct (steps_advanced _ _ _ _ _ Hsteps) as (st & _ & Hp). exists st. unfold all_steps in *.
  destruct (l_result l1), (l_result l2); by rewrite Hr1, Hr2.
Qed.

(** What the counters of a program that was started are at each moment. *)
Lemma moment_counters p t0 acts l : p_metrics p = Metrics_new t0 ->
  life_steps (p_config p) clock (launch p) acts l ->
  Forall recorded (all_steps (l_system l)) /\ 0 <= balance (all_steps (l_system l)) /\
  (forall c, c ≠ C_min_latency_us -> c ≠ C_max_latency_us -> additions c (all_steps (l_system l)) < 2 ^ 64 ->
     load c (metrics_of l) = additions c (all_steps (l_system l))) /\
  (forall t, countings t (all_steps (l_system l)) < 2 ^ 64 ->
     default 0 (query_types (metrics_of l) !! t) = countings t (all_steps (l_system l))).
Proof.
  intros Hm Hs. destruct (moment_system _ _ _ Hs) as (acts' & sys & Hsteps & <- & <-).
  destruct (all_steps_recorded _ _ (boot p) acts' sys eq_refl Hsteps) as [Hr Hb]. split_and!; [done|done| |].
  - intros c Hmin Hmax Hlt. by apply (counters_exact (p_config p) clock t0 (boot p) acts').
  - intros t Hlt. by apply (types_exact (p_config p) clock t0 (boot p) acts').
Qed.

(** Later moments count more. *)
Lemma counters_grow p t0 acts1 l1 acts2 l2 : p_metrics p = Metrics_new t0 ->
  life_steps (p_config p) clock (launch p) acts1 l1 -> life_steps (p_config p) clock l1 acts2 l2 ->
  (forall c, additions c (all_steps (l_system l1)) <= additions c (all_steps (l_system l2))) /\
  (forall t, countings t (all_steps (l_system l1)) <= countings t (all_steps (l_system l2))) /\
  (forall s, s ∈ all_steps (l_system l1) -> s ∈ all_steps (l_system l2)).
Proof.
  intros Hm Hs1 Hs2. destruct (moments_advance _ _ _ _ _ Hs1 Hs2) as (st & Hp).
  destruct (moment_counters p t0 _ l2 Hm (life_steps_app _ _ _ _ _ _ _ Hs1 Hs2)) as (Hr & _).
  rewrite Hp in Hr. apply Forall_app in Hr as [_ Hr]. split_and!.
  - intros c. pose proof (additions_nonneg c st Hr). unfold additions in *. rewrite Hp, fmap_app, sum_app. lia.
  - intros t. pose proof (countings_nonneg t st). unfold countings in *. rewrite Hp, fmap_app, sum_app. lia.
  - intros s Hin. rewrite Hp. apply elem_of_app. by left.
Qed.

(** The types that are counted are those of the tasks' steps. *)
Lemma moment_types p t0 acts l t : p_metrics p = Metrics_new t0 ->
  life_steps (p_config p) clock (launch p) acts l -> is_Some (query_types (metrics_of l) !! t) ->
  CountType t ∈ all_steps (l_system l).
Proof.
  intros Hm Hs. destruct (moment_system _ _ _ Hs) as (acts' & sys & Hsteps & <- & <-).
  destruct (steps_advanced _ _ _ _ _ Hsteps) as (st & -> & Hp). cbn [boot s_metrics all_steps s_tasks] in *.
  rewrite Hm, Hp. intros [[? Ht]|Ht]%types_recorded; [done|]. cbn. exact Ht.
Qed.

(** The moment of a load of a finished snapshot. *)
Lemma snapshot_moment acts2 l1 l r k config : handled config clock acts2 l1 l r ->
  length (r_loads r) = snapshot_loads -> (k < snapshot_loads)%nat ->
  exists lm, moment config clock acts2 l1 lm l /\ at_of (r_loads r) k = metrics_of lm.
Proof.
  intros [Hl _] Hlen Hk. rewrite <- Hlen in Hk. apply lookup_lt_is_Some_2 in Hk as [m Hm].
  unfold at_of. rewrite Hm. apply Hl. by eapply list_elem_of_lookup_2.
Qed.

Lemma moment_start p t0 acts l : p_metrics p = Metrics_new t0 ->
  life_steps (p_config p) clock (launch p) acts l -> start_time (metrics_of l) = t0.
Proof.
  intros Hm Hs. destruct (moment_system _ _ _ Hs) as (acts' & sys & Hsteps & <- & _).
  destruct (steps_advanced _ _ _ _ _ Hsteps) as (st & -> & _). rewrite start_time_run_steps.
  cbn [boot s_metrics]. by rewrite Hm.
Qed.

(** A counter between two moments of a run, if it has not wrapped around at the later one. *)
Lemma load_grows p t0 acts1 l1 acts2 l2 c : p_metrics p = Metrics_new t0 ->
  life_steps (p_config p) clock (launch p) acts1 l1 -> life_steps (p_config p) clock l1 acts2 l2 ->
  c ≠ C_min_latency_us -> c ≠ C_max_latency_us -> additions c (all_steps (l_system l2)) < 2 ^ 64 ->
  load c (metrics_of l1) <= load c (metrics_of l2).
Proof.
  intros Hm Hs1 Hs2 Hmin Hmax Hlt. destruct (counters_grow _ _ _ _ _ _ Hm Hs1 Hs2) as (Hg & _). specialize (Hg c).
  destruct (moment_counters _ _ _ _ Hm Hs1) as (_ & _ & Hl1 & _).
  destruct (moment_counters _ _ _ _ Hm (life_steps_app _ _ _ _ _ _ _ Hs1 Hs2)) as (_ & _ & Hl2 & _).
  rewrite Hl1, Hl2 by (done || lia). done.
Qed.

Lemma type_grows p t0 acts1 l1 acts2 l2 t : p_metrics p = Metrics_new t0 ->
  life_steps (p_config p) clock (launch p) acts1 l1 -> life_steps (p_config p) clock l1 acts2 l2 ->
  countings t (all_steps (l_system l2)) < 2 ^ 64 ->
  default 0 (query_types (metrics_of l1) !! t) <= default 0 (query_types (metrics_of l2) !! t).
Proof.
  intros Hm Hs1 Hs2 Hlt. destruct (counters_grow _ _ _ _ _ _ Hm Hs1 Hs2) as (_ & Hg & _). specialize (Hg t).
  destruct (moment_counters _ _ _ _ Hm Hs1) as (_ & _ & _ & Hl1).
  destruct (moment_counters _ _ _ _ Hm (life_steps_app _ _ _ _ _ _ _ Hs1 Hs2)) as (_ & _ & _ & Hl2).
  rewrite Hl1, Hl2 by lia. done.
Qed.

(** C26 (invariant): at every moment of the program each counter, and the count of each query type,
    is exactly the sum of what all tasks so far have added to it, tasks that are still running or have
    failed included: no update is lost, however they interleave.  And then the queries over UDP and
    TCP are no more than the total, in between two steps of a task too.  (No counter has reached
    2^64; the least and the greatest latency are no sums.) *)
Theorem counters_sum_tasks (p : Started) (t0 : Instant) (acts : list LifeAction) (l : Life) :
  p_metrics p = Metrics_new t0 -> life_steps (p_config p) clock (launch p) acts l ->
  (forall c, additions c (all_steps (l_system l)) < 2 ^ 64) ->
  (forall t, countings t (all_steps (l_system l)) < 2 ^ 64) ->
  (forall c, c ≠ C_min_latency_us -> c ≠ C_max_latency_us ->
     load c (metrics_of l) = sum ((fun t => additions c (t_steps t)) <$> s_tasks (l_system l))) /\
  (forall ty, default 0 (query_types (metrics_of l) !! ty) =
     sum ((fun t => countings ty (t_steps t)) <$> s_tasks (l_system l))) /\
  udp_queries (metrics_of l) + tcp_queries (metrics_of l) <= total_queries (metrics_of l).
Proof.
  intros Hm Hs Hadd Hcnt. destruct (moment_counters _ _ _ _ Hm Hs) as (_ & Hb & Hl & Ht). split_and!.
  - intros c Hmin Hmax. rewrite Hl by done. unfold all_steps.
    induction (s_tasks (l_system l)) as [|t ts IH]; [done|].
    cbn [fmap list_fmap concat]. rewrite additions_app, IH. done.
  - intros ty. rewrite Ht by done. unfold all_steps.
    induction (s_tasks (l_system l)) as [|t ts IH]; [done|].
    cbn [fmap list_fmap concat]. rewrite countings_app, IH. done.
  - unfold balance in Hb. rewrite <- !Hl in Hb by done. cbn [load] in Hb. lia.
Qed.

(** C27 (bounds): a GET request for /metrics to the running program, whatever the tasks, signals and
    other requests do meanwhile.  Every counter in its answer, also those per query type, lies between
    what the counter was when the request arrived and what it is now.  The reported uptime is the whole
    seconds from the start of the metrics to the clock at a moment since the arrival, and the queries
    per second are the reported total by the reported uptime, rounded down, or 0 in the first second;
    the numbers of one answer may belong to different moments.  (No counter has reached 2^64, and no two types share their text.) *)
Theorem report_between (p : Started) (t0 : Instant) (acts : list LifeAction) (l : Life) (i : nat)
    (r : Request) (resp : option Json) :
  p_metrics p = Metrics_new t0 -> life_steps (p_config p) clock (launch p) acts l ->
  l_requests l !! i = Some r -> r_path r = lit "/metrics" -> r_response r = Some resp ->
  (forall c, additions c (all_steps (l_system l)) < 2 ^ 64) ->
  (forall t, countings t (all_steps (l_system l)) < 2 ^ 64) ->
  (forall t t', CountType t ∈ all_steps (l_system l) -> record_type_debug t = record_type_debug t' -> t = t') ->
  exists acts1 l1 acts2 j, acts = acts1 ++ acts2 /\
    life_steps (p_config p) clock (launch p) acts1 l1 /\ life_steps (p_config p) clock l1 acts2 l /\
    l_requests l1 !! i = Some (arrived (r_path r)) /\ resp = Some j /\
    Forall (fun '(path, c) => exists n, json_number path j = Some n /\
              load c (metrics_of l1) <= n <= load c (metrics_of l)) reported /\
    (forall t, default 0 (query_types (metrics_of l1) !! t) <=
               json_count ["query_types"%string] (record_type_debug t) j <=
               default 0 (query_types (metrics_of l) !! t)) /\
    exists lm now uptime total, moment (p_config p) clock acts2 l1 lm l /\ shows clock lm now /\
      uptime = as_secs (duration_since now t0) /\
      json_number ["uptime_seconds"]%string j = Some uptime /\
      json_number ["queries"; "total"]%string j = Some total /\
      json_number ["performance"; "qps"]%string j = Some (if 0 <? uptime then total / uptime else 0).
Proof.
  intros Hm Hs Hi Hp Hr Hadd Hcnt Hinj.
  destruct (request_handled (p_config p) clock (launch p) acts l eq_refl Hs i r Hi) as (_ & acts1 & l1 & acts2 & -> & Hs1 & Hs2 & Harr & Hh).
  destruct (handled_response _ _ _ _ _ r Hh resp Hr) as (lnow & now & Hmom & Hnow & -> & Hlen). specialize (Hlen Hp).
  pose proof (fun k Hk => snapshot_moment acts2 l1 l r k _ Hh Hlen Hk) as Hat. clear Hh. rewrite Hp.
  assert (forall c k, c ≠ C_min_latency_us -> c ≠ C_max_latency_us -> (k < snapshot_loads)%nat ->
    load c (metrics_of l1) <= load c (at_of (r_loads r) k) <= load c (metrics_of l)) as Hb.
  { intros c k Hmin Hmax Hk. destruct (Hat k Hk) as (lm & (acts3 & acts4 & -> & Hs3 & Hs4) & ->).
    split; [eapply load_grows; [exact Hm|exact Hs1|exact Hs3|done|done|]
           |eapply load_grows; [exact Hm|by eapply life_steps_app|exact Hs4|done|done|done]].
    destruct (counters_grow _ _ _ _ _ _ Hm (life_steps_app _ _ _ _ _ _ _ Hs1 Hs3) Hs4) as (Hg & _).
    specialize (Hg c). specialize (Hadd c). lia. }
  assert (forall t k, (k < snapshot_loads)%nat -> default 0 (query_types (metrics_of l1) !! t) <=
      default 0 (query_types (at_of (r_loads r) k) !! t) <= default 0 (query_types (metrics_of l) !! t)) as Ht.
  { intros t k Hk. destruct (Hat k Hk) as (lm & (acts3 & acts4 & -> & Hs3 & Hs4) & ->).
    split; [eapply type_grows; [exact Hm|exact Hs1|exact Hs3|]
           |eapply type_grows; [exact Hm|by eapply life_steps_app|exact Hs4|done]].
    destruct (counters_grow _ _ _ _ _ _ Hm (life_steps_app _ _ _ _ _ _ _ Hs1 Hs3) Hs4) as (_ & Hg & _).
    specialize (Hg t). specialize (Hcnt t). lia. }
  eexists acts1, l1, acts2, _. split_and!; [done|done|done|by rewrite <- Hp|reflexivity|..].
  - unfold reported. repeat (apply List.Forall_cons || apply List.Forall_nil);
      (eexists; split; [reflexivity|]; unfold take_snapshot; cbn [s_total_queries s_udp_queries s_tcp_queries
         s_edns_queries s_noerror_responses s_nxdomain_responses s_servfail_responses s_refused_responses
         s_formerr_responses s_rate_limited s_errors]; apply Hb; (done || (unfold snapshot_loads; lia))).
  - intros t. rewrite json_count_types, query_type_counts_lookup.
    + apply Ht. unfold snapshot_loads. lia.
    + unfold take_snapshot; cbn [s_query_types]. intros t' Ht' Heq. apply Hinj; [|done].
      destruct (Hat 13%nat) as (lm & (acts3 & acts4 & -> & Hs3 & Hs4) & Em); [unfold snapshot_loads; lia|].
      rewrite Em in Ht'.
      pose proof (life_steps_app _ _ _ _ _ _ _ Hs1 Hs3) as Hsm.
      destruct (counters_grow _ _ _ _ _ _ Hm Hsm Hs4) as (_ & _ & Hg). apply Hg.
      by eapply moment_types.
  - destruct (Hat 18%nat) as (lm & (acts3 & acts4 & Ha & Hs3 & Hs4) & Em); [unfold snapshot_loads; lia|].
    exists lnow, now. do 2 eexists. split; [done|]. split; [done|]. split; [|done].
    unfold take_snapshot; cbn [s_uptime].
    by rewrite Em, (moment_start _ _ _ _ Hm (life_steps_app _ _ _ _ _ _ _ Hs1 Hs3)).
Qed.
End properties.

(** * Witnesses *)

Lemma countings_length t l : countings t l <= Z.of_nat (length l).
Proof.
  induction l as [|s l IH]; [done|]. change (countings t (s :: l)) with (counted t s + countings t l).
  cbn [length]. assert (counted t s <= 1) by (destruct s; cbn; try case_decide; lia). lia.
Qed.

(** The types among some steps. *)
Definition types_of (l : list Step) : list RecordType.t :=
  omap (fun s => match s with CountType t => Some t | _ => None end) l.

Lemma types_of_spec t l : CountType t ∈ l <-> t ∈ types_of l.
Proof.
  unfold types_of. rewrite list_elem_of_omap. split; [intros Ht; by exists (CountType t)|].
  intros ([| | |t'] & Hin & [= ->]). done.
Qed.

Section witnesses.
Import Concrete.

Lemma counted_additions c : additions c (all_steps (l_system (after_life whole_life))) < 2 ^ 64.
Proof. destruct c; vm_compute; reflexivity. Qed.

Lemma counted_countings t : countings t (all_steps (l_system (after_life whole_life))) < 2 ^ 64.
Proof. eapply Z.le_lt_trans; [apply countings_length|]. vm_compute. reflexivity. Qed.

Lemma counted_types t : CountType t ∈ (all_steps (l_system (after_life whole_life))) -> t = RecordType.A.
Proof.
  rewrite types_of_spec. assert (types_of (all_steps (l_system (after_life whole_life))) = [RecordType.A; RecordType.A]) as -> by (by vm_compute).
  rewrite !elem_of_cons, elem_of_nil. by intros [|[|[]]].
Qed.

Definition life_request : Request :=
  default (arrived []) (l_requests (after_life whole_life) !! 0%nat).

Lemma report_between_witness :
  let l := after_life whole_life in
  exists acts1 l1 acts2 j, whole_life = acts1 ++ acts2 /\
    life_steps (p_config started_api) test_life_clock (launch started_api) acts1 l1 /\
    life_steps (p_config started_api) test_life_clock l1 acts2 l /\
    l_requests l1 !! 0%nat = Some (arrived (r_path life_request)) /\ default None (r_response life_request) = Some j /\
    Forall (fun '(path, c) => exists n, json_number path j = Some n /\
              load c (metrics_of l1) <= n <= load c (metrics_of l)) reported /\
    (forall t, default 0 (query_types (metrics_of l1) !! t) <=
               json_count ["query_types"%string] (record_type_debug t) j <=
               default 0 (query_types (metrics_of l) !! t)) /\
    exists lm now uptime total, moment (p_config started_api) test_life_clock acts2 l1 lm l /\
      shows test_life_clock lm now /\ uptime = as_secs (duration_since now 0) /\
      json_number ["uptime_seconds"]%string j = Some uptime /\
      json_number ["queries"; "total"]%string j = Some total /\
      json_number ["performance"; "qps"]%string j = Some (if 0 <? uptime then total / uptime else 0).
Proof.
  apply (report_between test_life_clock started_api 0 whole_life (after_life whole_life) 0 life_request).
  - vm_compute. reflexivity.
  - exact whole_life_steps.
  - vm_compute. reflexivity.
  - vm_compute. reflexivity.
  - vm_compute. reflexivity.
  - exact counted_additions.
  - exact counted_countings.
  - intros t t' ->%counted_types. apply debug_a.
Defined.

Lemma counters_sum_tasks_witness :
  let l := after_life whole_life in
  (forall c, c ≠ C_min_latency_us -> c ≠ C_max_latency_us ->
     load c (metrics_of l) = sum ((fun t => additions c (t_steps t)) <$> s_tasks (l_system l))) /\
  (forall ty, default 0 (query_types (metrics_of l) !! ty) =
     sum ((fun t => countings ty (t_steps t)) <$> s_tasks (l_system l))) /\
  udp_queries (metrics_of l) + tcp_queries (metrics_of l) <= total_queries (metrics_of l).
Proof.
  apply (counters_sum_tasks test_life_clock started_api 0 whole_life (after_life whole_life));
    [vm_compute; reflexivity|exact whole_life_steps|exact counted_additions|exact counted_countings].
Defined.

(** The answer, read while a query is counted in the total and not yet for its protocol. *)
Example whole_life_report :
  let j := default (JNumber 0) (default None (r_response life_request)) in
  (fun path => json_number path j) <$>
    [["uptime_seconds"]; ["queries"; "total"]; ["queries"; "tcp"]; ["queries"; "udp"]; ["responses"; "formerr"];
     ["errors"]]%string = Some <$> [5; 1; 0; 0; 1; 1].
Proof. vm_compute. reflexivity. Qed.
End witnesses.
