(* ===== verification/Conversation.v ===== *)
(** A TCP connection of the running process, at any moment: what its client has been sent is, message
    by message, what it should be sent for what it has asked, in that order, and no more than the
    beginning of one more message.  A monitor of the handler that keeps the conversation so far.
    Requires [Monitor]. *)
From S2P Require Import Prelude RustTime RustStr HashMap Crates CratesModel Zone Fixtures Protocol RateLimit.
From S2P Require Import Metrics Config Effects ServerIO Server ServerFacts ServerProps Main MainProps.
From S2P Require Import Tasks TasksFacts TasksProps TasksLive Monitor.
Open Scope Z_scope.

(** * What the client is to be sent *)

Section replies.
Context `{Hickory} `{!Codecs}.

(** The messages for a query within the rate limit, from a zone store. *)
Definition answers_from (zones : ZoneStore) (query : Message) : list Message :=
  match axfr_question query with
  | Some question =>
      match find_zone zones (query_name question) with
      | Some zone => axfr_message query question <$> get_all_records zone
      | None =>
          [add_query question (error_response ResponseCode.Refused (set_id (message_id query) message_new))]
      end
  | None => match process_query zones query with Ok response => [response] | _ => [] end
  end.

(** A message of the client with what came of it: its length in two bytes, what the limiter said and
    the zone store that was read, if it has come to that, and the bytes of the replies so far. *)
Record Round := {
  rd_len : list Z;
  rd_msg : list Z;
  rd_within : option bool;
  rd_store : option ZoneStore;
  rd_replies : list (list Z)
}.

(** What is to be sent in a round. *)
Definition expected (r : Round) : list Message :=
  match message_from_bytes (rd_msg r) with
  | None =>
      match set_id_from (rd_msg r) message_new with
      | Ok response => [error_response ResponseCode.FormErr response]
      | _ => []
      end
  | Some query =>
      match rd_within r with
      | Some true => match rd_store r with Some zones => answers_from zones query | None => [] end
      | Some false => [error_response ResponseCode.Refused (set_id (message_id query) message_new)]
      | None => []
      end
  end.

(** [buf] may be sent next. *)
Definition next_reply (r : Round) (buf : list Z) : Prop :=
  exists m, expected r !! length (rd_replies r) = Some m /\ message_to_bytes m = Some buf.

(** The replies so far are the encodings of the first expected messages; a round is complete when
    they are all of them and the limiter and the store were asked for whatever they depend on. *)
Definition replied (r : Round) : Prop :=
  Forall2 (fun m buf => message_to_bytes m = Some buf)
    (take (length (rd_replies r)) (expected r)) (rd_replies r).
Definition decided (r : Round) : Prop :=
  forall query, message_from_bytes (rd_msg r) = Some query ->
    is_Some (rd_within r) /\ (rd_within r = Some true -> is_Some (rd_store r)).
Definition complete (r : Round) : Prop :=
  replied r /\ length (rd_replies r) = length (expected r) /\ decided r.

(** The connection goes on after a query that was answered, and only then. *)
Definition goes_on (r : Round) : Prop :=
  complete r /\ length (rd_replies r) = 1%nat /\ rd_within r = Some true /\
  exists query, message_from_bytes (rd_msg r) = Some query /\ axfr_question query = None.

(** The length announces the message, which is not empty. *)
Definition framed_round (r : Round) : Prop :=
  exists b0 b1, rd_len r = [b0; b1] /\ u16_from_be_bytes b0 b1 ≠ 0 /\
    length (rd_msg r) = Z.to_nat (u16_from_be_bytes b0 b1).

Definition reply (r : Round) (buf : list Z) : Round :=
  {| rd_len := rd_len r; rd_msg := rd_msg r; rd_within := rd_within r; rd_store := rd_store r;
     rd_replies := rd_replies r ++ [buf] |}.

Lemma replied_reply r buf : replied r -> next_reply r buf -> replied (reply r buf).
Proof.
  intros Hr (m & Hm & Hb). unfold replied. change (expected (reply r buf)) with (expected r). cbn.
  rewrite length_app, Nat.add_1_r, (take_S_r _ _ _ Hm). apply Forall2_app; [exact Hr|by constructor].
Qed.

(** * The monitor *)

(** Where the conversation is: before a message, after its length, in a round (the length of a reply
    may have been written), or at its end, with the round that a write which fails or stays pending has cut short. *)
Inductive Phase :=
  | Idle
  | HasLength (len : list Z)
  | Answering (r : Round) (header : option (list Z))
  | Over (r : option Round).

Record Conversation := { c_rounds : list Round; c_phase : Phase }.

Definition in_phase (c : Conversation) (p : Phase) : Conversation :=
  {| c_rounds := c_rounds c; c_phase := p |}.

Definition header_of (buf : list Z) : list Z := u16_to_be_bytes (wrap 16 (len buf)).

(** The rounds when the next message is read. *)
Definition closed (c : Conversation) : list Round :=
  match c_phase c with Answering r _ => c_rounds c ++ [r] | _ => c_rounds c end.

Definition may_read (max : Z) (c : Conversation) : Prop :=
  Z.of_nat (length (closed c)) < max /\
  match c_phase c with Idle => True | Answering r None => goes_on r | _ => False end.

Definition may_write (c : Conversation) (buf : list Z) : Prop :=
  match c_phase c with
  | Answering r None => exists b, next_reply r b /\ buf = header_of b
  | Answering r (Some header) => next_reply r buf /\ header = header_of buf
  | _ => False
  end.

Definition note_limit (within : bool) (r : Round) : Round :=
  {| rd_len := rd_len r; rd_msg := rd_msg r; rd_within := Some within; rd_store := rd_store r;
     rd_replies := rd_replies r |}.
Definition note_store (zones : ZoneStore) (r : Round) : Round :=
  {| rd_len := rd_len r; rd_msg := rd_msg r; rd_within := rd_within r; rd_store := Some zones;
     rd_replies := rd_replies r |}.

(** The limiter and the store are asked once in a round, before any reply. *)
Definition may_note (c : Conversation) : Prop :=
  match c_phase c with Answering r None => rd_replies r = [] | _ => False end.

Definition noted (f : Round -> Round) (c : Conversation) : Conversation :=
  match c_phase c with Answering r None => in_phase c (Answering (f r) None) | _ => c end.

Definition conversing (max : Z) : Monitor Conversation := {|
  accepts R cmd c :=
    match cmd with
    | CNow | CAtomic _ => True
    | CLimit _ => may_note c
    | CStore _ => may_note c
    | CSend _ => False
    | CWrite buf => may_write c buf
    | CRead (Some _) n => n = 2%nat /\ may_read max c
    | CRead None n =>
        match c_phase c with
        | HasLength len => exists b0 b1, len !! 0%nat = Some b0 /\ len !! 1%nat = Some b1 /\
            u16_from_be_bytes b0 b1 ≠ 0 /\ n = Z.to_nat (u16_from_be_bytes b0 b1)
        | _ => False
        end
    end;
  advance R cmd :=
    match cmd with
    | CNow => fun _ c => c
    | CAtomic _ => fun _ c => c
    | CLimit _ => fun within c => noted (note_limit within) c
    | CStore _ => fun zones c => noted (note_store zones) c
    | CSend _ => fun _ c => c
    | CWrite buf => fun ok c =>
        match c_phase c with
        | Answering r header =>
            in_phase c
              (match ok, header with
               | WriteOk, None => Answering r (Some buf)
               | WriteOk, Some _ => Answering (reply r buf) None
               | _, _ => Over (Some r)
               end)
        | _ => c
        end
    | CRead (Some _) _ => fun result c =>
        {| c_rounds := closed c;
           c_phase := match result with ReadOk len => HasLength len | _ => Over None end |}
    | CRead None _ => fun result c =>
        match c_phase c, result with
        | HasLength len, ReadOk msg =>
            in_phase c (Answering {| rd_len := len; rd_msg := msg; rd_within := None; rd_store := None;
                                     rd_replies := [] |} None)
        | _, _ => in_phase c (Over None)
        end
    end
|}.
End replies.

(** * The handler obeys it *)

Section handler.
Context `{Hickory} `{!Codecs} (max : Z).

Abbreviation wpc p J c := (wp (conversing max) p (okpost J) c) (only parsing).

(** Steps that the monitor does not look at. *)
Lemma wpc_record call J c : J tt c -> wpc (record (Effects := prog_effects) call) J c.
Proof. intros Hj. by apply wp_record_same. Qed.

Lemma wpc_now J c : (forall t, J t c) -> wpc (now (Effects := prog_effects)) J c.
Proof. intros Hj. split; [done|]. exact Hj. Qed.

Lemma wpc_elapsed start J c : J tt c -> wpc (record_elapsed prog_effects start) J c.
Proof.
  intros Hj. unfold record_elapsed. apply wp_ok_bind, wpc_now. intros t. by apply wpc_record.
Qed.

Lemma wpc_lift {A} (o : outcome A) J c : (forall a, o = Ok a -> J a c) -> wpc (lift (Effects := prog_effects) o) J c.
Proof. intros Hj. cbn. destruct o; cbn; auto. Qed.

Lemma wpc_encode ctx m J c : (forall buf, message_to_bytes m = Some buf -> J buf c) -> wpc (encode prog_effects ctx m) J c.
Proof.
  intros Hj. unfold encode. apply wpc_lift. intros buf Hb. apply Hj.
  by rewrite with_context_ok, of_option_ok in Hb.
Qed.

Lemma wpc_first_type q J c : J tt c -> wpc (record_first_type prog_effects q) J c.
Proof. intros Hj. unfold record_first_type. destruct (head _); [by apply wpc_record|exact Hj]. Qed.

(** A state in a round. *)
Definition answering (rounds : list Round) (r : Round) : Conversation :=
  {| c_rounds := rounds; c_phase := Answering r None |}.

Lemma wpc_limit addr J rounds r : rd_replies r = [] ->
  (forall within, J within (answering rounds (note_limit within r))) ->
  wpc (within_rate_limit (Effects := prog_effects) addr) J (answering rounds r).
Proof. intros Hr Hj. split; [done|]. exact Hj. Qed.

Lemma wpc_store g J rounds r : rd_replies r = [] ->
  (forall zones, J zones (answering rounds (note_store zones r))) ->
  wpc (read_store (Effects := prog_effects) g) J (answering rounds r).
Proof. intros Hr Hj. split; [done|]. exact Hj. Qed.

(** A reply that is due. *)
Lemma wpc_framed buf J rounds r : next_reply r buf -> J tt (answering rounds (reply r buf)) ->
  wpc (send_framed prog_effects buf) J (answering rounds r).
Proof.
  intros Hn Hj. unfold send_framed. apply wp_ok_bind. apply wp_write; [by exists buf| |done|done].
  cbn [okpost]. apply wp_write; [done|exact Hj|done|done].
Qed.

(** Encoding and sending a message that is due. *)
Lemma wpc_send {B} ctx m (f : unit -> prog B) J rounds r :
  expected r !! length (rd_replies r) = Some m ->
  (forall buf, message_to_bytes m = Some buf -> wpc (f tt) J (answering rounds (reply r buf))) ->
  wpc (buf ← encode prog_effects ctx m; u ← send_framed prog_effects buf; f u) J (answering rounds r).
Proof.
  intros He Hf. apply wp_ok_bind, wpc_encode. intros buf Hb. apply wp_ok_bind, wpc_framed.
  - exists m. done.
  - by apply Hf.
Qed.

(** ** Zone transfers *)

Lemma wpc_records query question rs J rounds : forall r, replied r ->
  drop (length (rd_replies r)) (expected r) = axfr_message query question <$> rs ->
  decided r -> (forall r', complete r' -> J tt (answering rounds r')) ->
  wpc (send_records prog_effects query question rs) J (answering rounds r).
Proof.
  induction rs as [|rec rs IH]; intros r Hr Hd Hdec Hj; cbn [send_records].
  - apply Hj. split; [done|]. split; [|done]. cbn in Hd.
    assert (length (rd_replies r) <= length (expected r))%nat.
    { apply Forall2_length in Hr. rewrite length_take in Hr. lia. }
    apply (f_equal length) in Hd. rewrite length_drop in Hd. cbn in Hd. lia.
  - cbn in Hd.
    assert (expected r !! length (rd_replies r) = Some (axfr_message query question rec)) as He.
    { rewrite <- (Nat.add_0_r (length (rd_replies r))), <- lookup_drop, Hd. done. }
    apply wpc_send; [done|]. intros buf Hb. apply IH.
    + apply replied_reply; [done|]. by eexists.
    + change (expected (reply r buf)) with (expected r). cbn. rewrite length_app. cbn.
      rewrite <- drop_drop, Hd. done.
    + exact Hdec.
    + exact Hj.
Qed.

(** ** A message *)

(** What a message leaves: its round is complete, and the handler goes on only if it may. *)
Definition round_done (rounds : list Round) (continue : bool) (c : Conversation) : Prop :=
  exists r, c = answering rounds r /\ complete r /\ (continue = true -> goes_on r).

(** A round that has just got its only reply. *)
Lemma complete_one r m buf : rd_replies r = [] -> expected r = [m] -> message_to_bytes m = Some buf ->
  decided r -> complete (reply r buf).
Proof.
  intros Hr He Hb Hd. unfold complete, replied. change (expected (reply r buf)) with (expected r).
  cbn. rewrite Hr, He. split; [|done]. cbn. by repeat constructor.
Qed.

(** Within the limit and with a zone store, the round is decided. *)
Lemma decided_store zones r : rd_within r = Some true -> decided (note_store zones r).
Proof. intros Hw query _. cbn. rewrite Hw. by split; intros; eexists. Qed.

Lemma wpc_axfr start query question rounds r :
  rd_replies r = [] -> message_from_bytes (rd_msg r) = Some query -> rd_within r = Some true ->
  axfr_question query = Some question ->
  wpc (answer_axfr prog_effects start query question)
    (fun _ c => exists r', c = answering rounds r' /\ complete r') (answering rounds r).
Proof.
  intros Hr Hq Hw Ha. unfold answer_axfr. apply wp_ok_bind, wpc_store; [done|]. intros zones.
  assert (expected (note_store zones r) = answers_from zones query) as He.
  { unfold expected. cbn. by rewrite Hq, Hw. }
  unfold answers_from in He. rewrite Ha in He. destruct (find_zone zones (query_name question)) as [zone|].
  - apply wp_ok_bind. apply wpc_records.
    + unfold replied. cbn. rewrite Hr. constructor.
    + cbn. by rewrite Hr, He, drop_0.
    + by apply decided_store.
    + intros r' Hc. apply wp_ok_bind, wpc_record. apply wpc_elapsed. by exists r'.
  - apply wpc_send.
    + cbn. by rewrite Hr, He.
    + intros buf Hb. apply wp_ok_bind, wpc_record, wpc_elapsed. eexists. split; [done|].
      eapply complete_one; [done|exact He|exact Hb|by apply decided_store].
Qed.

Lemma wpc_query start query rounds r :
  rd_replies r = [] -> message_from_bytes (rd_msg r) = Some query -> rd_within r = Some true ->
  wpc (answer_tcp_query prog_effects start query) (round_done rounds) (answering rounds r).
Proof.
  intros Hr Hq Hw. unfold answer_tcp_query. apply wp_ok_bind, wpc_record, wp_ok_bind, wpc_first_type.
  destruct (axfr_question query) as [question|] eqn:Ha.
  - apply wp_ok_bind. eapply wp_ok_mono; [|by eapply wpc_axfr]. intros [] c (r' & -> & Hc).
    by exists r'.
  - apply wp_ok_bind. unfold run_query. apply wp_ok_bind, wpc_store; [done|]. intros zones.
    assert (expected (note_store zones r) = answers_from zones query) as He.
    { unfold expected. cbn. by rewrite Hq, Hw. }
    unfold answers_from in He. rewrite Ha in He.
    destruct (process_query zones query) as [response|e|]; [| |done].
    + cbn [lift wp okpost prog_effects]. apply wpc_send; [cbn; by rewrite Hr, He|].
      intros buf Hb. pose proof (complete_one (note_store zones r) _ _ Hr He Hb (decided_store _ _ Hw)) as Hc.
      apply wp_ok_bind, wpc_record, wp_ok_bind, wpc_elapsed.
      eexists. split; [done|]. split; [exact Hc|]. intros _. split; [exact Hc|]. cbn. rewrite Hr.
      split_and!; [done|done|]. by exists query.
    + apply wp_ok_bind, wpc_record, wp_ok_bind, wpc_elapsed. done.
Qed.

Lemma wpc_message addr start rounds len msg :
  wpc (answer_tcp_message prog_effects addr start msg) (round_done rounds)
    (answering rounds {| rd_len := len; rd_msg := msg; rd_within := None; rd_store := None; rd_replies := [] |}).
Proof.
  unfold answer_tcp_message. destruct (message_from_bytes msg) as [query|] eqn:Hq.
  - apply wp_ok_bind, wpc_limit; [done|]. intros [].
    + by apply wpc_query.
    + cbn [negb]. apply wp_ok_bind, wpc_record, wp_ok_bind, wpc_record.
      apply wpc_send; [unfold expected; cbn; by rewrite Hq|]. intros buf Hb.
      apply wp_ok_bind, wpc_elapsed. eexists. split; [done|]. split; [|done].
      eapply complete_one; [done| |exact Hb|]; [unfold expected; cbn; by rewrite Hq|].
      intros query' _. split; [by eexists|done].
  - apply wp_ok_bind, wpc_record, wp_ok_bind, wpc_lift. intros response Hs.
    apply wp_ok_bind, wpc_record.
    apply wpc_send; [unfold expected; cbn; by rewrite Hq, Hs|]. intros buf Hb.
    apply wp_ok_bind, wpc_elapsed. eexists. split; [done|]. split; [|done].
    eapply complete_one; [done| |exact Hb|]; [unfold expected; cbn; by rewrite Hq, Hs|].
    intros query Hq'. cbn in Hq'. congruence.
Qed.

(** ** The connection *)

(** Nothing is owed to the client. *)
Definition settled (c : Conversation) : Prop :=
  match c_phase c with
  | Idle | HasLength _ | Over None => True
  | Answering r None => complete r
  | _ => False
  end.

(** Between two messages, [n] of them before. *)
Definition between (n : Z) (c : Conversation) : Prop :=
  Z.of_nat (length (closed c)) = n /\
  match c_phase c with Idle => True | Answering r None => goes_on r | _ => False end.

Lemma between_settled n c : between n c -> settled c.
Proof.
  unfold between, settled. intros [_ Hp]. destruct (c_phase c) as [| |r [h|]|]; try done. by destruct Hp.
Qed.

Lemma wpc_iteration addr t q c : between q c -> q < max ->
  wpc (tcp_iteration prog_effects addr t q)
    (fun continue c' => if continue : bool then between (q + 1) c' else settled c') c.
Proof.
  intros [Hn Hp] Hq. unfold tcp_iteration. apply wp_ok_bind, wpc_now. intros start.
  apply wp_ok_bind. split; [split; [done|split; [lia|done]]|]. intros res. cbn [wp okpost].
  destruct res as [len_buf| | | |]; cbn [advance conversing].
  - apply wp_ok_bind, wpc_lift. intros b0 Hb0%index_ok. apply wp_ok_bind, wpc_lift. intros b1 Hb1%index_ok.
    destruct ((u16_from_be_bytes b0 b1 =? 0) || _) eqn:E.
    + by apply wp_ok_bind, wpc_record.
    + apply orb_false_iff in E as [E _]. apply Z.eqb_neq in E.
      apply wp_ok_bind. split; [by exists b0, b1|]. intros res. cbn [wp okpost].
      destruct res as [msg| | | |]; cbn [advance conversing c_phase in_phase]; try done.
      eapply wp_ok_mono; [|apply wpc_message]. intros continue c' (r & -> & Hc & Hgo). cbn in *.
      destruct continue; [|exact Hc]. split; [|by apply Hgo]. unfold closed at 1. cbn.
      rewrite length_app. cbn. lia.
  - by apply wp_ok_bind, wpc_record.
  - by apply wp_ok_bind, wpc_record.
  - by apply wp_ok_bind, wpc_record, wp_ok_bind, wpc_record.
  - done.
Qed.

Lemma wpc_loop fuel addr t : forall q c, between q c ->
  wpc (tcp_loop prog_effects fuel addr t max q) (fun _ => settled) c.
Proof.
  induction fuel as [|fuel IH]; intros q c Hc; cbn [tcp_loop]; destruct (Z.leb_spec max q);
    try (apply wpc_record; by eapply between_settled); [done|].
  apply wp_ok_bind. eapply wp_ok_mono; [|by apply wpc_iteration]. intros [] c' Hc'; [by apply IH|exact Hc'].
Qed.
End handler.

Lemma wpc_connection `{Hickory} fuel addr cfg :
  wp (conversing (match cfg with Some c => max_queries_per_connection c | None => 100 end))
    (handle_tcp_connection prog_effects fuel addr cfg) (okpost (fun _ => settled))
    {| c_rounds := []; c_phase := Idle |}.
Proof.
  unfold handle_tcp_connection. apply wp_ok_bind, wpc_record. by apply wpc_loop.
Qed.

(** * What the monitor knows *)

Section knows.
Context `{Hickory} `{!Codecs} (max : Z) (seen : ZoneStore -> Prop).

Definition current (c : Conversation) : option Round :=
  match c_phase c with Answering r _ => Some r | Over r => r | _ => None end.
Definition rounds_of (c : Conversation) : list Round := c_rounds c ++ option_list (current c).

(** The bytes that were read. *)
Definition stream_of (c : Conversation) : list Z :=
  flat_map (fun r => rd_len r ++ rd_msg r) (rounds_of c)
  ++ match c_phase c with HasLength len => len | _ => [] end.

(** The beginning of one more reply. *)
Definition cut_of (c : Conversation) (cut : list Z) : Prop :=
  match c_phase c with
  | Answering r (Some header) => cut = header /\ exists b, next_reply r b /\ header = header_of b
  | Over (Some r) => exists b, next_reply r b /\ cut `prefix_of` concat (frame b)
  | _ => cut = []
  end.

Definition round_ok (r : Round) : Prop :=
  framed_round r /\ replied r /\ forall z, rd_store r = Some z -> seen z.

(** The messages that were read, the one whose length has been read included. *)
Definition messages_read (c : Conversation) : nat :=
  length (rounds_of c) + match c_phase c with HasLength _ => 1 | _ => 0 end.

Record knows_client (client : list Event) (t : Task) (c : Conversation) : Prop := {
  k_input : exists first rest, client = first ++ rest /\ received first = stream_of c /\
    match c_phase c with Over _ => True | _ => rest = t_input t end;
  k_output : exists cut, concat (t_out t) = concat (flat_map frame (flat_map rd_replies (rounds_of c))) ++ cut /\
    cut_of c cut;
  k_closed : Forall goes_on (c_rounds c);
  k_rounds : Forall round_ok (rounds_of c);
  k_count : Z.of_nat (messages_read c) <= Z.max 0 max;
  k_len : match c_phase c with HasLength len => length len = 2%nat | _ => True end
}.

Definition knows_conversation (t : Task) (c : Conversation) : Prop :=
  match t_origin t with FromConnection client _ => knows_client client t c | FromDatagram _ _ => False end.

(** A command that neither reads nor writes. *)
Lemma knows_same client t t' c : knows_client client t c -> t_input t' = t_input t ->
  concat (t_out t') = concat (t_out t) -> knows_client client t' c.
Proof. intros [] Hi Ho. split; rewrite ?Hi, ?Ho; done. Qed.

(** What the limiter or the store has said is noted before the first reply. *)
Lemma knows_noted client t c f :
  (forall r, rd_len (f r) = rd_len r /\ rd_msg (f r) = rd_msg r /\ rd_replies (f r) = rd_replies r) ->
  (forall r z, (rd_store r = Some z -> seen z) -> rd_store (f r) = Some z -> seen z) ->
  may_note c -> knows_client client t c -> knows_client client t (noted f c).
Proof.
  intros Hf Hz Hm [Hin Hout Hcl Hr Hc Hl]. unfold may_note, noted in *.
  destruct c as [rounds [| |r [h|]|]]; try done. cbn in Hm.
  destruct (Hf r) as (Hlen & Hmsg & Hrep). split; cbn.
  - destruct Hin as (first & rest & -> & Hst & ->). exists first, (t_input t). split_and!; [done| |done].
    rewrite Hst. unfold stream_of, rounds_of. cbn. by rewrite !flat_map_app, !app_nil_r, !flat_map_concat_map; cbn; rewrite Hlen, Hmsg.
  - destruct Hout as (cut & Ho & Hcut). exists cut. split; [|exact Hcut]. rewrite Ho.
    unfold rounds_of. cbn. rewrite !flat_map_app. cbn. by rewrite Hrep.
  - done.
  - unfold rounds_of in *. cbn in *. apply Forall_app in Hr as [Hr1 Hr2]. apply Forall_app. split; [done|].
    apply Forall_cons in Hr2 as [(Hfr & _ & Hs) _]. apply List.Forall_cons; [|constructor].
    split_and!.
    + unfold framed_round in *. by rewrite Hlen, Hmsg.
    + unfold replied. rewrite Hrep, Hm. constructor.
    + intros z Hz'. eapply Hz; [|exact Hz']. intros Hs'. by apply Hs.
  - revert Hc. unfold messages_read, rounds_of. cbn. by rewrite !length_app.
  - done.
Qed.

(** The frames of some rounds. *)
Definition frames_of (rounds : list Round) : list Z :=
  concat (flat_map frame (flat_map rd_replies rounds)).

Lemma frames_of_snoc rounds r : frames_of (rounds ++ [r]) = frames_of rounds ++ concat (flat_map frame (rd_replies r)).
Proof. unfold frames_of. by rewrite flat_map_app, flat_map_app, concat_app; cbn; rewrite app_nil_r. Qed.

Lemma frames_of_reply rounds r buf :
  frames_of (rounds ++ [reply r buf]) = frames_of (rounds ++ [r]) ++ header_of buf ++ buf.
Proof.
  rewrite !frames_of_snoc. cbn. rewrite flat_map_app, concat_app. cbn. by rewrite app_nil_r, app_assoc.
Qed.

(** In a round nothing changes but what was written. *)
Lemma knows_in_round client t t' rounds r r' h p cut : p = Answering r' h \/ p = Over (Some r') ->
  (r' = r \/ exists buf, r' = reply r buf /\ next_reply r buf) ->
  knows_client client t {| c_rounds := rounds; c_phase := Answering r h |} \/
  (exists h', knows_client client t {| c_rounds := rounds; c_phase := Answering r h' |}) ->
  t_input t' = t_input t -> concat (t_out t') = frames_of (rounds ++ [r']) ++ cut ->
  cut_of {| c_rounds := rounds; c_phase := p |} cut ->
  knows_client client t' {| c_rounds := rounds; c_phase := p |}.
Proof.
  intros Hp Hr' Hk Hi Ho Hcut.
  assert (exists h', knows_client client t {| c_rounds := rounds; c_phase := Answering r h' |}) as [h' Hk'] by naive_solver.
  clear Hk. destruct Hk' as [Hin Hout Hcl Hr Hc Hl]. clear Hout. unfold rounds_of in *. cbn in *.
  assert (rd_len r' = rd_len r /\ rd_msg r' = rd_msg r) as [Hlen Hmsg] by (by destruct Hr' as [->|(buf & -> & _)]).
  assert (rounds_of {| c_rounds := rounds; c_phase := p |} = rounds ++ [r']) as Hro by (by destruct Hp as [-> | ->]).
  split; rewrite ?Hro.
  - destruct Hin as (first & rest & -> & Hst & ->). exists first, (t_input t).
    split_and!; [done| |by destruct Hp as [-> | ->]; rewrite ?Hi].
    rewrite Hst. unfold stream_of. rewrite Hro. unfold rounds_of. cbn. rewrite !flat_map_app. cbn. rewrite Hlen, Hmsg.
    by destruct Hp as [-> | ->].
  - by exists cut.
  - done.
  - apply Forall_app in Hr as [Hr1 Hr2]. apply Forall_app. split; [done|].
    apply Forall_cons in Hr2 as [(Hfr & Hrp & Hs) _]. apply List.Forall_cons; [|constructor].
    destruct Hr' as [->|(buf & -> & Hn)]; [done|]. split_and!; [done|by apply replied_reply|done].
  - revert Hc. unfold messages_read. rewrite Hro. unfold rounds_of. cbn. rewrite !length_app.
    by destruct Hp as [-> | ->].
  - by destruct Hp as [-> | ->].
Qed.

(** What a write that does not go through leaves is the beginning of the frame. *)
Lemma cut_after_header r buf n : next_reply r buf ->
  exists b, next_reply r b /\ header_of buf ++ concat [take n buf] `prefix_of` concat (frame b).
Proof.
  intros Hn. exists buf. split; [done|].
  change (concat (frame buf)) with (header_of buf ++ buf ++ []).
  change (concat [take n buf]) with (take n buf ++ []). rewrite !app_nil_r. apply prefix_app, prefix_take.
Qed.

Lemma cut_in_header r b n : next_reply r b ->
  exists b', next_reply r b' /\ concat [take n (header_of b)] `prefix_of` concat (frame b').
Proof.
  intros Hn. exists b. split; [done|]. change (concat (frame b)) with (header_of b ++ b ++ []).
  change (concat [take n (header_of b)]) with (take n (header_of b) ++ []). rewrite app_nil_r.
  apply prefix_app_r, prefix_take.
Qed.

(** A write that succeeds, fails or stays pending. *)
Lemma knows_write client t t' c buf ok sent : may_write c buf -> knows_client client t c ->
  t_input t' = t_input t -> t_out t' = t_out t ++ sent ->
  match ok with WriteOk => sent = [buf] | _ => exists n, sent = [take n buf] end ->
  knows_client client t' (advance (conversing max) (CWrite buf) ok c).
Proof.
  intros Hw Hk Hi Ho Hs. cbn. unfold may_write in Hw.
  destruct c as [rounds [| |r header|]]; try done. cbn in *.
  destruct (k_output _ _ _ Hk) as (cut & Hout & Hcut). unfold rounds_of in Hout. cbn in Hout, Hcut.
  assert (concat (t_out t') = frames_of (rounds ++ [r]) ++ cut ++ concat sent) as Ho'.
  { by rewrite Ho, concat_app, Hout, <- app_assoc. }
  clear Ho Hout. unfold in_phase. cbn [c_rounds].
  destruct header as [h|].
  - destruct Hw as [Hn ->]. destruct Hcut as [-> _]. destruct ok; [|destruct Hs as [n ->]..].
    + eapply (knows_in_round client t t' rounds r (reply r buf) None _ []); [by left|right; eauto|by right; eauto|done| |done].
      subst. change (concat [buf]) with (buf ++ []) in Ho'. by rewrite frames_of_reply, Ho', !app_nil_r.
    + eapply (knows_in_round client t t' rounds r r None _); [by right|by left|by right; eauto|done|exact Ho'|].
      by apply cut_after_header.
    + eapply (knows_in_round client t t' rounds r r None _); [by right|by left|by right; eauto|done|exact Ho'|].
      by apply cut_after_header.
  - destruct Hw as (b & Hn & ->). rewrite Hcut in Ho'. cbn [app] in Ho'.
    destruct ok; [subst sent|destruct Hs as [n ->]..].
    + change (concat [header_of b]) with (header_of b ++ []) in Ho'. rewrite app_nil_r in Ho'.
      eapply (knows_in_round client t t' rounds r r (Some (header_of b)) _); [by left|by left|by right; eauto|done|exact Ho'|].
      split; [done|]. by exists b.
    + eapply (knows_in_round client t t' rounds r r None _); [by right|by left|by right; eauto|done|exact Ho'|].
      by apply cut_in_header.
    + eapply (knows_in_round client t t' rounds r r None _); [by right|by left|by right; eauto|done|exact Ho'|].
      by apply cut_in_header.
Qed.

(** The current round is over: it is one of the closed ones. *)
Lemma knows_closed client t c : may_read max c -> knows_client client t c ->
  knows_client client t {| c_rounds := closed c; c_phase := Idle |}.
Proof.
  intros [_ Hm] Hk. destruct c as [rounds [| |r [h|]|]]; try done; destruct Hk as [Hin Hout Hcl Hr Hc _];
  unfold closed, stream_of, messages_read, rounds_of in *; cbn in *;
  split; unfold stream_of, messages_read, rounds_of; cbn; rewrite ?app_nil_r in *; try done.
  all: try (apply Forall_app; by auto).
Qed.

(** The length of a message is read, or the connection is over. *)
Lemma knows_length client t t' rounds res timeout :
  Z.of_nat (length rounds) < max -> knows_client client t {| c_rounds := rounds; c_phase := Idle |} ->
  (res, t_input t') = read_events timeout 2 (t_input t) -> t_out t' = t_out t ->
  knows_client client t'
    {| c_rounds := rounds; c_phase := match res with ReadOk len => HasLength len | _ => Over None end |}.
Proof.
  intros Hm [Hin Hout Hcl Hr _ _] He Ho. unfold stream_of, messages_read, rounds_of in *. cbn in *.
  destruct Hin as (first & rest & -> & Hst & ->).
  destruct res as [len| | | |]; split; unfold stream_of, messages_read, rounds_of; cbn;
    rewrite ?Ho, ?app_nil_r in *; try done; try lia; try by exists first, (t_input t).
  all: symmetry in He; pose proof (read_events_ok _ _ _ _ _ He) as (Hl & next & Hi & Hf); try done.
  exists (first ++ next), (t_input t'). by rewrite received_app, Hst, Hf, <- app_assoc, Hi.
Qed.

(** A message is read, or the connection is over. *)
Lemma knows_message client t t' rounds b0 b1 res :
  u16_from_be_bytes b0 b1 ≠ 0 -> knows_client client t {| c_rounds := rounds; c_phase := HasLength [b0; b1] |} ->
  (res, t_input t') = read_events None (Z.to_nat (u16_from_be_bytes b0 b1)) (t_input t) -> t_out t' = t_out t ->
  knows_client client t'
    {| c_rounds := rounds;
       c_phase :=
         match res with
         | ReadOk msg => Answering {| rd_len := [b0; b1]; rd_msg := msg; rd_within := None; rd_store := None;
                                      rd_replies := [] |} None
         | _ => Over None
         end |}.
Proof.
  intros Hz [Hin Hout Hcl Hr Hc _] He Ho. unfold stream_of, messages_read, rounds_of in *. cbn in *.
  destruct Hin as (first & rest & -> & Hst & ->). symmetry in He.
  destruct res as [msg| | | |]; split; unfold stream_of, messages_read, rounds_of; cbn;
    rewrite ?length_app, ?flat_map_app, ?Ho, ?app_nil_r in *; try done; cbn; try lia;
    try (destruct (received_split first _ _ Hst) as (f1 & f2 & -> & Hf & _);
         exists f1, (f2 ++ t_input t); by rewrite <- app_assoc).
  all: pose proof (read_events_ok _ _ _ _ _ He) as (Hl & next & Hi & Hf).
  - exists (first ++ next), (t_input t'). split_and!; [by rewrite Hi, app_assoc| |done].
    by rewrite received_app, Hst, Hf, <- app_assoc, app_nil_r.
  - apply Forall_app. split; [done|]. apply List.Forall_cons; [|constructor].
    split; [by exists b0, b1|split; [constructor|done]].
Qed.

(** A read that succeeds or fails. *)
Lemma knows_read client t t' c timeout n res : accepts (conversing max) (CRead timeout n) c ->
  knows_client client t c -> (res, t_input t') = read_events timeout n (t_input t) -> t_out t' = t_out t ->
  knows_client client t' (advance (conversing max) (CRead timeout n) res c).
Proof.
  intros Ha Hk Hr Ho. destruct timeout as [timeout|].
  - destruct Ha as [-> Hm]. eapply knows_length; [apply Hm|by eapply knows_closed|exact Hr|exact Ho].
  - destruct c as [rounds [|len| |]]; try done. destruct Ha as (b0 & b1 & Hb0 & Hb1 & Hz & ->).
    pose proof (k_len _ _ _ Hk) as Hl. cbn in Hl. destruct len as [|x0 [|x1 []]]; try done.
    injection Hb0 as ->. injection Hb1 as ->.
    pose proof (knows_message _ _ _ _ _ _ _ Hz Hk Hr Ho) as Hk'. by destruct res.
Qed.

Lemma knows_conversation_step R (cmd : command R) a z t t' sent steps c :
  knows_conversation t c -> accepts (conversing max) cmd c -> t_origin t' = t_origin t ->
  t_out t' = t_out t ++ sent -> t_steps t' = t_steps t ++ steps -> seen z ->
  effect cmd a z (t_input t) (t_input t') sent steps ->
  knows_conversation t' (advance (conversing max) cmd a c).
Proof.
  unfold knows_conversation. intros Hk Hc Hor Hout _ Hz He. rewrite Hor.
  destruct (t_origin t) as [|client addr]; [done|].
  destruct cmd as [|s|addr'|guard|buf|buf|timeout n]; cbn [effect] in He.
  - destruct He as (Hi & -> & _). eapply knows_same; [exact Hk|done|]. by rewrite Hout, app_nil_r.
  - destruct He as (Hi & -> & _). eapply knows_same; [exact Hk|done|]. by rewrite Hout, app_nil_r.
  - destruct He as (Hi & -> & _). eapply knows_same; [|exact Hi|by rewrite Hout, app_nil_r].
    by apply knows_noted.
  - destruct He as (-> & Hi & -> & _). eapply knows_same; [|exact Hi|by rewrite Hout, app_nil_r].
    apply knows_noted; [done| |done|done]. intros r z' _ [= <-]. done.
  - destruct Hc.
  - destruct He as (Hi & _ & Hs). by eapply knows_write.
  - destruct He as (Hr & -> & _). eapply knows_read; [done|done|exact Hr|by rewrite Hout, app_nil_r].
Qed.
(** Before anything has happened. *)
Lemma knows_begin client addr prog :
  knows_conversation {| t_origin := FromConnection client addr; t_prog := prog;
                        t_input := client; t_out := []; t_steps := [] |} {| c_rounds := []; c_phase := Idle |}.
Proof.
  split; cbn; try done; [by exists [], client|by exists []|lia].
Qed.

(** * A connection of the running process *)

(** What a client that sent [client] has been sent, [out]: the replies of the rounds, each after its
    length, and [cut], which is the beginning of the next reply that is due. *)
Record conversation_so_far (client : list Event) (out : list Z) (rounds : list Round) (cut : list Z) : Prop := {
  so_asked : flat_map (fun r => rd_len r ++ rd_msg r) rounds `prefix_of` received client;
  so_sent : out = frames_of rounds ++ cut;
  so_cut : cut = [] \/ exists before r buf, rounds = before ++ [r] /\ next_reply r buf /\
    cut `prefix_of` concat (frame buf);
  so_rounds : Forall round_ok rounds;
  so_going : forall before r, rounds = before ++ [r] -> Forall goes_on before;
  so_count : Z.of_nat (length rounds) <= Z.max 0 max
}.

Lemma knows_so_far client t c : knows_client client t c ->
  exists cut, conversation_so_far client (concat (t_out t)) (rounds_of c) cut /\
    (settled c -> cut = [] /\ Forall complete (rounds_of c)).
Proof.
  intros [(first & rest & -> & Hf & _) (cut & Ho & Hcut) Hcl Hr Hc _]. exists cut. split; [split|]; try done.
  - rewrite received_app, Hf. unfold stream_of. by apply prefix_app_r, prefix_app_r.
  - unfold cut_of, rounds_of in *. destruct c as [rounds [| |r [h|]|[r|]]]; cbn in *; try by left.
    + destruct Hcut as (-> & b & Hn & ->). right. exists rounds, r, b. split_and!; [done|done|].
      by exists (b ++ []).
    + destruct Hcut as (b & Hn & Hp). right. by exists rounds, r, b.
  - intros before r He. unfold rounds_of in He. destruct (current c).
    + by apply app_inj_tail in He as [<- _].
    + cbn in He. rewrite app_nil_r in He. rewrite He in Hcl. by apply Forall_app in Hcl as [? _].
  - unfold messages_read in Hc. lia.
  - assert (Forall complete (c_rounds c)) as Hcc by (eapply Forall_impl; [exact Hcl|]; by intros ? [? _]).
    unfold cut_of, rounds_of in *. destruct c as [rounds [| |r [h|]|[r|]]]; cbn in *;
      rewrite ?app_nil_r; try done.
    intros Hs. split; [done|]. apply Forall_app. auto.
Qed.

End knows.

Section process.
Context `{Hickory} `{!Codecs} (clock : Clock).

(** The bound on the messages of a connection. *)
Definition query_bound (config : Config) : Z :=
  match tcp (server config) with Some c => max_queries_per_connection c | None => 100 end.

(** C12 (safety): at any moment of a run of the process, however its tasks interleave and whether or
    not the connection has ended, what a client of a TCP connection has been sent is, message by
    message and in the order of its messages, what is due to it: the replies to each message, each
    after its length, then at most the beginning of the next reply.  What is due is FORMERR for bytes
    that are no message, REFUSED over the rate limit, and otherwise the answer or all the records of
    the transfer, from a zone store in force while the task ran.  Only a query that was answered
    lets the connection go on; it never answers more messages than configured.  A task that has ended
    well owes nothing: every message it read whole is answered completely. *)
Theorem concurrent_tcp_conversation (p : Started) (acts : list Action) (sys : System) (i : nat) (t : Task)
    (client : list Event) (addr : IpAddr) :
  steps (p_config p) clock (boot p) acts sys -> s_tasks sys !! i = Some t ->
  t_origin t = FromConnection client addr ->
  exists l1 sys1 l2 rounds cut, acts = l1 ++ l2 /\
    steps (p_config p) clock (boot p) l1 sys1 /\ steps (p_config p) clock sys1 l2 sys /\
    conversation_so_far (query_bound (p_config p)) (in_force (p_config p) clock sys1 sys)
      client (concat (t_out t)) rounds cut /\
    (t_prog t = Return (Done (Ok tt)) -> cut = [] /\ Forall complete rounds).
Proof.
  intros Hs Hi Ho.
  destruct (task_started (p_config p) clock _ _ _ _ _ Hs ltac:(done) Hi) as (l1 & sys1 & l2 & Hl & Hs1 & Hs2 & Hf).
  rewrite Ho in Hf. exists l1, sys1, l2.
  assert (monitored (conversing (query_bound (p_config p)))
    (knows_conversation (query_bound (p_config p)) (in_force (p_config p) clock sys1 sys))
    (fun _ => okpost (fun _ => settled)) t) as (c & Hk & Hw).
  { eapply (monitored_steps (p_config p) clock _ (in_force (p_config p) clock sys1 sys));
      [| |exact Hs2|done|exact Hf|exact Hi|]; [|done|].
    - intros. by eapply knows_conversation_step.
    - eexists. split; [|exact (wpc_connection _ _ _)]. apply knows_begin. }
  unfold knows_conversation in Hk. rewrite Ho in Hk.
  destruct (knows_so_far _ _ _ _ _ Hk) as (cut & Hc & Hset). exists (rounds_of c), cut.
  split_and!; [done|done|done|done|]. intros Hr. apply Hset. by rewrite Hr in Hw.
Qed.
End process.

Section witnesses.
Import Concrete.

(** The connection among the tasks of [served]. *)
Lemma concurrent_tcp_conversation_witness :
  exists l1 sys1 l2 rounds cut, served = l1 ++ l2 /\
    steps (p_config started) test_run_clock (boot started) l1 sys1 /\
    steps (p_config started) test_run_clock sys1 l2 after_served /\
    conversation_so_far (query_bound (p_config started)) (in_force (p_config started) test_run_clock sys1 after_served)
      (map Byte ([0; 12] ++ query_bytes 1 0 0) ++ [Close]) (concat (t_out (task_of 1))) rounds cut /\
    (t_prog (task_of 1) = Return (Done (Ok tt)) -> cut = [] /\ Forall complete rounds).
Proof.
  apply (concurrent_tcp_conversation test_run_clock started served after_served 1 (task_of 1)
    (map Byte ([0; 12] ++ query_bytes 1 0 0) ++ [Close]) (V4 1)); [exact served_steps|vm_compute; reflexivity..].
Defined.
End witnesses.
