(* ===== verification/Testing.v ===== *)
(** What the repository's tests are written with: assertions, [unwrap], names from literals, temporary
    zone files.  A test is a computation that passes when it ends in [Ok tt].  Requires [Zone]. *)
From S2P Require Import Prelude RustStr HashMap Crates Zone.
Open Scope Z_scope.

(** [.unwrap()] of an [Option] and of a [Result] *)
Definition unwrap {A} (o : option A) : outcome A := match o with Some a => Ok a | None => Panic end.
Definition unwrap_result {A} (m : outcome A) : outcome A := match m with Err _ => Panic | _ => m end.

(** [.is_err()] *)
Definition is_err {A} (m : outcome A) : bool := match m with Err _ => true | _ => false end.

(** [assert!(b)] *)
Definition assert (b : bool) : outcome unit := if b then Ok tt else Panic.

(** [assert_eq!(a, b)] *)
Definition assert_eq {A} `{EqDecision A} (a b : A) : outcome unit := assert (bool_decide (a = b)).

(** [s.ends_with(p)] and [s.contains(p)] *)
Definition ends_with (p s : str) : bool := bool_decide (drop (length s - length p) s = p).
Definition contains (p s : str) : bool :=
  existsb (fun i => starts_with p (drop i s)) (seq 0 (S (length s))).

(** A literal with apostrophes for its double quotes. *)
Definition quoted (s : string) : str := map (fun c => if c =? 39 then c_quote else c) (lit s).

(** The content of a temporary file after [writeln!] of each line. *)
Definition written (lines : list str) : option str := Some (flat_map (fun l => l ++ [c_newline]) lines).

Section names.
Context `{Hickory}.

(** [Name::from_str(s).unwrap()]; also [Name::from_utf8], which reads a name in ASCII alike. *)
Definition from_str (s : str) : outcome Name := unwrap (name_from_str s).

(** The SOA data that the tests give to a zone with the given host and mail names. *)
Definition test_soa (mname rname : str) (serial : Z) : outcome SoaRecord :=
  mname ← from_str mname;
  rname ← from_str rname;
  Ok {| mname := mname; rname := rname; serial := serial; refresh := 7200; retry := 3600;
        expire := 1209600; minimum := 86400 |}.

(** [zone.lookup(&Name::from_str(name).unwrap(), rtype)] *)
Definition lookup_text (zone : Zone) (name : string) (rtype : RecordType.t)
    : outcome (option (list DnsRecord)) :=
  name ← from_str (lit name);
  Ok (zone_lookup zone name rtype).

(** [records.unwrap().len()] *)
Definition len_of (records : option (list DnsRecord)) : outcome nat := length <$> unwrap records.

(** [if let Some(rdata) = records.unwrap()\[0\].data() { check(rdata) }] *)
Definition first_data (records : option (list DnsRecord)) (check : RData.t -> outcome unit) : outcome unit :=
  records ← unwrap records;
  record ← index records 0;
  match record_data record with
  | Some rdata => check rdata
  | None => Ok tt
  end.

(** [matches!(rdata, RData::DNSSEC(_))] *)
Definition is_dnssec (rdata : RData.t) : bool := match rdata with RData.DNSSEC _ => true | _ => false end.

(** [if let RData::A(a) = rdata { assert_eq!(a.0, addr) }] *)
Definition check_a (addr : Ipv4Addr) (rdata : RData.t) : outcome unit :=
  match rdata with
  | RData.A a => assert_eq a addr
  | _ => Ok tt
  end.
End names.
