(* ===== verification/Proptests.v ===== *)
(** The property tests of the repository: the generators of [src/src/proptest_helpers.rs] as sets of
    values, and the tests of [zone.rs] and [protocol.rs] as functions of the generated values.
    [ProptestsProps] proves for every value what the tests try on some.  Requires [Zone] and
    [Protocol]. *)
From S2P Require Import Prelude RustStr HashMap Crates Zone Testing Protocol ZonePrint.
Open Scope Z_scope.

(** * The generators of the proptest crate

    A strategy is the set of what it can generate: a value, or a panic of the code inside it. *)

Definition Strategy (A : Type) : Type := outcome A -> Prop.

Section strategies.
Context {A B : Type}.

(** [Just(a)] *)
Definition Just (a : A) : Strategy A := fun o => o = Ok a.

(** [any::<A>()] of a type whose values are those that satisfy [valid]. *)
Definition any (valid : A -> Prop) : Strategy A := fun o => exists a, o = Ok a /\ valid a.

(** [s.prop_map(f)] *)
Definition prop_map (f : A -> outcome B) (s : Strategy A) : Strategy B := fun o => exists o', s o' /\ o = o' ≫= f.

(** [s.prop_filter(reason, p)] *)
Definition prop_filter (p : A -> bool) (s : Strategy A) : Strategy A :=
  fun o => s o /\ match o with Ok a => p a = true | _ => True end.

(** [prop_oneof!\[...\]] *)
Definition prop_oneof (l : list (Strategy A)) : Strategy A := fun o => exists s, s ∈ l /\ s o.

(** [prop::collection::vec(s, low..=high)] *)
Definition vec (s : Strategy A) (low high : nat) : Strategy (list A) :=
  fun o => exists os, (low <= length os <= high)%nat /\ Forall s os /\
    o = foldr (fun x l => a ← x; l' ← l; Ok (a :: l')) (Ok []) os.

(** A tuple of strategies. *)
Definition both (s1 : Strategy A) (s2 : Strategy B) : Strategy (A * B) :=
  fun o => exists o1 o2, s1 o1 /\ s2 o2 /\ o = (a ← o1; b ← o2; Ok (a, b)).
End strategies.

(** [prop::char::range(low, high)] and the integer range [low..=high] *)
Definition between (low high : Z) : Strategy Z := any (fun z => low <= z <= high).

Definition any_u (w : Z) : Strategy Z := any (in_u w).
Definition any_bool : Strategy bool := any (fun _ => True).

(** [\[u8; n\]] *)
Definition any_bytes (n : nat) : Strategy (list Z) := any (fun bs => length bs = n /\ Forall (in_u 8) bs).

(** A test run on what a strategy generates passes: nothing panics and no assertion fails. *)
Definition passes {A} (s : Strategy A) (test : A -> outcome unit) : Prop := forall o, s o -> o ≫= test = Ok tt.

(** [prop_assert!] and [prop_assert_eq!] *)
Definition prop_assert (b : bool) : outcome unit := if b then Ok tt else Err EForeign.

(** * proptest_helpers.rs *)

Section helpers.
Context `{Hickory}.

Definition arb_dns_label : Strategy str :=
  prop_filter (fun s => negb (bool_decide (s = [])))
    (prop_map Ok (vec (between 97 122) 1 63)).

(** [format!("{}.", labels.join("."))] *)
Definition fqdn_of (labels : list str) : str := str_join [c_dot] labels ++ [c_dot].

Definition arb_dns_name : Strategy Name :=
  prop_map (fun labels => unwrap (name_from_str (fqdn_of labels)))
    (prop_filter (fun labels => bool_decide (length (fqdn_of labels) <= 253)%nat)
       (vec arb_dns_label 1 4)).

Definition arb_record_type : Strategy RecordType.t :=
  prop_oneof [Just RecordType.A; Just RecordType.AAAA; Just RecordType.NS; Just RecordType.CNAME;
              Just RecordType.MX; Just RecordType.TXT; Just RecordType.SOA; Just RecordType.PTR;
              Just RecordType.SRV; Just RecordType.CAA].

(** [Ipv4Addr::from(\[u8; 4\])] and [Ipv6Addr::from(\[u8; 16\])] *)
Definition ipv4_from (bs : list Z) : outcome Ipv4Addr :=
  match bs with [a; b; c; d] => Ok (a, b, c, d) | _ => Panic end.
Fixpoint groups_from (bs : list Z) : Ipv6Addr :=
  match bs with
  | a :: b :: bs => u16_from_be_bytes a b :: groups_from bs
  | _ => []
  end.

Definition arb_ipv4 : Strategy Ipv4Addr := prop_map ipv4_from (any_bytes 4).
Definition arb_ipv6 : Strategy Ipv6Addr := prop_map (fun bs => Ok (groups_from bs)) (any_bytes 16).

Definition arb_a_record (name : Name) : Strategy DnsRecord :=
  prop_map (fun ip => Ok (record_from_rdata name 3600 (RData.A ip))) arb_ipv4.

Definition arb_aaaa_record (name : Name) : Strategy DnsRecord :=
  prop_map (fun ip => Ok (record_from_rdata name 3600 (RData.AAAA ip))) arb_ipv6.

Definition arb_ns_record (name : Name) : Strategy DnsRecord :=
  prop_map (fun ns_name => Ok (record_from_rdata name 3600 (RData.NS ns_name))) arb_dns_name.

Definition arb_cname_record (name : Name) : Strategy DnsRecord :=
  prop_map (fun target => Ok (record_from_rdata name 3600 (RData.CNAME target))) arb_dns_name.

Definition arb_txt_record (name : Name) : Strategy DnsRecord :=
  prop_map (fun text => Ok (record_from_rdata name 3600 (RData.TXT [text]))) (vec (between 97 122) 1 255).

Definition arb_record (name : Name) : Strategy DnsRecord :=
  prop_oneof [arb_a_record name; arb_aaaa_record name; arb_ns_record name; arb_cname_record name;
              arb_txt_record name].

Definition arb_query_message : Strategy Message :=
  prop_map
    (fun '(id, name, rtype) =>
       let msg := message_new in
       let msg := set_id id msg in
       let msg := set_message_type MessageType.Query msg in
       let msg := set_op_code OpCode.Query msg in
       Ok (add_query (query_query name rtype) msg))
    (both (both (any_u 16) arb_dns_name) arb_record_type).

Definition arb_recursion_desired : Strategy bool := any_bool.

Definition arb_ttl : Strategy Z :=
  prop_oneof [Just 60; Just 300; Just 3600; Just 86400; between 0 2147483647].
End helpers.

(** * The property tests of zone.rs *)

Section zone_tests.
Context `{Hickory}.

(** The empty zone the tests begin with. *)
Definition example_zone (serial : Z) : outcome Zone :=
  origin ← from_str (lit "example.com.");
  soa ← test_soa (lit "ns1.example.com.") (lit "admin.example.com.") serial;
  Ok (Zone_new origin soa).

Definition a_1 : RData.t := RData.A (192, 0, 2, 1).

Definition is_one (records : option (list DnsRecord)) : outcome unit :=
  prop_assert (bool_decide (is_Some records));;
  records ← unwrap records;
  prop_assert (bool_decide (length records = 1)%nat).

Definition prop_add_and_lookup_record_consistent '(name, ttl) : outcome unit :=
  zone ← example_zone 1;
  let record := record_from_rdata name ttl a_1 in
  let zone := add_record zone record in
  is_one (zone_lookup zone name RecordType.A).

Definition prop_lookup_nonexistent_name_returns_none (name : Name) : outcome unit :=
  zone ← example_zone 1;
  prop_assert (bool_decide (zone_lookup zone name RecordType.A = None)).

Definition prop_contains_name_after_add (name : Name) : outcome unit :=
  zone ← example_zone 1;
  let zone := add_record zone (record_from_rdata name 3600 a_1) in
  prop_assert (contains_name zone name).

Definition prop_multiple_records_same_name_different_types (name : Name) : outcome unit :=
  zone ← example_zone 1;
  let zone := add_record zone (record_from_rdata name 3600 a_1) in
  let zone := add_record zone (record_from_rdata name 3600 (RData.AAAA [8193; 3512; 0; 0; 0; 0; 0; 1])) in
  let a_result := zone_lookup zone name RecordType.A in
  let aaaa_result := zone_lookup zone name RecordType.AAAA in
  prop_assert (bool_decide (is_Some a_result));;
  prop_assert (bool_decide (is_Some aaaa_result));;
  a_result ← unwrap a_result;
  prop_assert (bool_decide (length a_result = 1)%nat);;
  aaaa_result ← unwrap aaaa_result;
  prop_assert (bool_decide (length aaaa_result = 1)%nat).

(** [format!("...zone{}.com.", i)] *)
Definition zone_text (prefix : string) (i : Z) : str := lit prefix ++ lit "zone" ++ show_num i ++ lit ".com.".

(** [0..n] *)
Definition below (n : Z) : list Z := Z.of_nat <$> seq 0 (Z.to_nat n).

Definition prop_zone_store_find_zone_consistency (zone_count : Z) : outcome unit :=
  store ← for_each
    (fun store i =>
       origin ← from_str (zone_text "" i);
       soa ← test_soa (zone_text "ns1." i) (zone_text "admin." i) 1;
       Ok (add_zone store (Zone_new origin soa)))
    (below zone_count) ZoneStore_new;
  for_each
    (fun (_ : unit) i =>
       query_name ← from_str (zone_text "www." i);
       prop_assert (bool_decide (is_Some (find_zone store query_name))))
    (below zone_count) tt;;
  nonexistent ← from_str (lit "www.nonexistent.com.");
  prop_assert (bool_decide (find_zone store nonexistent = None)).

Definition prop_wildcard_does_not_match_exact_name (wildcard_suffix : str) : outcome unit :=
  zone ← example_zone 1;
  wildcard_name ← from_str (lit "*." ++ wildcard_suffix ++ lit ".example.com.");
  let zone := add_record zone (record_from_rdata wildcard_name 3600 (RData.A (192, 0, 2, 100))) in
  specific_name ← from_str (lit "www." ++ wildcard_suffix ++ lit ".example.com.");
  let zone := add_record zone (record_from_rdata specific_name 3600 (RData.A (192, 0, 2, 10))) in
  let exact_result := zone_lookup zone specific_name RecordType.A in
  prop_assert (bool_decide (is_Some exact_result));;
  match exact_result with
  | Some records =>
      record ← index records 0;
      match record_data record with
      | Some (RData.A a) => prop_assert (bool_decide (a = (192, 0, 2, 10)))
      | _ => Ok tt
      end
  | None => Ok tt
  end.

Definition prop_soa_record_always_retrievable (serial : Z) : outcome unit :=
  origin ← from_str (lit "example.com.");
  zone ← example_zone serial;
  let soa_record := get_soa_record zone in
  prop_assert (key_eqb (record_name soa_record) origin);;
  prop_assert (bool_decide (record_record_type soa_record = RecordType.SOA)).

Definition prop_record_ttl_preserved '(name, ttl) : outcome unit :=
  zone ← example_zone 1;
  let zone := add_record zone (record_from_rdata name ttl a_1) in
  match zone_lookup zone name RecordType.A with
  | Some records =>
      record ← index records 0;
      prop_assert (bool_decide (record_ttl record = ttl))
  | None => Ok tt
  end.
End zone_tests.

(** * The property tests of protocol.rs *)

Section protocol_tests.
Context `{Hickory}.

(** The store with the zone that the tests of [protocol.rs] share ([create_test_zone]). *)
Definition test_zone : outcome Zone :=
  origin ← from_str (lit "example.com.");
  soa ← test_soa (lit "ns1.example.com.") (lit "admin.example.com.") 2025120601;
  let zone := Zone_new origin soa in
  www ← from_str (lit "www.example.com.");
  let zone := add_record zone (record_from_rdata www 3600 a_1) in
  ns1 ← from_str (lit "ns1.example.com.");
  Ok (add_record zone (record_from_rdata origin 3600 (RData.NS ns1))).

Definition processor : outcome ZoneStore :=
  zone ← test_zone;
  Ok (add_zone ZoneStore_new zone).

(** [processor.process_query(&query).await.unwrap()] *)
Definition process (query : Message) : outcome Message :=
  store ← processor;
  unwrap_result (process_query store query).

Definition www_query : outcome Query :=
  name ← from_str (lit "www.example.com.");
  Ok (query_query name RecordType.A).

(** The query of the tests: an identifier and an opcode. *)
Definition query_with (query_id : Z) (op_code : OpCode.t) : Message :=
  let query := message_new in
  let query := set_id query_id query in
  let query := set_message_type MessageType.Query query in
  set_op_code op_code query.

Definition prop_query_id_matches_response (query_id : Z) : outcome unit :=
  question ← www_query;
  response ← process (add_query question (query_with query_id OpCode.Query));
  prop_assert (bool_decide (message_id response = query_id)).

Definition prop_response_is_always_response_type (query_id : Z) : outcome unit :=
  question ← www_query;
  response ← process (add_query question (query_with query_id OpCode.Query));
  prop_assert (bool_decide (v_message_type (message_view response) = MessageType.Response)).

Definition prop_recursion_desired_flag_copied (rd : bool) : outcome unit :=
  question ← www_query;
  let query := set_recursion_desired rd (query_with 1234 OpCode.Query) in
  response ← process (add_query question query);
  prop_assert (bool_decide (message_recursion_desired response = rd));;
  prop_assert (negb (v_recursion_available (message_view response))).

Definition prop_authoritative_for_configured_zones (name : Name) : outcome unit :=
  let fqdn := name_to_string name in
  let is_in_zone := ends_with (lit "example.com.") fqdn in
  let query := set_id 1 message_new in
  response ← process (add_query (query_query name RecordType.A) query);
  if is_in_zone then prop_assert (message_authoritative response)
  else prop_assert (bool_decide (message_response_code response = ResponseCode.Refused)).

Definition prop_empty_query_returns_formerr (query_id : Z) : outcome unit :=
  response ← process (query_with query_id OpCode.Query);
  prop_assert (bool_decide (message_response_code response = ResponseCode.FormErr)).

Definition prop_unsupported_opcode_returns_notimp (query_id : Z) : outcome unit :=
  question ← www_query;
  response ← process (add_query question (query_with query_id OpCode.Update));
  prop_assert (bool_decide (message_response_code response = ResponseCode.NotImp)).

Definition prop_response_has_question_section '(name, rtype) : outcome unit :=
  let query := set_id 1 message_new in
  response ← process (add_query (query_query name rtype) query);
  if bool_decide (message_response_code response = ResponseCode.FormErr) then Ok tt
  else
    prop_assert (bool_decide (length (message_queries response) = 1)%nat);;
    match head (message_queries response) with
    | Some q =>
        prop_assert (key_eqb (query_name q) name);;
        prop_assert (bool_decide (query_query_type q = rtype))
    | None => Ok tt
    end.

Definition prop_dnssec_ok_flag_preserved (dnssec_ok : bool) : outcome unit :=
  question ← www_query;
  let query := add_query question (set_id 1 message_new) in
  let edns := edns_new in
  let edns := edns_set_max_payload 4096 edns in
  let edns := edns_set_dnssec_ok dnssec_ok edns in
  let query := set_edns edns query in
  response ← process query;
  match message_extensions response with
  | Some response_edns => prop_assert (bool_decide (edns_dnssec_ok response_edns = dnssec_ok))
  | None => Ok tt
  end.
End protocol_tests.
