(* ===== verification/ProptestsProps.v ===== *)
(** The property tests of the repository hold for every value their generators can make, with one
    exception: the test that decides by the text of a name whether a zone is responsible for it. *)
From S2P Require Import Prelude RustStr HashMap Crates CratesModel Zone ZoneFacts ZoneStoreFacts.
From S2P Require Import Protocol ProtocolFacts ZonePrint Testing Proptests.
Open Scope Z_scope.

(** * What a strategy generates *)

Definition generates {A} (s : Strategy A) (P : A -> Prop) : Prop := forall o, s o -> exists a, o = Ok a /\ P a.

Lemma passes_generates {A} (s : Strategy A) P test :
  generates s P -> (forall a, P a -> test a = Ok tt) -> passes s test.
Proof. intros Hs Ht o Ho. destruct (Hs o Ho) as (a & -> & Ha). by apply Ht. Qed.

Lemma generates_any {A} (P : A -> Prop) : generates (any P) P.
Proof. intros o (a & -> & Ha). by exists a. Qed.

Lemma generates_just {A} (a : A) (P : A -> Prop) : P a -> generates (Just a) P.
Proof. intros Ha o ->. by exists a. Qed.

Lemma generates_map {A B} (f : A -> outcome B) s (P : A -> Prop) (Q : B -> Prop) :
  generates s P -> (forall a, P a -> exists b, f a = Ok b /\ Q b) -> generates (prop_map f s) Q.
Proof. intros Hs Hf o (o' & Ho & ->). destruct (Hs o' Ho) as (a & -> & Ha). by apply Hf. Qed.

Lemma generates_filter {A} p (s : Strategy A) P :
  generates s P -> generates (prop_filter p s) (fun a => P a /\ p a = true).
Proof. intros Hs o [Ho Hp]. destruct (Hs o Ho) as (a & -> & Ha). by exists a. Qed.

Lemma generates_oneof {A} (l : list (Strategy A)) P :
  Forall (fun s => generates s P) l -> generates (prop_oneof l) P.
Proof. intros Hl o (s & Hs & Ho). rewrite Forall_forall in Hl. by apply (Hl s). Qed.

Lemma generates_both {A B} (s1 : Strategy A) (s2 : Strategy B) P Q :
  generates s1 P -> generates s2 Q -> generates (both s1 s2) (fun x => P x.1 /\ Q x.2).
Proof.
  intros H1' H2' o (o1 & o2 & Ho1 & Ho2 & ->). destruct (H1' o1 Ho1) as (a & -> & Ha).
  destruct (H2' o2 Ho2) as (b & -> & Hb). by exists (a, b).
Qed.

Lemma generates_vec {A} (s : Strategy A) low high P :
  generates s P -> generates (vec s low high) (fun l => (low <= length l <= high)%nat /\ Forall P l).
Proof.
  intros Hs o (os & Hlen & Hos & ->).
  assert (exists l, foldr (fun x l => a ← x; l' ← l; Ok (a :: l')) (Ok []) os = Ok l /\
                    length l = length os /\ Forall P l) as (l & -> & Hl & HP).
  { clear Hlen. induction Hos as [|x os Hx _ (l & Hl & Hlen & HP)]; [by exists []|]. cbn. rewrite Hl.
    destruct (Hs x Hx) as (a & -> & Ha). exists (a :: l). cbn. split_and!; [done|congruence|by constructor]. }
  exists l. by rewrite Hl.
Qed.

(** * Names *)

Section names.
Context `{Hickory} `{!TextLaws}.

Definition named (n : Name) (ls : list str) : Prop :=
  name_iter n = ls /\ name_is_fqdn n = true /\ name_to_string n = dotted ls.

Definition host_label (l : str) : Prop := (1 <= length l <= 63)%nat /\ Forall (fun c => 97 <= c <= 122) l.

Lemma from_str_dotted s ls :
  s = dotted ls -> plain_labels ls = true -> exists n, Testing.from_str s = Ok n /\ named n ls.
Proof.
  intros -> Hls. destruct (name_from_dotted ls Hls) as (n & Hn & ? & ? & ?).
  exists n. unfold Testing.from_str. by rewrite Hn.
Qed.

Lemma host_label_plain l : host_label l -> plain_label l = true.
Proof.
  intros [Hlen Hall]. unfold plain_label. apply orb_true_iff. right. rewrite bool_decide_eq_true_2 by done.
  apply forallb_forall. intros c Hc%list_elem_of_In. rewrite Forall_forall in Hall.
  specialize (Hall c Hc). unfold is_host_char. lia.
Qed.

Lemma plain_labels_intro ls :
  ls ≠ [] -> Forall (fun l => plain_label l = true) ls -> (length (dotted ls) <= 254)%nat -> plain_labels ls = true.
Proof.
  intros Hne Hall Hlen. unfold plain_labels. rewrite bool_decide_eq_false_2, bool_decide_eq_true_2 by done.
  assert (forallb plain_label ls = true) as ->; [|done].
  apply forallb_forall. intros l Hl%list_elem_of_In. rewrite Forall_forall in Hall. by apply Hall.
Qed.

Lemma generates_label : generates arb_dns_label host_label.
Proof.
  unfold arb_dns_label. intros o Ho. apply (generates_filter _ _ host_label) in Ho as (l & -> & Hl & _);
    [by exists l|].
  eapply generates_map; [apply generates_vec, generates_any|]. intros l Hl. by exists l.
Qed.

(** The names that are generated: one to four labels of lower case letters. *)
Definition generated_name (n : Name) : Prop :=
  exists ls, (1 <= length ls <= 4)%nat /\ Forall host_label ls /\ named n ls.

Lemma generates_name : generates arb_dns_name generated_name.
Proof.
  unfold arb_dns_name. eapply generates_map; [apply generates_filter, generates_vec, generates_label|].
  intros ls [[Hlen Hls] Hf%bool_decide_eq_true]. destruct ls as [|l ls]; [cbn in Hlen; lia|].
  unfold fqdn_of in *. rewrite <- dotted_join in *.
  destruct (from_str_dotted (dotted (l :: ls)) (l :: ls)) as (n & Hn & Hnamed); [done| |].
  - apply plain_labels_intro; [done| |lia]. eapply Forall_impl; [exact Hls|]. intros ?. apply host_label_plain.
  - exists n. split; [exact Hn|]. by exists (l :: ls).
Qed.
End names.

(** A literal name of a test. *)
Ltac name_of text ls n H Hn :=
  destruct (from_str_dotted (lit text) ls eq_refl ltac:(vm_compute; reflexivity)) as (n & H & Hn).

(** * The tests of zone.rs *)

Section zone_tests.
Context `{Hickory} `{!NameLaws} `{!RecordLaws} `{!TextLaws}.

Lemma example_zone_ok serial :
  exists o s, example_zone serial = Ok (Zone_new o s) /\ named o [lit "example"; lit "com"].
Proof.
  unfold example_zone, test_soa. name_of "example.com." [lit "example"; lit "com"] o Ho Hn.
  name_of "ns1.example.com." [lit "ns1"; lit "example"; lit "com"] m Hm Hnm.
  name_of "admin.example.com." [lit "admin"; lit "example"; lit "com"] r Hr Hnr.
  rewrite Ho, Hm, Hr. cbn [mbind outcome_bind]. eauto.
Qed.

(** The zone of a test, with the records that were added to it. *)
Lemma lookup_added o s rs n t : zone_lookup (fold_left add_record rs (Zone_new o s)) n t = lookup_spec rs n t.
Proof. apply lookup_of_list. Qed.

Lemma matches_self n ttl d t :
  rdata_record_type d = t -> matches n t (record_from_rdata n ttl d) = true.
Proof.
  intros Ht. unfold matches, owned_by. rewrite record_name_from, record_type_from, key_eqb_refl, Ht.
  by rewrite bool_decide_eq_true_2.
Qed.

Lemma matches_other_type n ttl d n' t :
  rdata_record_type d ≠ t -> matches n' t (record_from_rdata n ttl d) = false.
Proof. intros Ht. unfold matches. rewrite record_type_from, (bool_decide_eq_false_2 _ Ht). apply andb_false_r. Qed.

Lemma one_a_record o s n ttl d t :
  rdata_record_type d = t ->
  zone_lookup (add_record (Zone_new o s) (record_from_rdata n ttl d)) n t = Some [record_from_rdata n ttl d].
Proof.
  intros Ht. change (add_record (Zone_new o s) (record_from_rdata n ttl d))
    with (fold_left add_record [record_from_rdata n ttl d] (Zone_new o s)).
  rewrite lookup_added. unfold lookup_spec. cbn. by rewrite matches_self.
Qed.

Lemma add_and_lookup_holds x : prop_add_and_lookup_record_consistent x = Ok tt.
Proof.
  destruct x as [n ttl]. unfold prop_add_and_lookup_record_consistent.
  destruct (example_zone_ok 1) as (o & s & -> & _). cbn [mbind outcome_bind].
  by rewrite one_a_record by apply rdata_type_a.
Qed.

Lemma lookup_nonexistent_holds n : prop_lookup_nonexistent_name_returns_none n = Ok tt.
Proof.
  unfold prop_lookup_nonexistent_name_returns_none. by destruct (example_zone_ok 1) as (o & s & -> & _).
Qed.

Lemma contains_after_add_holds n : prop_contains_name_after_add n = Ok tt.
Proof.
  unfold prop_contains_name_after_add. destruct (example_zone_ok 1) as (o & s & -> & _). cbn [mbind outcome_bind].
  rewrite contains_name_add_record. unfold owned_by. by rewrite record_name_from, key_eqb_refl.
Qed.

Lemma multiple_records_hold n : prop_multiple_records_same_name_different_types n = Ok tt.
Proof.
  unfold prop_multiple_records_same_name_different_types. destruct (example_zone_ok 1) as (o & s & -> & _).
  cbn [mbind outcome_bind].
  set (r1 := record_from_rdata n 3600 a_1). set (r2 := record_from_rdata n 3600 _).
  change (add_record (add_record (Zone_new o s) r1) r2) with (fold_left add_record [r1; r2] (Zone_new o s)).
  rewrite !lookup_added. unfold lookup_spec. cbn [List.filter]. subst r1 r2.
  rewrite (matches_self n 3600 a_1 RecordType.A), (matches_other_type _ _ (RData.AAAA _) _ RecordType.A),
    (matches_other_type _ _ a_1 _ RecordType.AAAA), (matches_self _ _ (RData.AAAA _) RecordType.AAAA);
    unfold a_1; rewrite ?rdata_type_a, ?rdata_type_aaaa; done.
Qed.

Lemma soa_retrievable_holds serial : prop_soa_record_always_retrievable serial = Ok tt.
Proof.
  unfold prop_soa_record_always_retrievable, example_zone.
  name_of "example.com." [lit "example"; lit "com"] o Ho Hn. rewrite Ho. cbn [mbind outcome_bind].
  unfold test_soa. name_of "ns1.example.com." [lit "ns1"; lit "example"; lit "com"] m Hm Hnm.
  name_of "admin.example.com." [lit "admin"; lit "example"; lit "com"] r Hr Hnr. rewrite Hm, Hr. cbn [mbind outcome_bind].
  unfold get_soa_record. cbn. rewrite record_name_from, record_type_from, rdata_type_soa, key_eqb_refl. done.
Qed.

Lemma ttl_preserved_holds x : prop_record_ttl_preserved x = Ok tt.
Proof.
  destruct x as [n ttl]. unfold prop_record_ttl_preserved.
  destruct (example_zone_ok 1) as (o & s & -> & _). cbn [mbind outcome_bind].
  rewrite one_a_record by apply rdata_type_a. cbn. rewrite record_ttl_from. by rewrite bool_decide_eq_true_2.
Qed.

Lemma wildcard_exact_holds l : host_label l -> prop_wildcard_does_not_match_exact_name l = Ok tt.
Proof.
  intros Hl. unfold prop_wildcard_does_not_match_exact_name. destruct (example_zone_ok 1) as (o & s & -> & _).
  assert (forall first, plain_label (lit first) = true -> (length (lit first) <= 3)%nat ->
    exists n, Testing.from_str (lit first ++ c_dot :: l ++ lit ".example.com.") = Ok n /\
              named n [lit first; l; lit "example"; lit "com"]) as Hname.
  { intros first Hf Hlf. apply from_str_dotted.
    - unfold dotted. cbn [flat_map]. by rewrite <- !app_assoc.
    - apply plain_labels_intro; [done| |].
      + repeat apply List.Forall_cons; try done. by apply host_label_plain.
      + destruct Hl as [Hl _]. unfold dotted. cbn [flat_map]. rewrite !length_app. cbn. lia. }
  destruct (Hname "*"%string) as (w & Hw & Hnw); [done|cbn; lia|].
  destruct (Hname "www"%string) as (n & Hn & Hnn); [done|cbn; lia|].
  change (lit "*." ++ l ++ lit ".example.com.") with (lit "*" ++ c_dot :: l ++ lit ".example.com.").
  change (lit "www." ++ l ++ lit ".example.com.") with (lit "www" ++ c_dot :: l ++ lit ".example.com.").
  rewrite Hw, Hn. cbn [mbind outcome_bind].
  set (r1 := record_from_rdata w _ _). set (r2 := record_from_rdata n _ _).
  change (add_record (add_record (Zone_new o s) r1) r2) with (fold_left add_record [r1; r2] (Zone_new o s)).
  rewrite lookup_added. unfold lookup_spec. cbn [List.filter]. subst r1 r2.
  rewrite (matches_self n) by apply rdata_type_a.
  assert (matches n RecordType.A (record_from_rdata w 3600 (RData.A (192, 0, 2, 100))) = false) as ->.
  { unfold matches, owned_by. rewrite record_name_from. destruct (key_eqb w n) eqn:E; [|done].
    apply name_eq_spec in E as [_ E]. unfold lower_labels in E.
    destruct Hnw as (Hnw & _), Hnn as (Hnn & _). rewrite Hnw, Hnn in E. discriminate E. }
  cbn. rewrite record_data_from. by rewrite bool_decide_eq_true_2.
Qed.

(** ** The store of the zones zone0 to zone4 *)

Definition zone_labels (i : Z) : list str := [lit "zone" ++ show_num i; lit "com"].

Lemma zone_names i text first :
  0 <= i < 5 -> (text, first) ∈ [(""%string, []); ("ns1."%string, [lit "ns1"]); ("admin."%string, [lit "admin"]);
                                 ("www."%string, [lit "www"])] ->
  exists n, Testing.from_str (zone_text text i) = Ok n /\ named n (first ++ zone_labels i).
Proof.
  intros Hi Hp. assert (i = 0 \/ i = 1 \/ i = 2 \/ i = 3 \/ i = 4) as Hc by lia.
  rewrite !elem_of_cons, elem_of_nil in Hp.
  apply from_str_dotted; destruct Hp as [[= -> ->]|[[= -> ->]|[[= -> ->]|[[= -> ->]|[]]]]],
    Hc as [->|[->|[->|[->| ->]]]]; vm_compute; reflexivity.
Qed.

(** The zones with the numbers in [seen], and no others. *)
Record stored (seen : list Z) (s : ZoneStore) : Prop := {
  stored_wf : store_wf s;
  stored_only z : z ∈ hm_values (zones s) -> exists i, 0 <= i < 5 /\ named (origin z) (zone_labels i);
  stored_all i n : i ∈ seen -> named n (zone_labels i) -> is_Some (hm_get n (zones s))
}.

Lemma named_equiv n n' ls : named n ls -> named n' ls -> key_equiv n n'.
Proof.
  intros (Hl & Hf & _) (Hl' & Hf' & _). apply name_eq_spec. unfold lower_labels. rewrite Hl, Hl', Hf, Hf'. done.
Qed.

Lemma stored_add seen s i o so :
  stored seen s -> 0 <= i < 5 -> named o (zone_labels i) -> stored (seen ++ [i]) (add_zone s (Zone_new o so)).
Proof.
  intros [Hwf Honly Hall] Hi Hn. split.
  - by apply store_wf_add_zone.
  - intros z ((k & z') & -> & Hin)%list_elem_of_fmap. cbn.
    apply hm_entry_elem in Hin as [Hin|[(z0 & _ & _ & ->)|(_ & _ & ->)]]; [|by exists i..].
    apply Honly. apply list_elem_of_fmap. by exists (k, z').
  - intros j n Hj Hnj. unfold add_zone. cbn [zones origin Zone_new]. rewrite hm_get_insert.
    destruct (key_eqb o n) eqn:E; [done|]. apply elem_of_app in Hj as [Hj| ->%list_elem_of_singleton].
    + by apply (Hall j).
    + exfalso. pose proof (named_equiv _ _ _ Hn Hnj) as Hk. unfold key_equiv in Hk. congruence.
Qed.

Lemma find_zone_holds count : 1 <= count <= 5 -> prop_zone_store_find_zone_consistency count = Ok tt.
Proof.
  intros Hc. unfold prop_zone_store_find_zone_consistency.
  assert (Forall (fun i => 0 <= i < 5) (below count)) as Hb.
  { unfold below. apply Forall_fmap, Forall_seq. intros j Hj. cbn. lia. }
  set (build := fun (store : ZoneStore) i => _).
  assert (forall l seen s, Forall (fun i => 0 <= i < 5) l -> stored seen s ->
    exists s', for_each build l s = Ok s' /\ stored (seen ++ l) s') as Hbuild.
  { induction l as [|i l IH]; intros seen s Hl Hs; [exists s; by rewrite app_nil_r|].
    apply Forall_cons in Hl as [Hi Hl]. cbn [for_each].
    destruct (zone_names i "" [] Hi) as (o & Ho & Hno); [by left|].
    destruct (zone_names i "ns1." [lit "ns1"] Hi) as (m & Hm & _); [by right; left|].
    destruct (zone_names i "admin." [lit "admin"] Hi) as (r & Hr & _); [by right; right; left|].
    assert (exists so, build s i = Ok (add_zone s (Zone_new o so))) as [so ->].
    { subst build. unfold test_soa. rewrite Ho, Hm, Hr. cbn [mbind outcome_bind]. eauto. }
    cbn [mbind outcome_bind]. destruct (IH (seen ++ [i]) (add_zone s (Zone_new o so)) Hl) as (s' & Hs' & Hst);
      [by apply stored_add|]. exists s'. by rewrite <- app_assoc in Hst. }
  destruct (Hbuild (below count) [] ZoneStore_new Hb) as (s & -> & [Hwf Honly Hall]).
  { split; [apply store_wf_new|by intros z ?%elem_of_nil|by intros i n ?%elem_of_nil]. }
  cbn [mbind outcome_bind].
  assert (forall l, (forall i, i ∈ l -> i ∈ below count) -> for_each (fun (_ : unit) i =>
      query_name ← Testing.from_str (zone_text "www." i);
      prop_assert (bool_decide (is_Some (find_zone s query_name)))) l tt = Ok tt) as Hfind.
  { induction l as [|i l IH]; intros Hl; [done|]. cbn [for_each].
    assert (0 <= i < 5) as Hi by (rewrite Forall_forall in Hb; apply Hb, Hl; left).
    destruct (zone_names i "www." [lit "www"] Hi) as (n & Hn & Hnn); [by right; right; right; left|].
    rewrite Hn. cbn [mbind outcome_bind].
    destruct (zone_names i "" [] Hi) as (o & _ & Hno); [by left|].
    destruct (Hall i o) as [z Hz]; [by apply Hl; left|done|].
    destruct (store_get_inv _ _ _ Hwf Hz) as [Hin Heq].
    assert (is_Some (find_zone s n)) as Hsome.
    { apply (find_zone_some s n z Hin).
      - apply name_zone_of_spec. exists [lit "www"]. apply name_eq_spec in Heq as [_ ->].
        unfold lower_labels. destruct Hnn as (-> & _), Hno as (-> & _). done.
      - destruct (Honly z Hin) as (j & Hj & (Hlab & _)). rewrite name_num_labels_spec, Hlab. cbn.
        case_decide; done. }
    rewrite (bool_decide_eq_true_2 _ Hsome). cbn. apply IH. intros j Hj. apply Hl. by right. }
  rewrite Hfind by done. cbn [mbind outcome_bind].
  name_of "www.nonexistent.com." [lit "www"; lit "nonexistent"; lit "com"] n Hn Hnn. rewrite Hn. cbn [mbind outcome_bind].
  rewrite bool_decide_eq_true_2; [done|]. destruct (find_zone s n) as [z|] eqn:E; [exfalso|done].
  destruct (find_zone_sound _ _ _ Hwf E) as [Hin [pre Hpre]%name_zone_of_spec].
  destruct (Honly z Hin) as (i & Hi & (Hlab & _)). unfold lower_labels in Hpre. rewrite Hlab in Hpre.
  destruct Hnn as (Hnn & _). rewrite Hnn in Hpre. destruct pre as [|a [|b pre]].
  - apply (f_equal length) in Hpre. discriminate Hpre.
  - assert (i = 0 \/ i = 1 \/ i = 2 \/ i = 3 \/ i = 4) as Hcase by lia.
    destruct Hcase as [->|[->|[->|[->| ->]]]]; vm_compute in Hpre; discriminate Hpre.
  - apply (f_equal length) in Hpre. cbn in Hpre. rewrite length_app in Hpre. cbn in Hpre. lia.
Qed.
End zone_tests.

(** * The tests of protocol.rs *)

Section protocol_tests.
Context `{Hickory} `{!NameLaws} `{!RecordLaws} `{!MessageLaws} `{!QueryLaws} `{!TextLaws}.

Definition example_com : list str := [lit "example"; lit "com"].

Lemma processor_ok :
  exists o s rs, processor = Ok (add_zone ZoneStore_new (zone_of_list o s rs)) /\ named o example_com.
Proof.
  unfold processor, test_zone, test_soa. name_of "example.com." [lit "example"; lit "com"] o Ho Hn.
  name_of "ns1.example.com." [lit "ns1"; lit "example"; lit "com"] m Hm Hnm.
  name_of "admin.example.com." [lit "admin"; lit "example"; lit "com"] r Hr Hnr.
  name_of "www.example.com." [lit "www"; lit "example"; lit "com"] w Hw Hnw.
  rewrite Ho, Hm, Hr, Hw. cbn [mbind outcome_bind]. eexists o, _, [_; _]. split; [reflexivity|done].
Qed.

(** The store answers for the names below [example.com.] *)
Lemma find_zone_single o s rs n :
  named o example_com ->
  find_zone (add_zone ZoneStore_new (zone_of_list o s rs)) n =
  if name_zone_of o n then Some (zone_of_list o s rs) else None.
Proof.
  intros Hn. set (z := zone_of_list o s rs). assert (origin z = o) as Ho by apply origin_of_list.
  assert (store_wf (add_zone ZoneStore_new z)) as Hwf by (apply store_wf_add_zone, store_wf_new).
  destruct (name_zone_of o n) eqn:E.
  - destruct (find_zone_some (add_zone ZoneStore_new z) n z) as [z' Hz].
    + apply list_elem_of_fmap. exists (origin z, z). split; [done|by left].
    + unfold encloses. by rewrite Ho.
    + rewrite Ho, name_num_labels_spec. destruct Hn as (-> & _). cbn. case_decide; done.
    + rewrite Hz. apply find_zone_sound in Hz as [Hin _]; [|done].
      apply list_elem_of_fmap in Hin as ((k & z0) & -> & Hin%list_elem_of_singleton). by simplify_eq.
  - destruct (find_zone (add_zone ZoneStore_new z) n) as [z'|] eqn:Ez; [|done].
    apply find_zone_sound in Ez as [Hin He]; [|done].
    apply list_elem_of_fmap in Hin as ((k & z0) & -> & Hin%list_elem_of_singleton). simplify_eq.
    unfold encloses in He. cbn in He. rewrite Ho in He. congruence.
Qed.

(** The answer of the test server to a question about a name. *)
Lemma process_question query question :
  message_op_code query = OpCode.Query -> message_queries query = [question] ->
  query_query_type question ≠ RecordType.AXFR ->
  let in_zone := exists pre, lower_labels (query_name question) = pre ++ example_com in
  exists response, process query = Ok response /\ message_id response = message_id query /\
    v_message_type (message_view response) = MessageType.Response /\
    message_recursion_desired response = message_recursion_desired query /\
    v_recursion_available (message_view response) = false /\ message_queries response = [question] /\
    (message_extensions response = None \/
     message_extensions response =
       response_edns query (match message_extensions query with Some e => edns_dnssec_ok e | None => false end)) /\
    (in_zone /\ message_authoritative response = true \/
     ~ in_zone /\ message_authoritative response = false /\ message_response_code response = ResponseCode.Refused).
Proof.
  intros Hop Hq Ht in_zone. destruct processor_ok as (o & s & rs & Hp & Hn).
  unfold process. rewrite Hp. cbn [mbind outcome_bind].
  pose proof (find_zone_single o s rs (query_name question) Hn) as Hz.
  assert (name_zone_of o (query_name question) = true <-> in_zone) as Hin.
  { rewrite name_zone_of_spec. subst in_zone. unfold lower_labels at 2. by destruct Hn as (-> & _). }
  assert (head (message_queries query) = Some question) as Hhead by by rewrite Hq.
  destruct (name_zone_of o (query_name question)) eqn:E.
  - destruct (process_query_found o s rs _ query question Hop Hhead Ht Hz) as (response & -> & Hv).
    exists response. unfold message_id, message_recursion_desired, message_queries, message_extensions,
      message_authoritative. rewrite Hv. split_and!; try done; [by right|]. left. split; [by apply Hin|done].
  - unfold process_query. rewrite Hop, Hhead, Hz. rewrite !bool_decide_eq_true_2, bool_decide_eq_false_2 by done.
    cbn [negb unwrap_result]. eexists. split; [done|].
    unfold message_id, message_recursion_desired, message_queries, message_extensions, message_authoritative,
      message_response_code. rewrite view_set_response_code, view_add_query, view_base_response.
    split_and!; try done; [by left|]. right. split_and!; [|done|done]. intros Hx%Hin. congruence.
Qed.

Lemma www_query_ok :
  exists question, www_query = Ok question /\ query_query_type question = RecordType.A.
Proof.
  unfold www_query. name_of "www.example.com." [lit "www"; lit "example"; lit "com"] w Hw Hnw. rewrite Hw.
  eexists. split; [done|]. apply query_type_query.
Qed.

(** A query with one question, as the tests make them. *)
Lemma query_with_view question id op :
  message_view (add_query question (query_with id op)) =
  with_query question (with_op_code op (with_message_type MessageType.Query (with_id id empty_view))).
Proof. unfold query_with. by autorewrite with view. Qed.

Lemma process_www id op :
  op = OpCode.Query ->
  exists question response, www_query = Ok question /\
    process (add_query question (query_with id op)) = Ok response /\ message_id response = id /\
    v_message_type (message_view response) = MessageType.Response.
Proof.
  intros ->. destruct www_query_ok as (question & Hq & Ht).
  destruct (process_question (add_query question (query_with id OpCode.Query)) question)
    as (response & Hr & Hid & Hty & _).
  - unfold message_op_code. by rewrite query_with_view.
  - unfold message_queries. by rewrite query_with_view.
  - by rewrite Ht.
  - exists question, response. split_and!; [done|done| |done]. rewrite Hid. unfold message_id.
    by rewrite query_with_view.
Qed.

Lemma query_id_holds id : prop_query_id_matches_response id = Ok tt.
Proof.
  unfold prop_query_id_matches_response. destruct (process_www id OpCode.Query eq_refl) as (q & r & -> & Hr & Hid & _).
  cbn [mbind outcome_bind]. rewrite Hr. cbn. by rewrite bool_decide_eq_true_2.
Qed.

Lemma response_type_holds id : prop_response_is_always_response_type id = Ok tt.
Proof.
  unfold prop_response_is_always_response_type.
  destruct (process_www id OpCode.Query eq_refl) as (q & r & -> & Hr & _ & Ht).
  cbn [mbind outcome_bind]. rewrite Hr. cbn. by rewrite bool_decide_eq_true_2.
Qed.

Lemma recursion_desired_holds rd : prop_recursion_desired_flag_copied rd = Ok tt.
Proof.
  unfold prop_recursion_desired_flag_copied. destruct www_query_ok as (question & -> & Ht). cbn [mbind outcome_bind].
  set (query := add_query question _).
  assert (message_view query = with_query question (with_recursion_desired rd
    (with_op_code OpCode.Query (with_message_type MessageType.Query (with_id 1234 empty_view))))) as Hv.
  { subst query. unfold query_with. by autorewrite with view. }
  destruct (process_question query question) as (r & -> & _ & _ & Hrd & Hra & _).
  - unfold message_op_code. by rewrite Hv.
  - unfold message_queries. by rewrite Hv.
  - by rewrite Ht.
  - cbn. rewrite Hrd, Hra, bool_decide_eq_true_2; [done|]. unfold message_recursion_desired. by rewrite Hv.
Qed.

Lemma empty_query_holds id : prop_empty_query_returns_formerr id = Ok tt.
Proof.
  unfold prop_empty_query_returns_formerr, process. destruct processor_ok as (o & s & rs & -> & _).
  cbn [mbind outcome_bind]. assert (message_view (query_with id OpCode.Query) =
    with_op_code OpCode.Query (with_message_type MessageType.Query (with_id id empty_view))) as Hv.
  { unfold query_with. by autorewrite with view. }
  unfold process_query, message_op_code, message_queries. rewrite Hv. cbn.
  rewrite (bool_decide_eq_true_2 (OpCode.Query = OpCode.Query)) by done. cbn. rewrite bool_decide_eq_true_2; [done|]. unfold message_response_code. by rewrite view_set_response_code.
Qed.

Lemma unsupported_opcode_holds id : prop_unsupported_opcode_returns_notimp id = Ok tt.
Proof.
  unfold prop_unsupported_opcode_returns_notimp, process. destruct www_query_ok as (question & -> & _).
  destruct processor_ok as (o & s & rs & -> & _). cbn [mbind outcome_bind].
  unfold process_query. rewrite bool_decide_eq_false_2 by (unfold message_op_code; by rewrite query_with_view).
  cbn. rewrite bool_decide_eq_true_2; [done|]. unfold message_response_code. by rewrite view_set_response_code.
Qed.

(** A question of the tests that set nothing but an identifier. *)
Lemma question_view question :
  message_view (add_query question (set_id 1 message_new)) = with_query question (with_id 1 empty_view).
Proof. by autorewrite with view. Qed.

Lemma process_plain name rtype :
  rtype ≠ RecordType.AXFR ->
  let in_zone := exists pre, lower_labels name = pre ++ example_com in
  exists response, process (add_query (query_query name rtype) (set_id 1 message_new)) = Ok response /\
    message_queries response = [query_query name rtype] /\
    (in_zone /\ message_authoritative response = true \/
     ~ in_zone /\ message_authoritative response = false /\ message_response_code response = ResponseCode.Refused).
Proof.
  intros Ht in_zone.
  destruct (process_question (add_query (query_query name rtype) (set_id 1 message_new)) (query_query name rtype))
    as (response & Hr & _ & _ & _ & _ & Hq & _ & Hin).
  - unfold message_op_code. by rewrite question_view.
  - unfold message_queries. by rewrite question_view.
  - by rewrite query_type_query.
  - rewrite query_name_query in Hin. by exists response.
Qed.

Lemma question_section_holds name rtype :
  rtype ≠ RecordType.AXFR -> prop_response_has_question_section (name, rtype) = Ok tt.
Proof.
  intros Ht. unfold prop_response_has_question_section.
  destruct (process_plain name rtype Ht) as (response & -> & Hq & _). cbn [mbind outcome_bind].
  case_bool_decide; [done|]. rewrite Hq. cbn. rewrite query_name_query, query_type_query, key_eqb_refl.
  by rewrite bool_decide_eq_true_2.
Qed.

Lemma dnssec_ok_holds b : prop_dnssec_ok_flag_preserved b = Ok tt.
Proof.
  unfold prop_dnssec_ok_flag_preserved. destruct www_query_ok as (question & -> & Ht). cbn [mbind outcome_bind].
  set (edns := edns_set_dnssec_ok b _). set (query := set_edns edns _).
  assert (message_view query = with_edns edns (with_query question (with_id 1 empty_view))) as Hv.
  { subst query. by autorewrite with view. }
  assert (edns_dnssec_ok edns = b) as Hb by (subst edns; unfold edns_dnssec_ok; by rewrite edns_view_set_dnssec_ok).
  destruct (process_question query question) as (r & -> & _ & _ & _ & _ & _ & He & _).
  - unfold message_op_code. by rewrite Hv.
  - unfold message_queries. by rewrite Hv.
  - by rewrite Ht.
  - cbn [mbind outcome_bind]. destruct He as [->| ->]; [done|]. unfold response_edns.
    assert (message_extensions query = Some edns) as -> by (unfold message_extensions; by rewrite Hv).
    rewrite Hb. rewrite bool_decide_eq_true_2; [done|]. unfold edns_dnssec_ok. destruct b.
    + by rewrite edns_view_set_dnssec_ok.
    + rewrite edns_view_set_version, edns_view_set_max_payload by done. apply edns_new_dnssec_ok.
Qed.

(** ** The test that looks at the text of the name *)

Lemma lower_host ls : Forall host_label ls -> map (map to_ascii_lowercase) ls = ls.
Proof.
  induction 1 as [|l ls [_ Hl] _ IH]; [done|]. cbn. rewrite IH. f_equal.
  induction Hl as [|c l Hc _ IHl]; [done|]. cbn. rewrite IHl. unfold to_ascii_lowercase.
  assert ((65 <=? c) && (c <=? 90) = false) as -> by lia. done.
Qed.

Definition text_in_zone (name : Name) : bool := ends_with (lit "example.com.") (name_to_string name).
Definition name_in_zone (name : Name) : Prop := exists pre, name_iter name = pre ++ example_com.

Lemma name_text_in_zone name : generated_name name -> name_in_zone name -> text_in_zone name = true.
Proof.
  intros (ls & _ & _ & Hl & _ & Ht) [pre Hp]. unfold text_in_zone, ends_with. rewrite Ht, <- Hl, Hp.
  unfold dotted. rewrite flat_map_app. apply bool_decide_eq_true.
  change (flat_map (fun l => l ++ [c_dot]) example_com) with (lit "example.com.").
  rewrite length_app, Nat.add_sub. by rewrite drop_app_length.
Qed.

Lemma authoritative_cases name :
  generated_name name ->
  prop_authoritative_for_configured_zones name = Ok tt <-> (text_in_zone name = true -> name_in_zone name).
Proof.
  intros Hg. pose proof (name_text_in_zone name Hg) as Htext. destruct Hg as (ls & _ & Hls & Hl & _ & _).
  unfold prop_authoritative_for_configured_zones. fold (text_in_zone name).
  destruct (process_plain name RecordType.A) as (response & -> & _ & Hin); [done|].
  cbn [mbind outcome_bind]. unfold lower_labels in Hin. rewrite Hl, (lower_host _ Hls) in Hin.
  unfold name_in_zone in *. rewrite Hl in *.
  destruct Hin as [[Hin ->]|(Hin & -> & ->)].
  - rewrite Htext by done. cbn. tauto.
  - destruct (text_in_zone name).
    + cbn. split; [done|]. intros Hx. by destruct Hin; apply Hx.
    + rewrite bool_decide_eq_true_2 by done. cbn. split; done.
Qed.

(** The generator can make [xexample.com.] *)
Lemma generates_xexample :
  exists n, arb_dns_name (Ok n) /\ named n [lit "xexample"; lit "com"].
Proof.
  name_of "xexample.com." [lit "xexample"; lit "com"] n Hn Hnn. exists n. split; [|done].
  assert (forall l, l ≠ [] -> (length l <= 63)%nat -> Forall (fun c => 97 <= c <= 122) l -> arb_dns_label (Ok l)) as Hlabel.
  { intros l Hne Hlen Hl. split; [|by rewrite bool_decide_eq_false_2]. exists (Ok l). split; [|done].
    exists (Ok <$> l). split_and!.
    - rewrite length_fmap. destruct l; [done|cbn in *; lia].
    - by rewrite length_fmap.
    - apply Forall_fmap. eapply Forall_impl; [exact Hl|]. intros c Hc. by exists c.
    - clear. induction l as [|c l IH]; [done|]. cbn. by rewrite <- IH. }
  exists (Ok [lit "xexample"; lit "com"]). split.
  - split; [|by vm_compute]. exists [Ok (lit "xexample"); Ok (lit "com")].
    split_and!; [cbn; lia|cbn; lia| |done].
    apply List.Forall_cons; [|apply List.Forall_cons; [|apply List.Forall_nil]]; apply Hlabel; try done;
      try (cbn; lia); repeat (apply List.Forall_cons; [done|]); apply List.Forall_nil.
  - cbn. unfold Testing.from_str in Hn. exact (eq_sym Hn).
Qed.
End protocol_tests.

(** * The other generators *)

Section generators.
Context `{Hickory} `{!RecordLaws} `{!MessageLaws} `{!QueryLaws} `{!TextLaws}.

Definition valid_ipv4 (a : Ipv4Addr) : Prop :=
  let '(a, b, c, d) := a in in_u 8 a /\ in_u 8 b /\ in_u 8 c /\ in_u 8 d.
Definition valid_ipv6 (a : Ipv6Addr) : Prop := length a = 8%nat /\ Forall (in_u 16) a.

Lemma generates_ipv4 : generates arb_ipv4 valid_ipv4.
Proof.
  eapply generates_map; [apply generates_any|]. intros bs [Hlen Hbs].
  destruct bs as [|a [|b [|c [|d [|]]]]]; try discriminate Hlen. exists (a, b, c, d). split; [done|].
  rewrite !Forall_cons in Hbs. by destruct Hbs as (? & ? & ? & ? & _).
Qed.

Lemma groups_from_valid n : forall bs, length bs = (2 * n)%nat -> Forall (in_u 8) bs ->
  length (groups_from bs) = n /\ Forall (in_u 16) (groups_from bs).
Proof.
  induction n as [|n IH]; intros bs Hlen Hbs; [by destruct bs|].
  destruct bs as [|a [|b bs]]; [discriminate Hlen|cbn in Hlen; lia|].
  apply Forall_cons in Hbs as [Ha Hbs]. apply Forall_cons in Hbs as [Hb Hbs].
  destruct (IH bs) as [Hl Hf]; [cbn in Hlen; lia|done|]. cbn. split; [by rewrite Hl|]. constructor; [|done].
  unfold in_u, u16_from_be_bytes in *. lia.
Qed.

Lemma generates_ipv6 : generates arb_ipv6 valid_ipv6.
Proof.
  eapply generates_map; [apply generates_any|]. intros bs [Hlen Hbs]. eexists. split; [done|].
  by apply (groups_from_valid 8).
Qed.

(** The records that are generated for an owner. *)
Definition generated_record (n : Name) (r : DnsRecord) : Prop :=
  record_name r = n /\ record_ttl r = 3600 /\
  exists d, record_data r = Some d /\ record_record_type r = rdata_record_type d /\
    match d with
    | RData.A a => valid_ipv4 a
    | RData.AAAA a => valid_ipv6 a
    | RData.NS m | RData.CNAME m => generated_name m
    | RData.TXT [text] => (1 <= length text <= 255)%nat
    | _ => False
    end.

Lemma generated_record_intro n d :
  match d with
  | RData.A a => valid_ipv4 a
  | RData.AAAA a => valid_ipv6 a
  | RData.NS m | RData.CNAME m => generated_name m
  | RData.TXT [text] => (1 <= length text <= 255)%nat
  | _ => False
  end -> generated_record n (record_from_rdata n 3600 d).
Proof.
  intros Hd. unfold generated_record. rewrite record_name_from, record_ttl_from, record_data_from, record_type_from.
  split_and!; [done..|]. by exists d.
Qed.

Lemma generates_record n : generates (arb_record n) (generated_record n).
Proof.
  apply generates_oneof.
  repeat (apply List.Forall_cons; [eapply generates_map;
    [first [apply generates_ipv4|apply generates_ipv6|apply generates_name|apply generates_vec, generates_any]
    |intros x Hx; eexists; split; [reflexivity|apply generated_record_intro; first [exact Hx|apply Hx]]]|]).
  apply List.Forall_nil.
Qed.

Lemma generates_record_type : generates arb_record_type (fun t => t ≠ RecordType.AXFR).
Proof. apply generates_oneof. repeat (apply List.Forall_cons; [by apply generates_just|]). apply List.Forall_nil. Qed.

Lemma generates_ttl : generates arb_ttl (fun t => 0 <= t <= 2147483647).
Proof.
  apply generates_oneof. repeat (apply List.Forall_cons; [by apply generates_just|]).
  apply List.Forall_cons; [apply generates_any|apply List.Forall_nil].
Qed.

(** The queries that are generated: one question for a generated name, never a zone transfer. *)
Definition generated_query (m : Message) : Prop :=
  exists id n t, in_u 16 id /\ generated_name n /\ t ≠ RecordType.AXFR /\
    message_view m = with_query (query_query n t) (with_id id empty_view).

Lemma generates_query : generates arb_query_message generated_query.
Proof.
  eapply generates_map.
  { apply generates_both; [apply generates_both; [apply generates_any|apply generates_name]|apply generates_record_type]. }
  intros [[id n] t] [[Hid Hn] Ht]. cbn in Hid, Hn, Ht. eexists. split; [reflexivity|].
  exists id, n, t. split_and!; [done..|]. by autorewrite with view.
Qed.
End generators.

(** * Properties *)

(** The generators of the property tests are well-typed and never panic: names have one to
    four labels of 1 to 63 lower case letters and are read back from their own text, addresses have
    bytes or 16-bit groups, records have the owner that was asked for, TTL 3600 and data of their
    type, queries have a 16-bit identifier and one question that is not a zone transfer, and a TTL
    has 31 bits. *)
Theorem generators_typed `{Hickory} `{!RecordLaws} `{!MessageLaws} `{!QueryLaws} `{!TextLaws} (n : Name) :
  generates arb_dns_label host_label /\ generates arb_dns_name generated_name /\
  generates arb_ipv4 valid_ipv4 /\ generates arb_ipv6 valid_ipv6 /\
  generates (arb_record n) (generated_record n) /\ generates arb_query_message generated_query /\
  generates arb_ttl (fun t => 0 <= t <= 2147483647).
Proof.
  split_and!; [apply generates_label|apply generates_name|apply generates_ipv4|apply generates_ipv6
              |apply generates_record|apply generates_query|apply generates_ttl].
Qed.

(** C38 (functional): the property tests of the zone module pass for every value of their generators:
    what was added is found, under its type and with its TTL, a name that was not added is not, an
    exact name wins over a wildcard, the SOA record is the origin's, and a store of one to five zones
    finds each zone and nothing for a name outside. *)
Theorem zone_proptests_pass `{Hickory} `{!NameLaws} `{!RecordLaws} `{!TextLaws} :
  passes (both arb_dns_name arb_ttl) prop_add_and_lookup_record_consistent /\
  passes arb_dns_name prop_lookup_nonexistent_name_returns_none /\
  passes arb_dns_name prop_contains_name_after_add /\
  passes arb_dns_name prop_multiple_records_same_name_different_types /\
  passes (between 1 5) prop_zone_store_find_zone_consistency /\
  passes arb_dns_label prop_wildcard_does_not_match_exact_name /\
  passes (any_u 32) prop_soa_record_always_retrievable /\
  passes (both arb_dns_name arb_ttl) prop_record_ttl_preserved.
Proof.
  pose proof generates_name as Hn. pose proof (generates_both _ _ _ _ Hn generates_ttl) as Hb.
  split_and!; (eapply passes_generates; [first [exact Hn|exact Hb|apply generates_label|apply generates_any]|]).
  - intros a _. apply add_and_lookup_holds.
  - intros a _. apply lookup_nonexistent_holds.
  - intros a _. apply contains_after_add_holds.
  - intros a _. apply multiple_records_hold.
  - apply find_zone_holds.
  - apply wildcard_exact_holds.
  - intros a _. apply soa_retrievable_holds.
  - intros a _. apply ttl_preserved_holds.
Qed.

(** C39 (functional): seven of the property tests of the query processor pass for every value of their
    generators.  The eighth, on authority, passes for a generated name exactly when the name is below
    [example.com.] whenever its text ends in "example.com.", and the generator makes names for which
    it fails, such as [xexample.com.]: the answer REFUSED is right and the test is not. *)
Theorem protocol_proptests_pass `{Hickory} `{!NameLaws} `{!RecordLaws} `{!MessageLaws} `{!QueryLaws} `{!TextLaws} :
  passes (any_u 16) prop_query_id_matches_response /\
  passes (any_u 16) prop_response_is_always_response_type /\
  passes any_bool prop_recursion_desired_flag_copied /\
  passes (any_u 16) prop_empty_query_returns_formerr /\
  passes (any_u 16) prop_unsupported_opcode_returns_notimp /\
  passes (both arb_dns_name arb_record_type) prop_response_has_question_section /\
  passes any_bool prop_dnssec_ok_flag_preserved /\
  (forall n, generated_name n ->
     prop_authoritative_for_configured_zones n = Ok tt <-> (text_in_zone n = true -> name_in_zone n)) /\
  ~ passes arb_dns_name prop_authoritative_for_configured_zones.
Proof.
  split_and!; try (eapply passes_generates; [apply generates_any|]).
  - intros a _. apply query_id_holds.
  - intros a _. apply response_type_holds.
  - intros a _. apply recursion_desired_holds.
  - intros a _. apply empty_query_holds.
  - intros a _. apply unsupported_opcode_holds.
  - eapply passes_generates; [apply generates_both; [apply generates_name|apply generates_record_type]|].
    intros [n t] [_ Ht]. by apply question_section_holds.
  - intros a _. apply dnssec_ok_holds.
  - apply authoritative_cases.
  - intros Hp. destruct generates_xexample as (n & Hg & Hn).
    pose proof (Hp _ Hg) as Hok. cbn [mbind outcome_bind] in Hok.
    destruct (generates_name _ Hg) as (n' & [= <-] & Hgen).
    pose proof (proj1 (authoritative_cases n Hgen) Hok) as Himp. destruct Hn as (Hl & _ & Ht).
    destruct Himp as [pre Hpre]; [unfold text_in_zone; rewrite Ht; by vm_compute|].
    rewrite Hl in Hpre. destruct pre as [|a pre]; [discriminate Hpre|].
    apply (f_equal length) in Hpre. cbn in Hpre. rewrite length_app in Hpre. cbn in Hpre. lia.
Qed.

(** * Witnesses *)

Section witnesses.
Import Concrete.

Lemma generators_typed_witness :
  let n : Name := name_root in
  generates arb_dns_label host_label /\ generates arb_dns_name generated_name /\
  generates arb_ipv4 valid_ipv4 /\ generates arb_ipv6 valid_ipv6 /\
  generates (arb_record n) (generated_record n) /\ generates arb_query_message generated_query /\
  generates arb_ttl (fun t => 0 <= t <= 2147483647).
Proof. exact (generators_typed name_root). Defined.

Lemma zone_proptests_pass_witness :
  passes (both arb_dns_name arb_ttl) prop_add_and_lookup_record_consistent /\
  passes arb_dns_name prop_lookup_nonexistent_name_returns_none /\
  passes arb_dns_name prop_contains_name_after_add /\
  passes arb_dns_name prop_multiple_records_same_name_different_types /\
  passes (between 1 5) prop_zone_store_find_zone_consistency /\
  passes arb_dns_label prop_wildcard_does_not_match_exact_name /\
  passes (any_u 32) prop_soa_record_always_retrievable /\
  passes (both arb_dns_name arb_ttl) prop_record_ttl_preserved.
Proof. exact zone_proptests_pass. Defined.

Lemma protocol_proptests_pass_witness :
  passes (any_u 16) prop_query_id_matches_response /\
  passes (any_u 16) prop_response_is_always_response_type /\
  passes any_bool prop_recursion_desired_flag_copied /\
  passes (any_u 16) prop_empty_query_returns_formerr /\
  passes (any_u 16) prop_unsupported_opcode_returns_notimp /\
  passes (both arb_dns_name arb_record_type) prop_response_has_question_section /\
  passes any_bool prop_dnssec_ok_flag_preserved /\
  (forall n, generated_name n ->
     prop_authoritative_for_configured_zones n = Ok tt <-> (text_in_zone n = true -> name_in_zone n)) /\
  ~ passes arb_dns_name prop_authoritative_for_configured_zones.
Proof. exact protocol_proptests_pass. Defined.

(** The test on a name of its generator. *)
Example flaky_test :
  prop_authoritative_for_configured_zones
    (default name_root (name_from_str (lit "xexample.com."))) = Err EForeign.
Proof. vm_compute. reflexivity. Qed.
End witnesses.
