(* ===== verification/ZoneTests.v ===== *)
(** The unit tests of [src/src/zone.rs], lines 781-2150, as computations on the model; each is run on
    the concrete instance of the crates.  Requires [Zone], [ZoneFile] and [Testing]. *)
From S2P Require Import Prelude RustStr HashMap Crates CratesModel Zone ZoneFile Testing.
From stdpp Require Import sorting.
Open Scope Z_scope.

(** [Vec<String>::sort] *)
Fixpoint str_leb (a b : str) : bool :=
  match a, b with
  | [], _ => true
  | _ :: _, [] => false
  | c :: a, d :: b => (c <? d) || (c =? d) && str_leb a b
  end.
Definition str_le (a b : str) : Prop := str_leb a b = true.
#[export] Instance str_le_dec a b : Decision (str_le a b).
Proof. unfold str_le. apply _. Defined.

Section zone_tests.
Context `{Hickory} `{!Codecs}.

Definition test_zone_store_find_zone : outcome unit :=
  let store := ZoneStore_new in
  origin ← from_str (lit "example.com.");
  soa ← test_soa (lit "ns1.example.com.") (lit "admin.example.com.") 1;
  let zone := Zone_new origin soa in
  let store := add_zone store zone in
  query ← from_str (lit "www.example.com.");
  assert (bool_decide (is_Some (find_zone store query)));;
  query ← from_str (lit "example.org.");
  assert (bool_decide (find_zone store query = None)).

Definition test_wildcard_lookup : outcome unit :=
  origin ← from_str (lit "example.com.");
  soa ← test_soa (lit "ns1.example.com.") (lit "admin.example.com.") 1;
  let zone := Zone_new origin soa in
  wildcard_name ← from_str (lit "*.example.com.");
  let zone := add_record zone (record_from_rdata wildcard_name 3600 (RData.A (192, 0, 2, 100))) in
  www_name ← from_str (lit "www.example.com.");
  let zone := add_record zone (record_from_rdata www_name 3600 (RData.A (192, 0, 2, 10))) in
  let wildcard_result := zone_lookup zone wildcard_name RecordType.A in
  assert (bool_decide (is_Some wildcard_result));;
  n ← len_of wildcard_result;
  assert_eq n 1%nat;;
  random_name ← from_str (lit "random.example.com.");
  let wildcard_match := lookup_wildcard zone random_name RecordType.A in
  assert (bool_decide (is_Some wildcard_match));;
  n ← len_of wildcard_match;
  assert_eq n 1%nat;;
  let www_result := zone_lookup zone www_name RecordType.A in
  assert (bool_decide (is_Some www_result));;
  n ← len_of www_result;
  assert_eq n 1%nat;;
  first_data www_result (check_a (192, 0, 2, 10)).

Definition test_dnskey_parsing : outcome unit :=
  let temp_file :=
    [lit "$ORIGIN example.com.";
     lit "$TTL 3600";
     lit "@ IN SOA ns1.example.com. admin.example.com. 1 7200 3600 1209600 86400";
     lit "@ IN NS ns1.example.com.";
     lit "ns1 IN A 192.0.2.1";
     lit "@ IN DNSKEY 256 3 8 AwEAAaetidLzsKWUt4swWR8yu0wPHPiUi8LU"] in
  zone ← unwrap_result (parse_zone_file (written temp_file) (lit "example.com."));
  dnskey_records ← lookup_text zone "example.com." RecordType.DNSKEY;
  assert (bool_decide (is_Some dnskey_records));;
  n ← len_of dnskey_records;
  assert_eq n 1%nat;;
  first_data dnskey_records (fun rdata => assert (is_dnssec rdata)).

Definition test_rrsig_parsing : outcome unit :=
  let temp_file :=
    [lit "$ORIGIN example.com.";
     lit "$TTL 3600";
     lit "@ IN SOA ns1.example.com. admin.example.com. 1 7200 3600 1209600 86400";
     lit "@ IN NS ns1.example.com.";
     lit "ns1 IN A 192.0.2.1";
     lit "@ IN RRSIG A 8 2 3600 1767139200 1764547200 12345 example.com. AwEAAaetidLzsKWU"] in
  zone ← unwrap_result (parse_zone_file (written temp_file) (lit "example.com."));
  rrsig_records ← lookup_text zone "example.com." RecordType.SIG;
  assert (bool_decide (is_Some rrsig_records));;
  n ← len_of rrsig_records;
  assert_eq n 1%nat;;
  first_data rrsig_records (fun rdata => assert (is_dnssec rdata)).

Definition test_nsec_parsing : outcome unit :=
  let temp_file :=
    [lit "$ORIGIN example.com.";
     lit "$TTL 3600";
     lit "@ IN SOA ns1.example.com. admin.example.com. 1 7200 3600 1209600 86400";
     lit "@ IN NS ns1.example.com.";
     lit "ns1 IN A 192.0.2.1";
     lit "@ IN NSEC www.example.com. A NS SOA RRSIG NSEC DNSKEY"] in
  zone ← unwrap_result (parse_zone_file (written temp_file) (lit "example.com."));
  nsec_records ← lookup_text zone "example.com." RecordType.NSEC;
  assert (bool_decide (is_Some nsec_records));;
  n ← len_of nsec_records;
  assert_eq n 1%nat;;
  first_data nsec_records (fun rdata => assert (is_dnssec rdata)).

Definition test_ds_parsing : outcome unit :=
  let temp_file :=
    [lit "$ORIGIN example.com.";
     lit "$TTL 3600";
     lit "@ IN SOA ns1.example.com. admin.example.com. 1 7200 3600 1209600 86400";
     lit "@ IN NS ns1.example.com.";
     lit "ns1 IN A 192.0.2.1";
     lit "@ IN DS 12345 8 2 A8B1C2D3E4F506172839405A6B7C8D9E0F1A2B3C4D5E6F70"] in
  zone ← unwrap_result (parse_zone_file (written temp_file) (lit "example.com."));
  ds_records ← lookup_text zone "example.com." RecordType.DS;
  assert (bool_decide (is_Some ds_records));;
  n ← len_of ds_records;
  assert_eq n 1%nat;;
  first_data ds_records (fun rdata => assert (is_dnssec rdata)).

Definition test_malformed_zone_file : outcome unit :=
  let temp_file :=
    [lit "$ORIGIN example.com.";
     lit "$TTL 3600";
     lit "@ IN NS ns1.example.com."] in
  let result := parse_zone_file (written temp_file) (lit "example.com.") in
  assert (is_err result).

Definition test_invalid_ttl : outcome unit :=
  let temp_file :=
    [lit "$ORIGIN example.com.";
     lit "$TTL invalid";
     lit "@ IN SOA ns1.example.com. admin.example.com. 1 7200 3600 1209600 86400"] in
  let result := parse_zone_file (written temp_file) (lit "example.com.") in
  assert (is_err result).

Definition test_invalid_record_data : outcome unit :=
  let temp_file :=
    [lit "$ORIGIN example.com.";
     lit "$TTL 3600";
     lit "@ IN SOA ns1.example.com. admin.example.com. 1 7200 3600 1209600 86400";
     lit "@ IN A invalid.ip.address"] in
  let result := parse_zone_file (written temp_file) (lit "example.com.") in
  assert (is_err result).

Definition test_malformed_soa : outcome unit :=
  let temp_file :=
    [lit "$ORIGIN example.com.";
     lit "$TTL 3600";
     lit "@ IN SOA ns1.example.com."] in
  let result := parse_zone_file (written temp_file) (lit "example.com.") in
  assert (is_err result).

Definition test_empty_zone_file : outcome unit :=
  let temp_file := [] in
  let result := parse_zone_file (written temp_file) (lit "example.com.") in
  assert (is_err result).

Definition test_invalid_base64_in_dnskey : outcome unit :=
  let temp_file :=
    [lit "$ORIGIN example.com.";
     lit "$TTL 3600";
     lit "@ IN SOA ns1.example.com. admin.example.com. 1 7200 3600 1209600 86400";
     lit "@ IN DNSKEY 256 3 8 !!!INVALID_BASE64!!!"] in
  zone ← unwrap_result (parse_zone_file (written temp_file) (lit "example.com."));
  dnskey_records ← lookup_text zone "example.com." RecordType.DNSKEY;
  assert (bool_decide (dnskey_records = None)).

Definition test_invalid_hex_in_ds : outcome unit :=
  let temp_file :=
    [lit "$ORIGIN example.com.";
     lit "$TTL 3600";
     lit "@ IN SOA ns1.example.com. admin.example.com. 1 7200 3600 1209600 86400";
     lit "@ IN DS 12345 8 2 ZZZZZZ"] in
  zone ← unwrap_result (parse_zone_file (written temp_file) (lit "example.com."));
  ds_records ← lookup_text zone "example.com." RecordType.DS;
  assert (bool_decide (ds_records = None)).

Definition test_very_long_domain_name : outcome unit :=
  let long_label := replicate 70 97 in
  let temp_file :=
    [lit "$ORIGIN example.com.";
     lit "$TTL 3600";
     lit "@ IN SOA ns1.example.com. admin.example.com. 1 7200 3600 1209600 86400";
     long_label ++ lit " IN A 192.0.2.1"] in
  let result := parse_zone_file (written temp_file) (lit "example.com.") in
  assert (is_err result).

Definition test_wildcard_with_specific_override : outcome unit :=
  origin ← from_str (lit "example.com.");
  soa ← test_soa (lit "ns1.example.com.") (lit "admin.example.com.") 1;
  let zone := Zone_new origin soa in
  wildcard_name ← from_str (lit "*.example.com.");
  let zone := add_record zone (record_from_rdata wildcard_name 3600 (RData.A (192, 0, 2, 100))) in
  specific_name ← from_str (lit "www.example.com.");
  let zone := add_record zone (record_from_rdata specific_name 3600 (RData.A (192, 0, 2, 10))) in
  let specific_result := zone_lookup zone specific_name RecordType.A in
  assert (bool_decide (is_Some specific_result));;
  first_data specific_result (check_a (192, 0, 2, 10));;
  random_name ← from_str (lit "random.example.com.");
  let wildcard_result := lookup_wildcard zone random_name RecordType.A in
  assert (bool_decide (is_Some wildcard_result));;
  first_data wildcard_result (check_a (192, 0, 2, 100)).

Definition test_nonexistent_record_type : outcome unit :=
  origin ← from_str (lit "example.com.");
  soa ← test_soa (lit "ns1.example.com.") (lit "admin.example.com.") 1;
  let zone := Zone_new origin soa in
  let result := zone_lookup zone origin RecordType.MX in
  assert (bool_decide (result = None)).

Definition test_caa_record_parsing : outcome unit :=
  let temp_file :=
    [lit "$ORIGIN example.com.";
     lit "$TTL 3600";
     lit "@ IN SOA ns1.example.com. admin.example.com. 1 7200 3600 1209600 86400";
     quoted "@ IN CAA 0 issue 'letsencrypt.org'";
     quoted "@ IN CAA 0 issuewild 'letsencrypt.org'";
     quoted "@ IN CAA 0 iodef 'mailto:admin@example.com'"] in
  zone ← unwrap_result (parse_zone_file (written temp_file) (lit "example.com."));
  caa_records ← lookup_text zone "example.com." RecordType.CAA;
  assert (bool_decide (is_Some caa_records));;
  n ← len_of caa_records;
  assert_eq n 3%nat.

Definition test_ptr_record_parsing : outcome unit :=
  let temp_file :=
    [lit "$ORIGIN 2.0.192.in-addr.arpa.";
     lit "$TTL 3600";
     lit "@ IN SOA ns1.example.com. admin.example.com. 1 7200 3600 1209600 86400";
     lit "1 IN PTR www.example.com."] in
  zone ← unwrap_result (parse_zone_file (written temp_file) (lit "2.0.192.in-addr.arpa."));
  ptr_records ← lookup_text zone "1.2.0.192.in-addr.arpa." RecordType.PTR;
  assert (bool_decide (is_Some ptr_records)).

Definition test_srv_record_parsing : outcome unit :=
  let temp_file :=
    [lit "$ORIGIN example.com.";
     lit "$TTL 3600";
     lit "@ IN SOA ns1.example.com. admin.example.com. 1 7200 3600 1209600 86400";
     lit "_http._tcp IN SRV 10 60 80 www.example.com."] in
  zone ← unwrap_result (parse_zone_file (written temp_file) (lit "example.com."));
  srv_records ← lookup_text zone "_http._tcp.example.com." RecordType.SRV;
  assert (bool_decide (is_Some srv_records)).

Definition test_multiline_soa_with_parentheses : outcome unit :=
  let temp_file :=
    [lit "$ORIGIN example.com.";
     lit "$TTL 3600";
     lit "@ IN SOA ns1.example.com. admin.example.com. (";
     lit "    2024010101  ; Serial";
     lit "    7200        ; Refresh";
     lit "    3600        ; Retry";
     lit "    1209600     ; Expire";
     lit "    86400       ; Minimum TTL";
     lit ")";
     lit "@ IN NS ns1.example.com.";
     lit "ns1 IN A 192.0.2.1"] in
  zone ← unwrap_result (parse_zone_file (written temp_file) (lit "example.com."));
  assert_eq (serial (soa zone)) 2024010101;;
  assert_eq (refresh (soa zone)) 7200;;
  assert_eq (retry (soa zone)) 3600;;
  assert_eq (expire (soa zone)) 1209600;;
  assert_eq (minimum (soa zone)) 86400;;
  ns_records ← lookup_text zone "example.com." RecordType.NS;
  assert (bool_decide (is_Some ns_records)).

Definition test_multiline_soa_without_inline_comments : outcome unit :=
  let temp_file :=
    [lit "$ORIGIN example.com.";
     lit "$TTL 3600";
     lit "@ IN SOA ns1.example.com. admin.example.com. (";
     lit "    2024010101";
     lit "    7200";
     lit "    3600";
     lit "    1209600";
     lit "    86400";
     lit ")";
     lit "@ IN NS ns1.example.com."] in
  zone ← unwrap_result (parse_zone_file (written temp_file) (lit "example.com."));
  assert_eq (serial (soa zone)) 2024010101.

Definition test_inline_comments_stripped : outcome unit :=
  let temp_file :=
    [lit "$ORIGIN example.com.";
     lit "$TTL 3600 ; default TTL";
     lit "@ IN SOA ns1.example.com. admin.example.com. 1 7200 3600 1209600 86400 ; SOA record";
     lit "@ IN NS ns1.example.com. ; nameserver";
     lit "ns1 IN A 192.0.2.1 ; nameserver IP"] in
  zone ← unwrap_result (parse_zone_file (written temp_file) (lit "example.com."));
  ns_records ← lookup_text zone "example.com." RecordType.NS;
  assert (bool_decide (is_Some ns_records)).

Definition test_preprocess_zone_content : outcome unit :=
  let content := flat_map (fun l => l ++ [c_newline])
    [lit "$ORIGIN example.com.";
     lit "$TTL 3600";
     lit "@ IN SOA ns1.example.com. admin.example.com. (";
     lit "    2024010101  ; Serial";
     lit "    7200        ; Refresh";
     lit "    3600        ; Retry";
     lit "    1209600     ; Expire";
     lit "    86400       ; Minimum TTL";
     lit ")";
     lit "@ IN NS ns1.example.com."] in
  let processed := preprocess_zone_content content in
  assert_eq (length processed) 4%nat;;
  soa ← index processed 2;
  assert (contains (lit "SOA") soa);;
  assert (contains (lit "2024010101") soa);;
  assert (contains (lit "86400") soa);;
  assert (negb (contains (lit ";") soa)).

Definition test_soa_single_line_format : outcome unit :=
  let temp_file :=
    [lit "$ORIGIN example.com.";
     lit "$TTL 3600";
     lit "@ IN SOA ns1.example.com. admin.example.com. 2024010101 7200 3600 1209600 86400";
     lit "@ IN NS ns1.example.com."] in
  zone ← unwrap_result (parse_zone_file (written temp_file) (lit "example.com."));
  assert_eq (serial (soa zone)) 2024010101;;
  assert_eq (refresh (soa zone)) 7200;;
  assert_eq (retry (soa zone)) 3600;;
  assert_eq (expire (soa zone)) 1209600;;
  assert_eq (minimum (soa zone)) 86400.

Definition test_soa_multiline_compact : outcome unit :=
  let temp_file :=
    [lit "$ORIGIN example.com.";
     lit "$TTL 3600";
     lit "@ IN SOA ns1.example.com. admin.example.com. (";
     lit "    2024010101 7200 3600 1209600 86400";
     lit ")";
     lit "@ IN NS ns1.example.com."] in
  zone ← unwrap_result (parse_zone_file (written temp_file) (lit "example.com."));
  assert_eq (serial (soa zone)) 2024010101;;
  assert_eq (refresh (soa zone)) 7200.

Definition test_soa_multiline_each_field_separate_line : outcome unit :=
  let temp_file :=
    [lit "$ORIGIN example.com.";
     lit "$TTL 3600";
     lit "@ IN SOA ns1.example.com. admin.example.com. (";
     lit "    2024010101";
     lit "    7200";
     lit "    3600";
     lit "    1209600";
     lit "    86400";
     lit ")";
     lit "@ IN NS ns1.example.com."] in
  zone ← unwrap_result (parse_zone_file (written temp_file) (lit "example.com."));
  assert_eq (serial (soa zone)) 2024010101;;
  assert_eq (minimum (soa zone)) 86400.

Definition test_soa_multiline_mixed_grouping : outcome unit :=
  let temp_file :=
    [lit "$ORIGIN example.com.";
     lit "$TTL 3600";
     lit "@ IN SOA ns1.example.com. admin.example.com. (";
     lit "    2024010101 7200";
     lit "    3600";
     lit "    1209600 86400";
     lit ")";
     lit "@ IN NS ns1.example.com."] in
  zone ← unwrap_result (parse_zone_file (written temp_file) (lit "example.com."));
  assert_eq (serial (soa zone)) 2024010101;;
  assert_eq (refresh (soa zone)) 7200;;
  assert_eq (retry (soa zone)) 3600;;
  assert_eq (expire (soa zone)) 1209600;;
  assert_eq (minimum (soa zone)) 86400.

Definition test_soa_with_inline_comments : outcome unit :=
  let temp_file :=
    [lit "$ORIGIN example.com.";
     lit "$TTL 3600";
     lit "@ IN SOA ns1.example.com. admin.example.com. ( ; Start SOA";
     lit "    2024010101  ; Serial number";
     lit "    7200        ; Refresh - 2 hours";
     lit "    3600        ; Retry - 1 hour";
     lit "    1209600     ; Expire - 2 weeks";
     lit "    86400       ; Minimum TTL - 1 day";
     lit ") ; End SOA";
     lit "@ IN NS ns1.example.com. ; Primary NS"] in
  zone ← unwrap_result (parse_zone_file (written temp_file) (lit "example.com."));
  assert_eq (serial (soa zone)) 2024010101;;
  assert_eq (refresh (soa zone)) 7200;;
  assert_eq (retry (soa zone)) 3600;;
  assert_eq (expire (soa zone)) 1209600;;
  assert_eq (minimum (soa zone)) 86400.

Definition test_soa_single_line_with_comment : outcome unit :=
  let temp_file :=
    [lit "$ORIGIN example.com.";
     lit "$TTL 3600";
     lit "@ IN SOA ns1.example.com. admin.example.com. 2024010101 7200 3600 1209600 86400 ; Main SOA";
     lit "@ IN NS ns1.example.com."] in
  zone ← unwrap_result (parse_zone_file (written temp_file) (lit "example.com."));
  assert_eq (serial (soa zone)) 2024010101.

Definition test_soa_with_tabs_and_spaces : outcome unit :=
  let temp_file :=
    [lit "$ORIGIN example.com.";
     lit "$TTL 3600";
     lit "@	IN	SOA	ns1.example.com.	admin.example.com.	(";
     lit "		2024010101		; Serial";
     lit "        7200          ; Refresh";
     lit "	3600		; Retry";
     lit "    1209600    ; Expire";
     lit "	86400	; Minimum";
     lit ")";
     lit "@ IN NS ns1.example.com."] in
  zone ← unwrap_result (parse_zone_file (written temp_file) (lit "example.com."));
  assert_eq (serial (soa zone)) 2024010101;;
  assert_eq (refresh (soa zone)) 7200;;
  assert_eq (retry (soa zone)) 3600.

Definition test_soa_opening_paren_on_same_line_as_name : outcome unit :=
  let temp_file :=
    [lit "$ORIGIN example.com.";
     lit "$TTL 3600";
     lit "@ IN SOA ns1.example.com. admin.example.com. ( 2024010101";
     lit "    7200 3600";
     lit "    1209600 86400 )";
     lit "@ IN NS ns1.example.com."] in
  zone ← unwrap_result (parse_zone_file (written temp_file) (lit "example.com."));
  assert_eq (serial (soa zone)) 2024010101;;
  assert_eq (minimum (soa zone)) 86400.

Definition test_soa_multiple_blank_lines_in_parens : outcome unit :=
  let temp_file :=
    [lit "$ORIGIN example.com.";
     lit "$TTL 3600";
     lit "@ IN SOA ns1.example.com. admin.example.com. (";
     [];
     lit "    2024010101";
     [];
     lit "    7200 3600";
     [];
     lit "    1209600 86400";
     [];
     lit ")";
     lit "@ IN NS ns1.example.com."] in
  zone ← unwrap_result (parse_zone_file (written temp_file) (lit "example.com."));
  assert_eq (serial (soa zone)) 2024010101.

Definition test_soa_comment_only_lines_in_parens : outcome unit :=
  let temp_file :=
    [lit "$ORIGIN example.com.";
     lit "$TTL 3600";
     lit "@ IN SOA ns1.example.com. admin.example.com. (";
     lit "    ; This is the serial number";
     lit "    2024010101";
     lit "    ; Time values below";
     lit "    7200";
     lit "    3600";
     lit "    1209600";
     lit "    86400";
     lit ")";
     lit "@ IN NS ns1.example.com."] in
  zone ← unwrap_result (parse_zone_file (written temp_file) (lit "example.com."));
  assert_eq (serial (soa zone)) 2024010101;;
  assert_eq (refresh (soa zone)) 7200.

Definition test_multiline_mx_record : outcome unit :=
  let temp_file :=
    [lit "$ORIGIN example.com.";
     lit "$TTL 3600";
     lit "@ IN SOA ns1.example.com. admin.example.com. 1 7200 3600 1209600 86400";
     lit "@ IN MX (";
     lit "    10";
     lit "    mail.example.com.";
     lit ")";
     lit "@ IN NS ns1.example.com."] in
  zone ← unwrap_result (parse_zone_file (written temp_file) (lit "example.com."));
  mx_records ← lookup_text zone "example.com." RecordType.MX;
  assert (bool_decide (is_Some mx_records));;
  n ← len_of mx_records;
  assert_eq n 1%nat.

Definition test_naptr_record_parsing : outcome unit :=
  let temp_file :=
    [lit "$ORIGIN example.com.";
     lit "$TTL 3600";
     lit "@ IN SOA ns1.example.com. admin.example.com. 1 7200 3600 1209600 86400";
     quoted "_sip._tcp IN NAPTR 100 10 'u' 'E2U+sip' '!^.*$!sip:info@example.com!' ."] in
  zone ← unwrap_result (parse_zone_file (written temp_file) (lit "example.com."));
  naptr_records ← lookup_text zone "_sip._tcp.example.com." RecordType.NAPTR;
  assert (bool_decide (is_Some naptr_records));;
  n ← len_of naptr_records;
  assert_eq n 1%nat.

Definition test_tlsa_record_parsing : outcome unit :=
  let temp_file :=
    [lit "$ORIGIN example.com.";
     lit "$TTL 3600";
     lit "@ IN SOA ns1.example.com. admin.example.com. 1 7200 3600 1209600 86400";
     lit "_443._tcp IN TLSA 3 1 1 D2ABDE240D7CD3EE6B4B28C54DF034B97983A1D16E8A410E4561CB106618E971"] in
  zone ← unwrap_result (parse_zone_file (written temp_file) (lit "example.com."));
  tlsa_records ← lookup_text zone "_443._tcp.example.com." RecordType.TLSA;
  assert (bool_decide (is_Some tlsa_records));;
  n ← len_of tlsa_records;
  assert_eq n 1%nat.

Definition test_sshfp_record_parsing : outcome unit :=
  let temp_file :=
    [lit "$ORIGIN example.com.";
     lit "$TTL 3600";
     lit "@ IN SOA ns1.example.com. admin.example.com. 1 7200 3600 1209600 86400";
     lit "host IN SSHFP 1 2 123456789ABCDEF67890123456789ABCDEF67890123456789ABCDEF6789012"] in
  zone ← unwrap_result (parse_zone_file (written temp_file) (lit "example.com."));
  sshfp_records ← lookup_text zone "host.example.com." RecordType.SSHFP;
  assert (bool_decide (is_Some sshfp_records));;
  n ← len_of sshfp_records;
  assert_eq n 1%nat.

Definition test_axfr_should_only_include_two_soa_records : outcome unit :=
  origin ← from_str (lit "example.com.");
  soa ← test_soa (lit "ns1.example.com.") (lit "admin.example.com.") 2024010101;
  let zone := Zone_new origin soa in
  www ← from_str (lit "www.example.com.");
  let zone := add_record zone (record_from_rdata www 3600 (RData.A (192, 0, 2, 1))) in
  let soa_record := get_soa_record zone in
  let zone := add_record zone soa_record in
  let all_records := get_all_records zone in
  let soa_count := length (filter (fun r => record_record_type r = RecordType.SOA) all_records) in
  assert_eq soa_count 2%nat;;
  first ← unwrap (head all_records);
  assert_eq (record_record_type first) RecordType.SOA;;
  last ← unwrap (last all_records);
  assert_eq (record_record_type last) RecordType.SOA.

Definition test_get_all_records_canonical_ordering : outcome unit :=
  origin ← from_str (lit "example.com.");
  soa ← test_soa (lit "ns1.example.com.") (lit "admin.example.com.") 1;
  let zone := Zone_new origin soa in
  zzz ← from_str (lit "zzz.example.com.");
  let zone := add_record zone (record_from_rdata zzz 300 (RData.A (192, 0, 2, 1))) in
  aaa ← from_str (lit "aaa.example.com.");
  let zone := add_record zone (record_from_rdata aaa 300 (RData.A (192, 0, 2, 2))) in
  mmm ← from_str (lit "mmm.example.com.");
  let zone := add_record zone (record_from_rdata mmm 300 (RData.A (192, 0, 2, 3))) in
  multi ← from_str (lit "multi.example.com.");
  let zone := add_record zone (record_from_rdata multi 300 (RData.AAAA [8193; 3512; 0; 0; 0; 0; 0; 1])) in
  multi ← from_str (lit "multi.example.com.");
  let zone := add_record zone (record_from_rdata multi 300 (RData.A (192, 0, 2, 4))) in
  let all_records := get_all_records zone in
  let middle_records := take (length all_records - 2) (drop 1 all_records) in
  let names := map (fun r => name_to_string (record_name r)) middle_records in
  let sorted_names := merge_sort str_le names in
  assert_eq names sorted_names;;
  let multi_records :=
    filter (fun r => name_to_string (record_name r) = lit "multi.example.com.") middle_records in
  if (2 <=? length multi_records)%nat then
    r0 ← index multi_records 0;
    assert_eq (record_record_type r0) RecordType.A;;
    r1 ← index multi_records 1;
    assert_eq (record_record_type r1) RecordType.AAAA
  else Ok tt.

(** All of them, in the order of the file. *)
Definition zone_unit_tests : list (outcome unit) :=
  [test_zone_store_find_zone;
   test_wildcard_lookup;
   test_dnskey_parsing;
   test_rrsig_parsing;
   test_nsec_parsing;
   test_ds_parsing;
   test_malformed_zone_file;
   test_invalid_ttl;
   test_invalid_record_data;
   test_malformed_soa;
   test_empty_zone_file;
   test_invalid_base64_in_dnskey;
   test_invalid_hex_in_ds;
   test_very_long_domain_name;
   test_wildcard_with_specific_override;
   test_nonexistent_record_type;
   test_caa_record_parsing;
   test_ptr_record_parsing;
   test_srv_record_parsing;
   test_multiline_soa_with_parentheses;
   test_multiline_soa_without_inline_comments;
   test_inline_comments_stripped;
   test_preprocess_zone_content;
   test_soa_single_line_format;
   test_soa_multiline_compact;
   test_soa_multiline_each_field_separate_line;
   test_soa_multiline_mixed_grouping;
   test_soa_with_inline_comments;
   test_soa_single_line_with_comment;
   test_soa_with_tabs_and_spaces;
   test_soa_opening_paren_on_same_line_as_name;
   test_soa_multiple_blank_lines_in_parens;
   test_soa_comment_only_lines_in_parens;
   test_multiline_mx_record;
   test_naptr_record_parsing;
   test_tlsa_record_parsing;
   test_sshfp_record_parsing;
   test_axfr_should_only_include_two_soa_records;
   test_get_all_records_canonical_ordering].
End zone_tests.

(** Every test passes. *)
Import Concrete.

Example zone_unit_tests_pass : forallb is_ok (zone_unit_tests) = true.
Proof. vm_compute. reflexivity. Qed.
