(* ===== verification/ProtocolTests.v ===== *)
(** The unit tests of [src/src/protocol.rs], lines 214-618, as computations on the model; each is run
    on the concrete instance of the crates.  Requires [Protocol], [Testing] and [Proptests] (the test
    store). *)
From S2P Require Import Prelude RustStr HashMap Crates CratesModel Zone Testing Protocol Proptests.
Open Scope Z_scope.

Section protocol_tests.
Context `{Hickory}.

(** [Query::query(Name::from_str(name).unwrap(), rtype)] *)
Definition question (name : string) (rtype : RecordType.t) : outcome Query :=
  name ← from_str (lit name);
  Ok (query_query name rtype).

Definition answers_len (response : Message) : nat := length (message_answers response).

(** [if let Some(rdata) = response.answers()\[0\].data() { check(rdata) }] *)
Definition first_answer (response : Message) (check : RData.t -> outcome unit) : outcome unit :=
  record ← index (message_answers response) 0;
  match record_data record with
  | Some rdata => check rdata
  | None => Ok tt
  end.

(** [QueryProcessor::new(...)] over a store with one zone, and the query it processes. *)
Definition process_with (zone : Zone) (query : Message) : outcome Message :=
  unwrap_result (process_query (add_zone ZoneStore_new zone) query).

Definition test_successful_query : outcome unit :=
  q ← question "www.example.com." RecordType.A;
  let query := add_query q (query_with 1234 OpCode.Query) in
  response ← process query;
  assert_eq (message_id response) 1234;;
  assert_eq (message_response_code response) ResponseCode.NoError;;
  assert (message_authoritative response);;
  assert_eq (answers_len response) 1%nat.

Definition test_nxdomain_query : outcome unit :=
  q ← question "nonexistent.example.com." RecordType.A;
  let query := add_query q (set_id 5678 message_new) in
  response ← process query;
  assert_eq (message_response_code response) ResponseCode.NXDomain;;
  assert (message_authoritative response);;
  assert_eq (answers_len response) 0%nat.

Definition test_refused_query : outcome unit :=
  q ← question "example.org." RecordType.A;
  let query := add_query q message_new in
  response ← process query;
  assert_eq (message_response_code response) ResponseCode.Refused.

Definition test_wildcard_query : outcome unit :=
  origin ← from_str (lit "example.com.");
  soa ← test_soa (lit "ns1.example.com.") (lit "admin.example.com.") 2025120601;
  let zone := Zone_new origin soa in
  wildcard ← from_str (lit "*.example.com.");
  let zone := add_record zone (record_from_rdata wildcard 3600 (RData.A (192, 0, 2, 100))) in
  www ← from_str (lit "www.example.com.");
  let zone := add_record zone (record_from_rdata www 3600 (RData.A (192, 0, 2, 10))) in
  ns1 ← from_str (lit "ns1.example.com.");
  let zone := add_record zone (record_from_rdata origin 3600 (RData.NS ns1)) in
  q ← question "random.example.com." RecordType.A;
  let query := add_query q (set_id 1111 message_new) in
  response ← process_with zone query;
  assert_eq (message_id response) 1111;;
  assert_eq (message_response_code response) ResponseCode.NoError;;
  assert (message_authoritative response);;
  assert_eq (answers_len response) 1%nat;;
  first_answer response (check_a (192, 0, 2, 100));;
  q ← question "www.example.com." RecordType.A;
  let query := add_query q (set_id 2222 message_new) in
  response ← process_with zone query;
  assert_eq (message_id response) 2222;;
  assert_eq (message_response_code response) ResponseCode.NoError;;
  assert_eq (answers_len response) 1%nat;;
  first_answer response (check_a (192, 0, 2, 10)).

Definition test_dnssec_ok_flag : outcome unit :=
  q ← question "www.example.com." RecordType.A;
  let query := add_query q (query_with 3333 OpCode.Query) in
  let edns := edns_new in
  let edns := edns_set_max_payload 4096 edns in
  let edns := edns_set_dnssec_ok true edns in
  let query := set_edns edns query in
  response ← process query;
  assert_eq (message_id response) 3333;;
  assert_eq (message_response_code response) ResponseCode.NoError;;
  assert (bool_decide (is_Some (message_extensions response)));;
  match message_extensions response with
  | Some response_edns => assert (edns_dnssec_ok response_edns)
  | None => Ok tt
  end.

Definition test_empty_query : outcome unit :=
  let query := query_with 9999 OpCode.Query in
  response ← process query;
  assert_eq (message_id response) 9999;;
  assert_eq (message_response_code response) ResponseCode.FormErr.

Definition test_invalid_opcode : outcome unit :=
  q ← question "www.example.com." RecordType.A;
  let query := add_query q (query_with 4444 OpCode.Update) in
  response ← process query;
  assert_eq (message_id response) 4444;;
  assert_eq (message_response_code response) ResponseCode.NotImp.

Definition test_query_for_different_zone : outcome unit :=
  q ← question "www.different-zone.com." RecordType.A;
  let query := add_query q (set_id 5555 message_new) in
  response ← process query;
  assert_eq (message_id response) 5555;;
  assert_eq (message_response_code response) ResponseCode.Refused.

Definition test_multiple_queries_in_message : outcome unit :=
  q1 ← question "www.example.com." RecordType.A;
  let query := add_query q1 (set_id 6666 message_new) in
  q2 ← question "mail.example.com." RecordType.A;
  let query := add_query q2 query in
  response ← process query;
  assert_eq (message_id response) 6666;;
  assert_eq (length (message_queries response)) 1%nat.

Definition test_query_without_recursion_desired : outcome unit :=
  q ← question "www.example.com." RecordType.A;
  let query := add_query q (set_recursion_desired false (query_with 7777 OpCode.Query)) in
  response ← process query;
  assert_eq (message_id response) 7777;;
  assert_eq (message_response_code response) ResponseCode.NoError;;
  assert (negb (message_recursion_desired response));;
  assert (negb (v_recursion_available (message_view response))).

Definition test_cname_without_target : outcome unit :=
  origin ← from_str (lit "example.com.");
  soa ← test_soa (lit "ns1.example.com.") (lit "admin.example.com.") 2025120601;
  let zone := Zone_new origin soa in
  alias ← from_str (lit "alias.example.com.");
  target ← from_str (lit "nonexistent.example.com.");
  let zone := add_record zone (record_from_rdata alias 3600 (RData.CNAME target)) in
  q ← question "alias.example.com." RecordType.A;
  let query := add_query q (set_id 8888 message_new) in
  response ← process_with zone query;
  assert_eq (message_id response) 8888;;
  assert_eq (message_response_code response) ResponseCode.NoError;;
  assert_eq (answers_len response) 1%nat;;
  record ← index (message_answers response) 0;
  assert (match record_data record with Some (RData.CNAME _) => true | _ => false end).

Definition test_axfr_query : outcome unit :=
  q ← question "example.com." RecordType.AXFR;
  let query := add_query q (set_id 9000 message_new) in
  response ← process query;
  assert_eq (message_id response) 9000;;
  assert (message_authoritative response);;
  assert_eq (length (message_queries response)) 1%nat.

(** All of them, in the order of the file. *)
Definition protocol_unit_tests : list (outcome unit) :=
  [test_successful_query; test_nxdomain_query; test_refused_query; test_wildcard_query;
   test_dnssec_ok_flag; test_empty_query; test_invalid_opcode; test_query_for_different_zone;
   test_multiple_queries_in_message; test_query_without_recursion_desired; test_cname_without_target;
   test_axfr_query].
End protocol_tests.

Import Concrete.

(** Every test passes. *)
Example protocol_unit_tests_pass : forallb is_ok protocol_unit_tests = true.
Proof. vm_compute. reflexivity. Qed.
