(* ===== verification/MetricsTests.v ===== *)
(** The unit tests of [src/src/metrics.rs], lines 282-537, on the model, and those of
    [src/src/api.rs].  A test records some calls and looks at a snapshot; the test with ten threads is
    proved for every interleaving of their steps.  Requires [Metrics], [Api] and [Testing]. *)
From S2P Require Import Prelude RustTime RustStr HashMap Crates CratesModel Metrics MetricsProps Testing Api.
From Stdlib Require Import SpecFloat.
Open Scope Z_scope.

(** [Duration::from_micros] and [Duration::from_millis] *)
Definition from_micros (n : Z) : Duration := n * 1000.
Definition from_millis (n : Z) : Duration := n * 1000000.
Definition as_millis (d : Duration) : Z := d / 1000000.

(** [let metrics = Metrics::new(); ...; let snapshot = metrics.get_snapshot();] *)
Definition snapshot_after (calls : list MetricsCall) : MetricsSnapshot :=
  get_snapshot 0 (run_metrics (Metrics_new 0) calls).

Definition test_metrics_recording : outcome unit :=
  let snapshot := snapshot_after
    [QueryReceived Udp false; QueryReceived Tcp true; ResponseSent ResponseCode.NoError;
     ResponseSent ResponseCode.NXDomain; QueryType RecordType.A; Latency (from_micros 1500)] in
  assert_eq (s_total_queries snapshot) 2;;
  assert_eq (s_udp_queries snapshot) 1;;
  assert_eq (s_tcp_queries snapshot) 1;;
  assert_eq (s_edns_queries snapshot) 1;;
  assert_eq (s_noerror_responses snapshot) 1;;
  assert_eq (s_nxdomain_responses snapshot) 1;;
  assert_eq (s_avg_latency_us snapshot) 750.

Definition test_all_response_codes : outcome unit :=
  let snapshot := snapshot_after
    [ResponseSent ResponseCode.NoError; ResponseSent ResponseCode.NXDomain;
     ResponseSent ResponseCode.ServFail; ResponseSent ResponseCode.Refused;
     ResponseSent ResponseCode.FormErr] in
  assert_eq (s_noerror_responses snapshot) 1;;
  assert_eq (s_nxdomain_responses snapshot) 1;;
  assert_eq (s_servfail_responses snapshot) 1;;
  assert_eq (s_refused_responses snapshot) 1;;
  assert_eq (s_formerr_responses snapshot) 1.

Definition test_rate_limited_and_errors : outcome unit :=
  let snapshot := snapshot_after [RateLimited; RateLimited; ErrorSeen; ErrorSeen; ErrorSeen] in
  assert_eq (s_rate_limited snapshot) 2;;
  assert_eq (s_errors snapshot) 3.

Definition test_latency_min_max : outcome unit :=
  let snapshot := snapshot_after
    [QueryReceived Udp false; QueryReceived Udp false; QueryReceived Udp false;
     QueryReceived Udp false; QueryReceived Udp false;
     Latency (from_micros 100); Latency (from_micros 500); Latency (from_micros 50);
     Latency (from_micros 1000); Latency (from_micros 200)] in
  assert_eq (s_min_latency_us snapshot) 50;;
  assert_eq (s_max_latency_us snapshot) 1000;;
  assert_eq (s_avg_latency_us snapshot) ((100 + 500 + 50 + 1000 + 200) / 5).

Definition test_multiple_query_types : outcome unit :=
  let snapshot := snapshot_after
    [QueryType RecordType.A; QueryType RecordType.AAAA; QueryType RecordType.A;
     QueryType RecordType.MX; QueryType RecordType.A; QueryType RecordType.AAAA] in
  assert_eq (s_query_types snapshot !! RecordType.A) (Some 3);;
  assert_eq (s_query_types snapshot !! RecordType.AAAA) (Some 2);;
  assert_eq (s_query_types snapshot !! RecordType.MX) (Some 1).

Definition test_zero_queries_latency : outcome unit :=
  let snapshot := snapshot_after [] in
  assert_eq (s_avg_latency_us snapshot) 0;;
  assert_eq (s_total_queries snapshot) 0.

(** The test of a snapshot that is taken [slept] after the metrics were made. *)
Definition test_uptime (start slept : Duration) : outcome unit :=
  let metrics := Metrics_new start in
  let snapshot := get_snapshot (start + slept) metrics in
  assert (100 <=? as_millis (s_uptime snapshot)).

(** What the [i]-th of the ten threads records. *)
Definition thread_calls (i : nat) : list MetricsCall :=
  concat (replicate 100
    [QueryReceived (if (i mod 2 =? 0)%nat then Udp else Tcp) (i mod 3 =? 0)%nat;
     ResponseSent ResponseCode.NoError; QueryType RecordType.A; Latency (from_micros 100)]).

(** The test after some schedule of the atomic steps of the threads. *)
Definition test_concurrent_updates (schedule : list Step) : outcome unit :=
  let metrics := run_steps (Metrics_new 0) schedule in
  let snapshot := get_snapshot 0 metrics in
  assert_eq (s_total_queries snapshot) 1000;;
  assert_eq (s_noerror_responses snapshot) 1000.

(** [ResponseCode::YXDomain] *)
Definition YXDomain : ResponseCode.t := ResponseCode.Other 6.

Definition test_unknown_response_code : outcome unit :=
  let snapshot := snapshot_after [ResponseSent ResponseCode.NotImp; ResponseSent YXDomain] in
  assert_eq (s_noerror_responses snapshot) 0;;
  assert_eq (s_nxdomain_responses snapshot) 0;;
  assert_eq (s_servfail_responses snapshot) 0;;
  assert_eq (s_refused_responses snapshot) 0;;
  assert_eq (s_formerr_responses snapshot) 0.

(** [assert_eq!] on floats *)
Definition assert_f64 (x y : spec_float) : outcome unit := assert (SFeqb x y).

Definition test_tcp_connection_metrics : outcome unit :=
  let snapshot := snapshot_after [TcpConnection; TcpConnection; TcpConnection] in
  assert_eq (s_tcp_connections snapshot) 3;;
  assert_f64 (s_avg_queries_per_connection snapshot) (u64_as_f64 0).

Definition test_tcp_queries_per_connection : outcome unit :=
  let snapshot := snapshot_after
    [TcpConnection; TcpConnectionClosed 5; TcpConnection; TcpConnectionClosed 3] in
  assert_eq (s_tcp_connections snapshot) 2;;
  assert_f64 (s_avg_queries_per_connection snapshot) (u64_as_f64 4).

Definition test_tcp_connection_timeouts : outcome unit :=
  let snapshot := snapshot_after
    [TcpConnection; TcpConnectionTimeout; TcpConnection; TcpConnectionTimeout] in
  assert_eq (s_tcp_connection_timeouts snapshot) 2.

Definition test_tcp_metrics_zero_connections : outcome unit :=
  let snapshot := snapshot_after [] in
  assert_eq (s_tcp_connections snapshot) 0;;
  assert_f64 (s_avg_queries_per_connection snapshot) (u64_as_f64 0);;
  assert_eq (s_tcp_connection_timeouts snapshot) 0.

Definition test_tcp_connection_with_zero_queries : outcome unit :=
  let snapshot := snapshot_after [TcpConnection; TcpConnectionClosed 0] in
  assert_eq (s_tcp_connections snapshot) 1;;
  assert_f64 (s_avg_queries_per_connection snapshot) (u64_as_f64 0).

(** A request to a path is answered with status 200 when the router has the path. *)
Definition test_health_check `{Hickory} : outcome unit :=
  assert (bool_decide (is_Some (create_router (fun _ => Metrics_new 0) 0 (lit "/health")))).

Definition test_metrics_endpoint `{Hickory} : outcome unit :=
  assert (bool_decide (is_Some (create_router (fun _ => Metrics_new 0) 0 (lit "/metrics")))).

(** Those without a thread or a clock. *)
Definition metrics_unit_tests : list (outcome unit) :=
  [test_metrics_recording; test_all_response_codes; test_rate_limited_and_errors; test_latency_min_max;
   test_multiple_query_types; test_zero_queries_latency; test_unknown_response_code;
   test_tcp_connection_metrics; test_tcp_queries_per_connection; test_tcp_connection_timeouts;
   test_tcp_metrics_zero_connections; test_tcp_connection_with_zero_queries].

Example metrics_unit_tests_pass : forallb is_ok metrics_unit_tests = true.
Proof. vm_compute. reflexivity. Qed.

Lemma api_tests_pass `{Hickory} : test_health_check = Ok tt /\ test_metrics_endpoint = Ok tt.
Proof. by split. Qed.

Lemma test_uptime_passes start slept : from_millis 100 <= slept -> test_uptime start slept = Ok tt.
Proof.
  intros Hs. unfold test_uptime, as_millis, get_snapshot, take_snapshot, duration_since, from_millis in *.
  cbn [s_uptime start_time Metrics_new]. assert (100 <= Z.max 0 (start + slept - start) / 1000000) as Hd.
  { apply Z.div_le_lower_bound; lia. }
  by apply Z.leb_le in Hd as ->.
Qed.

(** Whatever the schedule of the threads, no update is lost. *)
Lemma test_concurrent_updates_passes schedule :
  interleaves ((fun i => flat_map call_steps (thread_calls i)) <$> seq 0 10) schedule ->
  test_concurrent_updates schedule = Ok tt.
Proof.
  intros Hi. unfold test_concurrent_updates.
  assert (run_steps (Metrics_new 0) schedule =
          run_metrics (Metrics_new 0) (flat_map thread_calls (seq 0 10))) as ->; [|vm_compute; reflexivity].
  unfold run_metrics. apply run_steps_perm.
  - rewrite (interleaves_perm _ _ Hi). generalize (seq 0 10). intros l.
    induction l as [|i l IH]; [done|]. cbn -[thread_calls]. by rewrite flat_map_app, IH.
  - rewrite (interleaves_perm _ _ Hi). apply Forall_concat, Forall_fmap, Forall_true.
    intros i. cbn beta. unfold compose. rewrite flat_map_concat_map. apply Forall_concat, Forall_map, Forall_true. intros c. apply call_steps_ok.
Qed.
