(* ===== verification/RateLimitTests.v ===== *)
(** The unit tests of [src/src/ratelimit.rs], lines 92-270, on the model.  A test is a computation over
    the limiter and the readings of the clock; it is run on a clock that advances by a microsecond at
    each reading and by the time slept at each [sleep].  Requires [RateLimit] and [Testing]. *)
From S2P Require Import Prelude RustTime RustStr Crates RateLimit Testing.
Open Scope Z_scope.

(** [IpAddr::V4(Ipv4Addr::new(a, b, c, d))] *)
Definition ipv4 (a b c d : Z) : IpAddr := V4 (((a * 256 + b) * 256 + c) * 256 + d).

(** The limiter under test: its state, the readings of the clock so far and the time slept so far. *)
Record Tested := { t_inner : RateLimiterInner; t_tick : nat; t_slept : Duration }.

Definition clock_of (slept : Duration) : Clock := fun n => 1000000000000 + slept + 1000 * Z.of_nat n.

(** [RateLimiter::new(max_qps)] *)
Definition limiter_new (max_qps : Z) : Tested :=
  let '(inner, tick) := RateLimiter_new (clock_of 0) 0 max_qps in
  {| t_inner := inner; t_tick := tick; t_slept := 0 |}.

(** [assert!(limiter.check_rate_limit(addr) == expected)] *)
Definition check (addr : IpAddr) (expected : bool) (t : Tested) : outcome Tested :=
  let '(granted, inner, tick) := check_rate_limit (clock_of (t_slept t)) (t_tick t) (t_inner t) addr in
  assert_eq granted expected;;
  Ok {| t_inner := inner; t_tick := tick; t_slept := t_slept t |}.

(** [for ... { assert!(limiter.check_rate_limit(addr)) }] *)
Definition check_each (addrs : list IpAddr) (t : Tested) : outcome Tested :=
  for_each (fun t addr => check addr true t) addrs t.

(** [std::thread::sleep(Duration::from_millis(ms))] *)
Definition sleep (ms : Z) (t : Tested) : Tested :=
  {| t_inner := t_inner t; t_tick := t_tick t; t_slept := t_slept t + ms * 1000000 |}.

(** [Instant::now()] *)
Definition now_of (t : Tested) : Instant := clock_of (t_slept t) (t_tick t).

(** [inner.cleanup()] under the lock *)
Definition run_cleanup (t : Tested) : Tested :=
  {| t_inner := cleanup (now_of t) (t_inner t); t_tick := S (t_tick t); t_slept := t_slept t |}.

(** The end of a test. *)
Definition finished (m : outcome Tested) : outcome unit := m ≫= fun _ => Ok tt.

Definition test_rate_limiting : outcome unit :=
  let limiter := limiter_new 10 in
  let addr := ipv4 127 0 0 1 in
  limiter ← check_each (replicate 10 addr) limiter;
  finished (check addr false limiter).

Definition test_different_ips : outcome unit :=
  let limiter := limiter_new 5 in
  let addr1 := ipv4 127 0 0 1 in
  let addr2 := ipv4 127 0 0 2 in
  limiter ← check_each (concat (replicate 5 [addr1; addr2])) limiter;
  limiter ← check addr1 false limiter;
  finished (check addr2 false limiter).

Definition test_window_expiration : outcome unit :=
  let limiter := limiter_new 5 in
  let addr := ipv4 127 0 0 1 in
  limiter ← check_each (replicate 5 addr) limiter;
  limiter ← check addr false limiter;
  let limiter := sleep 1100 limiter in
  finished (check addr true limiter).

(** [inner.last_cleanup = at] *)
Definition set_last_cleanup (at_ : Instant) (t : Tested) : Tested :=
  let inner := t_inner t in
  {| t_inner := {| clients := clients inner; max_qps := max_qps inner; window := window inner;
                   last_cleanup := at_ |};
     t_tick := S (t_tick t); t_slept := t_slept t |}.

Definition test_cleanup_triggered : outcome unit :=
  let limiter := limiter_new 10 in
  limiter ← check_each (map (fun i => ipv4 127 0 0 (wrap 8 (Z.of_nat i))) (seq 1 20)) limiter;
  let limiter := set_last_cleanup (now_of limiter - from_secs 61) limiter in
  let addr := ipv4 127 0 0 100 in
  limiter ← check addr true limiter;
  let elapsed := duration_since (now_of limiter) (last_cleanup (t_inner limiter)) in
  assert (elapsed <? from_secs 5).

Definition test_cleanup_removes_old_clients : outcome unit :=
  let limiter := limiter_new 10 in
  limiter ← check_each (map (fun i => ipv4 192 168 0 (wrap 8 (Z.of_nat i))) (seq 1 10)) limiter;
  assert_eq (size (clients (t_inner limiter))) 10%nat;;
  let limiter := sleep 1100 limiter in
  let limiter := run_cleanup limiter in
  assert_eq (size (clients (t_inner limiter))) 0%nat.

Definition test_partial_cleanup : outcome unit :=
  let limiter := limiter_new 10 in
  let addr1 := ipv4 10 0 0 1 in
  limiter ← check addr1 true limiter;
  let limiter := sleep 600 limiter in
  let addr2 := ipv4 10 0 0 2 in
  limiter ← check addr2 true limiter;
  let limiter := sleep 600 limiter in
  let limiter := run_cleanup limiter in
  assert (bool_decide (is_Some (clients (t_inner limiter) !! addr2))).

Definition test_ipv6_addresses : outcome unit :=
  let limiter := limiter_new 3 in
  let addr := V6 (8193 * 2 ^ 112 + 3512 * 2 ^ 96 + 1) in
  limiter ← check_each (replicate 3 addr) limiter;
  finished (check addr false limiter).

Definition test_zero_rate_limit : outcome unit :=
  let limiter := limiter_new 0 in
  let addr := ipv4 127 0 0 1 in
  finished (check addr false limiter).

Definition test_high_rate_limit : outcome unit :=
  let limiter := limiter_new 1000 in
  let addr := ipv4 127 0 0 1 in
  limiter ← check_each (replicate 1000 addr) limiter;
  finished (check addr false limiter).

(** All of them, in the order of the file. *)
Definition limiter_unit_tests : list (outcome unit) :=
  [test_rate_limiting; test_different_ips; test_window_expiration; test_cleanup_triggered;
   test_cleanup_removes_old_clients; test_partial_cleanup; test_ipv6_addresses; test_zero_rate_limit;
   test_high_rate_limit].

Example limiter_unit_tests_pass : forallb is_ok limiter_unit_tests = true.
Proof. vm_compute. reflexivity. Qed.
