(* ===== verification/DnssecTests.v ===== *)
(** The unit tests of [src/src/dnssec.rs], lines 261-1105, as computations on the model; each is run on
    the concrete instance of the crates, whose hash functions stand for the real ones.  Requires
    [Dnssec] and [Testing]. *)
From S2P Require Import Prelude RustTime RustStr HashMap Crates CratesModel Zone Testing Dnssec.
Open Scope Z_scope.

Definition test_dnssec_config_default : outcome unit :=
  let config := DnssecConfig_default in
  assert (negb (validate_signatures config));;
  assert (negb (require_dnssec config));;
  assert (auto_include_dnssec config).

Definition test_dnssec_config_custom : outcome unit :=
  let config := {| validate_signatures := true; require_dnssec := true; auto_include_dnssec := false |} in
  assert (validate_signatures config);;
  assert (require_dnssec config);;
  assert (negb (auto_include_dnssec config)).

(** [result.is_err()] and [result.unwrap_err().to_string().contains(text)] *)
Definition err_contains {A} (text : string) (m : outcome A) : outcome unit :=
  match m with
  | Err (EMsg msg) | Err (EContext msg _ _) => assert (contains (lit text) (lit msg))
  | _ => Panic
  end.

Section dnssec_tests.
Context `{Hickory} `{!Codecs}.

(** [Algorithm::RSASHA256] and [Algorithm::ECDSAP256SHA256], by their numbers *)
Definition RSASHA256 : Algorithm := algorithm_from_u8 8.
Definition ECDSAP256SHA256 : Algorithm := algorithm_from_u8 13.

(** [DNSKEY::new(true, false, false, algorithm, public_key)] as record data *)
Definition zone_key (algorithm : Algorithm) (public_key : list Z) : RData.t :=
  RData.DNSSEC (DNSSECRData.DNSKEY true false false algorithm public_key).

Definition ds_data (key_tag : Z) (digest_type : DigestType.t) (digest : list Z) : RData.t :=
  RData.DNSSEC (DNSSECRData.DS key_tag RSASHA256 digest_type digest).

(** [SIG::new(type_covered, RSASHA256, 2, 300, expiration, inception, key_tag, signer, sig)] *)
Definition sig_data (type_covered : RecordType.t) (expiration inception key_tag : Z) (signer : Name)
    (sig : list Z) : RData.t :=
  RData.DNSSEC (DNSSECRData.SIG type_covered RSASHA256 2 300 expiration inception key_tag signer sig).

(** [Record::from_rdata(Name::from_utf8(name).unwrap(), 300, rdata)] *)
Definition record_at (name : string) (rdata : RData.t) : outcome DnsRecord :=
  name ← from_str (lit name);
  Ok (record_from_rdata name 300 rdata).

Definition test_key_tag_computation : outcome unit :=
  record ← record_at "example.com." (zone_key RSASHA256 [1; 2; 3; 4; 5]);
  let key_tag := compute_key_tag record in
  assert (is_ok key_tag);;
  key_tag ← unwrap_result key_tag;
  assert (0 <? key_tag).

Definition test_key_tag_with_different_keys : outcome unit :=
  let dnskey1 := zone_key RSASHA256 [1; 2; 3; 4; 5; 6; 7; 8; 9; 10; 11; 12; 13; 14; 15; 16] in
  let dnskey2 := zone_key RSASHA256 [16; 15; 14; 13; 12; 11; 10; 9; 8; 7; 6; 5; 4; 3; 2; 1] in
  record1 ← record_at "example.com." dnskey1;
  record2 ← record_at "example.com." dnskey2;
  tag1 ← unwrap_result (compute_key_tag record1);
  tag2 ← unwrap_result (compute_key_tag record2);
  assert (negb (bool_decide (tag1 = tag2))).

Definition test_find_related_dnssec_records : outcome unit :=
  name ← from_str (lit "example.com.");
  let result := find_related_dnssec_records [] name RecordType.A in
  assert_eq (length result) 0%nat.

Definition test_find_related_dnssec_with_dnskey : outcome unit :=
  name ← from_str (lit "example.com.");
  let record := record_from_rdata name 300 (zone_key RSASHA256 [1; 2; 3; 4; 5]) in
  let result := find_related_dnssec_records [record] name RecordType.A in
  assert_eq (length result) 1%nat.

(** [a + b] on [u32] ([a - n] is [a + -n]), whose overflow panics. *)
Definition add_u32 (a b : Z) : outcome Z := if bool_decide (in_u 32 (a + b)) then Ok (a + b) else Panic.

(** The time of a test, in seconds from the Unix epoch. *)
Definition check_sig (system_secs expiration inception : Z) (sig : list Z) : outcome (outcome unit) :=
  signer ← from_str (lit "example.com.");
  record ← record_at "www.example.com." (sig_data RecordType.A expiration inception 12345 signer sig);
  Ok (check_signature_validity (from_secs system_secs) record).

Definition test_check_signature_validity_future (system_secs : Z) : outcome unit :=
  let future_time := wrap 32 (system_secs + 86400) in
  expiration ← add_u32 future_time 3600;
  result ← check_sig system_secs expiration future_time [1; 2; 3; 4; 5];
  assert (is_err result);;
  err_contains "not yet valid" result.

Definition test_check_signature_validity_expired (system_secs : Z) : outcome unit :=
  let past_time := wrap 32 (system_secs - 86400) in
  expiration ← add_u32 past_time 3600;
  result ← check_sig system_secs expiration past_time [1; 2; 3; 4; 5];
  assert (is_err result);;
  err_contains "expired" result.

Definition test_check_signature_validity_valid (system_secs : Z) : outcome unit :=
  let now := wrap 32 system_secs in
  expiration ← add_u32 now 3600;
  inception ← add_u32 now (-3600);
  result ← check_sig system_secs expiration inception [1; 2; 3; 4; 5];
  assert (is_ok result).

Definition test_check_signature_validity_at_boundary (system_secs : Z) : outcome unit :=
  let now := wrap 32 system_secs in
  expiration ← add_u32 now 3600;
  result ← check_sig system_secs expiration now [1; 2; 3];
  assert (is_ok result).

Definition test_validate_nsec_denial_empty : outcome unit :=
  query_name ← from_str (lit "www.example.com.");
  let result := validate_nsec_denial query_name RecordType.A [] in
  assert (is_err result).

Definition test_verify_ds_algorithm_mismatch : outcome unit :=
  ds_record ← record_at "example.com." (ds_data 12345 DigestType.SHA256 [1; 2; 3; 4; 5]);
  dnskey_record ← record_at "example.com." (zone_key ECDSAP256SHA256 [1; 2; 3; 4; 5]);
  let result := verify_ds ds_record dnskey_record in
  assert (is_err result);;
  err_contains "Algorithm mismatch" result.

(** The input of the digest, written out as the tests do: the labels of the owner with their lengths,
    then flags, protocol, algorithm and key. *)
Definition digest_input (labels : list string) (public_key : list Z) : list Z :=
  flat_map (fun l => Z.of_nat (length (lit l)) :: lit l) labels ++ [0] ++ u16_to_be_bytes 256 ++ [3; 8] ++ public_key.

(** A DS record for the key of a name, with the key's own tag unless another is given. *)
Definition ds_for_key (name : string) (public_key : list Z) (key_tag : option Z)
    (digest_type : DigestType.t) (digest : list Z) : outcome (outcome unit) :=
  let dnskey := zone_key RSASHA256 public_key in
  key_record ← record_at name dnskey;
  key_tag ← match key_tag with Some tag => Ok tag | None => unwrap_result (compute_key_tag key_record) end;
  ds_record ← record_at name (ds_data key_tag digest_type digest);
  dnskey_record ← record_at name dnskey;
  Ok (verify_ds ds_record dnskey_record).

Definition test_ds_verification_with_correct_wire_format : outcome unit :=
  let public_key := [1; 2; 3; 4] in
  let correct_digest := sha256 (digest_input ["example"; "com"]%string public_key) in
  result ← ds_for_key "example.com." public_key None DigestType.SHA256 correct_digest;
  assert (is_ok result).

Definition test_verify_ds_with_sha384_digest : outcome unit :=
  let public_key := [1; 2; 3; 4; 5; 6] in
  let correct_digest := sha384 (digest_input ["example"; "com"]%string public_key) in
  result ← ds_for_key "example.com." public_key None DigestType.SHA384 correct_digest;
  assert (is_ok result).

Definition test_verify_ds_with_sha512_digest : outcome unit :=
  let public_key := [10; 11; 12; 13; 14; 15] in
  let correct_digest := sha512 (digest_input ["test"; "example"]%string public_key) in
  result ← ds_for_key "test.example." public_key None DigestType.SHA512 correct_digest;
  assert (is_ok result).

Definition test_verify_ds_with_wrong_digest : outcome unit :=
  let public_key := [1; 2; 3; 4] in
  let wrong_digest := replicate 32 255 in
  result ← ds_for_key "example.com." public_key None DigestType.SHA256 wrong_digest;
  assert (is_err result);;
  err_contains "digest mismatch" result.

Definition test_verify_ds_with_wrong_key_tag : outcome unit :=
  let public_key := [1; 2; 3; 4] in
  let correct_digest := sha256 (digest_input ["example"; "com"]%string public_key) in
  result ← ds_for_key "example.com." public_key (Some 65000) DigestType.SHA256 correct_digest;
  assert (is_err result);;
  err_contains "Key tag mismatch" result.

(** [NSEC::new(next, types)] in a record of an owner *)
Definition nsec_record (owner next : string) (types : list RecordType.t) : outcome DnsRecord :=
  next ← from_str (lit next);
  record_at owner (RData.DNSSEC (DNSSECRData.NSEC next types)).

Definition test_validate_nsec_normal_case : outcome unit :=
  nsec_record ← nsec_record "a.example.com." "z.example.com." [RecordType.NS; RecordType.SOA];
  query ← from_str (lit "m.example.com.");
  let result := validate_nsec_denial query RecordType.A [nsec_record] in
  assert (is_ok result).

Definition test_validate_nsec_wraparound_case : outcome unit :=
  nsec_record ← nsec_record "z.example.com." "a.example.com." [RecordType.NS];
  query ← from_str (lit "zz.example.com.");
  let result := validate_nsec_denial query RecordType.A [nsec_record] in
  assert (is_ok result).

Definition test_validate_nsec_type_bitmap : outcome unit :=
  owner ← from_str (lit "www.example.com.");
  nsec_record ← nsec_record "www.example.com." "z.example.com." [RecordType.NS; RecordType.SOA];
  let result := validate_nsec_denial owner RecordType.A [nsec_record] in
  assert (is_ok result).

Definition test_validate_nsec_type_exists : outcome unit :=
  owner ← from_str (lit "www.example.com.");
  nsec_record ← nsec_record "www.example.com." "z.example.com." [RecordType.A; RecordType.NS];
  let result := validate_nsec_denial owner RecordType.A [nsec_record] in
  assert (is_err result).

Definition test_validate_nsec_multiple_records : outcome unit :=
  query ← from_str (lit "p.example.com.");
  nsec_record1 ← nsec_record "a.example.com." "m.example.com." [RecordType.A];
  nsec_record2 ← nsec_record "m.example.com." "z.example.com." [RecordType.A];
  let result := validate_nsec_denial query RecordType.A [nsec_record1; nsec_record2] in
  assert (is_ok result).

Definition test_compute_key_tag_odd_length_key : outcome unit :=
  record ← record_at "example.com." (zone_key RSASHA256 [1; 2; 3; 4; 5]);
  assert (is_ok (compute_key_tag record)).

Definition test_compute_key_tag_very_short_key : outcome unit :=
  record ← record_at "example.com." (zone_key RSASHA256 [1]);
  assert (is_ok (compute_key_tag record)).

Definition test_compute_key_tag_very_long_key : outcome unit :=
  record ← record_at "example.com." (zone_key RSASHA256 (replicate 512 66));
  assert (is_ok (compute_key_tag record)).

Definition test_find_related_dnssec_with_multiple_rrsigs : outcome unit :=
  name ← from_str (lit "example.com.");
  let rrsig_a := record_from_rdata name 300 (sig_data RecordType.A 12345 12340 54321 name [1; 2; 3]) in
  let rrsig_aaaa := record_from_rdata name 300 (sig_data RecordType.AAAA 12345 12340 54321 name [4; 5; 6]) in
  let result := find_related_dnssec_records [rrsig_a; rrsig_aaaa] name RecordType.A in
  assert_eq (length result) 1%nat.

Definition test_find_related_dnssec_with_wrong_name : outcome unit :=
  name ← from_str (lit "example.com.");
  other_name ← from_str (lit "other.com.");
  let rrsig := record_from_rdata other_name 300 (sig_data RecordType.A 12345 12340 54321 other_name [1; 2; 3]) in
  let result := find_related_dnssec_records [rrsig] name RecordType.A in
  assert_eq (length result) 0%nat.

(** Those that do not look at the time of day, in the order of the file. *)
Definition dnssec_unit_tests : list (outcome unit) :=
  [test_dnssec_config_default; test_dnssec_config_custom; test_key_tag_computation;
   test_key_tag_with_different_keys; test_find_related_dnssec_records;
   test_find_related_dnssec_with_dnskey; test_validate_nsec_denial_empty;
   test_verify_ds_algorithm_mismatch; test_ds_verification_with_correct_wire_format;
   test_verify_ds_with_sha384_digest; test_verify_ds_with_sha512_digest; test_verify_ds_with_wrong_digest;
   test_verify_ds_with_wrong_key_tag; test_validate_nsec_normal_case; test_validate_nsec_wraparound_case;
   test_validate_nsec_type_bitmap; test_validate_nsec_type_exists; test_validate_nsec_multiple_records;
   test_compute_key_tag_odd_length_key; test_compute_key_tag_very_short_key;
   test_compute_key_tag_very_long_key; test_find_related_dnssec_with_multiple_rrsigs;
   test_find_related_dnssec_with_wrong_name].

(** Those that do, at a time of day. *)
Definition signature_unit_tests (system_secs : Z) : list (outcome unit) :=
  [test_check_signature_validity_future system_secs; test_check_signature_validity_expired system_secs;
   test_check_signature_validity_valid system_secs; test_check_signature_validity_at_boundary system_secs].
End dnssec_tests.

Import Concrete.

Example dnssec_unit_tests_pass : forallb is_ok dnssec_unit_tests = true.
Proof. vm_compute. reflexivity. Qed.

(** At a time in 2025. *)
Example signature_unit_tests_pass : forallb is_ok (signature_unit_tests 1765000000) = true.
Proof. vm_compute. reflexivity. Qed.

(** Less than a day before the 32 bits of a time run out, the test of a signature from tomorrow fails:
    its inception has wrapped around, and the signature counts as expired, not as one to come. *)
Example future_signature_wraps : is_ok (test_check_signature_validity_future 4294960000) = false.
Proof. vm_compute. reflexivity. Qed.
