(* ===== verification/ServerTests.v ===== *)
(** The unit tests of [src/src/server.rs], lines 591-1192, as computations on the model; each is run on
    the concrete instance of the crates.  Requires [Server], [ServerIO], [Testing] and [ProtocolTests]. *)
From S2P Require Import Prelude RustTime RustStr HashMap Crates CratesModel Zone ZonePrint Testing.
From S2P Require Import Protocol Proptests ProtocolTests RateLimit Metrics Config Effects ServerIO Server.
Open Scope Z_scope.

Section server_tests.
Context `{Hickory}.

Definition create_test_processor : outcome ZoneStore :=
  origin ← from_str (lit "test.local.");
  soa ← test_soa (lit "ns1.test.local.") (lit "admin.test.local.") 1;
  let zone := Zone_new origin soa in
  www ← from_str (lit "www.test.local.");
  let zone := add_record zone (record_from_rdata www 3600 (RData.A (127, 0, 0, 1))) in
  Ok (add_zone ZoneStore_new zone).

Definition test_query_processing : outcome unit :=
  processor ← create_test_processor;
  q ← question "www.test.local." RecordType.A;
  let query := add_query q (query_with 1234 OpCode.Query) in
  response ← unwrap_result (process_query processor query);
  assert_eq (message_id response) 1234;;
  assert (message_authoritative response);;
  assert_eq (answers_len response) 1%nat.

(** A response with an identifier, as the tests begin. *)
Definition response_with (id : Z) : Message :=
  let response := message_new in
  let response := set_id id response in
  let response := set_message_type MessageType.Response response in
  set_authoritative true response.

(** [Record::from_rdata(Name::from_utf8(name).unwrap(), 300, rdata)] *)
Definition record_300 (name : str) (rdata : RData.t) : outcome DnsRecord :=
  name ← from_str name;
  Ok (record_from_rdata name 300 rdata).

(** [response.to_bytes().unwrap()] *)
Definition bytes_of (m : Message) : outcome (list Z) := unwrap (message_to_bytes m).

(** [format!("host{}.example.com.", i)] *)
Definition host_name (prefix : string) (i : nat) : str :=
  lit prefix ++ show_num (Z.of_nat i) ++ lit ".example.com.".

(** [for i in 0..n { response.add(host{i} A 192.0.2.i) }] *)
Definition add_hosts (add : DnsRecord -> Message -> Message) (n : nat) (response : Message) : outcome Message :=
  for_each
    (fun response i =>
       record ← record_300 (host_name "host" i) (RData.A (192, 0, 2, wrap 8 (Z.of_nat i mod 255)));
       Ok (add record response))
    (seq 0 n) response.

(** The test's own loop over a section: it has one round, after which the section is empty; [inr] is
    the test's [return]. *)
Definition try_section (section : Message -> list DnsRecord) (take : Message -> Message) (max_udp_size : Z)
    (truncated : Message) (asserts : Message -> outcome unit) : outcome (Message + unit) :=
  if bool_decide (section truncated = []) then Ok (inl truncated)
  else
    let truncated := take truncated in
    buf ← bytes_of truncated;
    if len buf <=? max_udp_size then
      assert (len buf <=? max_udp_size);;
      assert (message_truncated truncated);;
      asserts truncated;;
      Ok (inr tt)
    else Ok (inl truncated).

Definition test_udp_truncation_with_large_authority_section : outcome unit :=
  let response := response_with 1234 in
  answer ← record_300 (lit "example.com.") (RData.A (192, 0, 2, 1));
  let response := add_answer answer response in
  response ← for_each
    (fun response i =>
       target ← from_str (host_name "ns" i);
       ns_record ← record_300 (lit "example.com.") (RData.NS target);
       Ok (add_name_server ns_record response))
    (seq 0 50) response;
  response_buf ← bytes_of response;
  assert (MAX_DNS_PACKET_SIZE <? len response_buf);;
  let max_udp_size := MAX_DNS_PACKET_SIZE in
  let truncated := set_truncated true response in
  r ← try_section message_answers take_answers max_udp_size truncated (fun _ => Ok tt);
  match r with
  | inr _ => Ok tt
  | inl truncated =>
      r ← try_section message_name_servers take_name_servers max_udp_size truncated
            (fun truncated => assert (bool_decide (message_answers truncated = []));;
                              assert (bool_decide (message_name_servers truncated = [])));
      match r with
      | inr _ => Ok tt
      | inl truncated =>
          r ← try_section message_additionals take_additionals max_udp_size truncated (fun _ => Ok tt);
          match r with
          | inr _ => Ok tt
          | inl truncated =>
              final_buf ← bytes_of truncated;
              assert (len final_buf <=? max_udp_size)
          end
      end
  end.

Definition test_udp_buffer_size_handles_large_edns_queries : outcome unit :=
  let query := set_id 48879 message_new in
  let query := set_edns (edns_set_max_payload 4096 edns_new) query in
  query ← for_each
    (fun query i =>
       name ← from_str (host_name "very-long-label-" i);
       Ok (add_query (query_query name RecordType.TXT) query))
    (seq 0 40) query;
  full ← bytes_of query;
  assert (MAX_DNS_PACKET_SIZE <? len full);;
  assert (len full <? MAX_UDP_RECV_SIZE);;
  assert (bool_decide (is_Some (message_from_bytes full)));;
  let received := take (Z.to_nat (Z.min (len full) MAX_UDP_RECV_SIZE)) full in
  assert (bool_decide (is_Some (message_from_bytes received))).

(** A query with an EDNS option of some payload size, and what its option says. *)
Definition check_payload (id payload : Z) : outcome unit :=
  let query := set_edns (edns_set_max_payload payload edns_new) (set_id id message_new) in
  edns ← unwrap (message_extensions query);
  assert_eq (edns_max_payload edns) payload.

Definition test_edns0_max_udp_size_with_various_payloads : outcome unit :=
  let query_no_edns := set_id 100 message_new in
  assert (match message_extensions query_no_edns with None => true | Some _ => false end);;
  check_payload 101 1024;;
  check_payload 102 4096;;
  check_payload 103 512;;
  check_payload 104 65535.

Definition test_udp_truncation_removes_additional_records : outcome unit :=
  let response := response_with 5000 in
  answer ← record_300 (lit "example.com.") (RData.A (192, 0, 2, 1));
  let response := add_answer answer response in
  response ← add_hosts add_additional 60 response;
  response_buf ← bytes_of response;
  assert (MAX_DNS_PACKET_SIZE <? len response_buf);;
  let max_udp_size := MAX_DNS_PACKET_SIZE in
  let truncated := set_truncated true response in
  let truncated := take_additionals truncated in
  final_buf ← bytes_of truncated;
  assert (len final_buf <=? max_udp_size);;
  assert (message_truncated truncated);;
  assert (negb (bool_decide (message_answers truncated = [])));;
  assert (bool_decide (message_additionals truncated = [])).

Definition test_udp_truncation_minimal_response : outcome unit :=
  let response := set_truncated true (response_with 6000) in
  q ← question "example.com." RecordType.A;
  let response := add_query q response in
  minimal_buf ← bytes_of response;
  assert (len minimal_buf <=? MAX_DNS_PACKET_SIZE);;
  assert (message_truncated response);;
  assert (bool_decide (message_answers response = []));;
  assert (bool_decide (message_name_servers response = []));;
  assert (bool_decide (message_additionals response = [])).

Definition test_message_id_extraction_from_short_packet : outcome unit :=
  let fails bytes := match message_from_bytes bytes with None => true | Some _ => false end in
  assert (fails []);;
  assert (fails [18]);;
  assert (fails [18; 52]).

Definition test_udp_edns0_payload_affects_truncation_threshold : outcome unit :=
  let response := response_with 7000 in
  response ← add_hosts add_answer 25 response;
  response_buf ← bytes_of response;
  let response_size := len response_buf in
  assert ((MAX_DNS_PACKET_SIZE <? response_size) && (response_size <? 1024));;
  assert (MAX_DNS_PACKET_SIZE <? response_size);;
  let response_with_edns := set_edns (edns_set_max_payload 1024 edns_new) response in
  edns ← unwrap (message_extensions response_with_edns);
  let max_with_edns := edns_max_payload edns in
  assert_eq max_with_edns 1024;;
  assert (response_size <=? max_with_edns).

Definition test_truncation_preserves_question_section : outcome unit :=
  let response := response_with 8000 in
  q ← question "example.com." RecordType.A;
  let response := add_query q response in
  response ← add_hosts add_answer 100 response;
  let truncated := set_truncated true response in
  let truncated := take_answers truncated in
  let truncated := take_name_servers truncated in
  let truncated := take_additionals truncated in
  assert_eq (length (message_queries truncated)) 1%nat;;
  q ← index (message_queries truncated) 0;
  name ← from_str (lit "example.com.");
  assert (key_eqb (query_name q) name);;
  assert_eq (query_query_type q) RecordType.A;;
  assert (message_truncated truncated).

(** The zone with [www.example.com] of the test below. *)
Definition tcp_test_store : outcome ZoneStore :=
  origin ← from_str (lit "example.com.");
  soa ← test_soa (lit "ns1.example.com.") (lit "admin.example.com.") 1;
  let zone := Zone_new origin soa in
  www ← from_str (lit "www.example.com.");
  let zone := add_record zone (record_from_rdata www 3600 (RData.A (192, 0, 2, 1))) in
  Ok (add_zone ZoneStore_new zone).

(** The server's side of the test: a clock that advances by a microsecond at each reading. *)
Definition tcp_test_env (store : ZoneStore) : Env :=
  {| env_clock := fun n => 1000000000 + 1000 * Z.of_nat n; env_store := fun _ => store;
     env_others := fun _ inner => inner; env_send_ok := fun _ => true; env_write := fun _ => Goes |}.

(** [client.write_all(&len)] and [client.write_all(&buf)], as the server receives them *)
Definition client_sends (buf : list Z) : list Event :=
  map Byte (u16_to_be_bytes (wrap 16 (len buf)) ++ buf).

(** The two [client.read_exact] that read a response: it and the rest of the stream *)
Definition client_reads (stream : list Z) : outcome (list Z * list Z) :=
  b0 ← index stream 0;
  b1 ← index stream 1;
  let response_len := Z.to_nat (u16_from_be_bytes b0 b1) in
  let stream := drop 2 stream in
  assert (bool_decide (response_len <= length stream)%nat);;
  Ok (take response_len stream, drop response_len stream).

Definition test_tcp_rate_limit_response_echoes_query_id : outcome unit :=
  store ← tcp_test_store;
  let env := tcp_test_env store in
  let '(rate_limiter, _) := RateLimiter_new (env_clock env) 0 1 in
  q1 ← question "www.example.com." RecordType.A;
  let query1 := add_query q1 (set_id 1000 message_new) in
  query1_buf ← bytes_of query1;
  q2 ← question "mail.example.com." RecordType.A;
  let query2 := add_query q2 (set_id 2000 message_new) in
  query2_buf ← bytes_of query2;
  let client := client_sends query1_buf ++ client_sends query2_buf in
  let world := {| w_tick := 0; w_limiter := Some rate_limiter; w_calls := []; w_sends := 0; w_out := [];
                  w_input := client |} in
  let '(_, world) := handle_tcp_connection env 101 (V4 (127 * 2 ^ 24 + 1)) None world in
  r1 ← client_reads (concat (w_out world));
  r2 ← client_reads r1.2;
  response ← unwrap (message_from_bytes r2.1);
  assert_eq (message_response_code response) ResponseCode.Refused;;
  assert_eq (message_id response) 2000.

(** These, in the order of the file. *)
Definition server_unit_tests : list (outcome unit) :=
  [test_query_processing; test_udp_truncation_with_large_authority_section;
   test_udp_buffer_size_handles_large_edns_queries; test_tcp_rate_limit_response_echoes_query_id;
   test_edns0_max_udp_size_with_various_payloads;
   test_udp_truncation_removes_additional_records; test_udp_truncation_minimal_response;
   test_message_id_extraction_from_short_packet; test_udp_edns0_payload_affects_truncation_threshold;
   test_truncation_preserves_question_section].
End server_tests.

Import Concrete.

(** Every test passes. *)
Example server_unit_tests_pass : forallb is_ok server_unit_tests = true.
Proof. vm_compute. reflexivity. Qed.
