(* ===== verification/ConfigTests.v ===== *)
(** The unit tests of [src/src/config.rs], lines 118-594, on the model: the derived deserialization of
    [ConfigSerde] over the reader of [YamlModel].  A temporary file is a path that exists.  Requires
    [Config], [ConfigSerde], [YamlModel] and [Testing]. *)
From S2P Require Import Prelude RustStr Config ConfigSerde YamlModel Testing.
Open Scope Z_scope.

(** The text between [r#] and [#]: an empty line, then the lines. *)
Definition raw (ls : list str) : str := flat_map (fun l => l ++ [c_newline]) ([] :: ls).

(** [NamedTempFile::new()]: the paths of the temporary files of a test. *)
Definition temp_file1 : str := lit "/tmp/.tmpKx1".
Definition temp_file2 : str := lit "/tmp/.tmpQz2".
Definition temp_exists (path : str) : bool := bool_decide (path ∈ [temp_file1; temp_file2]).

(** [serde_yaml::from_str(yaml).unwrap()] *)
Definition parsed (yaml : str) : outcome Config := unwrap (config_from_str yaml).

(** [assert!(result.unwrap_err().to_string().contains(text))]: the text of the last context *)
Definition err_contains {A} (text : string) (result : outcome A) : outcome unit :=
  match result with
  | Err (EMsg m) | Err (EContext m _ _) => assert (contains (lit text) (lit m))
  | _ => Panic
  end.

(** The lines that most of the tests share. *)
Definition listen_line : str := quoted "  listen: '127.0.0.1:5353'".
Definition zone_lines (name : string) (path : str) : list str :=
  [lit "  - name: " ++ quoted name; lit "    file: " ++ path].

Definition test_default_values : outcome unit :=
  let yaml := raw ([lit "server:"; listen_line; lit "zones:"]
                   ++ zone_lines "example.com" (lit "/tmp/example.com.zone")) in
  config ← parsed yaml;
  assert_eq (listen (server config)) (lit "127.0.0.1:5353");;
  assert_eq (workers (server config)) 4;;
  assert_eq (log_level (server config)) (lit "info").

Definition test_invalid_yaml : outcome unit :=
  let yaml := raw [lit "server:"; listen_line; lit "  invalid_key: {{{"] in
  assert (negb (bool_decide (is_Some (config_from_str yaml)))).

Definition test_missing_required_fields : outcome unit :=
  let yaml := raw [lit "server:"; listen_line] in
  assert (negb (bool_decide (is_Some (config_from_str yaml))));;
  let yaml := raw (lit "zones:" :: zone_lines "example.com" (lit "/tmp/example.com.zone")) in
  assert (negb (bool_decide (is_Some (config_from_str yaml)))).

Definition test_empty_zone_name : outcome unit :=
  let yaml := raw ([lit "server:"; listen_line; lit "zones:"] ++ zone_lines "''" temp_file1) in
  config ← parsed yaml;
  let result := validate temp_exists config in
  assert (is_err result);;
  err_contains "cannot be empty" result.

Definition test_nonexistent_zone_file : outcome unit :=
  let yaml := raw ([lit "server:"; listen_line; lit "zones:"]
                   ++ zone_lines "example.com" (lit "/nonexistent/path/to/zone.file")) in
  config ← parsed yaml;
  let result := validate temp_exists config in
  assert (is_err result);;
  err_contains "does not exist" result.

Definition test_zero_zones : outcome unit :=
  let yaml := raw [lit "server:"; listen_line; lit "zones: []"] in
  config ← parsed yaml;
  let result := validate temp_exists config in
  assert (is_err result);;
  err_contains "At least one zone" result.

Definition test_all_optional_fields : outcome unit :=
  let yaml := raw ([lit "server:"; listen_line; lit "  workers: 8"; lit "  log_level: debug";
                    lit "  rate_limit: 500"; quoted "  api_listen: '127.0.0.1:8080'"; lit "zones:"]
                   ++ zone_lines "example.com" temp_file1) in
  config ← parsed yaml;
  assert_eq (workers (server config)) 8;;
  assert_eq (log_level (server config)) (lit "debug");;
  assert_eq (rate_limit (server config)) (Some 500);;
  assert_eq (api_listen (server config)) (Some (lit "127.0.0.1:8080"));;
  assert (is_ok (validate temp_exists config)).

Definition test_invalid_port_number : outcome unit :=
  let yaml := raw ([lit "server:"; quoted "  listen: '127.0.0.1:99999'"; lit "zones:"]
                   ++ zone_lines "example.com" (lit "/tmp/example.com.zone")) in
  config ← parsed yaml;
  assert_eq (listen (server config)) (lit "127.0.0.1:99999").

Definition test_multiple_zones : outcome unit :=
  let yaml := raw ([lit "server:"; listen_line; lit "zones:"] ++ zone_lines "example.com" temp_file1
                   ++ zone_lines "example.org" temp_file2 ++ zone_lines "example.net" temp_file1) in
  config ← parsed yaml;
  assert_eq (length (zone_configs config)) 3%nat;;
  assert (is_ok (validate temp_exists config)).

Definition test_extreme_worker_count : outcome unit :=
  let yaml := raw ([lit "server:"; listen_line; lit "  workers: 0"; lit "zones:"]
                   ++ zone_lines "example.com" temp_file1) in
  config ← parsed yaml;
  assert_eq (workers (server config)) 0;;
  let yaml := raw ([lit "server:"; listen_line; lit "  workers: 1000"; lit "zones:"]
                   ++ zone_lines "example.com" temp_file1) in
  config ← parsed yaml;
  assert_eq (workers (server config)) 1000.

Definition test_default_listen_address : outcome unit :=
  let yaml := raw ([lit "server:"; lit "  workers: 4"; lit "zones:"]
                   ++ zone_lines "example.com" temp_file1) in
  config ← parsed yaml;
  assert_eq (listen (server config)) (lit "0.0.0.0:53").

(** [writeln!] puts the same lines into the file, without the empty one. *)
Definition test_from_file_success : outcome unit :=
  let content := written ([lit "server:"; listen_line; lit "zones:"]
                          ++ zone_lines "example.com" temp_file1) in
  config ← unwrap_result (from_file content config_from_str);
  assert_eq (listen (server config)) (lit "127.0.0.1:5353");;
  assert_eq (length (zone_configs config)) 1%nat;;
  zone ← index (zone_configs config) 0;
  assert_eq (name zone) (lit "example.com").

Definition test_from_file_not_found : outcome unit :=
  let result := from_file None config_from_str in
  assert (is_err result);;
  err_contains "Failed to read configuration file" result.

Definition test_from_file_invalid_yaml : outcome unit :=
  let result := from_file (written [lit "invalid: yaml: {{"]) config_from_str in
  assert (is_err result);;
  err_contains "Failed to parse YAML configuration" result.

Definition test_all_defaults : outcome unit :=
  let yaml := raw ([lit "server: {}"; lit "zones:"] ++ zone_lines "example.com" temp_file1) in
  config ← parsed yaml;
  assert_eq (listen (server config)) (lit "0.0.0.0:53");;
  assert_eq (workers (server config)) 4;;
  assert_eq (log_level (server config)) (lit "info");;
  assert_eq (rate_limit (server config)) None;;
  assert_eq (api_listen (server config)) None.

Definition test_validate_success : outcome unit :=
  let yaml := raw ([lit "server:"; listen_line; lit "zones:"] ++ zone_lines "example.com" temp_file1) in
  config ← parsed yaml;
  assert (is_ok (validate temp_exists config)).

Definition test_partial_zone_name : outcome unit :=
  let yaml := raw ([lit "server:"; listen_line; lit "zones:"] ++ zone_lines "'.'" temp_file1) in
  config ← parsed yaml;
  zone ← index (zone_configs config) 0;
  assert_eq (name zone) (lit ".");;
  assert (is_ok (validate temp_exists config)).

#[export] Instance TcpConfig_eq_dec : EqDecision TcpConfig.
Proof. solve_decision. Defined.

Definition test_tcp_config_defaults : outcome unit :=
  let yaml := raw ([lit "server:"; listen_line; lit "zones:"] ++ zone_lines "example.com" temp_file1) in
  config ← parsed yaml;
  assert_eq (tcp (server config)) None.

Definition test_tcp_config_custom_values : outcome unit :=
  let yaml := raw ([lit "server:"; listen_line; lit "  tcp:"; lit "    idle_timeout: 60";
                    lit "    max_queries_per_connection: 200"; lit "zones:"]
                   ++ zone_lines "example.com" temp_file1) in
  config ← parsed yaml;
  assert (bool_decide (is_Some (tcp (server config))));;
  tcp_config ← unwrap (tcp (server config));
  assert_eq (idle_timeout tcp_config) 60;;
  assert_eq (max_queries_per_connection tcp_config) 200.

Definition test_tcp_config_partial_values : outcome unit :=
  let yaml := raw ([lit "server:"; listen_line; lit "  tcp:"; lit "    idle_timeout: 45"; lit "zones:"]
                   ++ zone_lines "example.com" temp_file1) in
  config ← parsed yaml;
  assert (bool_decide (is_Some (tcp (server config))));;
  tcp_config ← unwrap (tcp (server config));
  assert_eq (idle_timeout tcp_config) 45;;
  assert_eq (max_queries_per_connection tcp_config) 100.

Definition config_unit_tests : list (outcome unit) :=
  [test_default_values; test_invalid_yaml; test_missing_required_fields; test_empty_zone_name;
   test_nonexistent_zone_file; test_zero_zones; test_all_optional_fields; test_invalid_port_number;
   test_multiple_zones; test_extreme_worker_count; test_default_listen_address;
   test_from_file_success; test_from_file_not_found; test_from_file_invalid_yaml; test_all_defaults;
   test_validate_success; test_partial_zone_name; test_tcp_config_defaults;
   test_tcp_config_custom_values; test_tcp_config_partial_values].

Example config_unit_tests_pass : forallb is_ok config_unit_tests = true.
Proof. vm_compute. reflexivity. Qed.
